(* ===== verification/_CoqProject ===== *)
-Q . S2P
Prelude.v
GoStrings.v
GoNet.v
GoHostPort.v
GoIO.v
Externals.v
RingBuffer.v
Config.v
NetworkAddr.v
AwlDns.v
ConfigDefaults.v
ConfigFile.v
Events.v
Embeds.v
Protocol.v
Packet.v
Device.v
Interface.v
Tunnel.v
TunnelPeers.v
EndToEnd.v
Node.v
AuthStatus.v
Socks5.v
ProxyConns.v
ExitNode.v
P2p.v
Bootstrap.v
ApiDebug.v
Logging.v
Api.v
Daemon.v
Friends.v
DebugInfo.v
Release.v
ApiServer.v
Update.v
Cli.v
ApiClient.v
ClientLog.v
Commands.v
Desktop.v
RootEnv.v
Application.v
Metrics.v
Programs.v
Tray.v
