(* ===== verification/Prelude.v ===== *)
(** * A verification library for the Anywherelan (awl) peer-to-peer VPN daemon

    Anywherelan connects the devices of a few friends into a virtual network: every
    node runs the daemon, which reads IP packets from a TUN interface, sends them over
    libp2p streams to the node that has the destination address, and writes what it
    receives to its own interface. The daemon also keeps the list of known peers and
    the protocol by which two nodes become friends, a DNS resolver for the names of the
    peers, a SOCKS5 proxy through a friend, an HTTP interface with a command line, a tray
    program and a library for phones around it, and the updates of the program. This
    library models the Go code of these parts, from the files under src/, and proves what
    makes them correct.

    ** Parts and files

    The shared store is the configuration. The friend protocol and the HTTP handlers
    change it; every change of the known peers is announced by an event, on which the
    tunnel refreshes its routes and the DNS service its names. The packets travel
    TUN device, tunnel, stream, tunnel, TUN device.

    - [Prelude]: outcomes of Go code (result, error, panic) as a monad, slices, machine
      integers with their wrap-around, byte order, iteration over maps, runs of machines
      whose steps can be disabled, the hint database [awl]. [GoStrings], [GoNet], [GoHostPort], [GoIO]: what the code uses of
      packages strings, unicode, strconv, net, net/netip and io, defined, not assumed.
      [Externals]: third-party libraries as classes of functions, with their documented
      laws as separate classes.
    - [RingBuffer] (src/ringbuffer): the log buffer.
    - [Config], [NetworkAddr], [ConfigDefaults] (src/config): the configuration, its
      updates with what they save and announce, aliases, addresses, loading. [ConfigFile]:
      saving, exporting and loading it back. [Events]
      (src/awlevent, src/config/config.go): how a change reaches a subscriber, as steps of
      the two sides.
    - [AwlDns] (src/awldns): the resolver.
    - [Protocol] (src/protocol): messages and frames.
    - [Packet], [Device] (src/vpn/packet.go, vpn.go): packets as objects of a heap whose
      slices are views of a buffer, the packet pool, the TUN device. [Interface]
      (src/vpn/iface_*.go): the creation of the interface on every system.
    - [Tunnel], [TunnelPeers], [EndToEnd], [Node] (src/service/tunnel.go): routes, the
      handlers for the interface and for streams; the goroutines of a peer; two nodes
      together; one node under every interleaving of the steps of its goroutines.
    - [AuthStatus] (src/service/auth_status.go): friend requests and status exchange.
      [Friends]: two nodes of this protocol together, with the messages of one handled by
      the other and any part of an exchange lost.
    - [Socks5] (src/service/socks5.go, src/socks5): who may use whom as an exit node and
      the bytes of the dialogue. [ProxyConns] (src/socks5/client.go): the connections of the
      local proxy from the listener to their end. [ExitNode] (src/socks5/server.go): the
      streams of peers that use this node, under the rule on destinations.
    - [P2p] (src/p2p): relays, dialling, background connections, reports. [Bootstrap]
      (src/p2p/p2p.go): joining the network, as steps of its goroutines, and streams with a
      connection of their own.
    - [Api], [ApiDebug] (src/api, src/entity): the HTTP handlers. [ApiServer]
      (src/api/api.go, const.go): the two web servers, their routes and middlewares, as
      functions from requests to responses over a class for the web framework.
      [DebugInfo] (src/api/debug.go): the debug report. [Daemon]: the handlers and the
      events of the friend protocol as one machine over the configuration.
    - [Cli], [Commands] (src/cli): the commands as runs of the handlers, the table of
      commands with flags and preparations, the update command. [ApiClient]
      (src/api/apiclient): every call of the client as an HTTP request to [ApiServer],
      proved to be the run of the handler that [Cli] takes it for; [ClientLog]: its
      credentials, the log it fetches, and the theorem on all fourteen calls.
    - [Update] (src/update): channels and verdict of an update check, and what an update
      replaces. [Release]
      (src/tools): the files and the tag of a release description.
    - [Application] (src/application.go): the start of the services, their
      subscriptions, closing, and the DNS service. [Logging]: the levels of the loggers and
      the way of an entry to the log buffer. [Metrics] (src/metrics): the gauges and
      their background updater.
    - [Programs] (src/cmd/awl, src/cmd/gomobile-lib): the daemon's entry point and the
      library for phones. [Tray] (src/cmd/awl-tray): the tray program as a state machine
      over the application. [RootEnv] (src/cmd/awl-tray/os_hacks_*.go): how it starts
      itself as root. [Embeds], [Desktop] (src/embeds): the files the programs carry and
      the entry in the menus of the desktop.

    ** How code is modelled

    A Go function is a Rocq function on explicit state; errors and panics are values of
    [outcome]. Methods that hold a lock are one step; where the code releases a lock and
    takes it again, an argument (a [mid]) of the function stands for what others do
    meanwhile. [AddPeer], which takes the lock several times, is one step in the machines
    [Daemon] and [Friends]; [AddPeer_interleaved] has its gaps, with a theorem on what
    goes wrong there ([concurrent_adds_share_alias]). Loops over maps take
    the order of the visit as an argument and theorems hold for every order. Goroutines
    that share channels are first the rounds they make, with theorems that quantify over
    the states in which a round may start; [Node] then cuts the rounds of the data path
    into steps, between which packets are in the hands of a goroutine and any other
    goroutine may run. Where blocking matters ([Events], [Bootstrap],
    [ProxyConns], [ExitNode]) each step of each goroutine is an event that has no result while it
    blocks, and theorems hold for every order of events. Packets and tunnel peers, which the code shares by
    pointer, live on heaps, so that double releases and aliasing can be stated: [owns] says
    that every packet object ever allocated is in exactly one place, so a packet that is
    never released, released twice or shared breaks it.

    What is assumed beside this: saving the configuration succeeds (what a failing write
    leaves is [save_file] in [ConfigFile]), and the logger is that of a release, which does
    not panic where the development logger would ([PeerId_logged]).

    Fuel appears where the code loops until its input ends: [ReadFrom], [stream_loop] and
    [inbound_loop] get more fuel than there are reads, frames or packets, and the theorems
    show that this is enough (or, for a frame that does not fit, that no fuel is).
    Folding a checksum needs at most three rounds. The searches for a free address and a
    free alias are bounded by the number of addresses and aliases in use, and proved to
    find one within the bound. Comparing two files takes fewer chunks than bytes.

    ** What the theorems show

    - The data path. A batch queued for a peer arrives on the other node's interface
      whole, in order, with the right addresses and valid checksums
      ([tunnel_end_to_end], from [stream_delivers_frames], [inbound_round_batch] and
      [write_batch_owns]); packets are routed by destination; under every interleaving of
      the goroutines no packet object is shared or lost and nothing panics, as long as the
      peers send complete packets ([node_safe]); routes are exactly the known peers after a
      refresh, unless an address changes hands; streams carry a bounded number of packets. The limits of this are theorems
      too: a frame that does not fit the buffer never ends, one that is cut short is taken
      for complete, a short TCP or UDP segment panics, an invalid packet makes another be
      released twice, an address that changes hands can lose its route.
    - The configuration: peers are filed under their IDs and the disk follows memory;
      generated addresses and aliases are free; what [CheckIPUnique] accepts, which compares
      texts: the addresses stay unique in dotted notation, and in embedded notation one is
      given twice ([embedded_address_is_shared]); loading
      repairs, and what was loaded and saved loads back unchanged
      ([config_file_roundtrip]); a restart keeps the identity; over any sequence of requests
      and messages, every known peer stays filed under its valid identifier with an alias
      of its own, unless requests are accepted automatically or peers are added or removed
      in the middle of another request ([configuration_stays_wf]); subscribers catch up with the changes, except for one
      deadlock that is a theorem too ([locked_emit_deadlocks]).
    - Trust: the network alone never adds or removes a peer nor changes its alias, address
      or permissions; a blocked peer learns only that it is declined and an unknown one
      nothing; requests are accepted only if they were made; the
      exit node is unset or allowed; proxying needs permission, and this node dials only
      for peers that had it, never its own IPv4 loopback addresses
      ([exit_node_dials_permitted]). Of two nodes, one counts the other as confirmed only
      if the other had added it ([confirmation_needs_consent]); a delivered request that
      is accepted makes them friends on both sides ([friendship_established]); and being
      removed is learned ([removal_is_learned]).
    - Names: the two mappings of the resolver agree and hold every published name; queries
      are answered from them, completely when the reply fits its size; and after a change
      names and routes lead to the same peer.
    - Handlers, commands, relays, log and reports: their functional behaviour, and that
      a handler changes nothing when it answers with an error. With a password set no
      request reaches a handler without it, and with it every route runs its handler; each
      call of the client is a run of its handler;
      a peer may be named by its name or its identifier. Bootstrapping comes to its end,
      and no connection of the local proxy is lost.
    - Programs: starting and stopping on phones and in the tray, with exactly the failed
      starts after which closing crashes; menus follow the server, and which events crash
      the tray; the environment
      reaches the root process; carried files are compared whole.

    ** Not modelled

    The embedded frontend; the counters of src/metrics, which nothing reads, and the
    floating-point rendering of src/api/metrics.go; what the operating system does when the
    interface is created, whose answers are inputs; the queue of the event bus beyond its
    capacity; parsing of flags, rendering of tables, menus and dialogs, which are
    libraries; the texts of log messages; accessors that only forward to libp2p. The web framework, JSON, base58, multiaddresses, peer IDs, DNS
    messages, the SOCKS5 server and libp2p itself are parameters. Times are numbers and
    floats do not appear. *)

From Stdlib Require Export ZArith Lia ZifyNat.
From stdpp Require Export base list gmap strings pretty sorting fin_maps.
From stdpp Require Export tactics option numbers.


Declare Scope go_scope.
Delimit Scope go_scope with go.

(** ** Outcomes

    A Go call either returns, returns a non-nil error, or panics. *)

Inductive outcome (A : Type) : Type :=
  | Ok (a : A)
  | Fail (err : string)
  | Panic.
Arguments Ok {_} _.
Arguments Fail {_} _.
Arguments Panic {_}.

Global Instance outcome_ret : MRet outcome := λ A a, Ok a.
Global Instance outcome_bind : MBind outcome := λ A B f m,
  match m with Ok a => f a | Fail e => Fail e | Panic => Panic end.
Global Instance outcome_fmap : FMap outcome := λ A B f m,
  match m with Ok a => Ok (f a) | Fail e => Fail e | Panic => Panic end.

(** An operation that panics when the option is empty (an index or slice out of
    range). *)
Definition or_panic {A} (o : option A) : outcome A :=
  match o with Some a => Ok a | None => Panic end.

Lemma or_panic_Ok {A} (o : option A) a : or_panic o = Ok a ↔ o = Some a.
Proof. destruct o; simpl; naive_solver. Qed.

Lemma outcome_bind_Ok {A B} (m : outcome A) (f : A → outcome B) b :
  m ≫= f = Ok b ↔ ∃ a, m = Ok a ∧ f a = Ok b.
Proof. destruct m; simpl; naive_solver. Qed.

(** ** Bytes and machine integers

    A byte is an integer in [0, 256); a w-bit unsigned integer is an integer
    reduced modulo 2^w. *)

Lemma Forall_snoc_inv {A} (P : A → Prop) l x : Forall P (l ++ [x]) → Forall P l ∧ P x.
Proof. intros [? H]%Forall_app. by inversion_clear H. Qed.

Abbreviation bytes := (list Z).

Definition is_byte (b : Z) : Prop := (0 ≤ b < 256)%Z.
Global Instance is_byte_dec b : Decision (is_byte b).
Proof. unfold is_byte. apply _. Defined.

Definition u8 (z : Z) : Z := (z `mod` 2 ^ 8)%Z.
Definition u16 (z : Z) : Z := (z `mod` 2 ^ 16)%Z.
Definition u32 (z : Z) : Z := (z `mod` 2 ^ 32)%Z.
Definition u64 (z : Z) : Z := (z `mod` 2 ^ 64)%Z.

(** Two's-complement reading of a 64-bit word: the conversion int64(x). *)
Definition i64 (z : Z) : Z := ((z + 2 ^ 63) `mod` 2 ^ 64 - 2 ^ 63)%Z.

Lemma u32_small z : (0 ≤ z < 2 ^ 32)%Z → u32 z = z.
Proof. apply Z.mod_small. Qed.
Lemma u64_small z : (0 ≤ z < 2 ^ 64)%Z → u64 z = z.
Proof. apply Z.mod_small. Qed.
Lemma i64_small z : (- 2 ^ 63 ≤ z < 2 ^ 63)%Z → i64 z = z.
Proof. intros ?. unfold i64. rewrite Z.mod_small; lia. Qed.
Lemma u8_is_byte z : is_byte (u8 z).
Proof. unfold is_byte, u8. apply Z.mod_pos_bound. lia. Qed.

(** Big-endian reading and writing ([binary.BigEndian]). *)
Definition be_combine (l : bytes) : Z := foldl (λ acc b, (acc * 256 + b)%Z) 0%Z l.

Fixpoint be_split (n : nat) (z : Z) : bytes :=
  match n with
  | O => []
  | S n => be_split n (z / 256) ++ [(z `mod` 256)%Z]
  end.

Lemma be_combine_snoc l b : be_combine (l ++ [b]) = (be_combine l * 256 + b)%Z.
Proof. unfold be_combine. by rewrite foldl_app. Qed.

Lemma length_be_split n z : length (be_split n z) = n.
Proof. revert z; induction n; intros; simpl; [done|]. rewrite length_app, IHn. simpl. lia. Qed.

Lemma be_split_is_byte n z : Forall is_byte (be_split n z).
Proof.
  revert z; induction n; intros; simpl; [constructor|].
  apply Forall_app; split; [done|]. constructor; [|constructor].
  apply Z.mod_pos_bound. lia.
Qed.

Lemma be_combine_bound l :
  Forall is_byte l → (0 ≤ be_combine l < 256 ^ Z.of_nat (length l))%Z.
Proof.
  induction l as [|b l IH] using rev_ind; intros H; [simpl; unfold be_combine; simpl; lia|].
  apply Forall_snoc_inv in H as [Hl Hb].
  rewrite be_combine_snoc, length_app. simpl.
  replace (Z.of_nat (length l + 1)) with (Z.of_nat (length l) + 1)%Z by lia.
  rewrite Z.pow_add_r, Z.pow_1_r by lia. unfold is_byte in Hb. specialize (IH Hl). nia.
Qed.

Lemma be_combine_split n z :
  (0 ≤ z < 256 ^ Z.of_nat n)%Z → be_combine (be_split n z) = z.
Proof.
  revert z; induction n as [|n IH]; intros z Hz.
  - simpl in Hz. unfold be_combine; simpl. lia.
  - simpl. rewrite be_combine_snoc, IH; [pose proof (Z.div_mod z 256); lia|].
    rewrite Nat2Z.inj_succ, Z.pow_succ_r in Hz by lia.
    split; [apply Z.div_pos; lia|apply Z.div_lt_upper_bound; lia].
Qed.

Lemma be_split_combine l :
  Forall is_byte l → be_split (length l) (be_combine l) = l.
Proof.
  induction l as [|b l IH] using rev_ind; intros H; [done|].
  apply Forall_snoc_inv in H as [Hl Hb].
  rewrite length_app, Nat.add_comm. simpl. rewrite be_combine_snoc.
  unfold is_byte in Hb. rewrite Z.div_add_l, (Z.div_small b), Z.add_0_r, IH by (done || lia).
  by rewrite Z.add_comm, Z.mod_add, Z.mod_small by lia.
Qed.

Lemma be_combine_inj l1 l2 :
  Forall is_byte l1 → Forall is_byte l2 → length l1 = length l2 →
  be_combine l1 = be_combine l2 → l1 = l2.
Proof.
  intros H1 H2 Hlen Heq.
  rewrite <- (be_split_combine l1), <- (be_split_combine l2) by done. congruence.
Qed.

(** ** Slices *)

(** [s\[lo:hi\]] on a slice whose capacity is its length; out of range it panics. *)
Definition go_slice {A} (lo hi : nat) (l : list A) : option (list A) :=
  if decide (lo ≤ hi ∧ hi ≤ length l) then Some (take (hi - lo) (drop lo l)) else None.

Lemma go_slice_Some {A} lo hi (l : list A) :
  lo ≤ hi → hi ≤ length l → go_slice lo hi l = Some (take (hi - lo) (drop lo l)).
Proof. intros. unfold go_slice. by rewrite decide_True. Qed.

(** The effect of [copy(dst\[off:\], src)] on the array behind [dst]: at most
    [length dst - off] elements are written. *)
Definition copy_at {A} (off : nat) (src dst : list A) : list A :=
  take off dst ++ take (length dst - off) src ++ drop (off + length src) dst.

(** The number of elements [copy(dst\[off:\], src)] reports. *)
Definition copied {A} (off : nat) (src dst : list A) : nat :=
  length src `min` (length dst - off).

Lemma length_copy_at {A} off (src dst : list A) :
  off ≤ length dst → length (copy_at off src dst) = length dst.
Proof.
  intros. unfold copy_at. rewrite !length_app, !length_take, length_drop. lia.
Qed.

Lemma take_copy_at {A} off (src dst : list A) :
  off ≤ length dst →
  take (off + copied off src dst) (copy_at off src dst)
  = take off dst ++ take (copied off src dst) src.
Proof.
  intros Hoff. unfold copy_at, copied.
  assert (length (take off dst) = off) as Hlen by (rewrite length_take; lia).
  rewrite take_app_ge by lia. f_equal. rewrite Hlen.
  replace (off + length src `min` (length dst - off) - off)
    with (length src `min` (length dst - off)) by lia.
  rewrite take_app_le by (rewrite length_take; lia).
  rewrite take_take. f_equal. lia.
Qed.

Lemma copy_at_fit {A} off (src dst : list A) :
  off + length src ≤ length dst →
  copy_at off src dst = take off dst ++ src ++ drop (off + length src) dst.
Proof. intros. unfold copy_at. by rewrite (take_ge src) by lia. Qed.

Lemma lookup_copy_at_out {A} off (src dst : list A) i :
  off + length src ≤ length dst → (i < off ∨ off + length src ≤ i) →
  copy_at off src dst !! i = dst !! i.
Proof.
  intros Hfit Hi. rewrite copy_at_fit by done.
  destruct Hi as [Hi|Hi].
  - rewrite lookup_app_l by (rewrite length_take; lia). by rewrite lookup_take_lt by lia.
  - rewrite lookup_app_r by (rewrite length_take; lia).
    rewrite length_take, Nat.min_l by lia.
    rewrite lookup_app_r by lia. rewrite lookup_drop. f_equal. lia.
Qed.

(** The last [n] elements of a list. *)
Definition last_n {A} (n : nat) (l : list A) : list A := drop (length l - n) l.

Lemma length_last_n {A} n (l : list A) : length (last_n n l) = n `min` length l.
Proof. unfold last_n. rewrite length_drop. lia. Qed.

Lemma last_n_app_suffix {A} n (l k : list A) :
  n ≤ length k → last_n n (l ++ k) = last_n n k.
Proof.
  intros. unfold last_n. rewrite length_app, drop_app_ge by lia. f_equal. lia.
Qed.

Lemma last_n_all {A} n (l : list A) : length l ≤ n → last_n n l = l.
Proof. intros. unfold last_n. by replace (length l - n) with 0 by lia. Qed.

(** ** Iteration over maps

    [for k, v := range m] visits every entry of [m] once, in an unspecified
    order: code that ranges over a map takes the visited entries as an argument
    and its theorems hold for every order. *)
Definition ranges {K V} `{Countable K} (m : gmap K V) (es : list (K * V)) : Prop :=
  es ≡ₚ map_to_list m.

Section ranges.
Context {K V : Type} `{Countable K}.
Implicit Types (m : gmap K V) (es : list (K * V)).

Lemma ranges_elem m es k v : ranges m es → (k, v) ∈ es ↔ m !! k = Some v.
Proof. intros ->. apply elem_of_map_to_list. Qed.

Lemma ranges_nodup m es : ranges m es → NoDup es.*1.
Proof. intros ->. apply NoDup_fst_map_to_list. Qed.

Lemma ranges_self m : ranges m (map_to_list m).
Proof. unfold ranges. reflexivity. Qed.

Lemma ranges_length m es : ranges m es → length es = size m.
Proof. intros ->. by rewrite length_map_to_list. Qed.

Lemma ranges_of_list es : NoDup es.*1 → ranges (list_to_map es : gmap K V) es.
Proof. intros. unfold ranges. by rewrite map_to_list_to_map. Qed.
End ranges.

(** ** Automation *)

Create HintDb awl.
#[export] Hint Resolve ranges_self ranges_nodup : awl.
Create Rewrite HintDb awl.
#[export] Hint Rewrite @length_app @length_take @length_drop @length_copy_at : awl.

(** Split every conditional of the goal and of the hypotheses. *)
Ltac split_ifs :=
  repeat first [ case_decide | case_match ]; simplify_eq/=.

(** [lia] with divisions and remainders by constants. *)
Ltac dlia := zify; Z.to_euclidean_division_equations; lia.

#[global] Arguments Nat.div : simpl never.
#[global] Arguments Nat.modulo : simpl never.
#[global] Arguments be_split : simpl never.
#[global] Arguments be_combine : simpl never.

(** ** Machines

    A machine given by a partial step function: an event has no result in a state in which
    it cannot happen. A run takes one event after the other. *)

Section machines.
Context {E S : Type} (step : E → S → option S).

Definition run_steps (es : list E) (s : S) : option S := foldl (λ s e, s ≫= step e) (Some s) es.

Lemma run_steps_none es : foldl (λ s e, s ≫= step e) (None : option S) es = None.
Proof. by induction es. Qed.

Lemma run_steps_cons e es s s' : run_steps (e :: es) s = Some s' ↔ ∃ s1, step e s = Some s1 ∧ run_steps es s1 = Some s'.
Proof.
  unfold run_steps. cbn [foldl mbind option_bind]. destruct (step e s) as [s1|]; [naive_solver|].
  rewrite run_steps_none. naive_solver.
Qed.

Lemma run_steps_app es1 es2 s : run_steps (es1 ++ es2) s = run_steps es1 s ≫= run_steps es2.
Proof.
  unfold run_steps. rewrite foldl_app. destruct (foldl _ (Some s) es1); [done|]. apply run_steps_none.
Qed.

(** What every step keeps, a run keeps. *)
Lemma run_steps_inv (P : S → Prop) es s s' :
  (∀ e s s', P s → step e s = Some s' → P s') → P s → run_steps es s = Some s' → P s'.
Proof.
  intros Hstep. revert s. induction es as [|e es IH]; intros s Hs; [by intros [= <-]|].
  intros (s1 & E1 & Hr)%run_steps_cons. apply (IH s1); [by eapply Hstep|done].
Qed.

(** Steps that decrease a measure bound the length of a run. *)
Lemma run_steps_measure (P : S → Prop) (Q : E → Prop) (f : S → nat) es s s' :
  (∀ e s s', P s → Q e → step e s = Some s' → P s' ∧ f s' < f s) → P s → Forall Q es →
  run_steps es s = Some s' → length es + f s' ≤ f s.
Proof.
  intros Hstep. revert s. induction es as [|e es IH]; intros s Hs Hq; [intros [= <-]; simpl; lia|].
  apply list.Forall_cons in Hq as [He Hes]. intros (s1 & E1 & Hr)%run_steps_cons. destruct (Hstep e s s1 Hs He E1) as [Hs1 Hf].
  specialize (IH s1 Hs1 Hes Hr). simpl. lia.
Qed.
End machines.
