(* ===== verification/GoStrings.v ===== *)
(** * Strings of the Go standard library

    A Go string is a sequence of bytes; it is a Rocq [string] here, and
    [str_bytes] reads it as integers. This file models the functions of packages
    [strings], [unicode], [unicode/utf8] and [strconv] that the daemon calls.
    The lower-case table of package [unicode] for runes above 127 is the class
    [Unicode]; everything else is defined. *)

From S2P Require Import Prelude.
From Stdlib Require Import Ascii.
From Stdlib Require String.
Local Open Scope string_scope.
Local Open Scope list_scope.
Local Open Scope nat_scope.

Definition byte_of (a : ascii) : Z := Z.of_N (N_of_ascii a).
Definition char_of (z : Z) : ascii := ascii_of_N (Z.to_N z).

Definition str_bytes (s : string) : bytes := map byte_of (String.list_ascii_of_string s).
Definition bytes_str (l : bytes) : string := String.string_of_list_ascii (map char_of l).

Lemma char_of_byte_of a : char_of (byte_of a) = a.
Proof. unfold char_of, byte_of. by rewrite N2Z.id, ascii_N_embedding. Qed.

Lemma byte_of_is_byte a : is_byte (byte_of a).
Proof. unfold is_byte, byte_of. pose proof (N_ascii_bounded a). lia. Qed.

Lemma byte_of_char_of z : is_byte z → byte_of (char_of z) = z.
Proof.
  unfold is_byte, char_of, byte_of. intros. rewrite N_ascii_embedding by lia. lia.
Qed.

Lemma bytes_str_bytes s : bytes_str (str_bytes s) = s.
Proof.
  unfold bytes_str, str_bytes. rewrite map_map.
  rewrite (map_ext _ id) by apply char_of_byte_of.
  rewrite map_id. apply String.string_of_list_ascii_of_string.
Qed.

Lemma str_bytes_str l : Forall is_byte l → str_bytes (bytes_str l) = l.
Proof.
  intros H. unfold bytes_str, str_bytes. rewrite String.list_ascii_of_string_of_list_ascii, map_map.
  induction H as [|z l Hz _ IH]; simpl; [done|]. by rewrite byte_of_char_of, IH.
Qed.

Lemma str_bytes_inj s1 s2 : str_bytes s1 = str_bytes s2 → s1 = s2.
Proof. intros H. by rewrite <- (bytes_str_bytes s1), <- (bytes_str_bytes s2), H. Qed.

Lemma str_bytes_is_byte s : Forall is_byte (str_bytes s).
Proof.
  unfold str_bytes. induction (String.list_ascii_of_string s); simpl; constructor; auto using byte_of_is_byte.
Qed.

Lemma str_bytes_app s1 s2 : str_bytes (s1 +:+ s2) = str_bytes s1 ++ str_bytes s2.
Proof. unfold str_bytes. induction s1; simpl; [done|]. by rewrite IHs1. Qed.

(** ** Package strings *)

(** [strings.TrimPrefix] and [strings.HasPrefix]. *)
Fixpoint strip_prefix (pre s : string) : option string :=
  match pre, s with
  | EmptyString, _ => Some s
  | String a pre, String b s => if Ascii.eqb a b then strip_prefix pre s else None
  | String _ _, EmptyString => None
  end.

Definition TrimPrefix (s pre : string) : string := default s (strip_prefix pre s).
Definition HasPrefix (s pre : string) : bool := bool_decide (is_Some (strip_prefix pre s)).

(** [strings.TrimSuffix]. *)
Definition string_rev (s : string) : string :=
  String.string_of_list_ascii (reverse (String.list_ascii_of_string s)).
Definition TrimSuffix (s suf : string) : string :=
  match strip_prefix (string_rev suf) (string_rev s) with
  | Some t => string_rev t
  | None => s
  end.

(** [strings.Cut] with a one-byte separator. *)
Fixpoint Cut (s : string) (sep : ascii) : string * string * bool :=
  match s with
  | EmptyString => ("", "", false)
  | String a t =>
      if Ascii.eqb a sep then ("", t, true)
      else let '(before, after, found) := Cut t sep in (String a before, after, found)
  end.

(** [strings.LastIndex] with a one-byte pattern. *)
Fixpoint LastIndexByte (s : string) (c : ascii) : option nat :=
  match s with
  | EmptyString => None
  | String a t =>
      match LastIndexByte t c with
      | Some i => Some (S i)
      | None => if Ascii.eqb a c then Some 0 else None
      end
  end.

(** [strings.Split] with a one-byte separator: one more piece than separators. *)
Fixpoint Split (s : string) (sep : ascii) : list string :=
  match s with
  | EmptyString => [""]
  | String a t =>
      if Ascii.eqb a sep then "" :: Split t sep
      else match Split t sep with
           | [] => [String a ""]
           | p :: ps => String a p :: ps
           end
  end.

(** [strings.Join]. *)
Fixpoint Join (ps : list string) (sep : string) : string :=
  match ps with
  | [] => ""
  | [p] => p
  | p :: ps => p +:+ sep +:+ Join ps sep
  end.

(** The string with the first [n] bytes removed: [s\[n:\]]. *)
Definition str_drop (n : nat) (s : string) : string :=
  String.string_of_list_ascii (drop n (String.list_ascii_of_string s)).

(** [strconv.Itoa] and the verb %d on a non-negative integer. *)
Definition Itoa (n : nat) : string := pretty (N.of_nat n).

(** [strconv.ParseInt] in base ten, for integers of [bits] bits: an optional sign and
    decimal digits, within the bounds. [strconv.Atoi] is the case of 64 bits. *)
Fixpoint parse_digits (l : bytes) (acc : Z) : option Z :=
  match l with
  | [] => Some acc
  | d :: l => if decide (48 ≤ d ≤ 57)%Z then parse_digits l (acc * 10 + (d - 48))%Z else None
  end.
Definition ParseInt (bits : Z) (s : string) : option Z :=
  let '(neg, l) := match str_bytes s with
                   | 43%Z :: l => (false, l)
                   | 45%Z :: l => (true, l)
                   | l => (false, l)
                   end in
  match l with
  | [] => None
  | _ =>
      n ← parse_digits l 0;
      let n := if neg : bool then (- n)%Z else n in
      if decide (- 2 ^ (bits - 1) ≤ n < 2 ^ (bits - 1))%Z then Some n else None
  end.
Definition Atoi : string → option Z := ParseInt 64.

Lemma Itoa_inj : Inj (=) (=) Itoa.
Proof. intros i j H. unfold Itoa in H. apply (inj pretty) in H. lia. Qed.

(** ** UTF-8 and package unicode *)

(** A decoded rune with the bytes it was decoded from. *)
Definition runeError : Z := 65533.
Abbreviation piece := (Z * bytes)%type.

Definition cont (b : Z) : bool := bool_decide (128 ≤ b ≤ 191)%Z.
Definition within (lo hi b : Z) : bool := bool_decide (lo ≤ b ≤ hi)%Z.

(** The second byte a three-byte or four-byte sequence accepts. *)
Definition accept3 (b0 b1 : Z) : bool :=
  within (if decide (b0 = 224%Z) then 160 else 128)%Z (if decide (b0 = 237%Z) then 159 else 191)%Z b1.
Definition accept4 (b0 b1 : Z) : bool :=
  within (if decide (b0 = 240%Z) then 144 else 128)%Z (if decide (b0 = 244%Z) then 143 else 191)%Z b1.

(** Decoding as [range] over a string does it: an invalid byte is [runeError] of
    width one. *)
Fixpoint decode_runes (l : bytes) : list piece :=
  match l with
  | [] => []
  | b0 :: t0 =>
      if bool_decide (b0 < 128)%Z then (b0, [b0]) :: decode_runes t0
      else
      match t0 with
      | b1 :: t1 =>
          if within 194 223 b0 && cont b1
          then (((b0 - 192) * 64 + (b1 - 128))%Z, [b0; b1]) :: decode_runes t1
          else
          match t1 with
          | b2 :: t2 =>
              if within 224 239 b0 && accept3 b0 b1 && cont b2
              then (((b0 - 224) * 4096 + (b1 - 128) * 64 + (b2 - 128))%Z, [b0; b1; b2]) :: decode_runes t2
              else
              match t2 with
              | b3 :: t3 =>
                  if within 240 244 b0 && accept4 b0 b1 && cont b2 && cont b3
                  then (((b0 - 240) * 262144 + (b1 - 128) * 4096 + (b2 - 128) * 64 + (b3 - 128))%Z,
                        [b0; b1; b2; b3]) :: decode_runes t3
                  else (runeError, [b0]) :: decode_runes t0
              | [] => (runeError, [b0]) :: decode_runes t0
              end
          | [] => (runeError, [b0]) :: decode_runes t0
          end
      | [] => [(runeError, [b0])]
      end
  end.

(** [utf8.AppendRune]: an invalid rune is written as [runeError]. *)
Definition encode_rune (r : Z) : bytes :=
  let r := if decide ((r < 0 ∨ 1114111 < r) ∨ (55296 ≤ r ≤ 57343))%Z then runeError else r in
  (if decide (r < 128) then [r]
   else if decide (r < 2048) then [192 + r / 64; 128 + r `mod` 64]
   else if decide (r < 65536) then [224 + r / 4096; 128 + (r / 64) `mod` 64; 128 + r `mod` 64]
   else [240 + r / 262144; 128 + (r / 4096) `mod` 64; 128 + (r / 64) `mod` 64; 128 + r `mod` 64])%Z.

(** [unicode.IsSpace]. *)
Definition IsSpace (r : Z) : bool :=
  bool_decide (r ∈ [9; 10; 11; 12; 13; 32; 133; 160; 5760; 8232; 8233; 8239; 8287; 12288]%Z)
  || within 8192 8202 r.

(** The table part of [unicode.ToLower]: runes above 127. *)
Class Unicode := { lower_table : Z → Z }.

Definition ascii_lower (b : Z) : Z := if decide (65 ≤ b ≤ 90)%Z then (b + 32)%Z else b.

(** [unicode.ToLower]. *)
Definition rune_lower `{Unicode} (r : Z) : Z :=
  if decide (r < 128)%Z then ascii_lower r else lower_table r.

(** [strings.Map]. *)
Definition Map (f : Z → Z) (s : string) : string :=
  bytes_str (concat (map (λ p : piece, encode_rune (f p.1)) (decode_runes (str_bytes s)))).

Definition is_ascii (s : string) : bool := forallb (λ b, bool_decide (b < 128)%Z) (str_bytes s).

(** [strings.ToLower], with its fast path for ASCII strings. *)
Definition ToLower `{Unicode} (s : string) : string :=
  if is_ascii s then bytes_str (map ascii_lower (str_bytes s)) else Map rune_lower s.

(** [strings.TrimSpace]. *)
Fixpoint drop_while {A} (f : A → bool) (l : list A) : list A :=
  match l with
  | [] => []
  | x :: l' => if f x then drop_while f l' else l
  end.
Definition trim_both {A} (f : A → bool) (l : list A) : list A :=
  reverse (drop_while f (reverse (drop_while f l))).

Definition TrimSpace (s : string) : string :=
  bytes_str (concat (trim_both (λ p : piece, IsSpace p.1) (decode_runes (str_bytes s))).*2).

(** ** Facts about trimming *)

Lemma drop_while_head {A} (f : A → bool) l x l' : drop_while f l = x :: l' → f x = false.
Proof. induction l; simpl; [done|]. destruct (f a) eqn:E; naive_solver. Qed.

Lemma drop_while_id {A} (f : A → bool) l :
  (∀ x l', l = x :: l' → f x = false) → drop_while f l = l.
Proof. destruct l as [|x l]; simpl; [done|]. intros H. by rewrite (H x l). Qed.

Lemma drop_while_suffix {A} (f : A → bool) l : ∃ k, l = k ++ drop_while f l.
Proof.
  induction l as [|x l [k IH]]; simpl; [by exists []|].
  destruct (f x); [exists (x :: k); simpl; by f_equal|by exists []].
Qed.

Lemma drop_while_idemp {A} (f : A → bool) l : drop_while f (drop_while f l) = drop_while f l.
Proof. apply drop_while_id. intros x l' H. by eapply drop_while_head. Qed.

(** Trimming from the right keeps the head a kept element. *)
Lemma drop_while_reverse_head {A} (f : A → bool) l :
  (∀ x l', l = x :: l' → f x = false) →
  ∀ x l', reverse (drop_while f (reverse l)) = x :: l' → f x = false.
Proof.
  intros Hl x l' Heq. destruct (drop_while_suffix f (reverse l)) as [k Hk].
  apply (f_equal reverse) in Hk. rewrite reverse_involutive, reverse_app, Heq in Hk.
  by eapply Hl.
Qed.

Lemma trim_both_idemp {A} (f : A → bool) l : trim_both f (trim_both f l) = trim_both f l.
Proof.
  unfold trim_both.
  rewrite (drop_while_id f (reverse (drop_while f (reverse (drop_while f l))))).
  - by rewrite reverse_involutive, drop_while_idemp.
  - apply drop_while_reverse_head. intros x l' H. by eapply drop_while_head.
Qed.

Lemma trim_both_sub {A} (f : A → bool) l x : x ∈ trim_both f l → x ∈ l.
Proof.
  unfold trim_both. intros Hx%elem_of_reverse.
  destruct (drop_while_suffix f (reverse (drop_while f l))) as [k Hk].
  assert (x ∈ reverse (drop_while f l)) as Hx' by (rewrite Hk; set_solver).
  apply elem_of_reverse in Hx'.
  destruct (drop_while_suffix f l) as [k' Hk']. rewrite Hk'. set_solver.
Qed.

(** On an ASCII string every byte is a rune. *)
Lemma decode_runes_ascii l :
  Forall (λ b, b < 128)%Z l → decode_runes l = map (λ b, (b, [b])) l.
Proof.
  induction 1 as [|b l Hb _ IH]; [done|]. cbn [decode_runes map].
  rewrite bool_decide_eq_true_2 by done. by rewrite IH.
Qed.

Lemma is_ascii_Forall s : is_ascii s = true ↔ Forall (λ b, b < 128)%Z (str_bytes s).
Proof.
  unfold is_ascii. induction (str_bytes s) as [|b l IH]; simpl.
  - split; [constructor|done].
  - rewrite andb_true_iff, IH, bool_decide_eq_true. split; [intros [??]; by constructor|by inversion 1].
Qed.
