(* ===== verification/GoNet.v ===== *)
(** * Addresses of the Go standard library

    The parts of packages [net] and [net/netip] the daemon relies on: parsing of
    addresses and CIDR blocks, conversions between the 4-byte and the 16-byte
    form, masks and membership. An address is a list of bytes and the nil
    address is the empty list. *)

From S2P Require Import Prelude GoStrings.
Local Open Scope Z_scope.

Abbreviation IP := bytes (only parsing).

(** ** [netip.ParseAddr] *)

Inductive Addr :=
  | Addr4 (b : bytes)
  | Addr6 (b : bytes) (zone : bytes).

Definition addr_zone (a : Addr) : bytes :=
  match a with Addr4 _ => [] | Addr6 _ zone => zone end.

(** [parseIPv4Fields]: [start] holds at the first byte and after a dot. *)
Fixpoint v4_loop (l : bytes) (start : bool) (val : Z) (digLen pos : nat) (fields : bytes)
    : option bytes :=
  match l with
  | [] => if decide (pos < 3)%nat then None else Some (fields ++ [val])
  | c :: t =>
      if within 48 57 c then
        if decide (digLen = 1%nat ∧ val = 0) then None
        else let val := val * 10 + (c - 48) in
             if decide (255 < val) then None
             else v4_loop t false val (S digLen) pos fields
      else if decide (c = 46) then
        if start || bool_decide (t = []) then None
        else if decide (pos = 3%nat) then None
        else v4_loop t true 0 0 (S pos) (fields ++ [val])
      else None
  end.

Definition parseIPv4 (s : bytes) : option bytes := v4_loop s true 0 0 0 [].

Definition hexval (c : Z) : option Z :=
  if within 48 57 c then Some (c - 48)
  else if within 97 102 c then Some (c - 97 + 10)
  else if within 65 70 c then Some (c - 65 + 10)
  else None.

Fixpoint hex_group (s : bytes) (off : nat) (acc : Z) : option (nat * Z * bytes) :=
  match s with
  | [] => Some (off, acc, [])
  | c :: t =>
      match hexval c with
      | None => Some (off, acc, s)
      | Some v =>
          let acc := acc * 16 + v in
          if decide (3 < off)%nat then None
          else if decide (65535 < acc) then None
          else hex_group t (S off) acc
      end
  end.

(** The loop of [parseIPv6] on what is left of the text, the bytes produced so
    far and the position of the ellipsis; each round adds two bytes, so eight
    rounds fill the address. *)
Fixpoint v6_loop (rounds : nat) (s ip : bytes) (ellipsis : option nat)
    : option (bytes * bytes * option nat) :=
  match rounds with
  | O => Some (s, ip, ellipsis)
  | S rounds =>
      '(off, acc, r) ← hex_group s 0 0;
      if decide (off = 0%nat) then None
      else if decide (head r = Some 46) then
        if decide (ellipsis = None ∧ length ip ≠ 12%nat) then None
        else if decide (16 < length ip + 4)%nat then None
        else f ← parseIPv4 s; Some ([], ip ++ f, ellipsis)
      else
        let ip := ip ++ [acc / 256; acc `mod` 256] in
        match r with
        | [] => Some ([], ip, ellipsis)
        | c :: r' =>
            if decide (c ≠ 58) then None
            else match r' with
                 | [] => None
                 | c' :: r'' =>
                     if decide (c' = 58) then
                       match ellipsis with
                       | Some _ => None
                       | None =>
                           match r'' with
                           | [] => Some ([], ip, Some (length ip))
                           | _ :: _ => v6_loop rounds r'' ip (Some (length ip))
                           end
                       end
                     else v6_loop rounds r' ip ellipsis
                 end
        end
  end.

Fixpoint cut_at (c : Z) (l : bytes) : bytes * option bytes :=
  match l with
  | [] => ([], None)
  | x :: t => if decide (x = c) then ([], Some t)
              else let '(b, a) := cut_at c t in (x :: b, a)
  end.

Definition parseIPv6 (s : bytes) : option Addr :=
  let '(s, zone) := cut_at 37 s in
  if decide (zone = Some []) then None
  else
    let zone := default [] zone in
    let '(s, ellipsis) :=
      match s with 58 :: 58 :: t => (t, Some 0%nat) | _ => (s, None) end in
    if decide (ellipsis = Some 0%nat ∧ s = []) then Some (Addr6 (replicate 16 0) zone)
    else
      '(s, ip, ellipsis) ← v6_loop 8 s [] ellipsis;
      if decide (s ≠ []) then None
      else if decide (length ip < 16)%nat then
        match ellipsis with
        | None => None
        | Some e => Some (Addr6 (take e ip ++ replicate (16 - length ip) 0 ++ drop e ip) zone)
        end
      else match ellipsis with
           | Some _ => None
           | None => Some (Addr6 ip zone)
           end.

(** [netip.ParseAddr]: the first of '.', ':' and '%' decides. *)
Fixpoint addr_kind (l : bytes) : option Z :=
  match l with
  | [] => None
  | c :: t => if decide (c = 46 ∨ c = 58 ∨ c = 37) then Some c else addr_kind t
  end.

Definition ParseAddr (s : string) : option Addr :=
  let l := str_bytes s in
  k ← addr_kind l;
  if decide (k = 46) then Addr4 <$> parseIPv4 l
  else if decide (k = 58) then parseIPv6 l
  else None.

(** ** [net.IP] *)

Definition v4InV6Prefix : bytes := replicate 10 0 ++ [255; 255].

Definition As16 (a : Addr) : bytes :=
  match a with Addr4 b => v4InV6Prefix ++ b | Addr6 b _ => b end.

(** [Addr.As4] panics on an IPv6 address that is not an embedded IPv4 address. *)
Definition As4 (a : Addr) : outcome bytes :=
  match a with
  | Addr4 b => Ok b
  | Addr6 b _ => if decide (take 12 b = v4InV6Prefix) then Ok (drop 12 b) else Panic
  end.

(** [net.ParseIP]; the nil address when the text does not parse or has a zone. *)
Definition ParseIP (s : string) : IP :=
  match ParseAddr s with
  | Some (Addr4 b) => v4InV6Prefix ++ b
  | Some (Addr6 b []) => b
  | _ => []
  end.

(** [IP.To4]. *)
Definition To4 (ip : IP) : IP :=
  if decide (length ip = 4%nat) then ip
  else if decide (length ip = 16%nat ∧ take 12 ip = v4InV6Prefix) then drop 12 ip
  else [].

(** [IP.To16]. *)
Definition To16 (ip : IP) : IP :=
  if decide (length ip = 4%nat) then v4InV6Prefix ++ ip
  else if decide (length ip = 16%nat) then ip
  else [].

(** [IP.Equal]. *)
Definition IP_Equal (ip x : IP) : bool :=
  if decide (length ip = length x) then bool_decide (ip = x)
  else if decide (length ip = 4%nat ∧ length x = 16%nat)
  then bool_decide (take 12 x = v4InV6Prefix ∧ ip = drop 12 x)
  else if decide (length ip = 16%nat ∧ length x = 4%nat)
  then bool_decide (take 12 ip = v4InV6Prefix ∧ drop 12 ip = x)
  else false.

(** [IP.String] of a 4-byte address. *)
Definition ip4_string (ip : IP) : string :=
  Join (map (λ b, Itoa (Z.to_nat b)) ip) ".".

(** [IP.Mask]. *)
Definition IP_Mask (ip : IP) (mask : bytes) : IP :=
  let mask := if decide (length mask = 16%nat ∧ length ip = 4%nat ∧ take 12 mask = replicate 12 255)
              then drop 12 mask else mask in
  let ip := if decide (length mask = 4%nat ∧ length ip = 16%nat ∧ take 12 ip = v4InV6Prefix)
            then drop 12 ip else ip in
  if decide (length ip = length mask) then zip_with Z.land ip mask else [].

(** [net.CIDRMask]. *)
Fixpoint cidr_mask (n : nat) (len : nat) : bytes :=
  match len with
  | O => []
  | S len => if decide (8 ≤ n)%nat then 255 :: cidr_mask (n - 8) len
             else (255 - Z.shiftr 255 (Z.of_nat n)) :: cidr_mask 0 len
  end.

Record IPNet := mkIPNet { net_IP : bytes; net_Mask : bytes }.

(** [networkNumberAndMask]. *)
Definition networkNumberAndMask (n : IPNet) : bytes * bytes :=
  let ip := if decide (To4 (net_IP n) = []) then net_IP n else To4 (net_IP n) in
  if decide (To4 (net_IP n) = [] ∧ length ip ≠ 16%nat) then ([], [])
  else
    let m := net_Mask n in
    if decide (length m = 4%nat) then
      if decide (length ip = 4%nat) then (ip, m) else ([], [])
    else if decide (length m = 16%nat) then
      (ip, if decide (length ip = 4%nat) then drop 12 m else m)
    else ([], []).

(** [IPNet.Contains]. *)
Definition Contains (n : IPNet) (ip : IP) : bool :=
  let '(nn, m) := networkNumberAndMask n in
  let ip := if decide (To4 ip = []) then ip else To4 ip in
  if decide (length ip = length nn)
  then bool_decide (zip_with Z.land nn m = zip_with Z.land ip m)
  else false.

(** [dtoi] on a text that must be digits only. *)
Fixpoint dtoi (l : bytes) (acc : Z) : option Z :=
  match l with
  | [] => Some acc
  | c :: t => if within 48 57 c then
                let acc := acc * 10 + (c - 48) in
                if decide (16777215 ≤ acc) then None else dtoi t acc
              else None
  end.

(** [net.ParseCIDR]: the address (16 bytes) and the network. *)
Definition ParseCIDR (s : string) : option (IP * IPNet) :=
  match cut_at 47 (str_bytes s) with
  | (_, None) => None
  | (addr, Some mask) =>
      a ← ParseAddr (bytes_str addr);
      if decide (addr_zone a ≠ []) then None
      else
        n ← (if decide (mask = []) then None else dtoi mask 0);
        let bytelen := match a with Addr4 _ => 4%nat | Addr6 _ _ => 16%nat end in
        if decide (8 * Z.of_nat bytelen < n) then None
        else
          let m := cidr_mask (Z.to_nat n) bytelen in
          Some (As16 a, mkIPNet (IP_Mask (As16 a) m) m)
  end.

(** ** Shape of parsed addresses *)

Definition valid4 (ip : IP) : Prop := length ip = 4%nat ∧ Forall is_byte ip.

Lemma within_spec lo hi b : within lo hi b = true ↔ lo ≤ b ≤ hi.
Proof. unfold within. apply bool_decide_eq_true. Qed.

Lemma Forall_snoc {A} (P : A → Prop) l x : Forall P l → P x → Forall P (l ++ [x]).
Proof. intros. apply Forall_app. auto. Qed.

Lemma v4_loop_valid l : ∀ start val digLen pos fields r,
  v4_loop l start val digLen pos fields = Some r →
  Forall is_byte fields → is_byte val → length fields = pos → (pos ≤ 3)%nat → valid4 r.
Proof.
  induction l as [|c t IH]; intros start val digLen pos fields r H Hf Hv Hl Hp; simpl in H.
  - case_decide; simplify_eq. split; [rewrite length_app; simpl; lia|by apply Forall_snoc].
  - destruct (within 48 57 c) eqn:E.
    + apply within_spec in E. repeat case_decide; try done.
      eapply IH; [done|done| |done|done]. unfold is_byte in *. lia.
    + case_decide; [|done]. destruct (_ || _); [done|]. case_decide; [done|].
      eapply IH; [done|by apply Forall_snoc|unfold is_byte; lia|rewrite length_app; simpl; lia|lia].
Qed.

Lemma parseIPv4_valid s b : parseIPv4 s = Some b → valid4 b.
Proof. intros H. eapply v4_loop_valid; [exact H|constructor|unfold is_byte; lia|done|lia]. Qed.

Lemma hex_group_bound s : ∀ off acc off' acc' r,
  hex_group s off acc = Some (off', acc', r) → 0 ≤ acc ≤ 65535 → 0 ≤ acc' ≤ 65535.
Proof.
  induction s as [|c t IH]; intros off acc off' acc' r H Hacc; simpl in H; [naive_solver|].
  destruct (hexval c) as [v|] eqn:Ev; [|naive_solver].
  assert (0 ≤ v ≤ 15).
  { unfold hexval in Ev. destruct (within 48 57 c) eqn:E1; [apply within_spec in E1; naive_solver lia|].
    destruct (within 97 102 c) eqn:E2; [apply within_spec in E2; naive_solver lia|].
    destruct (within 65 70 c) eqn:E3; [apply within_spec in E3; naive_solver lia|done]. }
  repeat case_decide; try done. eapply IH; [done|lia].
Qed.

Lemma v6_loop_valid rounds : ∀ s ip e s' ip' e',
  v6_loop rounds s ip e = Some (s', ip', e') → Forall is_byte ip →
  (length ip + 2 * rounds ≤ 16)%nat → Forall is_byte ip' ∧ (length ip' ≤ 16)%nat.
Proof.
  induction rounds as [|n IH]; intros s ip e s' ip' e' H Hip Hlen; simpl in H.
  { simplify_eq. split; [done|lia]. }
  destruct (hex_group s 0 0) as [[[off acc] r]|] eqn:Eg; simpl in H; [|done].
  apply hex_group_bound in Eg; [|lia].
  case_decide; [done|]. case_decide.
  { repeat (case_decide; [done|]). destruct (parseIPv4 s) as [f|] eqn:Ef; simplify_eq/=.
    apply parseIPv4_valid in Ef as [Hl Hb]. split; [by apply Forall_app|rewrite length_app; lia]. }
  assert (Forall is_byte (ip ++ [acc / 256; acc `mod` 256])) as Hip'.
  { apply Forall_app; split; [done|]. repeat constructor; unfold is_byte; dlia. }
  assert (length (ip ++ [acc / 256; acc `mod` 256]) = (length ip + 2)%nat) as Hl'
    by (rewrite length_app; simpl; lia).
  destruct r as [|c r']; [simplify_eq; split; [done|lia]|].
  case_decide; [done|]. destruct r' as [|c' r'']; [done|]. case_decide.
  - destruct e; [done|]. destruct r''; [simplify_eq; split; [done|lia]|].
    eapply IH; [done|done|lia].
  - eapply IH; [done|done|lia].
Qed.

Definition addr_valid (a : Addr) : Prop :=
  match a with
  | Addr4 b => valid4 b
  | Addr6 b _ => length b = 16%nat ∧ Forall is_byte b
  end.

Lemma parseIPv6_valid s a : parseIPv6 s = Some a → addr_valid a.
Proof.
  unfold parseIPv6. destruct (cut_at 37 s) as [s1 zone]. case_decide; [done|].
  destruct (match s1 with 58 :: 58 :: t => (t, Some 0%nat) | _ => (s1, None) end) as [s2 e].
  case_decide; [intros; simplify_eq; simpl; split; [done|]; repeat constructor; unfold is_byte; lia|].
  destruct (v6_loop 8 s2 [] e) as [[[s3 ip] e']|] eqn:E; simpl; [|done].
  apply v6_loop_valid in E as [Hb Hl]; [|constructor|simpl; lia].
  case_decide; [done|]. case_decide.
  - destruct e' as [e'|]; [|done]. intros; simplify_eq; simpl. split.
    + rewrite !length_app, length_replicate, length_take, length_drop. lia.
    + apply Forall_app; split; [by apply Forall_take|].
      apply Forall_app; split; [|by apply Forall_drop].
      apply Forall_replicate; unfold is_byte; lia.
  - destruct e'; [done|]. intros; simplify_eq; simpl. split; [lia|done].
Qed.

Lemma ParseAddr_valid s a : ParseAddr s = Some a → addr_valid a.
Proof.
  unfold ParseAddr. destruct (addr_kind _) as [k|]; simpl; [|done].
  repeat case_decide; [|by apply parseIPv6_valid|done].
  intros (b & Hb & ->)%fmap_Some. simpl. by apply parseIPv4_valid in Hb.
Qed.

Lemma v4InV6Prefix_bytes : Forall is_byte v4InV6Prefix.
Proof. unfold v4InV6Prefix. repeat constructor; unfold is_byte; lia. Qed.

Lemma To4_prefix b : valid4 b → To4 (v4InV6Prefix ++ b) = b.
Proof.
  intros [Hl _]. unfold To4.
  rewrite decide_False by (rewrite length_app; simpl; lia).
  rewrite decide_True by (split; [rewrite length_app; simpl; lia|done]). done.
Qed.

Lemma To4_id ip : length ip = 4%nat → To4 ip = ip.
Proof. intros. unfold To4. by rewrite decide_True. Qed.

Lemma To4_valid ip : Forall is_byte ip → To4 ip = [] ∨ valid4 (To4 ip).
Proof.
  intros Hb. unfold To4. case_decide; [by right|]. case_decide; [|by left].
  right. split; [rewrite length_drop; lia|by apply Forall_drop].
Qed.

Lemma ParseIP_bytes s : Forall is_byte (ParseIP s).
Proof.
  unfold ParseIP. destruct (ParseAddr s) as [[b|b [|]]|] eqn:E; [| |constructor|constructor].
  - apply ParseAddr_valid in E as [_ ?]. apply Forall_app; auto using v4InV6Prefix_bytes.
  - by apply ParseAddr_valid in E as [_ ?].
Qed.

(** ** Printing and parsing an IPv4 address *)

Definition digits (b : Z) : bytes := str_bytes (Itoa (Z.to_nat b)).

Definition digits_of (b : Z) : bytes :=
  if decide (b < 10) then [48 + b]
  else if decide (b < 100) then [48 + b / 10; 48 + b `mod` 10]
  else [48 + b / 100; 48 + (b / 10) `mod` 10; 48 + b `mod` 10].

Lemma digits_byte b : is_byte b → digits b = digits_of b.
Proof.
  intros Hb.
  assert (Forall (λ n, digits (Z.of_nat n) = digits_of (Z.of_nat n)) (seq 0 256)) as HF.
  { apply (bool_decide_unpack _). vm_compute. exact I. }
  rewrite Forall_forall in HF. unfold is_byte in Hb.
  specialize (HF (Z.to_nat b)). rewrite Z2Nat.id in HF by lia. apply HF.
  apply in_seq. lia.
Qed.

Lemma v4_loop_digits b t pos fields :
  is_byte b →
  ∃ n, v4_loop (digits b ++ t) true 0 0 pos fields = v4_loop t false b n pos fields.
Proof.
  intros Hb. rewrite digits_byte by done. unfold is_byte in Hb. unfold digits_of.
  assert (∀ x, 0 ≤ x ≤ 9 → within 48 57 (48 + x) = true) as Hw
    by (intros; apply within_spec; lia).
  repeat case_decide; cbn [app v4_loop]; rewrite !Hw by dlia; eexists;
    repeat (case_decide; [exfalso; dlia|]); f_equal; dlia.
Qed.

Lemma digits_nonempty b : is_byte b → ∃ d r, digits b = d :: r ∧ 48 ≤ d ≤ 57.
Proof.
  intros Hb. rewrite digits_byte by done. unfold is_byte in Hb. unfold digits_of.
  repeat case_decide; eexists _, _; (split; [done|dlia]).
Qed.

Lemma digits_kind b t : is_byte b → addr_kind (digits b ++ t) = addr_kind t.
Proof.
  intros Hb. rewrite digits_byte by done. unfold is_byte in Hb. unfold digits_of.
  repeat case_decide; simpl; rewrite !decide_False by dlia; done.
Qed.

Lemma ip4_string_bytes a b c d :
  str_bytes (ip4_string [a; b; c; d]) = digits a ++ 46 :: digits b ++ 46 :: digits c ++ 46 :: digits d.
Proof. unfold ip4_string, digits. simpl. rewrite !str_bytes_app. done. Qed.

Lemma ParseAddr_ip4_string ip : valid4 ip → ParseAddr (ip4_string ip) = Some (Addr4 ip).
Proof.
  intros [Hl Hb]. destruct ip as [|a [|b [|c [|d [|]]]]]; try done.
  repeat (apply Forall_cons_iff in Hb as [? Hb]).
  unfold ParseAddr. rewrite ip4_string_bytes, digits_kind by done. simpl.
  unfold parseIPv4.
  destruct (v4_loop_digits a (46 :: digits b ++ 46 :: digits c ++ 46 :: digits d) 0 []) as [n1 ->]; [done|].
  destruct (digits_nonempty b) as (x & r & Hx & _); [done|].
  cbn [v4_loop]. rewrite (bool_decide_eq_false_2 (_ = [])) by (rewrite Hx; done). simpl.
  destruct (v4_loop_digits b (46 :: digits c ++ 46 :: digits d) 1 [a]) as [n2 ->]; [done|].
  destruct (digits_nonempty c) as (y & r' & Hy & _); [done|].
  cbn [v4_loop]. rewrite (bool_decide_eq_false_2 (_ = [])) by (rewrite Hy; done). simpl.
  destruct (v4_loop_digits c (46 :: digits d) 2 [a; b]) as [n3 ->]; [done|].
  destruct (digits_nonempty d) as (z & r'' & Hz & _); [done|].
  cbn [v4_loop]. rewrite (bool_decide_eq_false_2 (_ = [])) by (rewrite Hz; done). simpl.
  destruct (v4_loop_digits d [] 3 [a; b; c]) as [n4 Hd]; [done|].
  rewrite app_nil_r in Hd. rewrite Hd. done.
Qed.

Lemma ParseIP_ip4_string ip : valid4 ip → To4 (ParseIP (ip4_string ip)) = ip.
Proof. intros H. unfold ParseIP. rewrite ParseAddr_ip4_string by done. by apply To4_prefix. Qed.

Lemma ip4_string_inj ip1 ip2 :
  valid4 ip1 → valid4 ip2 → ip4_string ip1 = ip4_string ip2 → ip1 = ip2.
Proof.
  intros H1 H2 Heq.
  by rewrite <- (ParseIP_ip4_string ip1), <- (ParseIP_ip4_string ip2), Heq.
Qed.
