(* ===== verification/GoHostPort.v ===== *)
(** * Host and port texts (packages net and net/netip)

    [SplitHostPort] and the text of an address, as the DNS service uses them. *)

From Stdlib Require Import Ascii.
From S2P Require Import Prelude GoStrings GoNet.

(** ** [net.SplitHostPort] *)

Fixpoint IndexByte (s : string) (c : ascii) : option nat :=
  match s with
  | String.EmptyString => None
  | String.String x t => if decide (x = c) then Some 0 else S <$> IndexByte t c
  end.

Definition str_take (n : nat) (s : string) : string :=
  String.string_of_list_ascii (take n (String.list_ascii_of_string s)).

Definition missingPort : string := "missing port in address".
Definition tooManyColons : string := "too many colons in address".

Definition SplitHostPort (hostport : string) : outcome (string * string) :=
  match LastIndexByte hostport ":"%char with
  | None => Fail missingPort
  | Some i =>
      '(host, j, k) ←
        if HasPrefix hostport "[" then
          match IndexByte hostport "]"%char with
          | None => Fail "missing ']' in address"
          | Some e =>
              if decide (S e = String.length hostport) then Fail missingPort
              else if decide (S e = i) then Ok (str_take (e - 1) (str_drop 1 hostport), 1, S e)
              else if HasPrefix (str_drop (S e) hostport) ":" then Fail tooManyColons
              else Fail missingPort
          end
        else
          let host := str_take i hostport in
          if decide (IndexByte host ":"%char = None) then Ok (host, 0, 0) else Fail tooManyColons;
      if negb (bool_decide (IndexByte (str_drop j hostport) "["%char = None)) then Fail "unexpected '[' in address"
      else if negb (bool_decide (IndexByte (str_drop k hostport) "]"%char = None)) then Fail "unexpected ']' in address"
      else Ok (host, str_drop (S i) hostport)
  end.

(** [net.JoinHostPort]. *)
Definition JoinHostPort (host port : string) : string :=
  if decide (LastIndexByte host ":"%char = None) then host +:+ ":" +:+ port else "[" +:+ host +:+ "]:" +:+ port.

(** ** [netip.Addr.String] *)

Definition hex_digit (d : Z) : Z := if decide (d < 10)%Z then (48 + d)%Z else (87 + d)%Z.

(** [appendHex]: lower case, no leading zeros. *)
Definition appendHex (x : Z) : bytes :=
  map (λ s, hex_digit (Z.land (Z.shiftr x s) 15))
    (filter (λ s, s = 0 ∨ Z.shiftr x s ≠ 0)%Z [12; 8; 4; 0]%Z).

(** [v6u16]. *)
Definition v6u16 (ip : bytes) (i : nat) : Z :=
  (Z.shiftl (default 0 (ip !! (2 * i)%nat)) 8 + default 0 (ip !! (2 * i + 1)%nat))%Z.

Definition zeros_from (ip : bytes) (i : nat) : nat :=
  (fix go n i := match n with
                 | O => i
                 | S n => if decide (v6u16 ip i = 0%Z) then go n (S i) else i
                 end) (8 - i) i.

(** The longest run of at least two zero groups, the first among equals. *)
Definition zero_run (ip : bytes) : nat * nat :=
  foldl (λ '(s, e) i, let j := zeros_from ip i in
                      if decide (2 ≤ j - i ∧ e - s < j - i) then (i, j) else (s, e))
    (255, 255) (seq 0 8).

Definition group (ip : bytes) (i : nat) : bytes := appendHex (v6u16 ip i).

(** [appendTo6]; after the run the loop goes on behind it. *)
Definition string6 (ip zone : bytes) : bytes :=
  let '(s, e) := zero_run ip in
  concat (map (λ i,
    if decide (i = s) then [58; 58]%Z ++ (if decide (e < 8) then group ip e else [])
    else if decide (s < i ≤ e) then []
    else (if decide (0 < i) then [58%Z] else []) ++ group ip i) (seq 0 8)) ++
  match zone with [] => [] | _ => 37%Z :: zone end.

Definition Addr_String (a : Addr) : string :=
  match a with
  | Addr4 b => ip4_string b
  | Addr6 b zone =>
      if decide (take 12 b = v4InV6Prefix)
      then "::ffff:" +:+ ip4_string (drop 12 b) +:+ match zone with [] => "" | _ => "%" +:+ bytes_str zone end
      else bytes_str (string6 b zone)
  end.

(** ** Facts *)

Example addr_strings :
  map (λ s, Addr_String <$> ParseAddr s) ["::"; "fe80:0:0:0::1%eth0"; "2001:DB8:0:1:0:0:0:1"; "::ffff:1.2.3.4"; "1:0:3:4:5:6:7:8"; "1:2:3:4:5:6::"]
  = Some <$> ["::"; "fe80::1%eth0"; "2001:db8:0:1::1"; "::ffff:1.2.3.4"; "1:0:3:4:5:6:7:8"; "1:2:3:4:5:6::"].
Proof. vm_compute. reflexivity. Qed.

Example split_host_ports :
  SplitHostPort "127.0.0.66:53" = Ok ("127.0.0.66", "53") ∧ SplitHostPort "[::1]:53" = Ok ("::1", "53") ∧
  SplitHostPort ":53" = Ok ("", "53") ∧ SplitHostPort "localhost" = Fail missingPort ∧
  SplitHostPort "::1:53" = Fail tooManyColons ∧ SplitHostPort "[::1]" = Fail missingPort.
Proof. split_and!; vm_compute; reflexivity. Qed.

Lemma SplitHostPort_no_panic hostport : SplitHostPort hostport ≠ Panic.
Proof. unfold SplitHostPort. repeat (case_match; cbn [mbind outcome_bind]; try done). Qed.
