(* ===== verification/GoIO.v ===== *)
(** * Readers and writers of the standard library

    An [io.Reader] as its clients see it: a sequence of successful reads of any
    sizes, then an error which may or may not come together with the last bytes.
    [io.LimitedReader] and [io.ReadFull] are the library's. *)

From S2P Require Import Prelude.

Inductive read_error := EOF | UnexpectedEOF | ReadFailed.

Global Instance read_error_eq_dec : EqDecision read_error.
Proof. solve_decision. Defined.

Record Reader := mkReader {
  chunks : list bytes;        (* what the reads deliver, a read never crosses a chunk *)
  fin : read_error;           (* what reading reports when the chunks are exhausted *)
  fin_with_data : bool;       (* whether it comes with the last bytes *)
}.

Definition with_chunks (r : Reader) (cs : list bytes) : Reader := mkReader cs (fin r) (fin_with_data r).

(** What is still to be read. *)
Definition remaining (r : Reader) : bytes := concat (chunks r).

(** [r.Read(p)] with [n = len(p)]. *)
Definition Read (n : nat) (r : Reader) : bytes * option read_error * Reader :=
  match chunks r with
  | [] => ([], Some (fin r), r)
  | c :: cs =>
      if decide (length c ≤ n) then
        (c, if fin_with_data r && bool_decide (cs = []) then Some (fin r) else None, with_chunks r cs)
      else (take n c, None, with_chunks r (drop n c :: cs))
  end.

(** [LimitedReader.Read]. *)
Definition LimitedRead (n : nat) (lr : Z * Reader) : bytes * option read_error * (Z * Reader) :=
  let '(N, r) := lr in
  if decide (N ≤ 0)%Z then ([], Some EOF, lr)
  else let '(bs, e, r) := Read (if decide (N < Z.of_nat n)%Z then Z.to_nat N else n) r in
       (bs, e, ((N - Z.of_nat (length bs))%Z, r)).

(** [io.ReadFull(r, buf)] with [n] bytes missing and [got] read: reads until the
    buffer is full or an error is reported, EOF after some bytes being unexpected.
    [fuel] bounds the reads; [None] is running out of it. *)
Fixpoint ReadFull (fuel n : nat) (got : bytes) (r : Reader) : option (bytes * option read_error * Reader) :=
  if decide (n = 0) then Some (got, None, r)
  else match fuel with
       | O => None
       | S fuel =>
           let '(bs, e, r) := Read n r in
           let got' := got ++ bs in
           if decide (n ≤ length bs) then Some (got', None, r)
           else match e with
                | None => ReadFull fuel (n - length bs) got' r
                | Some EOF => Some (got', Some (if decide (got' = []) then EOF else UnexpectedEOF), r)
                | Some e => Some (got', Some e, r)
                end
       end.

(** The number of reads that exhaust a reader when every read asks for something. *)
Definition reads (r : Reader) : nat := length (remaining r) + length (chunks r) + 1.

Section facts.
Implicit Types (r : Reader).

Lemma Read_spec n r bs e r' : Read n r = (bs, e, r') →
  remaining r = bs ++ remaining r' ∧ length bs ≤ n ∧ fin r' = fin r ∧ fin_with_data r' = fin_with_data r ∧
  (0 < n → e = None → reads r' < reads r) ∧
  (∀ err, e = Some err → err = fin r ∧ chunks r' = [] ∧ (fin_with_data r = false → bs = [])).
Proof.
  destruct r as [cs f d]. unfold Read, remaining, reads, with_chunks. simpl.
  destruct cs as [|c cs]; [intros [= <- <- <-]; simpl; repeat split; try lia; naive_solver|].
  case_decide; intros [= <- <- <-]; simpl.
  - split; [done|]. split; [done|]. split; [done|]. split; [done|]. split.
    + intros _ _. cbn. rewrite length_app. lia.
    + intros err He. destruct d; simpl in He; [|done]. case_bool_decide; naive_solver.
  - repeat split; try done.
    + by rewrite app_assoc, take_drop.
    + rewrite length_take. lia.
    + intros. cbn. rewrite !length_app, length_drop. lia.
Qed.

Lemma LimitedRead_spec n N r bs e N' r' : LimitedRead n (N, r) = (bs, e, (N', r')) →
  remaining r = bs ++ remaining r' ∧ length bs ≤ n ∧ N' = (N - Z.of_nat (length bs))%Z ∧
  (Z.of_nat (length bs) ≤ N ∨ bs = [])%Z ∧ fin r' = fin r ∧ fin_with_data r' = fin_with_data r ∧
  (0 < n → e = None → reads r' < reads r) ∧
  (e = None → 0 < N)%Z ∧
  (∀ err, e = Some err → (err = EOF ∧ N ≤ 0 ∧ bs = [])%Z ∨ ((0 < N)%Z ∧ err = fin r ∧ chunks r' = [] ∧ (fin_with_data r = false → bs = []))).
Proof.
  unfold LimitedRead. case_decide as HN.
  { intros [= <- <- <- <-]. simpl. repeat split; try lia; naive_solver. }
  destruct (Read _ r) as [[bs0 e0] r0] eqn:ER. intros [= <- <- <- <-].
  apply Read_spec in ER as (? & Hl & ? & ? & Hp & He).
  repeat split; try done.
  - case_decide; lia.
  - left. case_decide; lia.
  - intros. apply Hp; [case_decide; lia|done].
  - lia.
  - intros err Herr. right. split; [lia|]. by apply He.
Qed.

(** Reading a full buffer from a reader that has the bytes. *)
Lemma ReadFull_enough fuel : ∀ n got r,
  n ≤ length (remaining r) → reads r ≤ fuel →
  ∃ r', ReadFull fuel n got r = Some (got ++ take n (remaining r), None, r') ∧
        remaining r' = drop n (remaining r) ∧ fin r' = fin r ∧ fin_with_data r' = fin_with_data r.
Proof.
  induction fuel as [|fuel IH]; intros n got r Hn Hf; [unfold reads in Hf; lia|]. simpl.
  case_decide as Hn0.
  { subst. exists r. by rewrite take_0, drop_0, app_nil_r. }
  destruct (Read n r) as [[bs e] r1] eqn:ER. apply Read_spec in ER as (Hrem & Hl & Hfin & Hd & Hp & He).
  case_decide as Hfull.
  { exists r1. rewrite Hrem, take_app_le, take_ge, drop_app_ge by lia.
    replace (n - length bs) with 0 by lia. by rewrite drop_0. }
  rewrite Hrem, length_app in Hn. destruct e as [err|].
  { exfalso. destruct (He err) as (_ & Hc & _); [done|]. unfold remaining at 1 in Hn. rewrite Hc in Hn. simpl in Hn. lia. }
  specialize (Hp ltac:(lia) eq_refl).
  destruct (IH (n - length bs) (got ++ bs) r1) as (r2 & -> & ? & ? & ?); [lia|lia|].
  exists r2. rewrite Hrem, take_app_ge, drop_app_ge, app_assoc by lia. repeat split; congruence.
Qed.

(** At the end of the stream. *)
Lemma ReadFull_empty fuel n got r : 0 < n → chunks r = [] → 0 < fuel → got = [] →
  ReadFull fuel n got r = Some ([], Some (fin r), r).
Proof.
  intros Hn Hc Hf ->. destruct fuel; [lia|]. simpl. rewrite decide_False by lia.
  unfold Read. rewrite Hc. simpl. rewrite decide_False by lia. by destruct (fin r).
Qed.
End facts.
