(* ===== verification/Externals.v ===== *)
(** * Interfaces of the libraries the daemon is built on

    Third-party code is not modelled: each class below lists the functions of
    one library the daemon calls, as parameters, and a companion class states
    the documented behaviour the theorems that need it rely on. *)

From S2P Require Import Prelude.

(** go-libp2p, package [core/peer]: a peer ID is an opaque byte string with a
    textual form. The zero ID is the empty string. *)
Class PeerCodec := {
  peer_Decode : string → option string;
  peer_String : string → string;
}.

(** [Decode] inverts [String] on the identifiers that name a peer. *)
Class PeerCodecLaws `{PeerCodec} := {
  valid_peer : string → Prop;
  peer_Decode_String : ∀ id, valid_peer id → peer_Decode (peer_String id) = Some id;
  peer_Decode_valid : ∀ s id, peer_Decode s = Some id → valid_peer id;
  peer_Decode_empty : peer_Decode "" = None;
}.

(** mr-tron/base58. *)
Class Base58 := {
  b58_Encode : bytes → string;
  b58_Decode : string → option bytes;
}.

Class Base58Laws `{Base58} := {
  b58_Decode_Encode : ∀ b, Forall is_byte b → b58_Decode (b58_Encode b) = Some b;
  b58_Encode_nonempty : ∀ b, b ≠ [] → b58_Encode b ≠ "";
}.

(** multiformats/go-multiaddr and the conversion of go-libp2p from addresses to
    peer address records. *)
Class Multiaddrs := {
  maddr : Type;
  addr_info : Type;
  NewMultiaddr : string → option maddr;
  maddr_String : maddr → string;
  AddrInfosFromP2pAddrs : list maddr → option (list addr_info);
}.

(** Injectivity of the textual form follows from the codec laws. *)
Lemma peer_String_inj `{PeerCodecLaws} id1 id2 :
  valid_peer id1 → valid_peer id2 → peer_String id1 = peer_String id2 → id1 = id2.
Proof.
  intros H1 H2 Heq. apply (inj Some).
  by rewrite <- (peer_Decode_String id1), <- (peer_Decode_String id2), Heq.
Qed.
