(* ===== verification/RingBuffer.v ===== *)
(** * The log ring buffer (src/ringbuffer/ring_buffer.go)

    A buffer of [2 * size] bytes with a write position; [Bytes] reports the last
    [size] bytes written. The abstract specification is the list of every byte
    ever accepted by [Write]; the refinement theorem says that [Bytes] is always
    the last [size] bytes of it. The mutex makes each method atomic, so methods
    are functions on the state. *)

From S2P Require Import Prelude.

Definition fillingRate : nat := 17.

Record RingBuffer := mkRingBuffer {
  rb_buf : bytes;
  rb_size : nat;
  rb_pos : nat;
}.

(** [New]. *)
Definition New (size : nat) : RingBuffer :=
  mkRingBuffer (replicate (size * 2) 0%Z) size 0.

(** The compaction [Write] performs when the position passed the filling rate:
    the last [size] bytes move to the front. *)
Definition compact (r : RingBuffer) : option RingBuffer :=
  if decide (rb_size r * fillingRate / 10 < rb_pos r) then
    s ← (if decide (rb_size r ≤ rb_pos r) then Some (rb_pos r - rb_size r) else None);
    dst ← go_slice 0 (rb_size r) (rb_buf r);
    src ← go_slice s (rb_pos r) (rb_buf r);
    Some (mkRingBuffer (copy_at 0 src dst ++ drop (rb_size r) (rb_buf r))
            (rb_size r) (rb_size r))
  else Some r.

(** [Write]: the number of bytes taken (the error is always nil) and the new
    state; [None] is a panic. *)
Definition Write (p : bytes) (r : RingBuffer) : option (nat * RingBuffer) :=
  if decide (length p = 0) then Some (0, r)
  else
    r ← compact r;
    _ ← go_slice (rb_pos r) (length (rb_buf r)) (rb_buf r);
    let n := copied (rb_pos r) p (rb_buf r) in
    Some (n, mkRingBuffer (copy_at (rb_pos r) p (rb_buf r)) (rb_size r) (rb_pos r + n)).

(** [Capacity]. *)
Definition Capacity (r : RingBuffer) : nat := rb_size r.

(** [Bytes]. *)
Definition Bytes (r : RingBuffer) : option bytes :=
  let lastIndex := rb_pos r in
  if decide (lastIndex = 0) then Some []
  else
    let firstIndex := (Z.of_nat lastIndex - Z.of_nat (rb_size r))%Z in
    let firstIndex := if decide (firstIndex < 0)%Z then 0%Z else firstIndex in
    let buf := replicate (lastIndex - Z.to_nat firstIndex) 0%Z in
    src ← go_slice (Z.to_nat firstIndex) lastIndex (rb_buf r);
    Some (copy_at 0 src buf).

(** [Reset]. *)
Definition Reset (r : RingBuffer) : RingBuffer :=
  mkRingBuffer (rb_buf r) (rb_size r) 0.

(** A sequence of writes, with the bytes each of them took. *)
Fixpoint Writes (ps : list bytes) (r : RingBuffer) : option (bytes * RingBuffer) :=
  match ps with
  | [] => Some ([], r)
  | p :: ps =>
      '(n, r) ← Write p r;
      '(log, r) ← Writes ps r;
      Some (take n p ++ log, r)
  end.

(** ** Invariant and abstraction *)

Definition wf (r : RingBuffer) : Prop :=
  length (rb_buf r) = rb_size r * 2 ∧ rb_pos r ≤ rb_size r * 2.

(** The bytes the buffer still holds. *)
Definition content (r : RingBuffer) : bytes := take (rb_pos r) (rb_buf r).

(** [r] represents the log [log] of accepted bytes: its content is a suffix of
    the log that is long enough to answer [Bytes]. *)
Definition represents (log : bytes) (r : RingBuffer) : Prop :=
  wf r ∧ (∃ old, log = old ++ content r) ∧
  rb_size r `min` length log ≤ length (content r).

Lemma length_content r : wf r → length (content r) = rb_pos r.
Proof. intros [??]. unfold content. rewrite length_take. lia. Qed.

Lemma New_represents size : represents [] (New size).
Proof.
  repeat split; simpl; try lia; [by rewrite length_replicate|].
  by exists [].
Qed.

Lemma compact_spec r :
  wf r →
  ∃ r', compact r = Some r' ∧ wf r' ∧ rb_size r' = rb_size r ∧
        rb_pos r' ≤ (rb_size r * fillingRate / 10) `max` rb_size r ∧
        content r' = if decide (rb_size r * fillingRate / 10 < rb_pos r)
                     then last_n (rb_size r) (content r) else content r.
Proof.
  intros Hwf. pose proof (length_content r Hwf) as Hlen. destruct Hwf as [Hl Hp].
  unfold compact. destruct (decide _) as [Hd|Hd]; [|by exists r; repeat split; try done; lia].
  assert (rb_size r ≤ rb_pos r) as Hsp by (unfold fillingRate in Hd; dlia).
  rewrite decide_True by done. simpl.
  rewrite !go_slice_Some by lia. simpl.
  eexists; split; [reflexivity|].
  set (src := take _ (drop (rb_pos r - rb_size r) _)).
  assert (length src = rb_size r) as Hsrc
    by (unfold src; rewrite length_take, length_drop; lia).
  assert (copy_at 0 src (take (rb_size r - 0) (drop 0 (rb_buf r))) = src) as ->.
  { clearbody src. unfold copy_at. simpl. rewrite !Nat.sub_0_r, drop_0.
    assert (length (take (rb_size r) (rb_buf r)) = rb_size r) as -> by (rewrite length_take; lia).
    rewrite take_ge by lia. rewrite drop_ge by (rewrite length_take; lia). by rewrite app_nil_r. }
  repeat split; simpl; try lia.
  - rewrite length_app, length_drop. lia.
  - unfold content at 1; simpl. rewrite take_app_le, take_ge by lia.
    unfold src, last_n, content. rewrite length_take.
    rewrite Nat.min_l by lia. rewrite take_drop_commute. f_equal. f_equal. lia.
Qed.

Lemma Write_spec p r :
  wf r →
  ∃ n r', Write p r = Some (n, r') ∧ wf r' ∧ rb_size r' = rb_size r ∧ n ≤ length p ∧
    ∃ kept, content r' = kept ++ take n p ∧
      (kept = content r ∨ kept = last_n (rb_size r) (content r) ∧ rb_size r < length (content r)) ∧
      n = length p `min` (rb_size r * 2 - length kept).
Proof.
  intros Hwf. pose proof (length_content r Hwf) as Hlen.
  unfold Write. destruct (decide (length p = 0)) as [Hp|Hp].
  { exists 0, r. split; [done|]. destruct p; [|done]. simpl.
    repeat split; try apply Hwf; try lia. exists (content r). rewrite app_nil_r.
    split; [done|]. split; [by left|lia]. }
  destruct (compact_spec r Hwf) as (r' & -> & Hwf' & Hs & Hpos & Hc). simpl.
  pose proof (length_content r' Hwf') as Hlen'. destruct Hwf' as [Hl' Hp'].
  rewrite go_slice_Some by lia. simpl.
  assert (copied (rb_pos r') p (rb_buf r') = length p `min` (rb_size r * 2 - length (content r'))) as Hn.
  { unfold copied. rewrite Hl', Hlen', Hs. done. }
  eexists _, _. split; [reflexivity|]. repeat split; simpl.
  - rewrite length_copy_at by lia. lia.
  - unfold copied. lia.
  - lia.
  - unfold copied. lia.
  - exists (content r'). split; [|split].
    + unfold content at 1. simpl. by rewrite take_copy_at by lia.
    + rewrite Hc. destruct (decide _) as [Hd|]; [|by left]. right. split; [done|].
      unfold fillingRate in Hd. dlia.
    + done.
Qed.

Lemma Write_represents log p r :
  represents log r →
  ∃ n r', Write p r = Some (n, r') ∧ rb_size r' = rb_size r ∧ represents (log ++ take n p) r'.
Proof.
  intros (Hwf & [old ->] & Hlong).
  destruct (Write_spec p r Hwf) as (n & r' & HW & Hwf' & Hs & Hn & kept & Hc & Hk & Hnk).
  exists n, r'. split; [done|]. split; [done|]. split; [done|].
  rewrite Hc, !length_app, length_take, Hs.
  rewrite !length_app in Hlong.
  destruct Hk as [->|[-> Hlt]].
  - split; [exists old; by rewrite app_assoc|]. lia.
  - split.
    + exists (old ++ take (length (content r) - rb_size r) (content r)).
      unfold last_n. rewrite <- !app_assoc. f_equal. rewrite app_assoc. by rewrite take_drop.
    + rewrite length_last_n. lia.
Qed.

Lemma Writes_represents ps : ∀ log r,
  represents log r →
  ∃ new r', Writes ps r = Some (new, r') ∧ rb_size r' = rb_size r ∧ represents (log ++ new) r'.
Proof.
  induction ps as [|p ps IH]; intros log r Hr; simpl.
  { exists [], r. by rewrite app_nil_r. }
  destruct (Write_represents log p r Hr) as (n & r1 & -> & Hs1 & Hr1). simpl.
  destruct (IH _ _ Hr1) as (new & r2 & -> & Hs2 & Hr2). simpl.
  eexists _, _. split; [done|]. split; [lia|]. by rewrite app_assoc.
Qed.

Lemma Bytes_represents log r : represents log r → Bytes r = Some (last_n (rb_size r) log).
Proof.
  intros (Hwf & [old ->] & Hlong). pose proof (length_content r Hwf) as Hlen.
  destruct Hwf as [Hl Hp]. rewrite length_app in Hlong. unfold Bytes.
  destruct (decide (rb_pos r = 0)) as [H0|H0].
  { destruct (content r); simpl in *; [|lia]. destruct (decide (rb_size r = 0)) as [Hz|].
    - rewrite Hz. unfold last_n. by rewrite Nat.sub_0_r, drop_all.
    - destruct old; simpl in *; [done|lia]. }
  set (fi := Z.to_nat _).
  assert (fi = rb_pos r - rb_size r) as -> by (unfold fi; case_decide; lia).
  rewrite go_slice_Some by lia. simpl. f_equal.
  unfold copy_at. rewrite length_replicate. simpl.
  rewrite (drop_ge (replicate _ _)) by (rewrite length_replicate, length_take, length_drop; lia). rewrite app_nil_r.
  rewrite Nat.sub_0_r, take_take, Nat.min_id.
  replace (take _ (drop _ (rb_buf r))) with (last_n (rb_size r) (content r)).
  2:{ unfold last_n. rewrite Hlen. unfold content. by rewrite skipn_firstn_comm. }
  destruct (decide (rb_size r ≤ length (content r))).
  - by rewrite last_n_app_suffix.
  - assert (old = []) as -> by (destruct old; [done|simpl in *; lia]). done.
Qed.

(** ** Properties *)

(** C32. Refinement: whatever sequence of chunks is written to a fresh buffer, no
    write panics, and [Bytes] answers the last [size] bytes of everything the
    writes reported as taken (all of it while there is less). *)
Theorem ring_buffer_refines_log (size : nat) (ps : list bytes) :
  ∃ log r, Writes ps (New size) = Some (log, r) ∧ wf r ∧
           Bytes r = Some (last_n size log) ∧ Capacity r = size.
Proof.
  destruct (Writes_represents ps [] (New size) (New_represents size))
    as (log & r & HW & Hs & Hr). simpl in *.
  exists log, r. split; [done|]. split; [by apply Hr|]. unfold Capacity.
  by rewrite (Bytes_represents _ _ Hr), Hs.
Qed.

(** A chunk that is at most three tenths of the size is never truncated: on
    every well-formed buffer [Write] takes all of it, and [Bytes] then ends with it. *)
Theorem ring_write_small_chunk_complete (p : bytes) (r : RingBuffer) :
  wf r → 10 * length p ≤ 3 * rb_size r →
  ∃ r', Write p r = Some (length p, r') ∧ wf r' ∧ ∃ old, Bytes r' = Some (old ++ p).
Proof.
  intros Hwf Hsmall.
  destruct (Write_represents (content r) p r) as (n & r' & HW & Hs & Hr).
  { split; [done|]. split; [by exists []|]. lia. }
  assert (n = length p) as ->.
  { unfold Write in HW. destruct (decide (length p = 0)); [simplify_eq; lia|].
    destruct (compact_spec r Hwf) as (r1 & Hc & [Hl1 Hp1] & Hs1 & Hpos & _).
    rewrite Hc in HW. simpl in HW. rewrite go_slice_Some in HW by lia. simplify_eq/=.
    unfold copied, fillingRate in *. dlia. }
  exists r'. split; [done|]. split; [by apply Hr|].
  rewrite (Bytes_represents _ _ Hr), Hs, take_ge by lia.
  exists (drop (length (content r) + length p - rb_size r) (content r)).
  unfold last_n. rewrite length_app, drop_app_le by lia. done.
Qed.

(** A write that does not fit reports fewer bytes than it was given, with no
    error, and the rest of the chunk is lost. *)
Theorem ring_write_truncates (p : bytes) (r : RingBuffer) :
  wf r → rb_pos r ≤ rb_size r * fillingRate / 10 → rb_size r * 2 < rb_pos r + length p →
  ∃ n r', Write p r = Some (n, r') ∧ n = rb_size r * 2 - rb_pos r ∧ n < length p ∧
          content r' = content r ++ take n p.
Proof.
  intros [Hl Hp] Hfill Hbig. unfold Write. rewrite decide_False by lia.
  unfold compact. rewrite decide_False by lia. simpl. rewrite go_slice_Some by lia. simpl.
  eexists _, _. split; [reflexivity|]. unfold content, copied. simpl.
  rewrite Hl. rewrite Nat.min_r by lia. split; [done|]. split; [lia|].
  pose proof (take_copy_at (rb_pos r) p (rb_buf r)) as Ht. unfold copied in Ht.
  rewrite Hl, Nat.min_r in Ht by lia. apply Ht. lia.
Qed.

(** Witness of C2: ten bytes of capacity, three bytes written. *)
Lemma ring_write_small_chunk_complete_witness :
  wf (New 10) ∧ ∃ r', Write [1; 2; 3]%Z (New 10) = Some (3, r') ∧ wf r' ∧
                      ∃ old, Bytes r' = Some (old ++ [1; 2; 3]%Z).
Proof.
  assert (wf (New 10)) as H by (split; simpl; lia).
  split; [exact H|]. apply (ring_write_small_chunk_complete [1; 2; 3]%Z (New 10) H).
  simpl. lia.
Defined.

(** Witness of C3: a buffer of size 2 holds 4 bytes, a write of 5 loses one. *)
Lemma ring_write_truncates_witness :
  ∃ n r', Write [1; 2; 3; 4; 5]%Z (New 2) = Some (n, r') ∧ n = 4 ∧ n < 5 ∧
          content r' = [] ++ [1; 2; 3; 4]%Z.
Proof.
  destruct (ring_write_truncates [1; 2; 3; 4; 5]%Z (New 2)) as (n & r' & H1 & H2 & H3 & H4).
  - split; simpl; lia.
  - simpl; lia.
  - simpl; lia.
  - exists n, r'. split; [exact H1|]. split; [exact H2|]. split; [exact H3|].
    rewrite H4, H2. reflexivity.
Defined.
