(* ===== verification/Config.v ===== *)
(** * Configuration (src/config/config.go, src/config/version.go)

    The configuration is the daemon's shared store: known and blocked peers, the
    identity, the VPN and SOCKS5 settings. Every locked method is one atomic
    step on [Store], which carries the configuration in memory, the copy [save]
    last wrote to disk and the number of [KnownPeerChanged] events emitted. A
    nil map or slice and an empty one are the same value here (they differ only
    in their JSON rendering). *)

From S2P Require Import Prelude GoStrings Externals.
From Stdlib Require Import Ascii.

(** ** Data *)

(** A point in time; the zero time is 0. *)
Abbreviation time := Z (only parsing).

Record P2pNodeConfig := mkP2pNodeConfig {
  PeerID : string;
  Name : string;
  Identity : string;
  BootstrapPeers : list string;
  IgnoreDefaultBootstrapPeers : option bool;
  ListenAddresses : list string;
  ReconnectionIntervalSec : Z;
  AutoAcceptAuthRequests : bool;
  UseDedicatedConnForEachStream : bool;
  ParallelSendingStreamsCount : Z;
}.

Record VPNConfig := mkVPNConfig {
  DisableVPNInterface : bool;
  InterfaceName : string;
  IPNetText : string;
}.

Record SOCKS5Config := mkSOCKS5Config {
  ListenerEnabled : bool;
  ProxyingEnabled : bool;
  SOCKS5ListenAddress : string;
  UsingPeerID : string;
}.

Record DNSConfig := mkDNSConfig {
  DisableDNS : bool;
  DNSListenAddress : string;
}.

Record KnownPeer := mkKnownPeer {
  kp_PeerID : string;
  kp_Name : string;
  kp_Alias : string;
  kp_IPAddr : string;
  kp_DomainName : string;
  kp_CreatedAt : time;
  kp_LastSeen : time;
  kp_Confirmed : bool;
  kp_Declined : bool;
  kp_WeAllowUsingAsExitNode : bool;
  kp_AllowedUsingAsExitNode : bool;
  kp_ReportedUsingPeerID : string;
}.

Record BlockedPeer := mkBlockedPeer {
  bp_PeerID : string;
  bp_DisplayName : string;
  bp_CreatedAt : time;
}.

Record UpdateConfig := mkUpdateConfig {
  LowestPriorityChan : string;
  UpdateServerURL : string;
  TrayAutoCheckEnabled : bool;
  TrayAutoCheckInterval : string;
}.

Record HttpBasicAuthConfig := mkHttpBasicAuthConfig {
  Username : string;
  Password : string;
}.

Record Config := mkConfig {
  dataDir : string;
  cVersion : string;
  LoggerLevel : string;
  HttpListenAddress : string;
  HttpListenOnAdminHost : bool;
  HttpBasicAuth : HttpBasicAuthConfig;
  P2pNode : P2pNodeConfig;
  cVPN : VPNConfig;
  SOCKS5 : SOCKS5Config;
  DNS : DNSConfig;
  KnownPeers : gmap string KnownPeer;
  BlockedPeers : gmap string BlockedPeer;
  Update : UpdateConfig;
}.

Record Store := mkStore {
  conf : Config;
  disk : option Config;
  events : nat;
}.

Global Instance KnownPeer_eq_dec : EqDecision KnownPeer.
Proof. solve_decision. Defined.
Global Instance BlockedPeer_eq_dec : EqDecision BlockedPeer.
Proof. solve_decision. Defined.

(** The zero value of a struct, which a map lookup returns for a missing key. *)
Definition zeroKnownPeer : KnownPeer := mkKnownPeer "" "" "" "" "" 0 0 false false false false "".
Definition zeroBlockedPeer : BlockedPeer := mkBlockedPeer "" "" 0.
Definition zeroConfig : Config :=
  mkConfig "" "" "" "" false (mkHttpBasicAuthConfig "" "")
    (mkP2pNodeConfig "" "" "" [] None [] 0 false false 0)
    (mkVPNConfig false "" "") (mkSOCKS5Config false false "" "") (mkDNSConfig false "")
    ∅ ∅ (mkUpdateConfig "" "" false "").

(** Assignments to one field. *)
Definition with_P2pNode (c : Config) v : Config :=
  mkConfig (dataDir c) (cVersion c) (LoggerLevel c) (HttpListenAddress c) (HttpListenOnAdminHost c)
    (HttpBasicAuth c) v (cVPN c) (SOCKS5 c) (DNS c) (KnownPeers c) (BlockedPeers c) (Update c).
Definition with_SOCKS5 (c : Config) v : Config :=
  mkConfig (dataDir c) (cVersion c) (LoggerLevel c) (HttpListenAddress c) (HttpListenOnAdminHost c)
    (HttpBasicAuth c) (P2pNode c) (cVPN c) v (DNS c) (KnownPeers c) (BlockedPeers c) (Update c).
Definition with_KnownPeers (c : Config) v : Config :=
  mkConfig (dataDir c) (cVersion c) (LoggerLevel c) (HttpListenAddress c) (HttpListenOnAdminHost c)
    (HttpBasicAuth c) (P2pNode c) (cVPN c) (SOCKS5 c) (DNS c) v (BlockedPeers c) (Update c).
Definition with_BlockedPeers (c : Config) v : Config :=
  mkConfig (dataDir c) (cVersion c) (LoggerLevel c) (HttpListenAddress c) (HttpListenOnAdminHost c)
    (HttpBasicAuth c) (P2pNode c) (cVPN c) (SOCKS5 c) (DNS c) (KnownPeers c) v (Update c).

Definition with_LastSeen (p : KnownPeer) (t : time) : KnownPeer :=
  mkKnownPeer (kp_PeerID p) (kp_Name p) (kp_Alias p) (kp_IPAddr p) (kp_DomainName p)
    (kp_CreatedAt p) t (kp_Confirmed p) (kp_Declined p)
    (kp_WeAllowUsingAsExitNode p) (kp_AllowedUsingAsExitNode p) (kp_ReportedUsingPeerID p).

Definition with_UsingPeerID (s : SOCKS5Config) (id : string) : SOCKS5Config :=
  mkSOCKS5Config (ListenerEnabled s) (ProxyingEnabled s) (SOCKS5ListenAddress s) id.

(** ** Saving and reading *)

(** [save] when the configuration can be marshalled and written. The theorems on what is
    saved are about this case; a disk that refuses the write, where the memory changes and
    the file does not, is [ConfigFile.save_file]. *)
Definition save (s : Store) : Store := mkStore (conf s) (Some (conf s)) (events s).

(** [Save]. *)
Definition Save (s : Store) : Store := save s.

(** The emission of [KnownPeerChanged]. *)
Definition emit_KnownPeerChanged (s : Store) : Store := mkStore (conf s) (disk s) (S (events s)).

Definition update_conf (f : Config → Config) (s : Store) : Store :=
  mkStore (f (conf s)) (disk s) (events s).

Definition known_list (c : Config) : list KnownPeer := (map_to_list (KnownPeers c)).*2.

(** [IsUniqPeerAlias]: no other peer has the alias (the answer does not depend
    on the order of the loop). *)
Definition IsUniqPeerAlias (excludePeerID alias : string) (c : Config) : bool :=
  forallb (λ kPeer, bool_decide (kp_PeerID kPeer = excludePeerID)
                    || negb (bool_decide (kp_Alias kPeer = alias))) (known_list c).

(** [DisplayName]. *)
Definition DisplayName (kp : KnownPeer) : string :=
  if decide (kp_Alias kp ≠ "") then kp_Alias kp else kp_Name kp.

(** [PeerId] in a released build: a peer ID that does not decode is logged and reads as
    the zero ID. *)
Definition PeerId `{PeerCodec} (kp : KnownPeer) : string := default "" (peer_Decode (kp_PeerID kp)).

(** [PeerId] with the mode of the logger: [DPanicf] panics in development. *)
Definition PeerId_logged `{PeerCodec} (dev : bool) (kp : KnownPeer) : outcome string :=
  match peer_Decode (kp_PeerID kp) with
  | Some peerID => Ok peerID
  | None => if dev then Panic else Ok ""
  end.

Lemma PeerId_released `{PeerCodec} kp : PeerId_logged false kp = Ok (PeerId kp).
Proof. unfold PeerId_logged, PeerId. by destruct (peer_Decode _). Qed.

(** The modes differ only on identifiers that do not decode. *)
Lemma PeerId_decodes `{PeerCodec} dev kp : is_Some (peer_Decode (kp_PeerID kp)) → PeerId_logged dev kp = Ok (PeerId kp).
Proof. intros [id Hid]. unfold PeerId_logged, PeerId. by rewrite Hid. Qed.

(** [KnownPeersIds], for the order [es] of the loop. *)
Definition KnownPeersIds `{PeerCodec} (es : list (string * KnownPeer)) : list string :=
  map (λ e, PeerId e.2) es.

(** [GetPeer]. *)
Definition GetPeer (peerID : string) (c : Config) : KnownPeer * bool :=
  match KnownPeers c !! peerID with
  | Some knownPeer => (knownPeer, true)
  | None => (zeroKnownPeer, false)
  end.

(** [GetBlockedPeer]. *)
Definition GetBlockedPeer (peerID : string) (c : Config) : BlockedPeer * bool :=
  match BlockedPeers c !! peerID with
  | Some blockedPeer => (blockedPeer, true)
  | None => (zeroBlockedPeer, false)
  end.

(** ** Updates *)

(** [RemovePeer]. *)
Definition RemovePeer (peerID : string) (s : Store) : KnownPeer * bool * Store :=
  let '(knownPeer, exists_) := GetPeer peerID (conf s) in
  let s := if exists_ then
             save (update_conf (λ c, with_KnownPeers c (delete peerID (KnownPeers c))) s)
           else s in
  let s := if exists_ then emit_KnownPeerChanged s else s in
  (knownPeer, exists_, s).

(** [UpsertPeer] and [UpsertPeerUnlocked]: the second runs under a lock the
    caller holds. *)
Definition UpsertPeer (peer : KnownPeer) (s : Store) : Store :=
  emit_KnownPeerChanged
    (save (update_conf (λ c, with_KnownPeers c (<[kp_PeerID peer := peer]> (KnownPeers c))) s)).

Definition UpsertPeerUnlocked (peer : KnownPeer) (s : Store) : Store :=
  emit_KnownPeerChanged
    (save (update_conf (λ c, with_KnownPeers c (<[kp_PeerID peer := peer]> (KnownPeers c))) s)).

(** [UpdatePeerLastSeen], which does not save. *)
Definition UpdatePeerLastSeen (now : time) (peerID : string) (s : Store) : Store :=
  let '(knownPeer, ok) := GetPeer peerID (conf s) in
  if ok then
    update_conf (λ c, with_KnownPeers c (<[peerID := with_LastSeen knownPeer now]> (KnownPeers c))) s
  else s.

(** [RemoveBlockedPeer]. *)
Definition RemoveBlockedPeer (peerID : string) (s : Store) : Store :=
  let '(_, exists_) := GetBlockedPeer peerID (conf s) in
  if exists_ then save (update_conf (λ c, with_BlockedPeers c (delete peerID (BlockedPeers c))) s)
  else s.

(** [UpsertBlockedPeer]: the creation time of an entry that exists is kept. *)
Definition UpsertBlockedPeer (now : time) (peerID displayName : string) (s : Store) : Store :=
  let '(blockedPeer, exists_) := GetBlockedPeer peerID (conf s) in
  let createdAt := if exists_ then bp_CreatedAt blockedPeer else now in
  save (update_conf (λ c, with_BlockedPeers c
    (<[peerID := mkBlockedPeer peerID displayName createdAt]> (BlockedPeers c))) s).

(** [SetIdentity] and [PrivKey]. *)
Definition SetIdentity `{Base58, PeerCodec} (raw : bytes) (id : string) (s : Store) : Store :=
  save (update_conf (λ c,
    let p := P2pNode c in
    with_P2pNode c (mkP2pNodeConfig (peer_String id) (Name p) (b58_Encode raw) (BootstrapPeers p)
      (IgnoreDefaultBootstrapPeers p) (ListenAddresses p) (ReconnectionIntervalSec p)
      (AutoAcceptAuthRequests p) (UseDedicatedConnForEachStream p) (ParallelSendingStreamsCount p))) s).

Definition PrivKey `{Base58} (c : Config) : option bytes :=
  if decide (Identity (P2pNode c) = "") then None else b58_Decode (Identity (P2pNode c)).

(** ** Addresses *)

(** The loop that parses texts and skips the ones that do not parse. *)
Definition parse_multiaddrs `{Multiaddrs} (texts : list string) : list maddr :=
  foldl (λ acc val, match NewMultiaddr val with Some a => acc ++ [a] | None => acc end) [] texts.

(** [GetBootstrapPeers]; [defaults] is the global [DefaultBootstrapPeers]. *)
Definition GetBootstrapPeers `{Multiaddrs} (defaults : list maddr) (c : Config)
    : outcome (list addr_info) :=
  let allMultiaddrs := parse_multiaddrs (BootstrapPeers (P2pNode c)) in
  let ignoreDefaultBootstrapPeers := default false (IgnoreDefaultBootstrapPeers (P2pNode c)) in
  let allMultiaddrs := if ignoreDefaultBootstrapPeers then allMultiaddrs
                       else allMultiaddrs ++ defaults in
  match AddrInfosFromP2pAddrs allMultiaddrs with
  | Some addrInfos => Ok addrInfos
  | None => or_panic (AddrInfosFromP2pAddrs defaults)
  end.

(** [SetListenAddresses] and [GetListenAddresses]. *)
Definition SetListenAddresses `{Multiaddrs} (addrs : list maddr) (s : Store) : Store :=
  update_conf (λ c,
    let p := P2pNode c in
    with_P2pNode c (mkP2pNodeConfig (PeerID p) (Name p) (Identity p) (BootstrapPeers p)
      (IgnoreDefaultBootstrapPeers p) (map maddr_String addrs) (ReconnectionIntervalSec p)
      (AutoAcceptAuthRequests p) (UseDedicatedConnForEachStream p) (ParallelSendingStreamsCount p))) s.

Definition GetListenAddresses `{Multiaddrs} (c : Config) : list maddr :=
  parse_multiaddrs (ListenAddresses (P2pNode c)).

(** [DNSNamesMapping], for the order [es] of the loop over the known peers. *)
Definition DNSNamesMapping (es : list (string * KnownPeer)) : gmap string string :=
  foldl (λ mapping e,
    let knownPeer := e.2 in
    let mapping := <[kp_PeerID knownPeer := kp_IPAddr knownPeer]> mapping in
    if decide (kp_DomainName knownPeer ≠ "")
    then <[kp_DomainName knownPeer := kp_IPAddr knownPeer]> mapping
    else mapping) ∅ es.

(** [DevMode]. *)
Definition DevMode (c : Config) : bool := bool_decide (LoggerLevel c = "dev").

(** ** Unique aliases *)

Definition DefaultPeerAlias : string := "peer".

(** The candidates [alias_0], [alias_1], ... in order; [tries] bounds the loop. *)
Definition suffixed (alias : string) (i : nat) : string := alias +:+ "_" +:+ Itoa i.

Fixpoint alias_loop (tries i : nat) (alias : string) (uniqAliases : gset string) : string :=
  let newAlias := suffixed alias i in
  match tries with
  | O => newAlias
  | S tries => if decide (newAlias ∈ uniqAliases)
               then alias_loop tries (S i) alias uniqAliases else newAlias
  end.

(** [genUniqPeerAlias]: the alias and the updated set of aliases. The loop tries
    at most one candidate more than there are aliases. *)
Definition genUniqPeerAlias (name alias : string) (uniqAliases : option (gset string)) (c : Config)
    : string * gset string :=
  let alias := if decide (alias = "") then
                 if decide (name = "") then DefaultPeerAlias else name
               else alias in
  let uniqAliases := match uniqAliases with
                     | Some u => u
                     | None => list_to_set (kp_Alias <$> known_list c)
                     end in
  let alias := if decide (alias ∈ uniqAliases)
               then alias_loop (size uniqAliases) 0 alias uniqAliases else alias in
  (alias, {[alias]} ∪ uniqAliases).

(** [GenUniqPeerAlias]. *)
Definition GenUniqPeerAlias (name alias : string) (c : Config) : string :=
  (genUniqPeerAlias name alias None c).1.

(** ** Version strings (src/config/version.go) *)

Definition DevVersion : string := "dev".
Definition UserAgentPrefix : string := "awl/".

(** [IsDevVersion], for the version set at build time. *)
Definition IsDevVersion (Version : string) : bool := bool_decide (Version = DevVersion).

(** The package variable [UserAgent], for the system and version of the build. *)
Definition UserAgent (GOOS GOARCH Version : string) : string :=
  UserAgentPrefix +:+ (GOOS +:+ "-" +:+ GOARCH) +:+ "/" +:+ Version.

(** [VersionFromUserAgent]. *)
Definition VersionFromUserAgent (userAgent : string) : string :=
  match LastIndexByte userAgent "/"%char with
  | None => ""
  | Some i => if decide (i = String.length userAgent - 1) then "" else str_drop (i + 1) userAgent
  end.

(** [SystemInfoFromUserAgent]. *)
Definition SystemInfoFromUserAgent (userAgent : string) : string * string :=
  let userAgent := TrimPrefix userAgent UserAgentPrefix in
  match Cut userAgent "/"%char with
  | (systemInfo, _, true) => let '(goos, goarch, _) := Cut systemInfo "-"%char in (goos, goarch)
  | (_, _, false) => ("", "")
  end.

(** ** Facts about the operations *)

Lemma known_list_elem c p : p ∈ known_list c ↔ ∃ k, KnownPeers c !! k = Some p.
Proof.
  unfold known_list. rewrite list_elem_of_fmap. split.
  - intros ([k q] & -> & Hq). exists k. by apply elem_of_map_to_list in Hq.
  - intros [k Hk]. exists (k, p). split; [done|]. by apply elem_of_map_to_list.
Qed.

Lemma IsUniqPeerAlias_spec exclude alias c :
  IsUniqPeerAlias exclude alias c = true ↔
  ∀ k p, KnownPeers c !! k = Some p → kp_PeerID p ≠ exclude → kp_Alias p ≠ alias.
Proof.
  unfold IsUniqPeerAlias. rewrite forallb_forall. split.
  - intros H k p Hk Hne Ha.
    assert (In p (known_list c)) as Hin by (apply list_elem_of_In, known_list_elem; eauto).
    specialize (H p Hin). rewrite orb_true_iff, negb_true_iff in H.
    rewrite bool_decide_eq_true, bool_decide_eq_false in H. naive_solver.
  - intros H p Hin. apply list_elem_of_In, known_list_elem in Hin as [k Hk].
    rewrite orb_true_iff, negb_true_iff, bool_decide_eq_true, bool_decide_eq_false.
    destruct (decide (kp_PeerID p = exclude)); [by left|right; eauto].
Qed.

Lemma suffixed_inj alias : Inj (=) (=) (suffixed alias).
Proof.
  intros i j H. unfold suffixed in H. apply (inj (String.app alias)) in H.
  apply (inj (String.app "_")) in H. by apply Itoa_inj.
Qed.

(** The loop returns the first candidate that is not taken, or the last one it
    is allowed to try. *)
Lemma alias_loop_spec alias u tries : ∀ i,
  ∃ n, alias_loop tries i alias u = suffixed alias n ∧ i ≤ n ≤ i + tries ∧
       (∀ j, i ≤ j < n → suffixed alias j ∈ u) ∧
       (n = i + tries ∨ suffixed alias n ∉ u).
Proof.
  induction tries as [|t IH]; intros i; simpl.
  { exists i. split; [done|]. split; [lia|]. split; [intros; lia|left; lia]. }
  case_decide as Hin.
  - destruct (IH (S i)) as (n & -> & Hn & Hall & Hor). exists n.
    split; [done|]. split; [lia|]. split.
    + intros j Hj. destruct (decide (j = i)) as [->|]; [done|]. apply Hall. lia.
    + destruct Hor; [left; lia|by right].
  - exists i. split; [done|]. split; [lia|]. split; [intros; lia|by right].
Qed.

(** One try more than there are taken aliases always finds a free one. *)
Lemma alias_loop_fresh alias u : alias_loop (size u) 0 alias u ∉ u.
Proof.
  destruct (alias_loop_spec alias u (size u) 0) as (n & -> & Hn & Hall & [Hlast|]); [|done].
  intros Hin.
  assert (list_to_set (suffixed alias <$> seq 0 (S n)) ⊆ u) as Hsub.
  { intros x (j & -> & Hj%elem_of_seq)%elem_of_list_to_set%list_elem_of_fmap.
    destruct (decide (j = n)) as [->|]; [done|]. apply Hall. lia. }
  apply subseteq_size in Hsub. rewrite size_list_to_set in Hsub.
  - rewrite length_fmap, length_seq in Hsub. lia.
  - apply NoDup_fmap_2; [apply suffixed_inj|apply NoDup_seq].
Qed.

Lemma suffixed_nonempty alias i : suffixed alias i ≠ "".
Proof. unfold suffixed. destruct alias; done. Qed.

(** The set of aliases in use. *)
Definition aliases (c : Config) : gset string := list_to_set (kp_Alias <$> known_list c).

Lemma genUniqPeerAlias_spec name alias u c :
  let taken := match u with Some u => u | None => aliases c end in
  let '(a, u') := genUniqPeerAlias name alias u c in
  (a ∉ taken) ∧ a ≠ "" ∧ u' = {[a]} ∪ taken ∧
  (alias ≠ "" → alias ∉ taken → a = alias) ∧
  ∃ base, base = (if decide (alias = "") then if decide (name = "") then DefaultPeerAlias else name
                  else alias) ∧
          (a = base ∨ base ∈ taken ∧ ∃ i, i ≤ size taken ∧ a = suffixed base i).
Proof.
  simpl. fold (aliases c). unfold genUniqPeerAlias. fold (aliases c).
  set (taken := match u with Some _ => _ | None => _ end).
  set (base := if decide (alias = "") then _ else alias).
  assert (base ≠ "") as Hbase by (unfold base; repeat case_decide; done).
  split; [|split; [|split; [done|split]]].
  - case_decide; [apply alias_loop_fresh|done].
  - case_decide; [|done]. destruct (alias_loop_spec base taken (size taken) 0) as (n & -> & _).
    apply suffixed_nonempty.
  - intros Hne Hnt. unfold base. rewrite (decide_False (P := alias = "")) by done.
    by rewrite decide_False.
  - exists base. split; [done|]. case_decide; [right|by left]. split; [done|].
    destruct (alias_loop_spec base taken (size taken) 0) as (n & -> & Hn & _).
    exists n. split; [lia|done].
Qed.

Lemma genUniqPeerAlias_inv name alias u c a u' :
  genUniqPeerAlias name alias (Some u) c = (a, u') →
  (a ∉ u) ∧ a ≠ "" ∧ u' = {[a]} ∪ u ∧ (alias ≠ "" → alias ∉ u → a = alias).
Proof.
  intros E. pose proof (genUniqPeerAlias_spec name alias (Some u) c) as H. cbv zeta in H.
  rewrite E in H. naive_solver.
Qed.

(** ** The configuration as a transition system *)

Inductive conf_op :=
  | OpRemovePeer (peerID : string)
  | OpUpsertPeer (peer : KnownPeer)
  | OpUpsertPeerUnlocked (peer : KnownPeer)
  | OpUpdatePeerLastSeen (now : time) (peerID : string)
  | OpRemoveBlockedPeer (peerID : string)
  | OpUpsertBlockedPeer (now : time) (peerID displayName : string)
  | OpSave.

Definition run_op (op : conf_op) (s : Store) : Store :=
  match op with
  | OpRemovePeer id => (RemovePeer id s).2
  | OpUpsertPeer p => UpsertPeer p s
  | OpUpsertPeerUnlocked p => UpsertPeerUnlocked p s
  | OpUpdatePeerLastSeen now id => UpdatePeerLastSeen now id s
  | OpRemoveBlockedPeer id => RemoveBlockedPeer id s
  | OpUpsertBlockedPeer now id name => UpsertBlockedPeer now id name s
  | OpSave => Save s
  end.

Definition run_ops (ops : list conf_op) (s : Store) : Store := foldl (flip run_op) s ops.

(** Peers are filed under their own ID. *)
Definition keys_wf (c : Config) : Prop :=
  map_Forall (λ k p, kp_PeerID p = k) (KnownPeers c) ∧
  map_Forall (λ k p, bp_PeerID p = k) (BlockedPeers c).

(** What of the peers survives a restart: everything except the time a peer was
    last seen, which is only saved together with another change. *)
Definition durable_peers (c : Config) : gmap string KnownPeer * gmap string BlockedPeer :=
  ((λ p, with_LastSeen p 0) <$> KnownPeers c, BlockedPeers c).

Definition durable (s : Store) : Prop :=
  ∃ d, disk s = Some d ∧ durable_peers d = durable_peers (conf s).

Lemma GetPeer_true id c p : GetPeer id c = (p, true) → KnownPeers c !! id = Some p.
Proof. unfold GetPeer. destruct (KnownPeers c !! id); naive_solver. Qed.

Lemma run_op_keys op s : keys_wf (conf s) → keys_wf (conf (run_op op s)).
Proof.
  intros [Hk Hb]. destruct op; simpl; try done.
  - unfold RemovePeer. destruct (GetPeer peerID (conf s)) as [p []]; simpl; [|done].
    split; [|done]. by apply map_Forall_delete.
  - split; [|done]. by apply map_Forall_insert_2.
  - split; [|done]. by apply map_Forall_insert_2.
  - unfold UpdatePeerLastSeen. destruct (GetPeer peerID (conf s)) as [p []] eqn:E; [|done].
    apply GetPeer_true in E. split; [|done]. apply map_Forall_insert_2; [|done]. by apply Hk in E.
  - unfold RemoveBlockedPeer. destruct (GetBlockedPeer peerID (conf s)) as [p []]; [|done].
    split; [done|]. by apply map_Forall_delete.
  - unfold UpsertBlockedPeer. destruct (GetBlockedPeer peerID (conf s)) as [p e].
    split; [done|]. by apply map_Forall_insert_2.
Qed.

Lemma save_durable s : durable (save s).
Proof. by exists (conf s). Qed.

Lemma run_op_durable op s : durable s → durable (run_op op s).
Proof.
  intros (d & Hd & Heq). destruct op; simpl; try (by eexists).
  - unfold RemovePeer. destruct (GetPeer peerID (conf s)) as [p []]; simpl; by eexists.
  - unfold UpdatePeerLastSeen. destruct (GetPeer peerID (conf s)) as [p []] eqn:E; [|by eexists].
    exists d. split; [done|]. rewrite Heq. unfold durable_peers. simpl. f_equal.
    rewrite fmap_insert. symmetry. apply insert_id. rewrite lookup_fmap.
    apply GetPeer_true in E. by rewrite E.
  - unfold RemoveBlockedPeer. destruct (GetBlockedPeer peerID (conf s)) as [p []]; by eexists.
  - unfold UpsertBlockedPeer. destruct (GetBlockedPeer peerID (conf s)) as [p e]. by eexists.
Qed.

Lemma run_ops_ind (P : Store → Prop) ops s :
  (∀ op s, P s → P (run_op op s)) → P s → P (run_ops ops s).
Proof. intros Hstep. revert s; induction ops; intros s Hs; simpl; [done|]. by apply IHops, Hstep. Qed.

(** ** Facts about version strings *)

Definition no_byte (c : ascii) (s : string) : Prop := c ∉ String.list_ascii_of_string s.

Lemma LastIndexByte_none c s : no_byte c s → LastIndexByte s c = None.
Proof.
  unfold no_byte. induction s as [|a s IH]; simpl; [done|]. intros Hn.
  rewrite IH by set_solver. destruct (Ascii.eqb_spec a c); [set_solver|done].
Qed.

Lemma LastIndexByte_app c p s :
  no_byte c s → LastIndexByte (p +:+ String.String c s) c = Some (String.length p).
Proof.
  intros Hn. induction p as [|a p IH]; simpl.
  - rewrite LastIndexByte_none by done. by rewrite Ascii.eqb_refl.
  - by rewrite IH.
Qed.

Lemma str_drop_app p s : str_drop (String.length p) (p +:+ s) = s.
Proof.
  unfold str_drop. induction p; simpl; [|done].
  rewrite drop_0. apply String.string_of_list_ascii_of_string.
Qed.

Lemma Cut_app c b a : no_byte c b → Cut (b +:+ String.String c a) c = (b, a, true).
Proof.
  unfold no_byte. induction b as [|x b IH]; simpl; intros Hn.
  - by rewrite Ascii.eqb_refl.
  - destruct (Ascii.eqb_spec x c); [set_solver|]. by rewrite IH by set_solver.
Qed.

Lemma strip_prefix_app p s : strip_prefix p (p +:+ s) = Some s.
Proof. induction p; simpl; [done|]. by rewrite Ascii.eqb_refl. Qed.

Lemma string_length_app p s : String.length (p +:+ s) = String.length p + String.length s.
Proof. induction p; simpl; [done|lia]. Qed.

Lemma string_app_assoc a b c : (a +:+ b) +:+ c = a +:+ b +:+ c.
Proof. induction a as [|x a IH]; simpl; [done|]. exact (f_equal (String.String x) IH). Qed.

(** ** Facts about DNS names *)

(** The names a peer is published under. *)
Definition dns_names (p : KnownPeer) : list string :=
  kp_PeerID p :: if decide (kp_DomainName p ≠ "") then [kp_DomainName p] else [].

(** No name is claimed for two different addresses. *)
Definition names_unambiguous (ps : list KnownPeer) : Prop :=
  ∀ p q n, p ∈ ps → q ∈ ps → n ∈ dns_names p → n ∈ dns_names q → kp_IPAddr p = kp_IPAddr q.

Lemma names_unambiguous_check ps :
  Forall (λ p, Forall (λ q, Forall (λ n, n ∈ dns_names q → kp_IPAddr p = kp_IPAddr q)
    (dns_names p)) ps) ps → names_unambiguous ps.
Proof.
  intros H p q n Hp Hq Hn Hn'. rewrite list.Forall_forall in H. specialize (H p Hp).
  rewrite list.Forall_forall in H. specialize (H q Hq).
  rewrite list.Forall_forall in H. by apply (H n).
Qed.

Lemma DNSNamesMapping_snoc es e :
  DNSNamesMapping (es ++ [e]) =
  foldl (λ m n, <[n := kp_IPAddr e.2]> m) (DNSNamesMapping es) (dns_names e.2).
Proof.
  unfold DNSNamesMapping at 1. rewrite foldl_app. simpl. fold (DNSNamesMapping es).
  unfold dns_names. by case_decide.
Qed.

Lemma insert_names_lookup (ns : list string) (ip : string) (m : gmap string string) n :
  foldl (λ m n, <[n := ip]> m) m ns !! n = if decide (n ∈ ns) then Some ip else m !! n.
Proof.
  induction ns as [|x ns IH] using rev_ind; simpl; [done|].
  rewrite foldl_app. simpl. destruct (decide (x = n)) as [->|Hne].
  - rewrite lookup_insert_eq, decide_True; [done|set_solver].
  - rewrite lookup_insert_ne, IH by done. repeat case_decide; set_solver.
Qed.

Lemma DNSNamesMapping_lookup es n ip :
  DNSNamesMapping es !! n = Some ip → ∃ e, e ∈ es ∧ n ∈ dns_names e.2 ∧ ip = kp_IPAddr e.2.
Proof.
  induction es as [|e es IH] using rev_ind; [done|].
  rewrite DNSNamesMapping_snoc, insert_names_lookup. case_decide; intros H'; simplify_eq.
  - exists e. set_solver.
  - destruct (IH H') as (e' & ? & ? & ?). exists e'. set_solver.
Qed.

Lemma DNSNamesMapping_in es n e :
  e ∈ es → n ∈ dns_names e.2 → is_Some (DNSNamesMapping es !! n).
Proof.
  induction es as [|x es IH] using rev_ind; [set_solver|].
  rewrite DNSNamesMapping_snoc, insert_names_lookup. intros He Hn.
  case_decide; [by eexists|]. apply IH; set_solver.
Qed.

(** ** Properties *)

(** Invariant of the store: after any sequence of configuration updates every
    known and every blocked peer is filed under its own peer ID, and the copy on
    disk agrees with memory on every peer except for the time it was last seen. *)
Theorem config_invariant (ops : list conf_op) (s : Store) :
  keys_wf (conf s) → durable s →
  keys_wf (conf (run_ops ops s)) ∧ durable (run_ops ops s).
Proof.
  intros Hk Hd. split.
  - apply (run_ops_ind (λ s, keys_wf (conf s))); [apply run_op_keys|done].
  - apply (run_ops_ind durable); [apply run_op_durable|done].
Qed.

(** C22. [genUniqPeerAlias] terminates with an alias that is not in use, is not
    empty, is the requested alias when that is free and otherwise the requested
    alias (or the peer's name, or "peer") with a numeric suffix of at most the
    number of aliases in use; and it records the alias as used. *)
Theorem genUniqPeerAlias_correct (name alias : string) (u : option (gset string)) (c : Config) :
  let taken := match u with Some u => u | None => aliases c end in
  let '(a, u') := genUniqPeerAlias name alias u c in
  (a ∉ taken) ∧ a ≠ "" ∧ u' = {[a]} ∪ taken ∧
  (alias ≠ "" → alias ∉ taken → a = alias) ∧
  ∃ base, base = (if decide (alias = "") then if decide (name = "") then DefaultPeerAlias else name
                  else alias) ∧
          (a = base ∨ base ∈ taken ∧ ∃ i, i ≤ size taken ∧ a = suffixed base i).
Proof. apply genUniqPeerAlias_spec. Qed.

(** The identity survives: the private key read back after [SetIdentity] is
    the key that was set, in memory and in the saved configuration. *)
Theorem identity_roundtrip `{Base58Laws} `{PeerCodec} (raw : bytes) (id : string) (s : Store) :
  Forall is_byte raw → raw ≠ [] →
  let s' := SetIdentity raw id s in
  PrivKey (conf s') = Some raw ∧ disk s' = Some (conf s') ∧ PeerID (P2pNode (conf s')) = peer_String id.
Proof.
  intros Hb Hne. simpl. split; [|done]. unfold PrivKey. simpl.
  rewrite decide_False by (by apply b58_Encode_nonempty). by apply b58_Decode_Encode.
Qed.

(** Round trip of the user agent: the version and the system a build announces
    are the ones a peer reads back, when the system name has no separator and the
    version and architecture have no slash. *)
Theorem user_agent_roundtrip (GOOS GOARCH Version : string) :
  no_byte "/"%char Version → Version ≠ "" →
  no_byte "/"%char GOOS → no_byte "-"%char GOOS → no_byte "/"%char GOARCH →
  VersionFromUserAgent (UserAgent GOOS GOARCH Version) = Version ∧
  SystemInfoFromUserAgent (UserAgent GOOS GOARCH Version) = (GOOS, GOARCH).
Proof.
  intros Hv Hne Hos Hos' Harch. unfold UserAgent. split.
  - unfold VersionFromUserAgent.
    set (p := UserAgentPrefix +:+ (GOOS +:+ "-" +:+ GOARCH)).
    replace (UserAgentPrefix +:+ (GOOS +:+ "-" +:+ GOARCH) +:+ "/" +:+ Version)
      with (p +:+ String.String "/" Version) by (unfold p; by rewrite !string_app_assoc).
    rewrite LastIndexByte_app by done. rewrite decide_False.
    + change (String.String "/" Version) with ("/" +:+ Version).
      replace (String.length p + 1) with (String.length (p +:+ "/"))
        by (rewrite string_length_app; simpl; lia).
      rewrite <- string_app_assoc. apply str_drop_app.
    + rewrite string_length_app. simpl. destruct Version; simpl; [done|lia].
  - unfold SystemInfoFromUserAgent, TrimPrefix. rewrite strip_prefix_app. simpl.
    change ("/" +:+ Version) with (String.String "/" Version). rewrite Cut_app.
    + change ("-" +:+ GOARCH) with (String.String "-" GOARCH). by rewrite Cut_app.
    + unfold no_byte in *. change ("-" +:+ GOARCH) with (String.String "-" GOARCH).
      assert (∀ a b, String.list_ascii_of_string (a +:+ b)
        = String.list_ascii_of_string a ++ String.list_ascii_of_string b) as Happ
        by (intros a b; induction a as [|x a IH]; simpl; [done|exact (f_equal (cons x) IH)]).
      rewrite Happ. simpl. set_solver.
Qed.

Lemma DNSNamesMapping_unambiguous c es key k n :
  ranges (KnownPeers c) es → names_unambiguous (known_list c) →
  KnownPeers c !! key = Some k → n ∈ dns_names k → DNSNamesMapping es !! n = Some (kp_IPAddr k).
Proof.
  intros Hes Hun Hk Hn.
  assert ((key, k) ∈ es) as He by (by apply (ranges_elem (KnownPeers c))).
  destruct (DNSNamesMapping_in es n (key, k) He Hn) as [ip Hip]. rewrite Hip. f_equal.
  apply DNSNamesMapping_lookup in Hip as ([k' q] & Hq & Hn' & ->). simpl in *.
  apply (ranges_elem (KnownPeers c)) in Hq; [|done].
  apply (Hun q k n); eauto; apply known_list_elem; eauto.
Qed.

(** Whatever order the known peers are visited in, the names published to the
    DNS are exactly the peer IDs and the non-empty domain names, each with the
    address of a peer that has the name; and when no name is claimed for two
    addresses, every name of a peer is published with that peer's address. *)
Theorem dns_names_mapping_correct (c : Config) (es : list (string * KnownPeer)) :
  ranges (KnownPeers c) es →
  (∀ n ip, DNSNamesMapping es !! n = Some ip →
     ∃ k p, KnownPeers c !! k = Some p ∧ n ∈ dns_names p ∧ ip = kp_IPAddr p) ∧
  (names_unambiguous (known_list c) →
   ∀ k p n, KnownPeers c !! k = Some p → n ∈ dns_names p →
     DNSNamesMapping es !! n = Some (kp_IPAddr p)).
Proof.
  intros Hes. split.
  - intros n ip ([k p] & He & Hn & ->)%DNSNamesMapping_lookup.
    exists k, p. split; [by apply (ranges_elem _ es)|done].
  - intros Hun k p n Hp Hn. by eapply DNSNamesMapping_unambiguous.
Qed.

Definition sample_peer (id name alias ip domain : string) : KnownPeer :=
  mkKnownPeer id name alias ip domain 1 0 true false false false "".

Definition sample_store : Store := save (mkStore zeroConfig None 0).

Lemma config_invariant_witness :
  keys_wf (conf (run_ops [OpUpsertPeer (sample_peer "a" "n" "al" "10.66.0.2" "d");
                          OpUpdatePeerLastSeen 7 "a"; OpUpsertBlockedPeer 8 "b" "x"] sample_store)) ∧
  durable (run_ops [OpUpsertPeer (sample_peer "a" "n" "al" "10.66.0.2" "d");
                    OpUpdatePeerLastSeen 7 "a"; OpUpsertBlockedPeer 8 "b" "x"] sample_store).
Proof.
  apply config_invariant.
  - split; apply map_Forall_empty.
  - apply save_durable.
Defined.

(** A base58 stand-in for the witness: the bytes themselves behind a marker. *)
Definition toy_base58 : Base58 := {|
  b58_Encode b := String.String "b" (bytes_str b);
  b58_Decode s := match s with String.String _ t => Some (str_bytes t) | String.EmptyString => None end |}.

Lemma toy_base58_laws : @Base58Laws toy_base58.
Proof.
  split; simpl.
  - intros b Hb. by rewrite str_bytes_str.
  - done.
Qed.

Definition toy_codec : PeerCodec := {|
  peer_Decode s := if decide (s = "") then None else Some s;
  peer_String s := s |}.

Lemma identity_roundtrip_witness :
  @PrivKey toy_base58 (conf (@SetIdentity toy_base58 toy_codec [7; 8]%Z "me" sample_store)) = Some [7; 8]%Z.
Proof.
  apply (@identity_roundtrip toy_base58 toy_base58_laws toy_codec [7; 8]%Z "me" sample_store).
  - repeat constructor; unfold is_byte; lia.
  - discriminate.
Defined.

Lemma user_agent_roundtrip_witness :
  VersionFromUserAgent (UserAgent "linux" "amd64" "v0.12.0") = "v0.12.0" ∧
  SystemInfoFromUserAgent (UserAgent "linux" "amd64" "v0.12.0") = ("linux", "amd64").
Proof.
  apply user_agent_roundtrip; apply (bool_decide_unpack _); vm_compute; exact I.
Defined.

Definition sample_conf : Config :=
  with_KnownPeers zeroConfig
    {[ "idA" := sample_peer "idA" "a" "a" "10.66.0.2" "a"; "idB" := sample_peer "idB" "b" "b" "10.66.0.3" "b" ]}.

Lemma dns_names_mapping_correct_witness :
  DNSNamesMapping (map_to_list (KnownPeers sample_conf)) !! "b" = Some "10.66.0.3".
Proof.
  destruct (dns_names_mapping_correct sample_conf (map_to_list (KnownPeers sample_conf)) (ranges_self _))
    as [_ H].
  apply (H (names_unambiguous_check (known_list sample_conf) ltac:(apply (bool_decide_unpack _); vm_compute; exact I))
    "idB" (sample_peer "idB" "b" "b" "10.66.0.3" "b")); [reflexivity|].
  apply (bool_decide_unpack _). vm_compute. exact I.
Defined.

#[global] Arguments genUniqPeerAlias : simpl never.
