(* ===== verification/NetworkAddr.v ===== *)
(** * Addresses of the virtual network (src/config/network_addr.go)

    Each known peer has an address of the VPN subnet. [GenerateNextIpAddr] picks
    the successor of the largest address in use; [CheckIPUnique] validates an
    address a user asks for. *)

From S2P Require Import Prelude GoStrings GoNet Externals Config.
Local Open Scope Z_scope.

Definition DefaultVPNInterfaceName : string := "awl0".
Definition DefaultVPNNetworkSubnet : string := "10.66.0.1/24".

(** [binary.BigEndian.Uint32] panics on fewer than four bytes. *)
Definition Uint32 (b : bytes) : outcome Z :=
  if decide (length b < 4)%nat then Panic else Ok (be_combine (take 4 b)).

(** [VPNLocalIPMask] and [VPNLocalIPMaskUnlocked]: both nil when the text is not
    a CIDR block. *)
Definition VPNLocalIPMask (c : Config) : bytes * bytes :=
  match ParseCIDR (IPNetText (cVPN c)) with
  | None => ([], [])
  | Some (localIP, ipNet) => (To4 localIP, net_Mask ipNet)
  end.

Definition vpn_net (c : Config) : IPNet :=
  let '(localIP, netMask) := VPNLocalIPMask c in mkIPNet (IP_Mask localIP netMask) netMask.

(** One round of the loop that looks for the largest address in use. *)
Definition max_ip_step (ipNet : IPNet) (maxIp : bytes) (known : KnownPeer) : outcome bytes :=
  let ip := ParseIP (kp_IPAddr known) in
  if decide (ip = []) then Ok maxIp
  else
    let ip := To4 ip in
    if Contains ipNet ip then
      a ← Uint32 ip; b ← Uint32 maxIp;
      if decide (b < a) then Ok ip else Ok maxIp
    else Ok maxIp.

Fixpoint max_ip (ipNet : IPNet) (maxIp : bytes) (peers : list KnownPeer) : outcome bytes :=
  match peers with
  | [] => Ok maxIp
  | known :: peers => maxIp ← max_ip_step ipNet maxIp known; max_ip ipNet maxIp peers
  end.

(** [incrementIPAddr]. *)
Definition incrementIPAddr (ip : bytes) : outcome bytes :=
  i ← Uint32 ip; Ok (be_split 4 (u32 (i + 1))).

(** The search for the next address that is not excluded; [tries] bounds it. *)
Definition out_of_fuel : string := "out of fuel".
Fixpoint next_ip (tries : nat) (maxIp : bytes) (except : list string) : outcome string :=
  match tries with
  | O => Fail out_of_fuel
  | S tries =>
      newIp ← incrementIPAddr maxIp;
      let newIpStr := ip4_string newIp in
      if decide (newIpStr ∈ except) then next_ip tries newIp except else Ok newIpStr
  end.

(** [GenerateNextIpAddrExcept], for the order [peers] of the loop. *)
Definition generate_next (c : Config) (peers : list KnownPeer) (except : list string) : outcome string :=
  maxIp ← max_ip (vpn_net c) (VPNLocalIPMask c).1 peers;
  next_ip (S (length except)) maxIp except.

Definition GenerateNextIpAddrExcept (except : list string) (c : Config) : outcome string :=
  generate_next c (known_list c) except.

(** [GenerateNextIpAddr]. *)
Definition GenerateNextIpAddr (c : Config) : outcome string := GenerateNextIpAddrExcept [] c.

(** The loop of [CheckIPUnique] over the known peers. *)
Definition ip_taken (checkIP exceptPeerID : string) (peer : KnownPeer) : bool :=
  bool_decide (kp_IPAddr peer = checkIP) &&
  negb (bool_decide (exceptPeerID ≠ "" ∧ kp_PeerID peer = exceptPeerID)).

(** [CheckIPUnique]; [As4] panics on an IPv6 address. *)
Definition CheckIPUnique (checkIP exceptPeerID : string) (c : Config) : outcome unit :=
  match ParseAddr checkIP with
  | None => Fail "invalid IP"
  | Some addr =>
      ip ← As4 addr;
      if Contains (vpn_net c) ip then
        if existsb (ip_taken checkIP exceptPeerID) (known_list c)
        then Fail "ip is already used by peer" else Ok tt
      else Fail "IP does not belong to subnet"
  end.

(** ** Facts *)

(** The configured network is an IPv4 block whose mask fits the address. *)
Definition vpn_valid (c : Config) : Prop :=
  valid4 (VPNLocalIPMask c).1 ∧ net_IP (vpn_net c) ≠ [].

Lemma Uint32_valid ip : valid4 ip → Uint32 ip = Ok (be_combine ip).
Proof. intros [Hl _]. unfold Uint32. rewrite decide_False by lia. by rewrite take_ge by lia. Qed.

Lemma be_combine4_bound ip : valid4 ip → 0 ≤ be_combine ip < 2 ^ 32.
Proof. intros [Hl Hb]. pose proof (be_combine_bound ip Hb) as H. rewrite Hl in H. apply H. Qed.

Lemma incrementIPAddr_spec ip :
  valid4 ip → ∃ ip', incrementIPAddr ip = Ok ip' ∧ valid4 ip' ∧ be_combine ip' = u32 (be_combine ip + 1).
Proof.
  intros Hv. unfold incrementIPAddr. rewrite Uint32_valid by done. simpl.
  eexists; split; [done|]. split.
  - split; [apply length_be_split|apply be_split_is_byte].
  - apply be_combine_split. apply Z.mod_pos_bound. lia.
Qed.

(** The address of a known peer that counts: the parsed IPv4 address, when it is
    in the network. *)
Definition counted (ipNet : IPNet) (p : KnownPeer) : Prop :=
  valid4 (To4 (ParseIP (kp_IPAddr p))) ∧ Contains ipNet (To4 (ParseIP (kp_IPAddr p))) = true.

(** A network of an IPv4 address never contains the nil address. *)
Lemma Contains_nil n : length (net_IP n) = 4%nat → length (net_Mask n) = 4%nat ∨ length (net_Mask n) = 16%nat →
  Contains n [] = false.
Proof.
  intros Hl Hm. unfold Contains, networkNumberAndMask.
  rewrite To4_id by done. rewrite (decide_False (P := net_IP n = [])) by (by destruct (net_IP n)).
  rewrite (decide_False (P := net_IP n = [] ∧ _)) by (destruct (net_IP n); naive_solver).
  simpl. destruct Hm as [Hm|Hm]; rewrite Hm; simpl; rewrite Hl; [|done].
  rewrite (decide_True (P := 4%nat = 4%nat)) by done. by rewrite Hl.
Qed.

Lemma max_ip_step_spec ipNet maxIp p :
  valid4 maxIp → Contains ipNet [] = false →
  ∃ m, max_ip_step ipNet maxIp p = Ok m ∧ valid4 m ∧
       (m = maxIp ∨ counted ipNet p ∧ m = To4 (ParseIP (kp_IPAddr p))) ∧
       be_combine maxIp ≤ be_combine m ∧
       (counted ipNet p → be_combine (To4 (ParseIP (kp_IPAddr p))) ≤ be_combine m).
Proof.
  intros Hv Hnil. unfold max_ip_step. pose proof (ParseIP_bytes (kp_IPAddr p)) as Hb.
  case_decide as He.
  { exists maxIp. split; [done|]. split; [done|]. split; [by left|]. split; [lia|].
    intros [[Hl _] _]. by rewrite He in Hl. }
  destruct (Contains ipNet (To4 (ParseIP (kp_IPAddr p)))) eqn:Ec.
  2:{ exists maxIp. split; [done|]. split; [done|]. split; [by left|]. split; [lia|].
      intros [_ Hc]. congruence. }
  destruct (To4_valid _ Hb) as [Hn|Hv4]; [rewrite Hn in Ec; congruence|].
  rewrite !Uint32_valid by done. simpl.
  assert (counted ipNet p) as Hcnt by (split; done).
  case_decide; eexists; (split; [reflexivity|]); (split; [done|]).
  - split; [by right|]. split; [lia|]. intros; lia.
  - split; [by left|]. split; [lia|]. intros; lia.
Qed.

Lemma max_ip_spec ipNet peers : ∀ maxIp,
  valid4 maxIp → Contains ipNet [] = false →
  ∃ m, max_ip ipNet maxIp peers = Ok m ∧ valid4 m ∧
       (m = maxIp ∨ ∃ p, p ∈ peers ∧ counted ipNet p ∧ m = To4 (ParseIP (kp_IPAddr p))) ∧
       be_combine maxIp ≤ be_combine m ∧
       (∀ p, p ∈ peers → counted ipNet p → be_combine (To4 (ParseIP (kp_IPAddr p))) ≤ be_combine m).
Proof.
  induction peers as [|q peers IH]; intros maxIp Hv Hnil; simpl.
  { exists maxIp. split; [done|]. split; [done|]. split; [by left|]. split; [lia|]. set_solver. }
  destruct (max_ip_step_spec ipNet maxIp q Hv Hnil) as (m1 & -> & Hv1 & Hor1 & Hle1 & Hc1). simpl.
  destruct (IH m1 Hv1 Hnil) as (m & -> & Hv2 & Hor2 & Hle2 & Hc2).
  exists m. split; [done|]. split; [done|]. split; [|split; [lia|]].
  - destruct Hor2 as [->|(p & ? & ? & ?)]; [|right; exists p; set_solver].
    destruct Hor1 as [->|[? ->]]; [by left|right; exists q; set_solver].
  - intros p Hp Hcnt. apply elem_of_cons in Hp as [->|Hp]; [|by apply Hc2].
    specialize (Hc1 Hcnt). lia.
Qed.

(** The largest address does not depend on the order of the loop. *)
Lemma max_ip_perm ipNet maxIp peers peers' :
  valid4 maxIp → Contains ipNet [] = false → peers ≡ₚ peers' →
  max_ip ipNet maxIp peers = max_ip ipNet maxIp peers'.
Proof.
  intros Hv Hnil Hp.
  destruct (max_ip_spec ipNet peers maxIp Hv Hnil) as (m1 & -> & Hv1 & Hor1 & Hle1 & Hc1).
  destruct (max_ip_spec ipNet peers' maxIp Hv Hnil) as (m2 & -> & Hv2 & Hor2 & Hle2 & Hc2).
  f_equal. apply be_combine_inj; [apply Hv1|apply Hv2|destruct Hv1, Hv2; congruence|].
  apply Z.le_antisymm.
  - destruct Hor1 as [->|(p & Hin & Hcnt & ->)]; [done|]. apply Hc2; [by rewrite <- Hp|done].
  - destruct Hor2 as [->|(p & Hin & Hcnt & ->)]; [done|]. apply Hc1; [by rewrite Hp|done].
Qed.

(** The network of a valid configuration does not contain the nil address. *)
Lemma zip_land_length (a b : bytes) : length a = length b → length (zip_with Z.land a b) = length a.
Proof. intros. rewrite length_zip_with. lia. Qed.

Lemma length_cidr_mask n len : length (cidr_mask n len) = len.
Proof. revert n; induction len; intros; simpl; [done|]. case_decide; simpl; by rewrite IHlen. Qed.

Lemma VPN_mask_length c : vpn_valid c →
  length (VPNLocalIPMask c).2 = 4%nat ∨ length (VPNLocalIPMask c).2 = 16%nat.
Proof.
  unfold vpn_valid, VPNLocalIPMask. destruct (ParseCIDR _) as [[ip n]|] eqn:E; [|by intros [[? _] _]].
  intros _. simpl. unfold ParseCIDR in E. destruct (cut_at _ _) as [addr [mask|]]; [|done].
  destruct (ParseAddr _) as [a|]; simpl in E; [|done]. case_decide; [done|].
  destruct (if decide (mask = []) then None else dtoi mask 0) as [k|]; simpl in E; [|done].
  case_decide; [done|]. simplify_eq/=. rewrite length_cidr_mask. destruct a; auto.
Qed.

Lemma vpn_net_nil c : vpn_valid c → Contains (vpn_net c) [] = false.
Proof.
  intros Hv. pose proof (VPN_mask_length c Hv) as Hm. destruct Hv as [[Hl _] Hne].
  unfold vpn_net in *. destruct (VPNLocalIPMask c) as [ip m]. simpl in *.
  apply Contains_nil; [|done]. simpl. revert Hne.
  unfold IP_Mask. set (m' := if decide _ then drop 12 m else m). set (ip' := if decide _ then _ else ip).
  assert (ip' = ip) as -> by (unfold ip'; rewrite decide_False; [done|lia]).
  case_decide as Hd; [|done]. intros _. by rewrite zip_land_length by done.
Qed.

(** ** Search for a free address *)

(** The [k]-th successor of an address, in the 2^32 addresses. *)
Definition nth_ip (ip : bytes) (k : nat) : bytes := be_split 4 (u32 (be_combine ip + Z.of_nat k)).

Lemma nth_ip_valid ip k : valid4 (nth_ip ip k).
Proof. split; [apply length_be_split|apply be_split_is_byte]. Qed.

Lemma nth_ip_combine ip k : be_combine (nth_ip ip k) = u32 (be_combine ip + Z.of_nat k).
Proof. apply be_combine_split. apply Z.mod_pos_bound. lia. Qed.

Lemma incrementIPAddr_nth ip k : incrementIPAddr (nth_ip ip k) = Ok (nth_ip ip (S k)).
Proof.
  unfold incrementIPAddr. rewrite Uint32_valid by apply nth_ip_valid. simpl. unfold nth_ip at 2.
  rewrite nth_ip_combine. do 2 f_equal. unfold u32.
  rewrite Z.add_mod_idemp_l by lia. f_equal. lia.
Qed.

Lemma nth_ip_0 ip : valid4 ip → nth_ip ip 0 = ip.
Proof.
  intros Hv. pose proof (be_combine4_bound ip Hv). unfold nth_ip.
  rewrite Z.add_0_r, u32_small by done. destruct Hv as [Hl Hb].
  rewrite <- Hl. by apply be_split_combine.
Qed.

Lemma nth_ip_inj ip i j :
  Z.of_nat i < 2 ^ 32 → Z.of_nat j < 2 ^ 32 → nth_ip ip i = nth_ip ip j → i = j.
Proof.
  intros Hi Hj Heq. apply (f_equal be_combine) in Heq. rewrite !nth_ip_combine in Heq.
  unfold u32 in Heq. set (x := be_combine ip) in *.
  assert ((Z.of_nat i - Z.of_nat j) `mod` 2 ^ 32 = 0) as Hmod.
  { replace (Z.of_nat i - Z.of_nat j) with ((x + Z.of_nat i) - (x + Z.of_nat j)) by lia.
    rewrite Zminus_mod, Heq, Z.sub_diag. done. }
  apply Z.mod_divide in Hmod as [q Hq]; [|lia]. nia.
Qed.

Lemma next_ip_spec tries : ∀ ip k except,
  (∃ n, (k < n ≤ k + tries)%nat ∧ next_ip tries (nth_ip ip k) except = Ok (ip4_string (nth_ip ip n)) ∧
        (ip4_string (nth_ip ip n) ∉ except) ∧
        ∀ j, (k < j < n)%nat → ip4_string (nth_ip ip j) ∈ except)
  ∨ (∀ j, (k < j ≤ k + tries)%nat → ip4_string (nth_ip ip j) ∈ except).
Proof.
  induction tries as [|t IH]; intros ip k except; cbn [next_ip]; [right; intros; lia|].
  rewrite incrementIPAddr_nth. simpl. case_decide as Hin.
  - destruct (IH ip (S k) except) as [(n & Hn & -> & Hfree & Hall)|Hall].
    + left. exists n. split; [lia|]. split; [done|]. split; [done|].
      intros j Hj. destruct (decide (j = S k)) as [->|]; [done|]. apply Hall. lia.
    + right. intros j Hj. destruct (decide (j = S k)) as [->|]; [done|]. apply Hall. lia.
  - left. exists (S k). split; [lia|]. split; [done|]. split; [done|]. intros; lia.
Qed.

Lemma next_ip_found ip except :
  valid4 ip → Z.of_nat (length except) < 2 ^ 32 - 1 →
  ∃ n, (0 < n ≤ S (length except))%nat ∧
       next_ip (S (length except)) ip except = Ok (ip4_string (nth_ip ip n)) ∧
       (ip4_string (nth_ip ip n) ∉ except) ∧
       ∀ j, (0 < j < n)%nat → ip4_string (nth_ip ip j) ∈ except.
Proof.
  intros Hv Hlen. destruct (next_ip_spec (S (length except)) ip 0 except) as [(n & Hn & H)|Hall].
  { exists n. rewrite nth_ip_0 in H by done. split; [lia|]. naive_solver. }
  exfalso.
  set (l := (λ j, ip4_string (nth_ip ip j)) <$> seq 1 (S (length except))).
  assert (NoDup l) as Hnd.
  { apply NoDup_fmap_2_strong; [|apply NoDup_seq].
    intros i j Hi%elem_of_seq Hj%elem_of_seq Heq.
    apply ip4_string_inj in Heq; [|apply nth_ip_valid..].
    apply nth_ip_inj in Heq; lia. }
  assert (l ⊆+ except) as Hsub.
  { apply NoDup_submseteq; [done|]. intros x (j & -> & Hj%elem_of_seq)%list_elem_of_fmap.
    apply Hall. lia. }
  apply submseteq_length in Hsub. unfold l in Hsub. rewrite length_fmap, length_seq in Hsub. lia.
Qed.

Lemma generate_next_spec c except :
  vpn_valid c → Z.of_nat (length except) < 2 ^ 32 - 1 →
  ∃ m n, max_ip (vpn_net c) (VPNLocalIPMask c).1 (known_list c) = Ok m ∧ valid4 m ∧
    (be_combine (VPNLocalIPMask c).1 ≤ be_combine m) ∧
    (∀ k p, KnownPeers c !! k = Some p → counted (vpn_net c) p →
       be_combine (To4 (ParseIP (kp_IPAddr p))) ≤ be_combine m) ∧
    (0 < n ≤ S (length except))%nat ∧
    GenerateNextIpAddrExcept except c = Ok (ip4_string (nth_ip m n)) ∧
    ip4_string (nth_ip m n) ∉ except.
Proof.
  intros Hv Hlen. pose proof (vpn_net_nil c Hv) as Hnil. destruct Hv as [Hv _].
  destruct (max_ip_spec (vpn_net c) (known_list c) _ Hv Hnil) as (m & Hm & Hvm & _ & Hle & Hall).
  destruct (next_ip_found m except Hvm Hlen) as (n & Hn & Hnext & Hfree & _).
  exists m, n. split; [done|]. split; [done|]. split; [done|]. split.
  { intros k p Hp. apply Hall. apply known_list_elem. eauto. }
  split; [done|]. split; [|done].
  unfold GenerateNextIpAddrExcept, generate_next. rewrite Hm. done.
Qed.

(** ** Properties *)

(** C20. The address [GenerateNextIpAddrExcept] returns: it always returns one (it
    neither panics nor runs forever); the address is not in the excluded list;
    and when it lies in the VPN network, above the node's own address, it is
    different from the address of every known peer. *)
Theorem generated_ip_is_free (c : Config) (except : list string) :
  vpn_valid c → Z.of_nat (length except) < be_combine (VPNLocalIPMask c).1 →
  ∃ ip, GenerateNextIpAddrExcept except c = Ok (ip4_string ip) ∧ valid4 ip ∧
    (ip4_string ip ∉ except) ∧
    (be_combine (VPNLocalIPMask c).1 < be_combine ip → Contains (vpn_net c) ip = true →
     ∀ k p, KnownPeers c !! k = Some p → kp_IPAddr p ≠ ip4_string ip).
Proof.
  intros Hv Hlen. pose proof (be_combine4_bound _ (proj1 Hv)) as Hb0.
  destruct (generate_next_spec c except Hv ltac:(lia)) as (m & n & _ & Hvm & Hle & Hall & Hn & Hgen & Hfree).
  exists (nth_ip m n). split; [done|]. split; [apply nth_ip_valid|]. split; [done|].
  intros Hlt Hin k p Hp Heq.
  assert (be_combine (nth_ip m n) ≤ be_combine m) as Hbad.
  { pose proof (Hall k p Hp) as H. rewrite Heq in H.
    rewrite ParseIP_ip4_string in H by apply nth_ip_valid. apply H.
    unfold counted. rewrite Heq, ParseIP_ip4_string by apply nth_ip_valid.
    split; [apply nth_ip_valid|done]. }
  rewrite nth_ip_combine in *. pose proof (be_combine4_bound m Hvm) as Hb.
  unfold u32 in *. destruct (decide (be_combine m + Z.of_nat n < 2 ^ 32)).
  - rewrite Z.mod_small in Hbad by lia. lia.
  - assert ((be_combine m + Z.of_nat n) `mod` 2 ^ 32 = be_combine m + Z.of_nat n - 2 ^ 32) as Hw.
    { rewrite <- (Z_mod_plus_full _ (-1)). apply Z.mod_small. lia. }
    rewrite Hw in *. lia.
Qed.

(** The order in which the known peers are visited does not matter: for every
    order the generated address is the same. *)
Theorem generated_ip_order_independent (c : Config) (except : list string) (peers : list KnownPeer) :
  vpn_valid c → peers ≡ₚ known_list c →
  generate_next c peers except = GenerateNextIpAddrExcept except c.
Proof.
  intros Hv Hp. unfold GenerateNextIpAddrExcept, generate_next.
  rewrite (max_ip_perm _ _ peers (known_list c)); [done|apply Hv|by apply vpn_net_nil|done].
Qed.

(** A text in the dotted notation in which addresses are generated, and the address a
    text stands for. *)
Definition dotted (s : string) : Prop := ∃ ip, valid4 ip ∧ s = ip4_string ip.
Definition addr_of (s : string) : bytes := To4 (ParseIP s).

(** Among dotted texts, different texts are different addresses. *)
Lemma dotted_inj s1 s2 : dotted s1 → dotted s2 → addr_of s1 = addr_of s2 → s1 = s2.
Proof. intros (ip1 & H1 & ->) (ip2 & H2 & ->). unfold addr_of. rewrite !ParseIP_ip4_string by done. by intros ->. Qed.

(** What [CheckIPUnique] accepts and where it panics: the addresses are compared as texts. *)
Lemma CheckIPUnique_spec (checkIP exceptPeerID : string) (c : Config) :
  (CheckIPUnique checkIP exceptPeerID c = Ok tt ↔
   ∃ addr ip, ParseAddr checkIP = Some addr ∧ As4 addr = Ok ip ∧ Contains (vpn_net c) ip = true ∧
     ∀ k p, KnownPeers c !! k = Some p → kp_IPAddr p = checkIP →
            exceptPeerID ≠ "" ∧ kp_PeerID p = exceptPeerID) ∧
  (CheckIPUnique checkIP exceptPeerID c = Panic ↔
   ∃ b zone, ParseAddr checkIP = Some (Addr6 b zone) ∧ take 12 b ≠ v4InV6Prefix).
Proof.
  unfold CheckIPUnique. destruct (ParseAddr checkIP) as [addr|]; [|naive_solver].
  assert (As4 addr = Panic ↔ ∃ b zone, addr = Addr6 b zone ∧ take 12 b ≠ v4InV6Prefix) as HP.
  { unfold As4. destruct addr; [naive_solver|]. case_decide; naive_solver. }
  destruct (As4 addr) as [ip|e|] eqn:E4; simpl.
  2:{ unfold As4 in E4. destruct addr; [done|]. by case_decide. }
  2:{ destruct HP as [HP _]. destruct (HP eq_refl) as (b & z & -> & Hb).
      split; split; [done| |eauto|done].
      intros (a & i & Ha & Hi & _). apply (inj Some) in Ha. subst a. congruence. }
  split.
  2:{ split; [by repeat case_match|]. intros (b & z & ? & ?). simplify_eq.
      assert (Ok ip = Panic) by (apply HP; eauto). done. }
  destruct (Contains (vpn_net c) ip) eqn:Ec; [|naive_solver congruence].
  destruct (existsb (ip_taken checkIP exceptPeerID) (known_list c)) eqn:Ex.
  - apply existsb_exists in Ex as (p & Hin & Ht).
    apply list_elem_of_In, known_list_elem in Hin as [k Hk]. unfold ip_taken in Ht.
    apply andb_true_iff in Ht as [Ha Hb]. apply bool_decide_eq_true in Ha.
    apply negb_true_iff, bool_decide_eq_false in Hb.
    split; [done|]. intros (a & i & ? & ? & _ & Hno). destruct Hb. by apply (Hno k p).
  - split; [|done]. intros _. exists addr, ip. repeat split; try done.
    + intros ->. apply not_true_iff_false in Ex. apply Ex. apply existsb_exists.
      exists p. split; [apply list_elem_of_In, known_list_elem; eauto|].
      unfold ip_taken. rewrite bool_decide_eq_true_2 by done.
      rewrite bool_decide_eq_false_2; [done|naive_solver].
    + destruct (decide (kp_PeerID p = exceptPeerID)); [done|]. exfalso.
      apply not_true_iff_false in Ex. apply Ex. apply existsb_exists.
      exists p. split; [apply list_elem_of_In, known_list_elem; eauto|].
      unfold ip_taken. rewrite bool_decide_eq_true_2 by done.
      rewrite bool_decide_eq_false_2; [done|naive_solver].
Qed.

(** An accepted dotted address is the address of no other peer, when the peers have dotted
    addresses too. *)
Lemma CheckIPUnique_free checkIP exceptPeerID c k p :
  CheckIPUnique checkIP exceptPeerID c = Ok tt → dotted checkIP → dotted (kp_IPAddr p) →
  KnownPeers c !! k = Some p → addr_of (kp_IPAddr p) = addr_of checkIP → exceptPeerID ≠ "" ∧ kp_PeerID p = exceptPeerID.
Proof.
  intros (addr & ip & _ & _ & _ & Hfree)%CheckIPUnique_spec Hd Hp Hk E. apply (Hfree k p Hk). by apply dotted_inj.
Qed.

(** C21. [CheckIPUnique] compares texts: it accepts exactly an IPv4 address (or an IPv4
    address embedded in IPv6) of the VPN network whose text is not the address of a known
    peer other than the excepted one, and it panics exactly on other IPv6 addresses. So when
    the text and the addresses of the peers are in dotted notation, as the generated ones
    are, it accepts exactly the addresses of the network that no other peer has. (In other
    notations two texts can be one address: [embedded_address_accepted].) *)
Theorem check_ip_unique_correct (checkIP exceptPeerID : string) (c : Config) :
  (CheckIPUnique checkIP exceptPeerID c = Ok tt ↔
   ∃ addr ip, ParseAddr checkIP = Some addr ∧ As4 addr = Ok ip ∧ Contains (vpn_net c) ip = true ∧
     ∀ k p, KnownPeers c !! k = Some p → kp_IPAddr p = checkIP →
            exceptPeerID ≠ "" ∧ kp_PeerID p = exceptPeerID) ∧
  (CheckIPUnique checkIP exceptPeerID c = Panic ↔
   ∃ b zone, ParseAddr checkIP = Some (Addr6 b zone) ∧ take 12 b ≠ v4InV6Prefix) ∧
  (dotted checkIP → (∀ k p, KnownPeers c !! k = Some p → dotted (kp_IPAddr p)) →
   CheckIPUnique checkIP exceptPeerID c = Ok tt ↔
   Contains (vpn_net c) (addr_of checkIP) = true ∧
     ∀ k p, KnownPeers c !! k = Some p → addr_of (kp_IPAddr p) = addr_of checkIP →
            exceptPeerID ≠ "" ∧ kp_PeerID p = exceptPeerID).
Proof.
  destruct (CheckIPUnique_spec checkIP exceptPeerID c) as [Hok Hpanic]. split; [exact Hok|]. split; [exact Hpanic|].
  intros Hd Hps. split.
  - intros E. split; [|intros k p Hk; by apply (CheckIPUnique_free checkIP exceptPeerID c k p E Hd (Hps k p Hk))].
    apply Hok in E as (addr & ip & Ea & E4 & Hc & _). destruct Hd as (ip' & Hv & ->).
    unfold addr_of. rewrite ParseIP_ip4_string by done. rewrite ParseAddr_ip4_string in Ea by done.
    injection Ea as <-. simpl in E4. by injection E4 as ->.
  - intros [Hc Hfree]. apply Hok. destruct Hd as (ip & Hv & ->). exists (Addr4 ip), ip. rewrite ParseAddr_ip4_string by done.
    unfold addr_of in Hc. rewrite ParseIP_ip4_string in Hc by done. split_and!; [done|done|done|].
    intros k p Hk Hip. apply (Hfree k p Hk). by rewrite Hip.
Qed.

Definition conf_with (peers : gmap string KnownPeer) : Config :=
  with_KnownPeers (mkConfig "" "" "" "" false (mkHttpBasicAuthConfig "" "")
    (mkP2pNodeConfig "" "" "" [] None [] 0 false false 0)
    (mkVPNConfig false "awl0" DefaultVPNNetworkSubnet) (mkSOCKS5Config false false "" "")
    (mkDNSConfig false "") ∅ ∅ (mkUpdateConfig "" "" false "")) peers.

Definition conf_two : Config :=
  conf_with {[ "a" := sample_peer "a" "" "a" "10.66.0.2" ""; "b" := sample_peer "b" "" "b" "10.66.0.7" "" ]}.

(** The allocator only looks above the largest address: with one peer on the
    last address of the default network, every other address is free, but the
    generated one leaves the network and is rejected by [CheckIPUnique]; with the
    peer one address lower it is the broadcast address of the network. *)
Theorem generated_ip_leaves_network :
  let full := conf_with {[ "a" := sample_peer "a" "" "a" "10.66.0.255" "" ]} in
  let almost := conf_with {[ "a" := sample_peer "a" "" "a" "10.66.0.254" "" ]} in
  GenerateNextIpAddr full = Ok "10.66.1.0" ∧
  CheckIPUnique "10.66.1.0" "" full = Fail "IP does not belong to subnet" ∧
  CheckIPUnique "10.66.0.2" "" full = Ok tt ∧
  GenerateNextIpAddr almost = Ok "10.66.0.255".
Proof. repeat split; vm_compute; reflexivity. Qed.

(** The address of a peer is accepted for another one when it is written as an embedded
    IPv4 address. *)
Theorem embedded_address_accepted :
  CheckIPUnique "::ffff:10.66.0.7" "" conf_two = Ok tt ∧
  kp_IPAddr <$> KnownPeers conf_two !! "b" = Some "10.66.0.7" ∧ addr_of "::ffff:10.66.0.7" = addr_of "10.66.0.7".
Proof. repeat split; vm_compute; reflexivity. Qed.

Lemma conf_two_dotted k p : KnownPeers conf_two !! k = Some p → dotted (kp_IPAddr p).
Proof.
  change (KnownPeers conf_two) with ({[ "a" := sample_peer "a" "" "a" "10.66.0.2" ""; "b" := sample_peer "b" "" "b" "10.66.0.7" "" ]} : gmap string KnownPeer).
  intros [[_ <-]|[_ [_ <-]%lookup_singleton_Some]]%lookup_insert_Some; [exists [10; 66; 0; 2]%Z|exists [10; 66; 0; 7]%Z];
    (split; [split; [reflexivity|apply (bool_decide_unpack _); vm_compute; exact I]|vm_compute; reflexivity]).
Defined.

Lemma check_ip_unique_correct_witness :
  CheckIPUnique "10.66.0.9" "" conf_two = Ok tt ∧
  ∀ k p, KnownPeers conf_two !! k = Some p → addr_of (kp_IPAddr p) ≠ addr_of "10.66.0.9".
Proof.
  split; [vm_compute; reflexivity|]. intros k p Hp E.
  destruct (check_ip_unique_correct "10.66.0.9" "" conf_two) as (_ & _ & H).
  assert (dotted "10.66.0.9") as Hd.
  { exists [10; 66; 0; 9]%Z. split; [split; [reflexivity|apply (bool_decide_unpack _); vm_compute; exact I]|vm_compute; reflexivity]. }
  destruct (proj1 (H Hd conf_two_dotted) ltac:(vm_compute; reflexivity)) as [_ Hfree].
  by destruct (Hfree k p Hp E) as [[] _].
Defined.

Lemma conf_two_valid : vpn_valid conf_two.
Proof.
  split; [split; [reflexivity|]|discriminate].
  apply (bool_decide_unpack _). vm_compute. exact I.
Defined.

Lemma generated_ip_is_free_witness :
  ∃ ip, GenerateNextIpAddrExcept ["10.66.0.8"] conf_two = Ok (ip4_string ip) ∧ valid4 ip ∧
    ip4_string ip ∉ ["10.66.0.8"].
Proof.
  destruct (generated_ip_is_free conf_two ["10.66.0.8"] conf_two_valid) as (ip & H1 & H2 & H3 & _).
  - vm_compute. reflexivity.
  - exists ip. auto.
Defined.

Lemma generated_ip_order_independent_witness :
  generate_next conf_two (reverse (known_list conf_two)) [] = Ok "10.66.0.8".
Proof.
  rewrite (generated_ip_order_independent conf_two [] (reverse (known_list conf_two)) conf_two_valid).
  - vm_compute. reflexivity.
  - apply reverse_Permutation.
Defined.
