(* ===== verification/AwlDns.v ===== *)
(** * The DNS resolver of the virtual network (src/awldns/awldns.go)

    The resolver answers names under the local domain from a direct mapping,
    reverse lookups from a reverse mapping, and forwards everything else to an
    upstream server. Both mappings are replaced atomically by
    [ReceiveConfiguration]. The DNS library (messages, canonical names, the
    client) is the class [DnsLib]. *)

From S2P Require Import Prelude GoStrings GoNet.

Definition LocalDomain : string := "awl".
Definition DefaultDNSAddress : string := "127.0.0.66:53".
Definition DefaultDNSPort : string := "53".
Definition DefaultUpstreamDNSAddress : string := "1.1.1.1:53".
Definition ptrV4Suffix : string := ".in-addr.arpa.".
Definition defaultTTLSeconds : Z := 60.

(** ** Messages *)

Definition TypeA : Z := 1.
Definition TypePTR : Z := 12.
Definition TypeAAAA : Z := 28.
Definition TypeANY : Z := 255.
Definition RcodeSuccess : Z := 0.
Definition RcodeServerFailure : Z := 2.
Definition RcodeNameError : Z := 3.
Definition MinMsgSize : Z := 512.
Definition MaxMsgSize : Z := 65535.

Record Question := mkQuestion { q_Name : string; q_Qtype : Z }.

Inductive RR :=
  | RR_A (name : string) (ttl : Z) (addr : bytes)
  | RR_PTR (name : string) (ttl : Z) (ptr : string)
  | RR_other (name : string).

Record Msg := mkMsg {
  m_Question : list Question;
  m_Answer : list RR;
  m_Rcode : Z;
  m_Authoritative : bool;
  m_RecursionAvailable : bool;
}.

Definition newMsg : Msg := mkMsg [] [] RcodeSuccess false false.

(** The functions of the DNS library the resolver calls. [Exchange tcp] is the
    client of the given transport; [Len] is the length of a message on the wire. *)
Class DnsLib := {
  CanonicalName : string → string;
  IsDomainName : string → bool;
  SetReply : Msg → Msg → Msg;
  SetRcode : Msg → Msg → Z → Msg;
  Truncate : Msg → Z → Msg;
  Len : Msg → Z;
  Edns0UDPSize : Msg → option Z;
  Exchange : bool → Msg → string → option Msg;
}.

(** What the documentation of the library says of them; [Truncate] leaves a message that
    fits as it is and takes records from the end of another one. *)
Class DnsLibLaws `{DnsLib} := {
  SetReply_Answer : ∀ m req, m_Answer (SetReply m req) = m_Answer m;
  SetReply_Rcode : ∀ m req, m_Rcode (SetReply m req) = RcodeSuccess;
  SetRcode_Answer : ∀ m req rc, m_Answer (SetRcode m req rc) = m_Answer m;
  SetRcode_Rcode : ∀ m req rc, m_Rcode (SetRcode m req rc) = rc;
  Truncate_Answer : ∀ m n, m_Answer (Truncate m n) `prefix_of` m_Answer m;
  Truncate_fits : ∀ m n, (Len m ≤ n)%Z → m_Answer (Truncate m n) = m_Answer m;
  Truncate_Rcode : ∀ m n, m_Rcode (Truncate m n) = m_Rcode m;
}.

(** ** The resolver *)

Record config := mkconfig {
  upstreamDNS : string;
  directMapping : gmap string string;
  reverseMapping : gmap string string;
}.

Record Resolver := mkResolver {
  r_cfg : config;
  udpServerWorking : bool;
  tcpServerWorking : bool;
  dnsAddress : string;
}.

(** [NewResolver]: an empty configuration, both servers not started yet. *)
Definition NewResolver (addr : string) : Resolver :=
  mkResolver (mkconfig "" ∅ ∅) false false addr.

(** What the server goroutines do to the flags. *)
Inductive server_event := UDPStarted | UDPStopped | TCPStarted | TCPStopped.

Definition on_server_event (ev : server_event) (r : Resolver) : Resolver :=
  match ev with
  | UDPStarted => mkResolver (r_cfg r) true (tcpServerWorking r) (dnsAddress r)
  | UDPStopped => mkResolver (r_cfg r) false (tcpServerWorking r) (dnsAddress r)
  | TCPStarted => mkResolver (r_cfg r) (udpServerWorking r) true (dnsAddress r)
  | TCPStopped => mkResolver (r_cfg r) (udpServerWorking r) false (dnsAddress r)
  end.

(** [DNSAddress]. *)
Definition DNSAddress (r : Resolver) : string :=
  if negb (tcpServerWorking r) || negb (udpServerWorking r) then "" else dnsAddress r.

Section resolver.
Context `{DnsLib} `{Unicode}.

(** One round of the loop of [ReceiveConfiguration]. *)
Definition add_name (st : gmap string string * gmap string string) (e : string * string)
    : gmap string string * gmap string string :=
  let '(direct, reverse) := st in
  let '(key, ip) := e in
  let canonicalName := CanonicalName (key +:+ "." +:+ LocalDomain) in
  let direct := <[canonicalName := ip]> direct in
  match reverse !! ip with
  | None => (direct, <[ip := canonicalName]> reverse)
  | Some existedName =>
      if decide (String.length canonicalName < String.length existedName)
      then (direct, <[ip := canonicalName]> reverse)
      else (direct, reverse)
  end.

(** [ReceiveConfiguration], for the order [es] of the loop over the mapping. *)
Definition ReceiveConfiguration (upstream : string) (es : list (string * string)) (r : Resolver)
    : Resolver :=
  let '(direct, reverse) := foldl add_name (∅, ∅) es in
  mkResolver (mkconfig upstream direct reverse) (udpServerWorking r) (tcpServerWorking r) (dnsAddress r).

(** The size a response may have. *)
Definition response_size (req : Msg) (tcp : bool) : Z :=
  if tcp then MaxMsgSize
  else match Edns0UDPSize req with
       | Some udpsize => if decide (MinMsgSize < udpsize)%Z then udpsize else MinMsgSize
       | None => MinMsgSize
       end.

(** [processOwnResponse]. *)
Definition processOwnResponse (req : Msg) (tcp : bool) (resp : Msg) : Msg :=
  let maxSize := response_size req tcp in
  let resp := Truncate resp maxSize in
  mkMsg (m_Question resp) (m_Answer resp) (m_Rcode resp) true true.

(** The answer to one question of a local query. *)
Definition answer_question (cfg : config) (req : Msg) (m : Msg) (question : Question) : Msg :=
  let hostname := q_Name question in
  let hostnameLower := ToLower hostname in
  if decide (q_Qtype question = TypeA ∨ q_Qtype question = TypeAAAA ∨ q_Qtype question = TypeANY) then
    let '(addr, m) :=
      match directMapping cfg !! hostnameLower with
      | Some mappedIP => (To4 (ParseIP mappedIP), m)
      | None => ([], SetRcode m req RcodeNameError)
      end in
    mkMsg (m_Question m) (m_Answer m ++ [RR_A hostname defaultTTLSeconds addr]) (m_Rcode m)
      (m_Authoritative m) (m_RecursionAvailable m)
  else m.

(** The reply before it is cut to the size of a response. *)
Definition local_reply (r : Resolver) (req : Msg) : Msg :=
  let m := SetReply newMsg req in
  foldl (answer_question (r_cfg r) req) m (m_Question req).

(** [dnsLocalDomainHandler]: the reply, if any. *)
Definition dnsLocalDomainHandler (r : Resolver) (tcp : bool) (req : Msg) : option Msg :=
  if decide (m_Question req = []) then None else Some (processOwnResponse req tcp (local_reply r req)).

(** [dnsProxyHandler]. *)
Definition dnsProxyHandler (r : Resolver) (tcp : bool) (req : Msg) : Msg :=
  match Exchange tcp req (upstreamDNS (r_cfg r)) with
  | None => SetRcode newMsg req RcodeServerFailure
  | Some upstreamResp => upstreamResp
  end.

(** [ptrV4NameToIP]. *)
Definition ptrV4NameToIP (name : string) : bytes :=
  let s := TrimSuffix name ptrV4Suffix in
  match To4 (ParseIP s) with
  | [b0; b1; b2; b3] => [b3; b2; b1; b0]
  | _ => []
  end.

(** [ptrv4Handler]. *)
Definition ptrv4Handler (r : Resolver) (tcp : bool) (req : Msg) : Msg :=
  match m_Question req with
  | [] => dnsProxyHandler r tcp req
  | question :: _ =>
      if decide (q_Qtype question ≠ TypePTR) then dnsProxyHandler r tcp req
      else
        let ip := ptrV4NameToIP (q_Name question) in
        if decide (ip = []) then dnsProxyHandler r tcp req
        else
          match reverseMapping (r_cfg r) !! ip4_string ip with
          | None => dnsProxyHandler r tcp req
          | Some mappedName =>
              let m := SetReply newMsg req in
              let m := mkMsg (m_Question m)
                         (m_Answer m ++ [RR_PTR (q_Name question) defaultTTLSeconds mappedName])
                         (m_Rcode m) (m_Authoritative m) (m_RecursionAvailable m) in
              processOwnResponse req tcp m
          end
  end.

(** [TrimDomainName]. *)
Definition TrimDomainName (domain : string) : string :=
  let domain := TrimSpace domain in
  let domain := Map (λ r, if IsSpace r then 95%Z else r) domain in
  ToLower domain.

(** [IsValidDomainName]. *)
Definition IsValidDomainName (domain : string) : bool :=
  IsDomainName (domain +:+ "." +:+ LocalDomain) && bool_decide (domain = TrimDomainName domain).

End resolver.

(** ** Facts about the mappings *)

Section mappings.
Context `{DnsLib}.

Definition canonical (key : string) : string := CanonicalName (key +:+ "." +:+ LocalDomain).

(** No two names of the mapping have the same canonical form. *)
Definition canonical_distinct (es : list (string * string)) : Prop :=
  ∀ k1 ip1 k2 ip2, (k1, ip1) ∈ es → (k2, ip2) ∈ es → canonical k1 = canonical k2 → ip1 = ip2.

Lemma add_names_direct es : ∀ n,
  (foldl add_name (∅, ∅) es).1 !! n = None ∧ (∀ k ip, (k, ip) ∈ es → canonical k ≠ n) ∨
  ∃ k ip, (k, ip) ∈ es ∧ canonical k = n ∧ (foldl add_name (∅, ∅) es).1 !! n = Some ip.
Proof.
  induction es as [|[key ip] es IH] using rev_ind; intros n; [left; set_solver|].
  rewrite foldl_app. simpl. destruct (foldl add_name (∅, ∅) es) as [direct rev_] eqn:E. simpl.
  assert ((add_name (direct, rev_) (key, ip)).1 = <[canonical key := ip]> direct) as Hd.
  { unfold add_name. fold (canonical key). repeat case_match; done. }
  unfold add_name in Hd. rewrite Hd. clear Hd.
  destruct (decide (canonical key = n)) as [<-|Hne].
  - right. exists key, ip. rewrite lookup_insert_eq. set_solver.
  - rewrite lookup_insert_ne by done. destruct (IH n) as [[Hn Hall]|(k & i & Hin & Hk & Hl)].
    + left. split; [done|]. set_solver.
    + right. exists k, i. set_solver.
Qed.

Lemma add_names_reverse es : ∀ ip,
  match (foldl add_name (∅, ∅) es).2 !! ip with
  | None => ∀ k, (k, ip) ∉ es
  | Some n => (∃ k, (k, ip) ∈ es ∧ canonical k = n) ∧
              ∀ k, (k, ip) ∈ es → String.length n ≤ String.length (canonical k)
  end.
Proof.
  induction es as [|[key i] es IH] using rev_ind; intros ip; [simpl; rewrite lookup_empty; set_solver|].
  rewrite foldl_app. simpl. destruct (foldl add_name (∅, ∅) es) as [direct rev_] eqn:E. simpl in *.
  fold (canonical key). pose proof (IH i) as IHi. pose proof (IH ip) as IHip.
  destruct (decide (i = ip)) as [->|Hne].
  - destruct (rev_ !! ip) as [n|] eqn:Er; simpl.
    + destruct IHip as [(k & Hk & <-) Hmin]. case_decide; simpl.
      * rewrite lookup_insert_eq. split; [set_solver|]. intros k' Hk'.
        apply elem_of_app in Hk' as [Hk'|Hk']; [specialize (Hmin k' Hk'); lia|].
        apply list_elem_of_singleton in Hk'. simplify_eq. lia.
      * rewrite Er. split; [set_solver|]. intros k' Hk'.
        apply elem_of_app in Hk' as [Hk'|Hk']; [auto|].
        apply list_elem_of_singleton in Hk'. simplify_eq. lia.
    + rewrite lookup_insert_eq. split; [set_solver|]. intros k' Hk'.
      apply elem_of_app in Hk' as [Hk'|Hk']; [set_solver|].
      apply list_elem_of_singleton in Hk'. by simplify_eq.
  - assert ((match rev_ !! i with
             | Some existedName =>
                 if decide (String.length (canonical key) < String.length existedName)
                 then (<[canonical key:=i]> direct, <[i:=canonical key]> rev_)
                 else (<[canonical key:=i]> direct, rev_)
             | None => (<[canonical key:=i]> direct, <[i:=canonical key]> rev_)
             end).2 !! ip = rev_ !! ip) as ->.
    { destruct (rev_ !! i); [case_decide|]; simpl; try done; by rewrite lookup_insert_ne. }
    destruct (rev_ !! ip); [|set_solver]. destruct IHip as [(k & Hk & Hc) Hmin].
    split; [set_solver|]. intros k' Hk'. apply elem_of_app in Hk' as [Hk'|Hk']; [auto|].
    apply list_elem_of_singleton in Hk'. by simplify_eq.
Qed.
End mappings.

(** ** Facts about reverse names *)

Lemma list_ascii_app a b :
  String.list_ascii_of_string (a +:+ b) = String.list_ascii_of_string a ++ String.list_ascii_of_string b.
Proof. induction a as [|x a IH]; simpl; [done|]. exact (f_equal (cons x) IH). Qed.

Lemma string_of_list_app a b :
  String.string_of_list_ascii (a ++ b) = String.string_of_list_ascii a +:+ String.string_of_list_ascii b.
Proof. induction a as [|x a IH]; simpl; [done|]. exact (f_equal (String.String x) IH). Qed.

Lemma string_rev_app a b : string_rev (a +:+ b) = string_rev b +:+ string_rev a.
Proof. unfold string_rev. by rewrite list_ascii_app, reverse_app, string_of_list_app. Qed.

Lemma string_rev_involutive s : string_rev (string_rev s) = s.
Proof.
  unfold string_rev. rewrite String.list_ascii_of_string_of_list_ascii, reverse_involutive.
  apply String.string_of_list_ascii_of_string.
Qed.

Lemma strip_prefix_append p s : strip_prefix p (p +:+ s) = Some s.
Proof. induction p; simpl; [done|]. by rewrite Ascii.eqb_refl. Qed.

Lemma TrimSuffix_app s suf : TrimSuffix (s +:+ suf) suf = s.
Proof. unfold TrimSuffix. by rewrite string_rev_app, strip_prefix_append, string_rev_involutive. Qed.

(** ** Facts about local answers *)

Section answers.
Context `{DnsLibLaws} `{Unicode}.

Definition is_address_question (q : Question) : bool :=
  bool_decide (q_Qtype q = TypeA ∨ q_Qtype q = TypeAAAA ∨ q_Qtype q = TypeANY).

Definition question_answer (cfg : config) (q : Question) : list RR :=
  if is_address_question q then
    [RR_A (q_Name q) defaultTTLSeconds
       match directMapping cfg !! ToLower (q_Name q) with Some ip => To4 (ParseIP ip) | None => [] end]
  else [].

Definition question_missing (cfg : config) (q : Question) : bool :=
  is_address_question q && bool_decide (directMapping cfg !! ToLower (q_Name q) = None).

Lemma answer_questions_spec cfg req qs : ∀ m,
  let m' := foldl (answer_question cfg req) m qs in
  m_Answer m' = m_Answer m ++ concat (map (question_answer cfg) qs) ∧
  m_Rcode m' = if existsb (question_missing cfg) qs then RcodeNameError else m_Rcode m.
Proof.
  induction qs as [|q qs IH]; intros m; simpl; [by rewrite app_nil_r|].
  destruct (IH (answer_question cfg req m q)) as [-> ->].
  unfold answer_question at 1 2, question_answer, question_missing, is_address_question.
  case_decide as Hq; simpl.
  - rewrite bool_decide_eq_true_2 by done. simpl.
    destruct (directMapping cfg !! ToLower (q_Name q)); simpl.
    + by rewrite <- app_assoc.
    + rewrite SetRcode_Answer, SetRcode_Rcode, <- app_assoc. split; [done|]. by destruct (existsb _ _).
  - rewrite bool_decide_eq_false_2 by done. done.
Qed.
End answers.

(** ** Facts about trimming ASCII names *)

Definition ascii_byte (b : Z) : Prop := (0 ≤ b < 128)%Z.
Definition underscore_space (r : Z) : Z := if IsSpace r then 95%Z else r.

Lemma encode_rune_ascii r : ascii_byte r → encode_rune r = [r].
Proof.
  unfold ascii_byte, encode_rune. intros. rewrite (decide_False (P := _ ∨ _)) by lia.
  by rewrite decide_True by lia.
Qed.

Lemma concat_singletons {A B} (f : A → B) l : concat (map (λ x, [f x]) l) = map f l.
Proof. induction l; simpl; congruence. Qed.

Lemma ascii_is_byte l : Forall ascii_byte l → Forall is_byte l.
Proof. intros Hl. eapply Forall_impl; [|exact Hl]. unfold ascii_byte, is_byte. intros; lia. Qed.

Lemma ascii_lt l : Forall ascii_byte l → Forall (λ b, b < 128)%Z l.
Proof. intros Hl. eapply Forall_impl; [|exact Hl]. unfold ascii_byte. intros; lia. Qed.

Lemma Map_ascii f l :
  Forall ascii_byte l → (∀ b, ascii_byte b → ascii_byte (f b)) →
  Map f (bytes_str l) = bytes_str (map f l).
Proof.
  intros Hl Hf. unfold Map. rewrite str_bytes_str by (by apply ascii_is_byte).
  rewrite decode_runes_ascii by (by apply ascii_lt). rewrite map_map. simpl. f_equal.
  rewrite <- (concat_singletons f). f_equal. apply map_ext_in. intros b Hb.
  apply list_elem_of_In in Hb. rewrite list.Forall_forall in Hl. apply encode_rune_ascii. auto.
Qed.

Lemma ToLower_ascii `{Unicode} l :
  Forall ascii_byte l → ToLower (bytes_str l) = bytes_str (map ascii_lower l).
Proof.
  intros Hl. unfold ToLower. assert (is_ascii (bytes_str l) = true) as ->.
  { apply is_ascii_Forall. rewrite str_bytes_str by (by apply ascii_is_byte). by apply ascii_lt. }
  by rewrite str_bytes_str by (by apply ascii_is_byte).
Qed.

Lemma drop_while_map {A B} (g : A → B) (f : B → bool) l :
  drop_while f (map g l) = map g (drop_while (λ x, f (g x)) l).
Proof. induction l; simpl; [done|]. by destruct (f (g a)). Qed.

Lemma reverse_map {A B} (g : A → B) l : reverse (map g l) = map g (reverse l).
Proof. induction l; simpl; [done|]. rewrite !reverse_cons, IHl. by rewrite map_app. Qed.

Lemma TrimSpace_ascii l :
  Forall ascii_byte l → TrimSpace (bytes_str l) = bytes_str (trim_both IsSpace l).
Proof.
  intros Hl. unfold TrimSpace. rewrite str_bytes_str by (by apply ascii_is_byte).
  rewrite decode_runes_ascii by (by apply ascii_lt). f_equal. unfold trim_both.
  rewrite drop_while_map, reverse_map, drop_while_map, reverse_map. simpl.
  set (k := reverse _). clearbody k. induction k as [|b k IH]; [done|]. exact (f_equal (cons b) IH).
Qed.

Lemma underscore_space_ascii b : ascii_byte b → ascii_byte (underscore_space b).
Proof. unfold underscore_space. destruct (IsSpace b); [unfold ascii_byte; lia|done]. Qed.

Lemma ascii_lower_ascii b : ascii_byte b → ascii_byte (ascii_lower b).
Proof. unfold ascii_lower, ascii_byte. case_decide; lia. Qed.

Lemma IsSpace_lower_underscore b :
  ascii_byte b → IsSpace (ascii_lower (underscore_space b)) = false.
Proof.
  intros Hb.
  assert (Forall (λ n, IsSpace (ascii_lower (underscore_space (Z.of_nat n))) = false) (seq 0 128)) as HF.
  { apply (bool_decide_unpack _). vm_compute. exact I. }
  rewrite list.Forall_forall in HF. unfold ascii_byte in Hb.
  specialize (HF (Z.to_nat b)). rewrite Z2Nat.id in HF by lia. apply HF, elem_of_seq. lia.
Qed.

Lemma trim_both_none {A} (f : A → bool) l : Forall (λ x, f x = false) l → trim_both f l = l.
Proof.
  intros Hl. unfold trim_both. rewrite (drop_while_id f l).
  - rewrite (drop_while_id f (reverse l)); [apply reverse_involutive|]. intros x k Hk.
    rewrite list.Forall_forall in Hl. apply Hl. apply elem_of_reverse. rewrite Hk. set_solver.
  - intros x k ->. by inversion Hl.
Qed.

Lemma ascii_lower_idemp b : ascii_lower (ascii_lower b) = ascii_lower b.
Proof. unfold ascii_lower. repeat case_decide; lia. Qed.

(** [TrimDomainName] on an ASCII name, as one list function. *)
Definition trim_domain (l : bytes) : bytes :=
  map ascii_lower (map underscore_space (trim_both IsSpace l)).

Lemma trim_both_ascii l : Forall ascii_byte l → Forall ascii_byte (trim_both IsSpace l).
Proof.
  intros Hl. rewrite !list.Forall_forall in *. intros x Hx. apply Hl. by eapply trim_both_sub.
Qed.

Lemma map_ascii f l :
  (∀ b, ascii_byte b → ascii_byte (f b)) → Forall ascii_byte l → Forall ascii_byte (map f l).
Proof. intros Hf Hl. induction Hl; simpl; constructor; auto. Qed.

Lemma TrimDomainName_ascii `{Unicode} l :
  Forall ascii_byte l → TrimDomainName (bytes_str l) = bytes_str (trim_domain l).
Proof.
  intros Hl. unfold TrimDomainName. rewrite TrimSpace_ascii by done.
  change (λ r, if IsSpace r then 95%Z else r) with underscore_space.
  rewrite Map_ascii by (auto using trim_both_ascii, underscore_space_ascii).
  apply ToLower_ascii. apply map_ascii; auto using trim_both_ascii, underscore_space_ascii.
Qed.

Lemma trim_domain_idemp l : Forall ascii_byte l → trim_domain (trim_domain l) = trim_domain l.
Proof.
  intros Hl. unfold trim_domain. set (k := trim_both IsSpace l).
  assert (Forall ascii_byte k) as Hk by (by apply trim_both_ascii). clearbody k.
  rewrite (trim_both_none IsSpace).
  - rewrite !map_map. apply map_ext_in. intros b Hb. apply list_elem_of_In in Hb.
    rewrite list.Forall_forall in Hk. unfold underscore_space at 1.
    rewrite IsSpace_lower_underscore by auto. apply ascii_lower_idemp.
  - rewrite map_map. induction Hk; simpl; constructor; auto using IsSpace_lower_underscore.
Qed.

(** ** Properties *)

(** A reverse-lookup name built from an address is read back as that address:
    the octets are reversed exactly once. *)
Theorem ptr_name_roundtrip (ip : bytes) :
  valid4 ip → ptrV4NameToIP (ip4_string (reverse ip) +:+ ptrV4Suffix) = ip.
Proof.
  intros [Hl Hb]. unfold ptrV4NameToIP. rewrite TrimSuffix_app.
  rewrite ParseIP_ip4_string.
  - destruct ip as [|a [|b [|c [|d [|]]]]]; done.
  - split; [by rewrite length_reverse|]. rewrite list.Forall_forall in *.
    intros x Hx. rewrite elem_of_reverse in Hx. auto.
Qed.

(** C33. After a configuration is received, whatever the order of the names, the
    two mappings are consistent. Every published name resolves: if no two names for
    different addresses share a canonical form, the direct lookup of its canonical form
    gives its address; and every entry of the direct mapping is the canonical form of a
    name published for that address. The reverse name of an address is the canonical form
    of one of the names published for it and no published name of that address is
    shorter; an address without published names has no reverse name; and, again without
    clashes, the direct lookup of the reverse name gives back the address. *)
Theorem resolver_mappings_consistent `{DnsLib} (names : gmap string string)
    (es : list (string * string)) (upstream : string) (r : Resolver) (ip : string) :
  ranges names es →
  let cfg := r_cfg (ReceiveConfiguration upstream es r) in
  (∀ k i, names !! k = Some i → is_Some (directMapping cfg !! canonical k) ∧
     (canonical_distinct es → directMapping cfg !! canonical k = Some i)) ∧
  (∀ n i, directMapping cfg !! n = Some i → ∃ k, names !! k = Some i ∧ canonical k = n) ∧
  (reverseMapping cfg !! ip = None ↔ ∀ k, names !! k ≠ Some ip) ∧
  (∀ n, reverseMapping cfg !! ip = Some n →
     (∃ k, names !! k = Some ip ∧ n = canonical k) ∧
     (∀ k, names !! k = Some ip → String.length n ≤ String.length (canonical k)) ∧
     (canonical_distinct es → directMapping cfg !! n = Some ip)).
Proof.
  intros Hes. unfold ReceiveConfiguration.
  pose proof (add_names_reverse es ip) as Hrev. pose proof (add_names_direct es) as Hdir.
  destruct (foldl add_name (∅, ∅) es) as [direct rev_]. simpl in *.
  assert (∀ k i, (k, i) ∈ es ↔ names !! k = Some i) as Hin by (intros; by apply ranges_elem).
  split; [|split].
  { intros k i Hk%Hin. destruct (Hdir (canonical k)) as [[_ Hno]|(k' & i' & Hk' & Hc' & E)]; [by destruct (Hno k i)|].
    split; [by rewrite E|]. intros Hdist. rewrite E. f_equal. by apply (Hdist k' i' k i). }
  { intros n i Hn. destruct (Hdir n) as [[E _]|(k & i' & Hk & Hc & E)]; [congruence|]. exists k. split; [|done].
    apply Hin. congruence. }
  destruct (rev_ !! ip) as [n|] eqn:Er.
  - destruct Hrev as [(k & Hk & Hc) Hmin]. split.
    + split; [done|]. intros Hno. apply Hin in Hk. by destruct (Hno k).
    + intros n' [= <-]. split; [exists k; split; [by apply Hin|done]|].
      split; [intros k' Hk'; apply Hmin; by apply Hin|].
      intros Hdist. destruct (Hdir n) as [[_ Hno]|(k' & i' & Hk' & Hc' & ->)].
      * by destruct (Hno k ip).
      * f_equal. apply (Hdist k' i' k ip); congruence.
  - split; [|done]. split; [|done]. intros _ k Hk. apply Hin in Hk. by destruct (Hrev k).
Qed.

(** C34. A local query with at least one question is answered: the answers are one A
    record per address question, in order, carrying the name as it was asked and the
    mapped address, all of them when the reply fits the size of a response (that of the
    transport, or the one the query announces) and otherwise the first of them; and the
    response code is "name error" exactly when the name of some address question is not
    mapped; the reply is authoritative. *)
Theorem local_handler_answers `{DnsLibLaws} `{Unicode} (r : Resolver) (tcp : bool) (req : Msg) :
  m_Question req ≠ [] →
  ∃ m, dnsLocalDomainHandler r tcp req = Some m ∧
    m_Answer m `prefix_of` concat (map (question_answer (r_cfg r)) (m_Question req)) ∧
    ((Len (local_reply r req) ≤ response_size req tcp)%Z →
     m_Answer m = concat (map (question_answer (r_cfg r)) (m_Question req))) ∧
    m_Rcode m = (if existsb (question_missing (r_cfg r)) (m_Question req)
                 then RcodeNameError else RcodeSuccess) ∧
    m_Authoritative m = true ∧ m_RecursionAvailable m = true.
Proof.
  intros Hq. unfold dnsLocalDomainHandler. rewrite decide_False by done.
  eexists. split; [reflexivity|].
  destruct (answer_questions_spec (r_cfg r) req (m_Question req) (SetReply newMsg req)) as [Ha Hr].
  fold (local_reply r req) in Ha, Hr. unfold processOwnResponse. cbn [m_Answer m_Rcode]. rewrite Truncate_Rcode, Hr, SetReply_Rcode.
  rewrite SetReply_Answer in Ha. simpl in Ha. rewrite <- Ha. split; [apply Truncate_Answer|]. split; [apply Truncate_fits|done].
Qed.

(** [TrimDomainName] is idempotent on ASCII names, so the name it makes of
    any display name is accepted by [IsValidDomainName] whenever the DNS library
    accepts it as a domain name. *)
Theorem trimmed_domain_name_valid `{DnsLib} `{Unicode} (l : bytes) :
  Forall ascii_byte l →
  let d := TrimDomainName (bytes_str l) in
  TrimDomainName d = d ∧
  IsValidDomainName d = IsDomainName (d +:+ "." +:+ LocalDomain).
Proof.
  intros Hl. simpl.
  assert (TrimDomainName (TrimDomainName (bytes_str l)) = TrimDomainName (bytes_str l)) as Hid.
  { rewrite TrimDomainName_ascii by done. rewrite TrimDomainName_ascii.
    - by rewrite trim_domain_idemp.
    - apply map_ascii; [apply ascii_lower_ascii|].
      apply map_ascii; [apply underscore_space_ascii|]. by apply trim_both_ascii. }
  split; [done|]. unfold IsValidDomainName. rewrite Hid, bool_decide_eq_true_2 by done.
  apply andb_true_r.
Qed.

(** A DNS library for the witnesses: lower-case names with a final dot, replies
    that keep the answers, records of 100 bytes that are cut off at the end, an upstream
    that never answers. *)
Definition toy_unicode : Unicode := {| lower_table r := r |}.

Definition toy_dns : DnsLib := {|
  CanonicalName s := @ToLower toy_unicode (s +:+ ".");
  IsDomainName _ := true;
  SetReply m req := mkMsg (m_Question req) (m_Answer m) RcodeSuccess (m_Authoritative m) (m_RecursionAvailable m);
  SetRcode m req rc := mkMsg (m_Question req) (m_Answer m) rc (m_Authoritative m) (m_RecursionAvailable m);
  Truncate m n := mkMsg (m_Question m) (take (Z.to_nat (n / 100)) (m_Answer m)) (m_Rcode m) (m_Authoritative m) (m_RecursionAvailable m);
  Len m := (100 * Z.of_nat (length (m_Answer m)))%Z;
  Edns0UDPSize _ := None;
  Exchange _ _ _ := None |}.

Lemma toy_dns_laws : @DnsLibLaws toy_dns.
Proof.
  split; try done; intros m n.
  - exists (drop (Z.to_nat (n / 100)) (m_Answer m)). simpl. by rewrite take_drop.
  - intros Hn. simpl in *. apply take_ge. apply Nat2Z.inj_le. pose proof (Z.div_le_lower_bound n 100 (Z.of_nat (length (m_Answer m)))). lia.
Qed.

Definition sample_names : gmap string string :=
  {[ "laptop" := "10.66.0.2"; "12D3KooWlaptop" := "10.66.0.2"; "phone" := "10.66.0.3" ]}.

Definition sample_resolver : Resolver :=
  @ReceiveConfiguration toy_dns "1.1.1.1:53" (map_to_list sample_names) (NewResolver "127.0.0.66:53").

Lemma ptr_name_roundtrip_witness :
  ptrV4NameToIP "2.0.66.10.in-addr.arpa." = [10; 66; 0; 2]%Z.
Proof.
  apply (ptr_name_roundtrip [10; 66; 0; 2]%Z). split; [reflexivity|].
  apply (bool_decide_unpack _). vm_compute. exact I.
Defined.

Lemma resolver_mappings_consistent_witness :
  reverseMapping (r_cfg sample_resolver) !! "10.66.0.2" = Some "laptop.awl." ∧
  (∃ k, sample_names !! k = Some "10.66.0.2" ∧ "laptop.awl." = @canonical toy_dns k) ∧
  is_Some (directMapping (r_cfg sample_resolver) !! @canonical toy_dns "12D3KooWlaptop").
Proof.
  assert (reverseMapping (r_cfg sample_resolver) !! "10.66.0.2" = Some "laptop.awl.") as Hr
    by (vm_compute; reflexivity).
  split; [exact Hr|].
  destruct (@resolver_mappings_consistent toy_dns sample_names (map_to_list sample_names) "1.1.1.1:53"
           (NewResolver "127.0.0.66:53") "10.66.0.2" (ranges_self _)) as (Hdir & _ & _ & Hrev).
  split; [by apply Hrev|]. by apply (Hdir "12D3KooWlaptop" "10.66.0.2").
Defined.

Lemma local_handler_answers_witness :
  ∃ m, @dnsLocalDomainHandler toy_dns toy_unicode sample_resolver false
         (mkMsg [mkQuestion "Laptop.awl." TypeA] [] 0 false false) = Some m ∧
       m_Rcode m = RcodeSuccess ∧ m_Answer m = [RR_A "Laptop.awl." defaultTTLSeconds [10; 66; 0; 2]%Z].
Proof.
  destruct (@local_handler_answers toy_dns toy_dns_laws toy_unicode sample_resolver false
    (mkMsg [mkQuestion "Laptop.awl." TypeA] [] 0 false false)) as (m & Hm & _ & Ha & Hr & _).
  - discriminate.
  - exists m. split; [exact Hm|]. split; [rewrite Hr; vm_compute; reflexivity|].
    rewrite Ha by (vm_compute; discriminate). vm_compute. reflexivity.
Defined.

Lemma trimmed_domain_name_valid_witness :
  @TrimDomainName toy_unicode " My Phone " = "my_phone" ∧
  @IsValidDomainName toy_dns toy_unicode "my_phone" = true.
Proof.
  assert (@TrimDomainName toy_unicode " My Phone " = "my_phone") as Ht by (vm_compute; reflexivity).
  split; [exact Ht|].
  pose proof (@trimmed_domain_name_valid toy_dns toy_unicode (str_bytes " My Phone ")) as H.
  simpl in H. rewrite bytes_str_bytes, Ht in H. apply H.
  apply (bool_decide_unpack _). vm_compute. exact I.
Defined.
