(* ===== verification/ConfigDefaults.v ===== *)
(** * Loading, defaults and the data directory (src/config/other.go)

    [setDefaults] repairs a configuration read from disk: missing scalars get
    their defaults, every known peer gets a unique alias, an address and a domain
    name. *)

From S2P Require Import Prelude GoStrings GoNet Externals Config NetworkAddr AwlDns.

Definition AppConfigFilename : string := "config_awl.json".
Definition AppDataDirectory : string := "anywherelan".
Definition defaultSOCKS5ListenAddress : string := "127.0.0.1:10808".
Definition DefaultHTTPPort : Z := 8639.

(** The texts the [init] of the package turns into [DefaultBootstrapPeers]. *)
Definition defaultBootstrapTexts : list string := [
  "/dnsaddr/rus-2.bootstrap.anywherelan.com/p2p/12D3KooWGRjpNYgFssihdgTDnr5rdhdh9ruMTbeT41h1fXfGmatZ";
  "/dnsaddr/ita-1.bootstrap.anywherelan.com/p2p/12D3KooWRXyTH7ZxerZRu6UtYQx62uCmYeZ244SsLQZbjuxX7RrL";
  "/dnsaddr/cze-1.bootstrap.anywherelan.com/p2p/12D3KooWJDDYCWbLYyCLTH16TFBZoxyDYD1Ypth2rtyznXYpnpza";
  "/dnsaddr/can-1.bootstrap.anywherelan.com/p2p/12D3KooWQeAvoyVnRm6T5XzWpKD8AzM1buzBL6o95iCodCZVQAsV";
  "/ip4/80.211.201.49/tcp/6150/p2p/12D3KooWJDDYCWbLYyCLTH16TFBZoxyDYD1Ypth2rtyznXYpnpza";
  "/ip4/80.211.201.49/udp/6150/quic-v1/p2p/12D3KooWJDDYCWbLYyCLTH16TFBZoxyDYD1Ypth2rtyznXYpnpza";
  "/ip4/167.114.152.120/tcp/6150/p2p/12D3KooWQeAvoyVnRm6T5XzWpKD8AzM1buzBL6o95iCodCZVQAsV";
  "/ip4/167.114.152.120/udp/6150/quic-v1/p2p/12D3KooWQeAvoyVnRm6T5XzWpKD8AzM1buzBL6o95iCodCZVQAsV";
  "/ip6/2607:5300:201:3100::6b5f/tcp/7250/p2p/12D3KooWQeAvoyVnRm6T5XzWpKD8AzM1buzBL6o95iCodCZVQAsV";
  "/ip6/2607:5300:201:3100::6b5f/udp/7250/quic-v1/p2p/12D3KooWQeAvoyVnRm6T5XzWpKD8AzM1buzBL6o95iCodCZVQAsV";
  "/ip4/45.67.230.223/tcp/6150/p2p/12D3KooWGRjpNYgFssihdgTDnr5rdhdh9ruMTbeT41h1fXfGmatZ";
  "/ip4/45.67.230.223/udp/6150/quic-v1/p2p/12D3KooWGRjpNYgFssihdgTDnr5rdhdh9ruMTbeT41h1fXfGmatZ";
  "/ip4/222.255.117.203/tcp/6150/p2p/12D3KooWRMFSvGstJEEZYuYq6jgZdByqwT5zpvFRZebZZbfp9XY1";
  "/ip4/222.255.117.203/udp/6150/quic-v1/p2p/12D3KooWRMFSvGstJEEZYuYq6jgZdByqwT5zpvFRZebZZbfp9XY1" ].

Definition DefaultBootstrapPeers `{Multiaddrs} : list maddr := parse_multiaddrs defaultBootstrapTexts.

(** ** The data directory *)

(** What the operating system answers [CalcAppDataDir]: the environment variable,
    the directory of the executable (empty if it is not known), whether it holds a
    configuration file, and the user's configuration directory with the success
    of creating the application directory below it. *)
Record OSDirs := mkOSDirs {
  env_dir : string;
  executable_dir : string;
  has_config : string → bool;
  user_config_dir : option string;
  mkdir_ok : bool;
}.

(** [filepath.Join] of a clean directory, or of none, and a clean name. *)
Definition path_join (a b : string) : string := if decide (a = "") then b else a +:+ "/" +:+ b.

(** [CalcAppDataDir]. *)
Definition CalcAppDataDir (os : OSDirs) : string :=
  if decide (env_dir os ≠ "") then env_dir os
  else if bool_decide (executable_dir os ≠ "")
          && has_config os (path_join (executable_dir os) AppConfigFilename)
  then executable_dir os
  else match user_config_dir os with
       | None => ""
       | Some userConfigDir =>
           if mkdir_ok os then path_join userConfigDir AppDataDirectory else ""
       end.

(** [ChownFileIfNeeded]: the owner the file is given, if any. *)
Definition ChownFileIfNeeded (GOOS : string) (LinuxFilesOwnerUID : Z) : option Z :=
  if bool_decide (GOOS ≠ "linux") || bool_decide (LinuxFilesOwnerUID = 0%Z) then None
  else Some LinuxFilesOwnerUID.

(** ** Defaults *)

Definition orDefault (s d : string) : string := if decide (s = "") then d else s.

(** The scalar part of [setDefaults]. *)
Definition default_scalars (Version GOOS : string) (c : Config) : Config :=
  let isEmptyConfig := bool_decide (cVersion c = "") in
  let p := P2pNode c in
  let p := mkP2pNodeConfig (PeerID p) (Name p) (Identity p) (BootstrapPeers p)
             (IgnoreDefaultBootstrapPeers p) (ListenAddresses p)
             (if decide (ReconnectionIntervalSec p = 0) then 20 else ReconnectionIntervalSec p)%Z
             (AutoAcceptAuthRequests p) (UseDedicatedConnForEachStream p)
             (if decide (ParallelSendingStreamsCount p = 0) then 1 else ParallelSendingStreamsCount p)%Z in
  let ipNet := orDefault (IPNetText (cVPN c)) DefaultVPNNetworkSubnet in
  let vpn := mkVPNConfig (DisableVPNInterface (cVPN c)) (InterfaceName (cVPN c)) ipNet in
  let vpn := match ParseCIDR ipNet with
             | Some (localIP, _) => if decide (To4 localIP = [])
                                    then mkVPNConfig (DisableVPNInterface vpn) (InterfaceName vpn) DefaultVPNNetworkSubnet
                                    else vpn
             | None => mkVPNConfig (DisableVPNInterface vpn) (InterfaceName vpn) DefaultVPNNetworkSubnet
             end in
  let vpn := mkVPNConfig (DisableVPNInterface vpn)
               (orDefault (InterfaceName vpn)
                  (if decide (GOOS = "darwin") then "utun" else DefaultVPNInterfaceName))
               (IPNetText vpn) in
  let s := SOCKS5 c in
  let s := if bool_decide (ListenerEnabled s = false ∧ ProxyingEnabled s = false ∧
                           SOCKS5ListenAddress s = "" ∧ UsingPeerID s = "")
           then mkSOCKS5Config true true "" "" else s in
  let s := mkSOCKS5Config (ListenerEnabled s) (ProxyingEnabled s)
             (orDefault (SOCKS5ListenAddress s) defaultSOCKS5ListenAddress) (UsingPeerID s) in
  let d := mkDNSConfig (DisableDNS (DNS c)) (orDefault (DNSListenAddress (DNS c)) DefaultDNSAddress) in
  mkConfig (dataDir c) Version (orDefault (LoggerLevel c) "info")
    (orDefault (HttpListenAddress c) ("127.0.0.1:" +:+ Itoa (Z.to_nat DefaultHTTPPort)))
    (if isEmptyConfig then true else HttpListenOnAdminHost c)
    (HttpBasicAuth c) p vpn s d (KnownPeers c) (BlockedPeers c) (Update c).

Definition with_alias_ip_domain (p : KnownPeer) (alias ip domain : string) : KnownPeer :=
  mkKnownPeer (kp_PeerID p) (kp_Name p) alias ip domain (kp_CreatedAt p) (kp_LastSeen p)
    (kp_Confirmed p) (kp_Declined p) (kp_WeAllowUsingAsExitNode p) (kp_AllowedUsingAsExitNode p)
    (kp_ReportedUsingPeerID p).

(** One round of the loop over the known peers: the configuration and the set of
    aliases given out so far. *)
Definition default_peer `{Unicode} (st : Config * gset string) (peerID : string)
    : outcome (Config * gset string) :=
  let '(c, uniqAliases) := st in
  let peer := (GetPeer peerID c).1 in
  let '(newAlias, uniqAliases) := genUniqPeerAlias (kp_Name peer) (kp_Alias peer) (Some uniqAliases) c in
  ip ← (if decide (kp_IPAddr peer = "") then GenerateNextIpAddr c else Ok (kp_IPAddr peer));
  let peer := with_alias_ip_domain peer newAlias ip (kp_DomainName peer) in
  let domain := if decide (kp_DomainName peer = "") then TrimDomainName (DisplayName peer)
                else kp_DomainName peer in
  let peer := with_alias_ip_domain peer newAlias ip domain in
  Ok (with_KnownPeers c (<[peerID := peer]> (KnownPeers c)), uniqAliases).

Fixpoint default_peers `{Unicode} (peerIDs : list string) (st : Config * gset string)
    : outcome (Config * gset string) :=
  match peerIDs with
  | [] => Ok st
  | peerID :: peerIDs => st ← default_peer st peerID; default_peers peerIDs st
  end.

(** The update settings and the data directory. *)
Definition default_update (u : UpdateConfig) : UpdateConfig :=
  let url := if bool_decide (UpdateServerURL u = "" ∨ UpdateServerURL u = "http://example/example.json")
             then "https://build.anywherelan.com/repository/releases.json" else UpdateServerURL u in
  let enabled := if negb (TrayAutoCheckEnabled u) && bool_decide (TrayAutoCheckInterval u = "")
                 then true else TrayAutoCheckEnabled u in
  let interval := if bool_decide (TrayAutoCheckInterval u = "" ∨ TrayAutoCheckInterval u = "24h")
                  then "8h" else TrayAutoCheckInterval u in
  mkUpdateConfig (LowestPriorityChan u) url enabled interval.

Definition default_rest (os : OSDirs) (c : Config) : Config :=
  mkConfig (if decide (dataDir c = "") then CalcAppDataDir os else dataDir c) (cVersion c)
    (LoggerLevel c) (HttpListenAddress c) (HttpListenOnAdminHost c) (HttpBasicAuth c) (P2pNode c)
    (cVPN c) (SOCKS5 c) (DNS c) (KnownPeers c) (BlockedPeers c) (default_update (Update c)).

(** [setDefaults], for the order [peerIDs] of the loop over the known peers. *)
Definition setDefaults `{Unicode} (Version GOOS : string) (os : OSDirs) (peerIDs : list string)
    (c : Config) : outcome Config :=
  let c := default_scalars Version GOOS c in
  '(c, _) ← default_peers peerIDs (c, ∅);
  Ok (default_rest os c).

(** [NewConfig]. *)
Definition NewConfig `{Unicode} (Version GOOS : string) (os : OSDirs) : outcome Config :=
  setDefaults Version GOOS os [] zeroConfig.

(** [LoadConfig]: [file] is the result of reading and unmarshalling the file. *)
Definition LoadConfig `{Unicode} (Version GOOS : string) (os : OSDirs) (file : option Config)
    (peerIDs : list string) : outcome Config :=
  let dir := CalcAppDataDir os in
  match file with
  | None => Fail "read config"
  | Some c =>
      setDefaults Version GOOS os peerIDs
        (mkConfig dir (cVersion c) (LoggerLevel c) (HttpListenAddress c) (HttpListenOnAdminHost c)
           (HttpBasicAuth c) (P2pNode c) (cVPN c) (SOCKS5 c) (DNS c) (KnownPeers c) (BlockedPeers c)
           (Update c))
  end.

(** [ImportConfig]: nothing is written unless the data is a configuration. [write_ok]
    is the success of writing the file; the result is the new content of the file. *)
Definition ImportConfig (unmarshal : bytes → option Config) (data : bytes) (directory : string)
    (write_ok : bool) : outcome (string * bytes) :=
  match unmarshal data with
  | None => Fail "invalid format"
  | Some _ => if write_ok then Ok (path_join directory AppConfigFilename, data)
              else Fail "save file"
  end.

(** ** Facts *)

Lemma vpn_valid_known c m : vpn_valid (with_KnownPeers c m) ↔ vpn_valid c.
Proof. done. Qed.

Lemma generate_next_ok c : vpn_valid c →
  ∃ ip, GenerateNextIpAddr c = Ok (ip4_string ip) ∧ valid4 ip.
Proof.
  intros Hv. destruct (generate_next_spec c [] Hv) as (m & n & _ & _ & _ & _ & _ & Hg & _); [simpl; lia|].
  exists (nth_ip m n). split; [done|apply nth_ip_valid].
Qed.

Lemma ip4_string_nonempty ip : valid4 ip → ip4_string ip ≠ "".
Proof.
  intros Hv He. pose proof (ParseIP_ip4_string ip Hv) as H. rewrite He in H.
  vm_compute in H. subst ip. by destruct Hv.
Qed.

Section loop.
Context `{Unicode}.

(** The state after some peers have been visited: they have pairwise different
    non-empty aliases, which are the ones recorded, and an address. *)
Definition visited (done_ : gset string) (c : Config) (u : gset string) : Prop :=
  (∀ k p, k ∈ done_ → KnownPeers c !! k = Some p → kp_Alias p ∈ u ∧ kp_Alias p ≠ "" ∧ kp_IPAddr p ≠ "") ∧
  (∀ k1 p1 k2 p2, k1 ∈ done_ → k2 ∈ done_ → KnownPeers c !! k1 = Some p1 → KnownPeers c !! k2 = Some p2 →
     kp_Alias p1 = kp_Alias p2 → k1 = k2).

Lemma default_peer_spec c u done_ k p :
  vpn_valid c → visited done_ c u → k ∉ done_ → KnownPeers c !! k = Some p →
  ∃ p' u', default_peer (c, u) k = Ok (with_KnownPeers c (<[k := p']> (KnownPeers c)), u') ∧
    kp_PeerID p' = kp_PeerID p ∧
    (kp_IPAddr p ≠ "" → kp_IPAddr p' = kp_IPAddr p) ∧
    (kp_Alias p ≠ "" → kp_Alias p ∉ u → kp_Alias p' = kp_Alias p) ∧
    visited ({[k]} ∪ done_) (with_KnownPeers c (<[k := p']> (KnownPeers c))) u'.
Proof.
  intros Hv [Hall Hinj] Hnd Hp. unfold default_peer, GetPeer. rewrite Hp. cbn [fst default].
  destruct (genUniqPeerAlias (kp_Name p) (kp_Alias p) (Some u) c) as [a u'] eqn:Eg.
  apply genUniqPeerAlias_inv in Eg as (Hfresh & Hne & -> & Hkeep).
  assert (∃ ip, (if decide (kp_IPAddr p = "") then GenerateNextIpAddr c else Ok (kp_IPAddr p)) = Ok ip ∧
                ip ≠ "" ∧ (kp_IPAddr p ≠ "" → ip = kp_IPAddr p)) as (ip & -> & Hip & Hipk).
  { case_decide; [|by eexists]. destruct (generate_next_ok c Hv) as (ip & -> & Hvip).
    eexists. split; [done|]. split; [by apply ip4_string_nonempty|done]. }
  simpl. eexists _, _. split; [reflexivity|]. simpl.
  split; [done|]. split; [done|]. split; [done|]. split.
  - intros k' p' [->%elem_of_singleton|Hk']%elem_of_union; simpl.
    + rewrite lookup_insert_eq. intros [= <-]. simpl. set_solver.
    + rewrite lookup_insert_ne by set_solver. intros Hp'.
      destruct (Hall k' p' Hk' Hp') as (? & ? & ?). set_solver.
  - intros k1 p1 k2 p2 H1 H2. simpl. rewrite !lookup_insert.
    destruct (decide (k = k1)) as [<-|N1], (decide (k = k2)) as [<-|N2]; [done|..];
      intros E1 E2 Ha.
    + injection E1 as <-. destruct (Hall k2 p2) as (Hin & _); [set_solver|done|].
      simpl in Ha. congruence.
    + injection E2 as <-. destruct (Hall k1 p1) as (Hin & _); [set_solver|done|].
      simpl in Ha. congruence.
    + eapply (Hinj k1 p1 k2 p2); try done; set_solver.
Qed.

#[local] Arguments default_peer : simpl never.

Lemma default_peers_spec peerIDs : ∀ c u done_,
  vpn_valid c → visited done_ c u → NoDup peerIDs → (∀ k, k ∈ peerIDs → k ∉ done_) →
  (∀ k, k ∈ peerIDs → is_Some (KnownPeers c !! k)) →
  ∃ m u', default_peers peerIDs (c, u) = Ok (with_KnownPeers c m, u') ∧
    dom m = dom (KnownPeers c) ∧
    (∀ k p, KnownPeers c !! k = Some p → ∃ p', m !! k = Some p' ∧ kp_PeerID p' = kp_PeerID p ∧
       (kp_IPAddr p ≠ "" → kp_IPAddr p' = kp_IPAddr p)) ∧
    visited (list_to_set peerIDs ∪ done_) (with_KnownPeers c m) u'.
Proof.
  induction peerIDs as [|k ks IH]; intros c u done_ Hv Hvis Hnd Hdisj Hdom; simpl.
  - exists (KnownPeers c), u. split; [by destruct c|]. split; [done|]. split; [eauto|].
    rewrite union_empty_l_L. by destruct c.
  - apply list.NoDup_cons in Hnd as [Hk Hnd].
    destruct (Hdom k) as [p Hp]; [set_solver|].
    destruct (default_peer_spec c u done_ k p) as (p' & u' & -> & Hid & Hip & _ & Hvis'); [done|done|set_solver|done|].
    simpl.
    destruct (IH (with_KnownPeers c (<[k := p']> (KnownPeers c))) u' ({[k]} ∪ done_))
      as (m & u'' & -> & Hm & Hkeep & Hvis''); [done|done|done|set_solver| |].
    { intros k' Hk'. simpl. rewrite lookup_insert. case_decide; [by eexists|apply Hdom; set_solver]. }
    exists m, u''. split; [done|]. simpl in Hm.
    split. { rewrite Hm, dom_insert_L. apply elem_of_dom_2 in Hp. set_solver. }
    split.
    + intros k1 p1 Hp1. destruct (decide (k = k1)) as [<-|Hne].
      * destruct (Hkeep k p') as (p2 & ? & ? & Hip2); [simpl; by rewrite lookup_insert_eq|].
        exists p2. split; [done|]. split; [congruence|]. intros Hnn.
        assert (p1 = p) as -> by congruence. rewrite Hip2; [by apply Hip|]. by rewrite Hip.
      * apply Hkeep. simpl. by rewrite lookup_insert_ne.
    + by rewrite (union_comm_L {[k]} (list_to_set ks)), <- (assoc_L (∪)).
Qed.
End loop.

Lemma ParseCIDR_bytes s ip n : ParseCIDR s = Some (ip, n) → Forall is_byte ip.
Proof.
  unfold ParseCIDR. destruct (cut_at _ _) as [addr [mask|]]; [|done].
  destruct (ParseAddr (bytes_str addr)) as [a|] eqn:Ea; simpl; [|done]. case_decide as Hz; [done|].
  destruct (if decide (mask = []) then None else dtoi mask 0) as [k|]; simpl; [|done].
  case_decide; [done|]. intros [= <- _].
  pose proof (ParseIP_bytes (bytes_str addr)) as Hb. unfold ParseIP in Hb. rewrite Ea in Hb.
  destruct a as [b|b [|]]; done.
Qed.

Lemma default_scalars_valid Version GOOS c :
  ((VPNLocalIPMask c).1 ≠ [] → net_IP (vpn_net c) ≠ []) → vpn_valid (default_scalars Version GOOS c).
Proof.
  intros Hc. set (c' := default_scalars Version GOOS c).
  assert (IPNetText (cVPN c') = DefaultVPNNetworkSubnet ∨
          IPNetText (cVPN c') = IPNetText (cVPN c) ∧ (VPNLocalIPMask c).1 ≠ []) as [E|[E Hne]].
  { unfold c', default_scalars, orDefault, VPNLocalIPMask. simpl.
    destruct (decide (IPNetText (cVPN c) = "")) as [E|E].
    - left. by repeat (case_match; simpl).
    - destruct (ParseCIDR (IPNetText (cVPN c))) as [[ip n]|] eqn:Ep; simpl; [|by left].
      case_decide; simpl; [by left|by right]. }
  - unfold vpn_valid, vpn_net, VPNLocalIPMask. rewrite E.
    apply conf_two_valid.
  - assert (VPNLocalIPMask c' = VPNLocalIPMask c) as Eq by (unfold VPNLocalIPMask; by rewrite E).
    unfold vpn_valid, vpn_net. rewrite Eq. split; [|by apply Hc].
    revert Hne. unfold VPNLocalIPMask. destruct (ParseCIDR _) as [[ip n]|] eqn:Ep; [|done]. simpl.
    intros Hne. destruct (To4_valid ip); [by eapply ParseCIDR_bytes|done|done].
Qed.

(** C36. [setDefaults] repairs every configuration whose network text does not name
    a mapped IPv6 block, whatever the order of the loop over the peers: it does not
    panic, keeps the peers, their identities and the addresses they have, and leaves
    every peer with an address and a non-empty alias no other peer has, a usable
    IPv4 network, and no empty scalar the rest of the program relies on. *)
Theorem setDefaults_repairs `{Unicode} Version GOOS os peerIDs c :
  peerIDs ≡ₚ (map_to_list (KnownPeers c)).*1 →
  ((VPNLocalIPMask c).1 ≠ [] → net_IP (vpn_net c) ≠ []) →
  ∃ c', setDefaults Version GOOS os peerIDs c = Ok c' ∧
    (∀ k p', KnownPeers c' !! k = Some p' → kp_Alias p' ≠ "" ∧ kp_IPAddr p' ≠ "" ∧
       ∃ p, KnownPeers c !! k = Some p ∧ kp_PeerID p' = kp_PeerID p ∧
            (kp_IPAddr p ≠ "" → kp_IPAddr p' = kp_IPAddr p)) ∧
    dom (KnownPeers c') = dom (KnownPeers c) ∧
    (∀ k1 p1 k2 p2, KnownPeers c' !! k1 = Some p1 → KnownPeers c' !! k2 = Some p2 →
       kp_Alias p1 = kp_Alias p2 → k1 = k2) ∧
    vpn_valid c' ∧ BlockedPeers c' = BlockedPeers c ∧
    ParallelSendingStreamsCount (P2pNode c') ≠ 0%Z ∧ ReconnectionIntervalSec (P2pNode c') ≠ 0%Z ∧
    HttpListenAddress c' ≠ "" ∧ SOCKS5ListenAddress (SOCKS5 c') ≠ "" ∧ UpdateServerURL (Update c') ≠ "".
Proof.
  intros Hperm Hnet. unfold setDefaults. set (c0 := default_scalars Version GOOS c).
  assert (Hk0 : KnownPeers c0 = KnownPeers c) by done.
  assert (Hv : vpn_valid c0) by by apply default_scalars_valid.
  assert (Hin : ∀ k, k ∈ peerIDs ↔ is_Some (KnownPeers c !! k)).
  { intros k. rewrite Hperm, list_elem_of_fmap. split.
    - intros ([k' p] & -> & ?%elem_of_map_to_list). by exists p.
    - intros [p Hp]. exists (k, p). by rewrite elem_of_map_to_list. }
  destruct (default_peers_spec peerIDs c0 ∅ ∅) as (m & u & -> & Hdom & Hkeep & Hall & Hinj);
    [done|by split|rewrite Hperm; apply NoDup_fst_map_to_list|set_solver|intros k; apply Hin|].
  rewrite Hk0 in *.
  assert (Hd : ∀ k p, m !! k = Some p → k ∈ (list_to_set peerIDs ∪ ∅ : gset string)).
  { intros k p Hp%elem_of_dom_2. rewrite Hdom in Hp. apply elem_of_dom, Hin in Hp. set_solver. }
  eexists. split; [reflexivity|]. cbn [KnownPeers default_rest with_KnownPeers] in *.
  split; [|split; [done|split; [|split; [done|split; [done|]]]]].
  - intros k p' Hp'. destruct (Hall k p' (Hd _ _ Hp') Hp') as (_ & Ha & Hi). split; [done|]. split; [done|].
    pose proof (elem_of_dom_2 _ _ _ Hp') as Hk. rewrite Hdom in Hk. apply elem_of_dom in Hk as [p Hp].
    destruct (Hkeep k p Hp) as (p2 & Hp2 & ? & ?). exists p. simplify_eq. done.
  - intros. by eapply (Hinj k1 p1 k2 p2); eauto.
  - clear. cbn. unfold orDefault. repeat split; repeat case_decide; try done; repeat case_match; try done.
Qed.

Definition empty_dirs : OSDirs := mkOSDirs "/data" "" (λ _, false) None false.

Lemma setDefaults_repairs_witness :
  ∃ c', setDefaults (H := toy_unicode) "v0.9" "linux" empty_dirs ["b"; "a"]
          (conf_with {[ "a" := sample_peer "a" "x" "pc" "" ""; "b" := sample_peer "b" "y" "pc" "10.66.0.7" "" ]})
        = Ok c' ∧
    (∀ k1 p1 k2 p2, KnownPeers c' !! k1 = Some p1 → KnownPeers c' !! k2 = Some p2 →
       kp_Alias p1 = kp_Alias p2 → k1 = k2).
Proof.
  destruct (setDefaults_repairs (H := toy_unicode) "v0.9" "linux" empty_dirs ["b"; "a"]
    (conf_with {[ "a" := sample_peer "a" "x" "pc" "" ""; "b" := sample_peer "b" "y" "pc" "10.66.0.7" "" ]}))
    as (c' & H & _ & _ & Hinj & _); [|discriminate|exists c'; split; [exact H|exact Hinj]].
  apply (bool_decide_unpack _). vm_compute. exact I.
Defined.
