(* ===== verification/ConfigFile.v ===== *)
(** * The configuration file (src/config/config.go, src/config/other.go)

    Saving and exporting the configuration, and what loading or importing it gives back.
    A configuration is settled when [setDefaults] has nothing left to repair in it. *)

From S2P Require Import Prelude GoStrings GoNet Externals Config NetworkAddr AwlDns ConfigDefaults.
From Stdlib Require String.

Definition DhtPeerstoreDataDirectory : string := "peerstore".

(** The JSON form of a configuration. *)
Class ConfigCodec := { MarshalIndent : Config → option bytes; Unmarshal : bytes → option Config }.

Definition with_dataDir (c : Config) (dir : string) : Config :=
  mkConfig dir (cVersion c) (LoggerLevel c) (HttpListenAddress c) (HttpListenOnAdminHost c) (HttpBasicAuth c) (P2pNode c)
    (cVPN c) (SOCKS5 c) (DNS c) (KnownPeers c) (BlockedPeers c) (Update c).

(** [path] and [PeerstoreDir]. *)
Definition config_path (c : Config) : string := path_join (dataDir c) AppConfigFilename.
Definition PeerstoreDir (c : Config) : string := path_join (dataDir c) DhtPeerstoreDataDirectory.

(** The files of the machine are a map from their paths. *)
Section files.
Context `{ConfigCodec}.

(** [Export]; [dev] says whether the logger panics on what should not happen. *)
Definition Export (dev : bool) (c : Config) : outcome bytes :=
  match MarshalIndent c with Some data => Ok data | None => if dev then Panic else Ok [] end.

(** The file [save] writes; [write_ok] is the success of writing. *)
Definition save_file (dev write_ok : bool) (c : Config) (fs : gmap string bytes) : outcome (gmap string bytes) :=
  match MarshalIndent c with
  | None => if dev then Panic else Ok fs
  | Some data => if write_ok then Ok (<[config_path c := data]> fs) else if dev then Panic else Ok fs
  end.

(** [LoadConfig] from the files. *)
Definition LoadFile `{Unicode} (Version GOOS : string) (os : OSDirs) (fs : gmap string bytes) (peerIDs : list string) : outcome Config :=
  LoadConfig Version GOOS os (data ← fs !! path_join (CalcAppDataDir os) AppConfigFilename; Unmarshal data) peerIDs.
End files.

(** Encoding and decoding a configuration whose texts and times JSON can carry loses only
    the data directory, which is not an exported field. *)
Class ConfigCodecLaws `{ConfigCodec} := {
  portable : Config → Prop;
  config_json : ∀ c, portable c → ∃ data, MarshalIndent c = Some data ∧ Unmarshal data = Some (with_dataDir c "");
}.

(** ** Settled configurations *)

Record peer_settled `{Unicode} (p : KnownPeer) : Prop := {
  set_alias : kp_Alias p ≠ "";
  set_ip : kp_IPAddr p ≠ "";
  set_domain : kp_DomainName p = "" → TrimDomainName (DisplayName p) = "";
}.

Record settled `{Unicode} (Version : string) (c : Config) : Prop := {
  set_version : cVersion c = Version ∧ Version ≠ "";
  set_counts : ReconnectionIntervalSec (P2pNode c) ≠ 0%Z ∧ ParallelSendingStreamsCount (P2pNode c) ≠ 0%Z;
  set_level : LoggerLevel c ≠ "";
  set_listen : HttpListenAddress c ≠ "" ∧ SOCKS5ListenAddress (SOCKS5 c) ≠ "" ∧ DNSListenAddress (DNS c) ≠ "";
  set_net : (VPNLocalIPMask c).1 ≠ [];
  set_interface : InterfaceName (cVPN c) ≠ "";
  set_update : default_update (Update c) = Update c;
  set_peers : map_Forall (λ _, peer_settled) (KnownPeers c);
  set_aliases : ∀ k1 p1 k2 p2, KnownPeers c !! k1 = Some p1 → KnownPeers c !! k2 = Some p2 → kp_Alias p1 = kp_Alias p2 → k1 = k2;
}.

Lemma orDefault_id s d : s ≠ "" → orDefault s d = s.
Proof. intros. unfold orDefault. by rewrite decide_False. Qed.
Lemma orDefault_ne s d : d ≠ "" → orDefault s d ≠ "".
Proof. intros. unfold orDefault. by case_decide. Qed.

Section settled_facts.
Context `{Unicode}.

(** ** Nothing is left to repair *)

Lemma default_scalars_settled Version GOOS c : settled Version c → default_scalars Version GOOS c = c.
Proof.
  intros [[Hv Hne] [Hr Hp] Hl (Hh & Hs & Hd) Hn Hi _ _ _]. unfold VPNLocalIPMask in Hn.
  destruct c as [dir v lvl http admin auth p vpn s d known blocked upd]. destruct p, vpn as [dis name net], s as [le pe la up], d.
  cbn in *. subst v. unfold default_scalars. cbn -[ParseCIDR].
  assert (net ≠ "") by (intros ->; done). rewrite !(orDefault_id net), (orDefault_id lvl), (orDefault_id http) by done.
  destruct (ParseCIDR net) as [[ip n]|] eqn:E; [|done]. cbn in Hn. rewrite (decide_False (P := To4 ip = [])) by done. cbn.
  rewrite (orDefault_id name), !decide_False by done. rewrite (bool_decide_eq_false_2 (le = false ∧ _)) by naive_solver. cbn.
  rewrite (orDefault_id la), (orDefault_id DNSListenAddress) by done. by rewrite bool_decide_eq_false_2.
Qed.

Lemma default_peer_settled c u k p : KnownPeers c !! k = Some p → peer_settled p → kp_Alias p ∉ u →
  default_peer (c, u) k = Ok (c, {[kp_Alias p]} ∪ u).
Proof.
  intros Hk [Ha Hi Hd] Hu. unfold default_peer, GetPeer. rewrite Hk. cbn [fst default].
  destruct (genUniqPeerAlias (kp_Name p) (kp_Alias p) (Some u) c) as [a u'] eqn:Eg.
  apply genUniqPeerAlias_inv in Eg as (_ & _ & -> & Hkeep). rewrite (Hkeep Ha Hu).
  rewrite decide_False by done. cbn [mbind outcome_bind]. f_equal. f_equal.
  replace (with_alias_ip_domain _ _ _ _) with p; [|].
  - rewrite insert_id by done. by destruct c.
  - destruct p as [id nm al ip dom ? ? ? ? ? ? ?]. unfold with_alias_ip_domain. cbn in *. f_equal.
    case_decide as E; [|done]. rewrite E in *. by rewrite Hd.
Qed.

Lemma default_peers_settled peerIDs : ∀ c u,
  (∀ k, k ∈ peerIDs → ∃ p, KnownPeers c !! k = Some p ∧ peer_settled p ∧ kp_Alias p ∉ u) → NoDup peerIDs →
  (∀ k1 p1 k2 p2, KnownPeers c !! k1 = Some p1 → KnownPeers c !! k2 = Some p2 → kp_Alias p1 = kp_Alias p2 → k1 = k2) →
  ∃ u', default_peers peerIDs (c, u) = Ok (c, u').
Proof.
  induction peerIDs as [|k ks IH]; intros c u Hall Hnd Hinj; [by eexists|]. apply list.NoDup_cons in Hnd as [Hk Hnd].
  destruct (Hall k) as (p & Hp & Hs & Hu); [by left|]. cbn [default_peers]. rewrite (default_peer_settled c u k p) by done.
  cbn [mbind outcome_bind]. apply IH; [|done|done]. intros k' Hk'. destruct (Hall k') as (p' & Hp' & Hs' & Hu'); [by right|].
  exists p'. split_and!; [done|done|]. intros [Ea%elem_of_singleton|?]%elem_of_union; [|done].
  apply Hk. by rewrite <- (Hinj k' p' k p).
Qed.

Lemma order_elem c peerIDs k : peerIDs ≡ₚ (map_to_list (KnownPeers c)).*1 → k ∈ peerIDs ↔ is_Some (KnownPeers c !! k).
Proof.
  intros ->. rewrite list_elem_of_fmap. split.
  - intros ([k' p] & -> & ?%elem_of_map_to_list). by exists p.
  - intros [p Hp]. exists (k, p). by rewrite elem_of_map_to_list.
Qed.

Lemma setDefaults_settled Version GOOS os peerIDs c : settled Version c → peerIDs ≡ₚ (map_to_list (KnownPeers c)).*1 →
  setDefaults Version GOOS os peerIDs c = Ok (with_dataDir c (if decide (dataDir c = "") then CalcAppDataDir os else dataDir c)).
Proof.
  intros Hs Hperm. unfold setDefaults. rewrite (default_scalars_settled Version GOOS c Hs).
  destruct (default_peers_settled peerIDs c ∅) as [u ->].
  - intros k [p Hp]%(order_elem c peerIDs k Hperm). exists p. split_and!; [done|by apply (set_peers _ _ Hs k)|set_solver].
  - rewrite Hperm. apply NoDup_fst_map_to_list.
  - apply (set_aliases _ _ Hs).
  - cbn [mbind outcome_bind]. unfold default_rest, with_dataDir. by rewrite (set_update _ _ Hs).
Qed.

Lemma settled_dataDir Version c dir : settled Version c → settled Version (with_dataDir c dir).
Proof. by intros []; split. Qed.

(** ** What loading leaves is settled *)

Lemma default_update_settled u : default_update (default_update u) = default_update u.
Proof.
  destruct u as [ch url en iv]. unfold default_update. cbn. f_equal.
  - by repeat case_bool_decide; naive_solver.
  - by destruct en; repeat case_bool_decide; cbn; naive_solver.
  - by repeat case_bool_decide; naive_solver.
Qed.

(** The domain names of the peers the loop has visited. *)
Lemma default_peers_domains peerIDs : ∀ st c u, default_peers peerIDs st = Ok (c, u) → NoDup peerIDs →
  ∀ k, k ∈ peerIDs → ∀ p, KnownPeers c !! k = Some p → kp_DomainName p = "" → TrimDomainName (DisplayName p) = "".
Proof.
  assert (∀ ks st c u k, default_peers ks st = Ok (c, u) → k ∉ ks → KnownPeers c !! k = KnownPeers st.1 !! k) as Hother.
  { induction ks as [|k' ks IH]; intros st c u k; cbn [default_peers]; [by intros [= ->]|].
    intros ([c1 u1] & E & Hr)%outcome_bind_Ok [Hne Hk]%not_elem_of_cons. rewrite (IH _ _ _ k Hr Hk). destruct st as [c0 u0].
    unfold default_peer in E. destruct (genUniqPeerAlias _ _ _ _) as [a u']. apply outcome_bind_Ok in E as (ip & _ & [= <- _]). cbn. by rewrite lookup_insert_ne. }
  induction peerIDs as [|k0 ks IH]; intros st c u; [by intros _ _ k ?%elem_of_nil|].
  cbn [default_peers]. intros (st1 & E & Hr)%outcome_bind_Ok [Hk0 Hnd]%list.NoDup_cons k [->|Hk]%elem_of_cons p Hp; [|by eapply IH].
  rewrite (Hother _ _ _ _ k0 Hr Hk0) in Hp. destruct st as [c0 u0]. unfold default_peer in E.
  destruct (genUniqPeerAlias _ _ _ _) as [a u']. apply outcome_bind_Ok in E as (ip & _ & [= <-]). cbn in Hp. rewrite lookup_insert_eq in Hp.
  injection Hp as <-. cbn. by case_decide.
Qed.

Lemma setDefaults_settles Version GOOS os peerIDs c : Version ≠ "" → peerIDs ≡ₚ (map_to_list (KnownPeers c)).*1 →
  ((VPNLocalIPMask c).1 ≠ [] → net_IP (vpn_net c) ≠ []) →
  ∃ c', setDefaults Version GOOS os peerIDs c = Ok c' ∧ settled Version c'.
Proof.
  intros Hne Hperm Hnet. pose proof (default_scalars_valid Version GOOS c Hnet) as Hv. unfold setDefaults.
  set (c0 := default_scalars Version GOOS c) in *. assert (KnownPeers c0 = KnownPeers c) as Hk0 by done.
  assert (NoDup peerIDs) as Hnd by (rewrite Hperm; apply NoDup_fst_map_to_list).
  destruct (default_peers_spec peerIDs c0 ∅ ∅) as (m & u & E & Hdom & Hkeep & Hall & Hinj);
    [done|by split|done|set_solver|intros k Hk; rewrite Hk0; by apply (order_elem c peerIDs)|].
  assert (∀ k p, m !! k = Some p → k ∈ peerIDs) as Hd.
  { intros k p Hp%elem_of_dom_2. rewrite Hdom in Hp. apply elem_of_dom in Hp. by apply (order_elem c peerIDs). }
  pose proof (default_peers_domains peerIDs _ _ _ E Hnd) as Hdn. rewrite E. cbn [mbind outcome_bind]. eexists. split; [reflexivity|].
  cbn [KnownPeers with_KnownPeers] in Hall, Hinj, Hdn.
  split; cbn [default_rest cVersion P2pNode LoggerLevel HttpListenAddress SOCKS5 DNS cVPN Update KnownPeers with_KnownPeers].
  - done.
  - unfold c0, default_scalars. cbn. by split; case_decide.
  - by apply orDefault_ne.
  - split_and!; by apply orDefault_ne.
  - destruct Hv as [[Hlen _] _]. intros E0. unfold VPNLocalIPMask in Hlen, E0. cbn [default_rest with_KnownPeers cVPN] in E0. by rewrite E0 in Hlen.
  - apply orDefault_ne. by case_decide.
  - apply default_update_settled.
  - intros k p Hp. destruct (Hall k p) as (_ & ? & ?); [set_solver|done|]. split; [done..|]. by apply (Hdn k); [eapply Hd|].
  - intros k1 p1 k2 p2 H1 H2. apply (Hinj k1 p1 k2 p2); [set_solver..|done|done].
Qed.
End settled_facts.

(** A configuration that was loaded or created is settled. *)
Theorem loaded_config_settled `{Unicode} Version GOOS os peerIDs file :
  Version ≠ "" → peerIDs ≡ₚ (map_to_list (KnownPeers file)).*1 → ((VPNLocalIPMask file).1 ≠ [] → net_IP (vpn_net file) ≠ []) →
  (∃ c, LoadConfig Version GOOS os (Some file) peerIDs = Ok c ∧ settled Version c) ∧
  (∃ c, NewConfig Version GOOS os = Ok c ∧ settled Version c).
Proof.
  intros Hv Hperm Hnet. split.
  - by apply (setDefaults_settles Version GOOS os peerIDs (with_dataDir file (CalcAppDataDir os))).
  - by apply (setDefaults_settles Version GOOS os [] zeroConfig).
Qed.

(** C15. C0: the configuration survives its file. Saved, a settled configuration is loaded
    back unchanged by the same version, whatever the order in which the peers are
    visited: no alias, address, name or setting is repaired a second time. Exported and
    imported on another machine it is loaded there with everything but the data
    directory. *)
Theorem config_file_roundtrip `{ConfigCodecLaws} `{Unicode} Version GOOS os peerIDs dev c fs :
  settled Version c → portable c → peerIDs ≡ₚ (map_to_list (KnownPeers c)).*1 →
  (dataDir c = CalcAppDataDir os →
     ∃ fs', save_file dev true c fs = Ok fs' ∧ LoadFile Version GOOS os fs' peerIDs = Ok c ∧
       ∀ path, path ≠ config_path c → fs' !! path = fs !! path) ∧
  (∃ data path, Export dev c = Ok data ∧ ImportConfig Unmarshal data (CalcAppDataDir os) true = Ok (path, data) ∧
     LoadFile Version GOOS os (<[path := data]> fs) peerIDs = Ok (with_dataDir c (CalcAppDataDir os))).
Proof.
  intros Hs Hp Hperm. destruct (config_json c Hp) as (data & Em & Eu).
  assert (∀ fs' : gmap string bytes, fs' !! path_join (CalcAppDataDir os) AppConfigFilename = Some data →
    LoadFile Version GOOS os fs' peerIDs = Ok (with_dataDir c (CalcAppDataDir os))) as Hload.
  { intros fs' E. unfold LoadFile. rewrite E. cbn [mbind option_bind]. rewrite Eu.
    change (setDefaults Version GOOS os peerIDs (with_dataDir c (CalcAppDataDir os)) = Ok (with_dataDir c (CalcAppDataDir os))).
    rewrite setDefaults_settled; [|by apply settled_dataDir|done]. f_equal. unfold with_dataDir. cbn. by case_decide. }
  split.
  - intros Ed. exists (<[config_path c := data]> fs). unfold save_file. rewrite Em. split_and!; [done| |].
    + rewrite Hload; [|unfold config_path; rewrite Ed; apply lookup_insert_eq]. rewrite <- Ed. by destruct c.
    + intros path Hne. by apply lookup_insert_ne.
  - exists data, (path_join (CalcAppDataDir os) AppConfigFilename). unfold Export, ImportConfig. rewrite Em, Eu. split_and!; [done|done|].
    apply Hload, lookup_insert_eq.
Qed.

(** A codec for one configuration: all there is to encode. *)
Definition toy_config (c : Config) : ConfigCodec := {| MarshalIndent _ := Some [123; 125]%Z; Unmarshal _ := Some (with_dataDir c "") |}.
Lemma toy_config_laws c : @ConfigCodecLaws (toy_config c).
Proof. refine (@Build_ConfigCodecLaws (toy_config c) (λ c', with_dataDir c' "" = with_dataDir c "") _). intros c' E. exists [123; 125]%Z. split; [done|]. cbn. by rewrite E. Defined.

Definition home_conf : Config := Eval vm_compute in
  match setDefaults (H := toy_unicode) "v0.9" "linux" empty_dirs ["b"; "a"]
    (conf_with {[ "a" := sample_peer "a" "x" "pc" "" ""; "b" := sample_peer "b" "y" "pc" "10.66.0.7" "" ]}) with Ok c => c | _ => zeroConfig end.

Lemma home_conf_settled : settled (H := toy_unicode) "v0.9" home_conf.
Proof.
  destruct (setDefaults_settles (H := toy_unicode) "v0.9" "linux" empty_dirs ["b"; "a"]
    (conf_with {[ "a" := sample_peer "a" "x" "pc" "" ""; "b" := sample_peer "b" "y" "pc" "10.66.0.7" "" ]})) as (c & E & Hs);
    [done|apply (bool_decide_unpack _); vm_compute; exact I|discriminate|].
  vm_compute in E. injection E as <-. exact Hs.
Qed.

Lemma config_file_roundtrip_witness :
  let codec := toy_config home_conf in
  ∃ fs', save_file false true home_conf ∅ = Ok fs' ∧ LoadFile (H0 := toy_unicode) "v0.9" "linux" empty_dirs fs' ["a"; "b"] = Ok home_conf.
Proof.
  destruct (config_file_roundtrip (H := toy_config home_conf) (H0 := toy_config_laws home_conf) (H1 := toy_unicode) "v0.9" "linux" empty_dirs ["a"; "b"] false home_conf ∅)
    as [Hsave _]; [exact home_conf_settled|reflexivity|apply (bool_decide_unpack _); vm_compute; exact I|].
  destruct Hsave as (fs' & Es & El & _); [reflexivity|]. exists fs'. exact (conj Es El).
Defined.
