(* ===== verification/Events.v ===== *)
(** * Announcing changes of the known peers (src/awlevent/awlevent.go, src/config/config.go)

    Changes of the known peers are announced on an event bus; a subscriber's goroutine
    receives the events one by one and reads the configuration anew for each. Here are the
    steps of the two sides: the change, which takes the lock of the configuration, the
    emission, which blocks while the subscriber's queue is full, and the turns of
    [WrapSubscriptionToCallback]. The bus (go-libp2p) is a queue of fixed capacity; a
    subscription that is closed takes every event. *)

From S2P Require Import Prelude GoStrings Externals Config.

(** What a callback makes of the known peers it visits; the time a peer was last seen does
    not matter to it. *)
Definition seen (now : time) (id : string) (e : string * KnownPeer) : string * KnownPeer :=
  if decide (e.1 = id) then (e.1, with_LastSeen e.2 now) else e.

Class Subscriber (V : Type) := {
  sb_read : list (string * KnownPeer) → V;
  sb_read_seen : ∀ now id es, sb_read (seen now id <$> es) = sb_read es;
}.

(** The two subscribers: the names of the DNS service and the addresses of the tunnel. *)
Lemma DNSNamesMapping_seen now id es : DNSNamesMapping (seen now id <$> es) = DNSNamesMapping es.
Proof.
  unfold DNSNamesMapping. generalize (∅ : gmap string string). induction es as [|[k p] es IH]; intros m; [done|].
  rewrite fmap_cons. cbn [foldl]. rewrite IH. unfold seen. simpl. by destruct (decide (k = id)).
Qed.

Global Instance names_subscriber : Subscriber (gmap string string) :=
  {| sb_read := DNSNamesMapping; sb_read_seen := DNSNamesMapping_seen |}.

Definition peer_addresses `{PeerCodec} (es : list (string * KnownPeer)) : list (string * string) :=
  (λ e, (PeerId e.2, kp_IPAddr e.2)) <$> es.

Lemma peer_addresses_seen `{PeerCodec} now id es : peer_addresses (seen now id <$> es) = peer_addresses es.
Proof.
  unfold peer_addresses. rewrite <- list_fmap_compose. apply list_fmap_ext. intros i [k p] _. unfold seen. simpl. by destruct (decide (k = id)).
Qed.

Global Instance routes_subscriber `{PeerCodec} : Subscriber (list (string * string)) :=
  {| sb_read := peer_addresses; sb_read_seen := peer_addresses_seen |}.

Section bus.
Context {V : Type} `{Subscriber V}.

(** The goroutine of the subscription: waiting, with an event it received, with the
    configuration it read, or returned because the context is done. *)
Inductive callback := Idle | Received | Computed (v : V) | Unsubscribed.

Record Bus := mkBus {
  bs_store : Store;
  bs_locked : bool;             (* a caller of UpsertPeerUnlocked holds the lock, its event is not out *)
  bs_owing : nat;               (* changes made whose event is not out, lock released *)
  bs_queue : nat;               (* the subscription's queue *)
  bs_callback : callback;
  bs_view : V;                  (* what the callback installed last *)
}.

Inductive bus_event :=
  | Change (op : conf_op)
  | Emit                                     (* an emission outside the lock *)
  | EmitLocked                               (* the emission of UpsertPeerUnlocked, then the unlock *)
  | Receive
  | ReadConf (es : list (string * KnownPeer))  (* under the lock, in the order [es] *)
  | Install
  | CancelContext.

(** An emission: [cap] is the capacity of the queue. *)
Definition accept (cap : nat) (s : Bus) : option nat :=
  match bs_callback s with
  | Unsubscribed => Some (bs_queue s)
  | _ => if decide (bs_queue s < cap) then Some (S (bs_queue s)) else None
  end.

Definition is_unlocked_upsert (op : conf_op) : bool := match op with OpUpsertPeerUnlocked _ => true | _ => false end.

Definition bus_step (cap : nat) (e : bus_event) (s : Bus) : option Bus :=
  match e with
  | Change op =>
      if bs_locked s then None
      else
        let store := run_op op (bs_store s) in
        if is_unlocked_upsert op then Some (mkBus store true (bs_owing s) (bs_queue s) (bs_callback s) (bs_view s))
        else Some (mkBus store false (bs_owing s + (events store - events (bs_store s))) (bs_queue s) (bs_callback s) (bs_view s))
  | Emit =>
      match bs_owing s with
      | O => None
      | S owing => q ← accept cap s; Some (mkBus (bs_store s) (bs_locked s) owing q (bs_callback s) (bs_view s))
      end
  | EmitLocked =>
      if bs_locked s then q ← accept cap s; Some (mkBus (bs_store s) false (bs_owing s) q (bs_callback s) (bs_view s)) else None
  | Receive =>
      match bs_callback s, bs_queue s with
      | Idle, S q => Some (mkBus (bs_store s) (bs_locked s) (bs_owing s) q Received (bs_view s))
      | _, _ => None
      end
  | ReadConf es =>
      match bs_callback s with
      | Received =>
          if bs_locked s then None
          else if decide (es ≡ₚ map_to_list (KnownPeers (conf (bs_store s)))) then
            Some (mkBus (bs_store s) false (bs_owing s) (bs_queue s) (Computed (sb_read es)) (bs_view s))
          else None
      | _ => None
      end
  | Install =>
      match bs_callback s with
      | Computed v => Some (mkBus (bs_store s) (bs_locked s) (bs_owing s) (bs_queue s) Idle v)
      | _ => None
      end
  | CancelContext =>
      match bs_callback s with
      | Idle => Some (mkBus (bs_store s) (bs_locked s) (bs_owing s) (bs_queue s) Unsubscribed (bs_view s))
      | _ => None
      end
  end.

Definition bus_run (cap : nat) : list bus_event → Bus → option Bus := run_steps (bus_step cap).

(** A subscription made after the callback ran once on the configuration of [s]. *)
Definition subscribed (s : Store) (es : list (string * KnownPeer)) : Bus := mkBus s false 0 0 Idle (sb_read es).
End bus.
Arguments callback V : clear implicits.
Arguments Bus V : clear implicits.

(** ** Facts *)

Lemma seen_ranges now id p c es : KnownPeers c !! id = Some p → ranges (KnownPeers c) es →
  ranges (<[id := with_LastSeen p now]> (KnownPeers c)) (seen now id <$> es).
Proof.
  unfold ranges. simpl. intros Hp ->. rewrite <- (insert_delete_id (KnownPeers c) id p Hp) at 1.
  rewrite <- (insert_delete_eq (KnownPeers c) id (with_LastSeen p now)). rewrite !map_to_list_insert by apply lookup_delete_eq.
  rewrite fmap_cons. unfold seen at 1. simpl. rewrite decide_True by done. apply Permutation_cons; [done|].
  rewrite (list_fmap_ext (seen now id) (λ e, e)); [by rewrite list_fmap_id|].
  intros i [k q] Hk. apply list_elem_of_lookup_2, elem_of_map_to_list, lookup_delete_Some in Hk as [Hne _].
  unfold seen. by rewrite decide_False by (simpl; congruence).
Qed.

Lemma run_op_events op s : events s ≤ events (run_op op s).
Proof.
  destruct op; simpl; unfold RemovePeer, UpdatePeerLastSeen, RemoveBlockedPeer, UpsertBlockedPeer;
    try destruct (GetPeer _ _) as [? []]; try destruct (GetBlockedPeer _ _) as [? []]; simpl; lia.
Qed.

(** A change that is not announced changes nothing a subscriber reads. *)
Lemma run_op_quiet `{Subscriber V} op s es : events (run_op op s) = events s → ranges (KnownPeers (conf s)) es →
  ∃ es', ranges (KnownPeers (conf (run_op op s))) es' ∧ sb_read es' = sb_read es.
Proof.
  intros He Hes. destruct op as [id|p|p|now id|id|now id n|]; simpl in *.
  - unfold RemovePeer in *. destruct (GetPeer id (conf s)) as [p []] eqn:E; simpl in *; [lia|by exists es].
  - lia.
  - lia.
  - unfold UpdatePeerLastSeen. destruct (GetPeer id (conf s)) as [p []] eqn:E; [|by exists es].
    apply GetPeer_true in E. exists (seen now id <$> es). split; [by apply seen_ranges|apply sb_read_seen].
  - exists es. split; [|done]. unfold RemoveBlockedPeer. by destruct (GetBlockedPeer id (conf s)) as [b []].
  - exists es. split; [|done]. unfold UpsertBlockedPeer. by destruct (GetBlockedPeer id (conf s)) as [b []].
  - by exists es.
Qed.

Section catching_up.
Context {V : Type} `{Subscriber V} (cap : nat).

(** [v] is what the callback makes of the configuration as it is. *)
Definition current (c : Config) (v : V) : Prop := ∃ es, ranges (KnownPeers c) es ∧ v = sb_read es.

(** No change waits for the subscriber. *)
Definition announced (s : Bus V) : Prop := bs_locked s = false ∧ bs_owing s = 0 ∧ bs_queue s = 0.

Record bus_inv (s : Bus V) : Prop := {
  bu_queue : bs_queue s ≤ cap;
  bu_view : announced s →
    match bs_callback s with
    | Idle => current (conf (bs_store s)) (bs_view s)
    | Computed v => current (conf (bs_store s)) v
    | Received | Unsubscribed => True
    end;
}.

Lemma accept_queue (s : Bus V) q : accept cap s = Some q → bs_queue s ≤ cap → q ≤ cap ∧ (bs_callback s = Unsubscribed ∨ q ≠ 0).
Proof. unfold accept. destruct (bs_callback s); [case_decide..|]; intros [= <-] ?; split; auto; lia. Qed.

Lemma current_quiet op s v : events (run_op op s) = events s → current (conf s) v → current (conf (run_op op s)) v.
Proof. intros He (es & Hes & ->). destruct (run_op_quiet op s es He Hes) as (es' & ? & <-). by exists es'. Qed.

Lemma bus_step_inv e s s' : bus_inv s → bus_step cap e s = Some s' → bus_inv s'.
Proof.
  intros [Hq Hv]. destruct e as [op| | | |es| |]; simpl.
  - destruct (bs_locked s) eqn:El; [done|]. destruct (is_unlocked_upsert op); intros [= <-]; (split; [done|]).
    { by intros (? & _). }
    intros (_ & Ho & Hz). simpl in *. pose proof (run_op_events op (bs_store s)).
    assert (He : events (run_op op (bs_store s)) = events (bs_store s)) by lia.
    assert (Ha : announced s) by (split_and!; [done|lia|done]). specialize (Hv Ha).
    destruct (bs_callback s); auto using current_quiet.
  - destruct (bs_owing s) eqn:Eo; [done|]. destruct (accept cap s) as [q|] eqn:Ea; simpl; [|done]. intros [= <-].
    destruct (accept_queue s q Ea Hq) as [? Hu]. split; [done|]. intros (_ & _ & Hz). simpl in *.
    destruct Hu as [->|Hu]; [done|congruence].
  - destruct (bs_locked s); [|done]. destruct (accept cap s) as [q|] eqn:Ea; simpl; [|done]. intros [= <-].
    destruct (accept_queue s q Ea Hq) as [? Hu]. split; [done|]. intros (_ & _ & Hz). simpl in *.
    destruct Hu as [->|Hu]; [done|congruence].
  - destruct (bs_callback s), (bs_queue s) eqn:Eq; try done. intros [= <-]. split; simpl; [lia|done].
  - destruct (bs_callback s); try done. destruct (bs_locked s); [done|]. case_decide; [|done]. intros [= <-].
    split; [done|]. intros _. by exists es.
  - destruct (bs_callback s) eqn:Ec; try done. intros [= <-]. by split.
  - destruct (bs_callback s) eqn:Ec; try done. intros [= <-]. by split.
Qed.

(** The steps that only pass events on. *)
Definition passes (e : bus_event) : bool := match e with Change _ | CancelContext => false | _ => true end.

Definition backlog (s : Bus V) : nat :=
  (if bs_locked s then 4 else 0) + 4 * bs_owing s + 3 * bs_queue s +
  match bs_callback s with Received => 2 | Computed _ => 1 | _ => 0 end.

Lemma passes_backlog e s s' : passes e = true → bus_step cap e s = Some s' → backlog s' < backlog s.
Proof.
  destruct e as [op| | | |es| |]; simpl; intros ?; try done.
  - destruct (bs_owing s) eqn:Eo; [done|]. unfold accept. destruct (bs_callback s) eqn:Ec; [case_decide..|]; simpl; try done;
      intros [= <-]; unfold backlog; simpl; rewrite Eo, Ec; destruct (bs_locked s); lia.
  - destruct (bs_locked s) eqn:El; [|done]. unfold accept. destruct (bs_callback s) eqn:Ec; [case_decide..|]; simpl; try done;
      intros [= <-]; unfold backlog; simpl; rewrite El, Ec; lia.
  - destruct (bs_callback s) eqn:Ec, (bs_queue s) eqn:Eq; try done. intros [= <-]. unfold backlog; simpl. rewrite Ec, Eq. lia.
  - destruct (bs_callback s) eqn:Ec; try done. destruct (bs_locked s) eqn:El; [done|]. case_decide; [|done]. intros [= <-].
    unfold backlog; simpl. rewrite El, Ec. lia.
  - destruct (bs_callback s) eqn:Ec; try done. intros [= <-]. unfold backlog; simpl. rewrite Ec. lia.
Qed.

(** When no event can be passed on, the subscriber is up to date, or has left, or waits
    for the lock of someone who waits for its queue. *)
Lemma bus_stuck s : 0 < cap → bus_inv s → (∀ e, passes e = true → bus_step cap e s = None) →
  bs_callback s = Unsubscribed ∨ (announced s ∧ bs_callback s = Idle) ∨
  (bs_locked s = true ∧ bs_queue s = cap ∧ bs_callback s = Received).
Proof.
  intros Hcap [Hq _] Hs. pose proof (Hs Emit eq_refl) as He. pose proof (Hs EmitLocked eq_refl) as Hl. pose proof (Hs Receive eq_refl) as Hr.
  pose proof (Hs (ReadConf (map_to_list (KnownPeers (conf (bs_store s))))) eq_refl) as Hc. pose proof (Hs Install eq_refl) as Hi.
  unfold announced. simpl in *. unfold accept in *. destruct (bs_callback s) as [| |v|]; [..|by left]; [| |done].
  - destruct (bs_queue s); [|done]. rewrite (decide_True (P := 0 < cap)) in He, Hl by done.
    destruct (bs_locked s); [done|]. destruct (bs_owing s); [|done]. right; left. done.
  - destruct (bs_locked s); [|by rewrite decide_True in Hc by done]. case_decide; [done|]. right; right. split_and!; [done|lia|done].
Qed.
End catching_up.

Lemma subscribed_inv `{Subscriber V} cap s es : ranges (KnownPeers (conf s)) es → bus_inv cap (subscribed s es).
Proof. intros Hes. split; simpl; [lia|]. intros _. by exists es. Qed.

(** ** Properties *)

(** C19. Subscribers follow the configuration. However changes, emissions and turns of the
    callback are interleaved, whenever no announced change is waiting, what the callback
    installed is what it makes of the configuration as it is now: no change is missed.
    Passing on what is pending takes a bounded number of steps, and when nothing can be
    passed on any more the subscriber is up to date, or has left, or the two sides wait
    for each other: a caller of [UpsertPeerUnlocked] holds the lock and waits for room in
    the queue, and the callback waits for the lock. *)
Theorem subscriber_catches_up `{Subscriber V} cap s0 es0 es s :
  0 < cap → ranges (KnownPeers (conf s0)) es0 → bus_run cap es (subscribed s0 es0) = Some s →
  (announced s → bs_callback s = Idle → current (conf (bs_store s)) (bs_view s)) ∧
  (∀ es' s', forallb passes es' = true → bus_run cap es' s = Some s' → length es' ≤ backlog s) ∧
  ((∀ e, passes e = true → bus_step cap e s = None) →
     bs_callback s = Unsubscribed ∨ current (conf (bs_store s)) (bs_view s) ∨
     (bs_locked s = true ∧ bs_queue s = cap ∧ bs_callback s = Received)).
Proof.
  intros Hcap Hes Hr. pose proof (run_steps_inv _ (bus_inv cap) es _ s (bus_step_inv cap) (subscribed_inv cap s0 es0 Hes) Hr) as Hs.
  assert (Hidle : announced s → bs_callback s = Idle → current (conf (bs_store s)) (bs_view s)).
  { intros Ha Hi. pose proof (bu_view _ _ Hs Ha) as Hv. by rewrite Hi in Hv. }
  split_and!; [done| |].
  - intros es' s' Hp Hr'. enough (length es' + backlog s' ≤ backlog s) by lia.
    eapply (run_steps_measure (bus_step cap) (λ _, True) (λ e, passes e = true)); [|done| |exact Hr'].
    + intros e s1 s2 _ He E. split; [done|]. by eapply passes_backlog.
    + apply list.Forall_forall. intros e He. rewrite forallb_forall in Hp. by apply Hp, list_elem_of_In.
  - intros Hstuck. destruct (bus_stuck cap s Hcap Hs Hstuck) as [?|[[? ?]|?]]; auto.
Qed.

Section sample.
Definition new_peer_b : KnownPeer := sample_peer "b" "" "b" "10.66.0.3" "laptop".
Definition quiet_store : Store := mkStore zeroConfig None 0.
Definition peer_added : list bus_event :=
  [Change (OpUpsertPeer new_peer_b); Change (OpUpdatePeerLastSeen 5 "b"); Emit; Receive;
   ReadConf [("b", with_LastSeen new_peer_b 5)]; Install; Change (OpUpdatePeerLastSeen 6 "b")].

Lemma subscriber_catches_up_witness :
  ∃ s : Bus (gmap string string), bus_run 16 peer_added (subscribed quiet_store []) = Some s ∧
    current (conf (bs_store s)) (bs_view s) ∧ bs_view s !! "laptop" = Some "10.66.0.3".
Proof.
  eexists. split; [vm_compute; reflexivity|]. split; [|vm_compute; reflexivity].
  apply (subscriber_catches_up 16 quiet_store [] peer_added); [lia|unfold ranges; reflexivity|vm_compute; reflexivity|split_and!; reflexivity|reflexivity].
Defined.

(** Changes whose event is out fill the queue of a callback that is about to read. *)
Definition filling (n : nat) : list bus_event := concat (replicate n [Change (OpUpsertPeer new_peer_b); Emit]).

Lemma filled cap n : ∀ (s : Bus (gmap string string)), bs_locked s = false → bs_owing s = 0 → bs_callback s = Received → n + bs_queue s = cap →
  ∃ s', bus_run cap (filling n) s = Some s' ∧ bs_locked s' = false ∧ bs_owing s' = 0 ∧ bs_callback s' = Received ∧ bs_queue s' = cap.
Proof.
  induction n as [|n IH]; intros s Hl Ho Hc Hq; [by exists s|]. unfold bus_run, filling, run_steps. cbn [replicate concat app foldl]. cbn [mbind option_bind bus_step].
  rewrite Hl. cbn [is_unlocked_upsert option_bind mbind bus_step bs_owing]. rewrite Ho.
  replace (0 + (events (run_op (OpUpsertPeer new_peer_b) (bs_store s)) - events (bs_store s))) with 1 by (simpl; lia).
  unfold accept. cbn [bs_callback bs_queue]. rewrite Hc, decide_True by lia. cbn [mbind option_bind].
  apply IH; [done..|simpl; lia].
Qed.
End sample.

(** The two sides can wait for each other for ever: when the queue fills while the
    callback is about to read and a peer's settings are then changed, which announces the
    change under the lock, no step of anyone is possible. *)
Theorem locked_emit_deadlocks cap : 0 < cap →
  ∃ es (s : Bus (gmap string string)), bus_run cap es (subscribed quiet_store []) = Some s ∧ ∀ e, bus_step cap e s = None.
Proof.
  intros Hcap. set (s1 := mkBus (run_op (OpUpsertPeer new_peer_b) quiet_store) false 0 0 Received (sb_read [])).
  destruct (filled cap cap s1) as (s2 & E2 & Hl & Ho & Hc & Hq); [done..|simpl; lia|].
  exists ([Change (OpUpsertPeer new_peer_b); Emit; Receive] ++ filling cap ++ [Change (OpUpsertPeerUnlocked new_peer_b)]).
  exists (mkBus (run_op (OpUpsertPeerUnlocked new_peer_b) (bs_store s2)) true 0 cap Received (bs_view s2)). split.
  - assert (E1 : bus_run cap [Change (OpUpsertPeer new_peer_b); Emit; Receive] (subscribed quiet_store []) = Some s1).
    { cbn. rewrite decide_True by done. reflexivity. }
    unfold bus_run in *. rewrite !run_steps_app, E1. cbn [mbind option_bind]. rewrite run_steps_app, E2.
    cbn [run_steps foldl mbind option_bind bus_step]. by rewrite Hl, Ho, Hc, Hq.
  - intros [op| | | |es| |]; cbn; try done. by rewrite decide_False by lia.
Qed.
