(* ===== verification/Embeds.v ===== *)
(** * Embedded files (src/embeds/compare.go, src/embeds/icon.go, src/embeds/wintun_windows.go)

    Files the programs carry are written to disk unless the disk already has them: the
    comparison in chunks, and the icon of the tray. The file system is a map from paths to
    contents, and what the operating system answers is an argument. *)

From S2P Require Import Prelude GoStrings GoIO Config ConfigDefaults.

(** ** Comparison (src/embeds/compare.go) *)

Definition chunkSize : nat := 4096.

(** An error other than a short last chunk. *)
Definition stops (e : option read_error) : bool := bool_decide (e ≠ None ∧ e ≠ Some UnexpectedEOF).
Definition at_end (e : option read_error) : bool := bool_decide (e = Some EOF ∨ e = None).

(** [streamsEqual] with fuel for its rounds; a stream is read until it delivers no more. *)
Fixpoint streamsEqual (fuel : nat) (s1 s2 : Reader) : option (outcome bool) :=
  match fuel with
  | O => None
  | S fuel =>
      match ReadFull (reads s1) chunkSize [] s1, ReadFull (reads s2) chunkSize [] s2 with
      | Some (buf1, err1, s1), Some (buf2, err2, s2) =>
          if stops err1 || stops err2 then
            if at_end err1 && at_end err2 then Some (Ok (bool_decide (err1 = Some EOF) && bool_decide (err2 = Some EOF)))
            else Some (Fail "compare streams reading err")
          else if decide (buf1 = buf2) then streamsEqual fuel s1 s2 else Some (Ok false)
      | _, _ => None
      end
  end.

(** A reader of bytes in memory. *)
Definition bytes_NewReader (data : bytes) : Reader := mkReader (if decide (data = []) then [] else [data]) EOF false.

(** The answer of [os.Stat]. *)
Inductive stat_result := NotExist | StatFailed | Size (n : Z).

(** [checkIsFileEqual]: after an error other than a missing file the result of [os.Stat]
    is nil, and its size is asked for. *)
Definition checkIsFileEqual (stat : stat_result) (open : option Reader) (data : bytes) : outcome bool :=
  match stat with
  | NotExist => Ok false
  | StatFailed => Panic
  | Size n =>
      if decide (n ≠ Z.of_nat (length data)) then Ok false
      else match open with
           | None => Ok false
           | Some file =>
               match streamsEqual (S (length data)) (bytes_NewReader data) file with
               | Some (Ok equal) => Ok equal
               | _ => Ok false
               end
           end
  end.

(** ** The icon (src/embeds/icon.go) *)

Definition iconDirPathLinux : string := ".local/share/icons".
Definition iconName : string := "anywherelan.png".

Record Icon := mkIcon { appIconPath : string; isTempIcon : bool; files : gmap string bytes }.

(** What [EmbedIcon] meets: the directories of the operating system, whether the directory
    is there after [Mkdir], and whether files can be written. *)
Record IconEnv := mkIconEnv {
  ic_UserHomeDir : option string;
  ic_UserConfigDir : option string;
  ic_TempDir : string;
  ic_mkdir : string → bool;
  ic_write : string → bool;
  ic_stat_fails : string → bool;
}.

Definition icon_dir (goos : string) (env : IconEnv) : option string * bool :=
  if decide (goos = "linux") then ((λ home, path_join home iconDirPathLinux) <$> ic_UserHomeDir env, false)
  else if decide (goos = "windows") then ((λ dir, path_join dir AppDataDirectory) <$> ic_UserConfigDir env, false)
  else (Some (ic_TempDir env), true).

(** [os.Stat] and [os.Open] on the files. *)
Definition stat_of (env : IconEnv) (path : string) (fs : gmap string bytes) : stat_result :=
  if ic_stat_fails env path then StatFailed
  else match fs !! path with None => NotExist | Some data => Size (Z.of_nat (length data)) end.
Definition open_of (path : string) (fs : gmap string bytes) : option Reader := bytes_NewReader <$> fs !! path.

(** [EmbedIcon]: the directory of the icon. *)
Definition EmbedIcon (goos : string) (env : IconEnv) (appIcon : bytes) (i : Icon) : outcome string * Icon :=
  let '(dir, temp) := icon_dir goos env in
  let i := mkIcon (appIconPath i) (isTempIcon i || temp) (files i) in
  match dir with
  | None => (Fail "error: get home dir", i)
  | Some iconDir =>
      if negb (ic_mkdir env iconDir) then (Fail "error: create dir", i)
      else
        let iconPath := path_join iconDir iconName in
        match checkIsFileEqual (stat_of env iconPath (files i)) (open_of iconPath (files i)) appIcon with
        | Panic => (Panic, i)
        | Ok true => (Ok iconDir, mkIcon iconPath (isTempIcon i) (files i))
        | _ =>
            if negb (ic_write env iconPath) then (Fail "error: write file", i)
            else (Ok iconDir, mkIcon iconPath (isTempIcon i) (<[iconPath := appIcon]> (files i)))
        end
  end.

(** [RemoveIconIfNeeded]. *)
Definition RemoveIconIfNeeded (i : Icon) : Icon :=
  if decide (appIconPath i = "") then i
  else if negb (isTempIcon i) then i
  else mkIcon (appIconPath i) (isTempIcon i) (delete (appIconPath i) (files i)).

(** ** The Windows driver (src/embeds/wintun_windows.go) *)

(** [EmbedWintun]: [dir] is the directory of the executable, if it is known; errors are
    printed and the program goes on. *)
Definition EmbedWintun (env : IconEnv) (dir : option string) (wintunDLL : bytes) (fs : gmap string bytes) : outcome (gmap string bytes) :=
  match dir with
  | None => Ok fs
  | Some dir =>
      let wintunPath := path_join dir "wintun.dll" in
      equal ← checkIsFileEqual (stat_of env wintunPath fs) (open_of wintunPath fs) wintunDLL;
      if (equal : bool) then Ok fs
      else if ic_write env wintunPath then Ok (<[wintunPath := wintunDLL]> fs) else Ok fs
  end.

(** ** Facts *)

(** Reading a full buffer from a reader that ends before. *)
Lemma ReadFull_short fuel : ∀ n got r,
  length (remaining r) < n → fin r = EOF → reads r ≤ fuel →
  ∃ r', ReadFull fuel n got r =
          Some (got ++ remaining r, Some (if decide (got ++ remaining r = []) then EOF else UnexpectedEOF), r') ∧
        remaining r' = [] ∧ fin r' = EOF.
Proof.
  induction fuel as [|fuel IH]; intros n got r Hn Hf Hr; [unfold reads in Hr; lia|]. simpl. rewrite decide_False by lia.
  destruct (Read n r) as [[bs e] r1] eqn:ER. apply Read_spec in ER as (Hrem & Hl & Hfin & Hd & Hp & He).
  rewrite Hrem, length_app in Hn. rewrite decide_False by lia. rewrite Hrem. destruct e as [err|].
  - destruct (He err eq_refl) as (-> & Hc & _). rewrite Hf. unfold remaining. rewrite Hc. cbn [concat]. rewrite app_nil_r.
    exists r1. unfold remaining. by rewrite Hc, Hfin.
  - specialize (Hp ltac:(lia) eq_refl).
    destruct (IH (n - length bs) (got ++ bs) r1) as (r2 & -> & ? & ?); [lia|congruence|lia|].
    exists r2. by rewrite <- app_assoc.
Qed.

(** One read of a chunk of a stream that ends. *)
Lemma read_chunk r : fin r = EOF → ∃ r',
  ReadFull (reads r) chunkSize [] r =
    Some (take chunkSize (remaining r),
          if decide (chunkSize ≤ length (remaining r)) then None
          else Some (if decide (remaining r = []) then EOF else UnexpectedEOF), r') ∧
  remaining r' = drop chunkSize (remaining r) ∧ fin r' = EOF.
Proof.
  intros Hf. case_decide as Hl.
  - destruct (ReadFull_enough (reads r) chunkSize [] r Hl) as (r' & -> & Hr & Hfin & _); [done|]. exists r'.
    by rewrite Hr, Hfin, Hf.
  - destruct (ReadFull_short (reads r) chunkSize [] r) as (r' & -> & Hr & Hfin); [lia|done|done|]. exists r'.
    rewrite Hr, Hfin. by rewrite take_ge, drop_ge by lia.
Qed.

Lemma take_drop_eq {A} n (l k : list A) : take n l = take n k → drop n l = drop n k → l = k.
Proof. intros Ht Hd. by rewrite <- (take_drop n l), <- (take_drop n k), Ht, Hd. Qed.

Lemma bytes_NewReader_remaining data : remaining (bytes_NewReader data) = data.
Proof. unfold bytes_NewReader, remaining. simpl. case_decide; simpl; [by subst|]. apply app_nil_r. Qed.

Lemma length_eq {A} (l k : list A) : l = k → length l = length k.
Proof. by intros ->. Qed.

(** The comparison of two streams that end. *)
Lemma streamsEqual_spec fuel : ∀ s1 s2, fin s1 = EOF → fin s2 = EOF → length (remaining s1) < fuel →
  ∃ r, streamsEqual fuel s1 s2 = Some r ∧ r ≠ Panic ∧ (r = Ok true ↔ remaining s1 = remaining s2).
Proof.
  assert (0 < chunkSize) as Hpos by (unfold chunkSize; lia).
  induction fuel as [|fuel IH]; intros s1 s2 Hf1 Hf2 Hfuel; [lia|]. cbn [streamsEqual].
  destruct (read_chunk s1 Hf1) as (r1 & -> & Hr1 & Hf1'). destruct (read_chunk s2 Hf2) as (r2 & -> & Hr2 & Hf2').
  set (l1 := remaining s1) in *. set (l2 := remaining s2) in *. set (n := chunkSize) in *. clearbody n.
  assert (l1 ≠ [] → (if decide (take n l1 = take n l2) then streamsEqual fuel r1 r2 else Some (Ok false)) = Some (Ok false) ∧ l1 ≠ l2 ∨
    ∃ r, (if decide (take n l1 = take n l2) then streamsEqual fuel r1 r2 else Some (Ok false)) = Some r ∧ r ≠ Panic ∧ (r = Ok true ↔ l1 = l2)) as Hrest.
  { intros Hne. case_decide as Ht; [right|left; split; [done|congruence]].
    destruct (IH r1 r2 Hf1' Hf2') as (r & -> & Hp & Hiff).
    - rewrite Hr1, length_drop. destruct l1; simpl in *; [done|lia].
    - exists r. split_and!; [done|done|]. rewrite Hiff, Hr1, Hr2. split; [by apply take_drop_eq|congruence]. }
  assert (∀ r : outcome bool, r ≠ Panic → r ≠ Ok true → l1 ≠ l2 →
    ∃ r', Some r = Some r' ∧ r' ≠ Panic ∧ (r' = Ok true ↔ l1 = l2)) as Hno by naive_solver.
  destruct (decide (n ≤ length l1)) as [H1|H1], (decide (n ≤ length l2)) as [H2|H2];
    [|destruct (decide (l2 = [])) as [E2|E2]|destruct (decide (l1 = [])) as [E1|E1]|
     destruct (decide (l1 = [])) as [E1|E1], (decide (l2 = [])) as [E2|E2]];
    unfold stops, at_end; simpl.
  - destruct Hrest as [[-> ?]|?]; [by intros E; rewrite E in H1; simpl in H1; lia|by apply Hno|done].
  - apply Hno; try done. intros E%length_eq. lia.
  - destruct Hrest as [[-> ?]|?]; [by intros E; rewrite E in H1; simpl in H1; lia|by apply Hno|done].
  - apply Hno; try done. intros E%length_eq. lia.
  - destruct Hrest as [[-> ?]|?]; [done|by apply Hno|done].
  - eexists. split; [reflexivity|]. rewrite E1, E2. done.
  - apply Hno; try done. congruence.
  - apply Hno; try done. congruence.
  - destruct Hrest as [[-> ?]|?]; [done|by apply Hno|done].
Qed.

(** ** Properties *)

(** Comparing two streams in chunks is the same as comparing their contents: on
    streams that end, whatever sizes their reads have, the comparison ends, never panics,
    and reports equality exactly if the streams deliver the same bytes. *)
Theorem streams_equal_compares s1 s2 :
  fin s1 = EOF → fin s2 = EOF →
  ∃ r, streamsEqual (S (length (remaining s1))) s1 s2 = Some r ∧ r ≠ Panic ∧ (r = Ok true ↔ remaining s1 = remaining s2).
Proof. intros Hf1 Hf2. apply streamsEqual_spec; [done|done|lia]. Qed.

Lemma checkIsFileEqual_spec stat open data : stat ≠ StatFailed → (∀ file, open = Some file → fin file = EOF) →
  (∀ file, open = Some file → stat = Size (Z.of_nat (length (remaining file)))) →
  ∃ b, checkIsFileEqual stat open data = Ok b ∧
    (b = true → ∃ file, open = Some file ∧ remaining file = data) ∧ (∀ file, open = Some file → remaining file = data → b = true).
Proof.
  intros Hs Hf Hsize. unfold checkIsFileEqual. destruct stat as [| |n]; [|done|].
  { exists false. split_and!; [done|done|]. intros file Ho. by apply Hsize in Ho. }
  case_decide as Hn.
  { exists false. split_and!; [done|done|]. intros file Ho <-. apply Hsize in Ho. congruence. }
  destruct open as [file|]; [|by exists false].
  destruct (streamsEqual_spec (S (length data)) (bytes_NewReader data) file) as (r & -> & Hp & Hiff);
    [done|by apply Hf|rewrite bytes_NewReader_remaining; lia|]. rewrite bytes_NewReader_remaining in Hiff.
  destruct r as [b|e|]; [|exists false|done].
  - exists b. split_and!; [done|intros ->; exists file; split; [done|]; symmetry; by apply Hiff|].
    intros file' [= <-] Hd. assert (Ok b = Ok true) as [= ->] by (apply Hiff; done). done.
  - split_and!; [done|done|]. intros file' [= <-] Hd. assert (@Fail bool e = Ok true) by (apply Hiff; done). done.
Qed.

(** A file that is found equal holds the data. *)
Lemma equal_file_holds env path fs data :
  checkIsFileEqual (stat_of env path fs) (open_of path fs) data = Ok true → fs !! path = Some data.
Proof.
  unfold stat_of, open_of. destruct (ic_stat_fails env path); [done|].
  destruct (fs !! path) as [old|]; [|done]. intros Hc. change (bytes_NewReader <$> Some old) with (Some (bytes_NewReader old)) in Hc.
  destruct (checkIsFileEqual_spec (Size (Z.of_nat (length old))) (Some (bytes_NewReader old)) data) as (b & Hb & Ht & _).
  - done.
  - by intros file [= <-].
  - intros file [= <-]. by rewrite bytes_NewReader_remaining.
  - assert (b = true) as -> by congruence. destruct (Ht eq_refl) as (file & [= <-] & Hd). rewrite bytes_NewReader_remaining in Hd. by subst.
Qed.

(** After the icon was embedded the file it names holds the icon; removing it afterwards
    deletes it only on systems where it is in the temporary directory. *)
Theorem icon_embedded goos env appIcon i dir i' :
  EmbedIcon goos env appIcon i = (Ok dir, i') →
  appIconPath i' = path_join dir iconName ∧ files i' !! appIconPath i' = Some appIcon ∧
  (goos = "linux" ∨ goos = "windows" → isTempIcon i = false → RemoveIconIfNeeded i' = i').
Proof.
  unfold EmbedIcon. destruct (icon_dir goos env) as [d temp] eqn:Ed. destruct d as [iconDir|]; [|done].
  destruct (ic_mkdir env iconDir); [|done]. cbn [negb files isTempIcon]. set (path := path_join iconDir iconName).
  assert (∀ fs, goos = "linux" ∨ goos = "windows" → isTempIcon i = false →
    RemoveIconIfNeeded (mkIcon path (isTempIcon i || temp) fs) = mkIcon path (isTempIcon i || temp) fs) as Hrm.
  { intros fs Hg Hi. unfold RemoveIconIfNeeded. cbn [appIconPath isTempIcon]. rewrite Hi.
    assert (temp = false) as -> by (unfold icon_dir in Ed; destruct Hg as [-> | ->]; by injection Ed). by case_decide. }
  pose proof (equal_file_holds env path (files i) appIcon) as Heq.
  destruct (checkIsFileEqual _ _ _) as [[]|e|]; [|destruct (ic_write env path)..|]; intros [= <- <-]; simpl;
    (split_and!; [done|try (by apply lookup_insert_eq); by apply Heq|by apply Hrm]).
Qed.

(** The driver is beside the executable afterwards, if it could be written; other files
    stay as they were. *)
Theorem wintun_embedded env dir wintunDLL fs fs' :
  EmbedWintun env (Some dir) wintunDLL fs = Ok fs' →
  (ic_write env (path_join dir "wintun.dll") = true → fs' !! path_join dir "wintun.dll" = Some wintunDLL) ∧
  ∀ path, path ≠ path_join dir "wintun.dll" → fs' !! path = fs !! path.
Proof.
  unfold EmbedWintun. set (path := path_join dir "wintun.dll"). pose proof (equal_file_holds env path fs wintunDLL) as Heq.
  intros ([] & E & Hw)%outcome_bind_Ok; [injection Hw as <-; split; [intros _; by apply Heq|done]|].
  destruct (ic_write env path); injection Hw as <-; [|done]. split; [intros _; apply lookup_insert_eq|]. intros p Hp. by apply lookup_insert_ne.
Qed.

(** An icon whose file cannot be inspected (a directory on its path without permission)
    crashes the program. *)
Theorem unreadable_icon_panics env appIcon i home :
  ic_UserHomeDir env = Some home → let dir := path_join home iconDirPathLinux in
  ic_mkdir env dir = true → ic_stat_fails env (path_join dir iconName) = true →
  (EmbedIcon "linux" env appIcon i).1 = Panic.
Proof. intros Hh dir Hm Hs. unfold EmbedIcon, icon_dir. rewrite decide_True by done. rewrite Hh. simpl. fold dir. rewrite Hm. simpl. unfold stat_of. by rewrite Hs. Qed.

(** ** Witnesses *)

Lemma streams_equal_compares_witness :
  streamsEqual 4 (mkReader [[1; 2]; [3]]%Z EOF true) (mkReader [[1]; [2; 3]]%Z EOF false) = Some (Ok true) ∧
  streamsEqual 4 (mkReader [[1; 2]; [3]]%Z EOF true) (mkReader [[1]; [2; 4]]%Z EOF false) ≠ Some (Ok true).
Proof.
  split.
  - destruct (streams_equal_compares (mkReader [[1; 2]; [3]]%Z EOF true) (mkReader [[1]; [2; 3]]%Z EOF false) eq_refl eq_refl)
      as (r & E & _ & Hiff). change (S (length (remaining (mkReader [[1; 2]; [3]]%Z EOF true)))) with 4%nat in E.
    rewrite E. f_equal. apply Hiff. reflexivity.
  - destruct (streams_equal_compares (mkReader [[1; 2]; [3]]%Z EOF true) (mkReader [[1]; [2; 4]]%Z EOF false) eq_refl eq_refl)
      as (r & E & _ & Hiff). change (S (length (remaining (mkReader [[1; 2]; [3]]%Z EOF true)))) with 4%nat in E.
    rewrite E. intros [= Hr]. apply Hiff in Hr. discriminate Hr.
Defined.
