(* ===== verification/Protocol.v ===== *)
(** * The wire protocol between peers (src/protocol/protocol.go)

    Control messages are JSON documents, tunnelled packets are length-prefixed. *)

From S2P Require Import Prelude GoIO.
Local Open Scope Z_scope.

Definition version : string := "0.3.0".
Definition basePath : string := "/awl/" +:+ version.
Definition AuthMethod : string := basePath +:+ "/auth/".
Definition GetStatusMethod : string := basePath +:+ "/status/".
Definition TunnelPacketMethod : string := basePath +:+ "/tunnel/".
Definition Socks5PacketMethod : string := basePath +:+ "/socks5/".
Definition Socks5NoAuthMethod : string := basePath +:+ "/socks5-noauth/".

(** [PeerStatusInfo]. *)
Record PeerStatusInfo := mkPeerStatusInfo {
  psi_Name : string;
  psi_Declined : bool;
  psi_AllowUsingAsExitNode : bool;
  psi_UsingPeerID : string;
}.

(** [AuthPeer] and [AuthPeerResponse]. *)
Record AuthPeer := mkAuthPeer { ap_Name : string }.
Record AuthPeerResponse := mkAuthPeerResponse { apr_Confirmed : bool; apr_Declined : bool }.

Global Instance PeerStatusInfo_eq_dec : EqDecision PeerStatusInfo.
Proof. solve_decision. Defined.
Global Instance AuthPeerResponse_eq_dec : EqDecision AuthPeerResponse.
Proof. solve_decision. Defined.

(** [encoding/json] for one type of message: a decoder reads one document from the
    front of a stream and leaves the rest. *)
Class Json (A : Type) := {
  json_Encode : A → bytes;
  json_Decode : bytes → option (A * bytes);
}.

(** A message whose texts are valid UTF-8 ([json_valid]) is read back as it was written;
    other texts are repaired by the encoder. *)
Class JsonLaws (A : Type) `{Json A} := {
  json_valid : A → Prop;
  json_roundtrip : ∀ (a : A) (rest : bytes), json_valid a → json_Decode (json_Encode a ++ rest) = Some (a, rest);
}.

Section messages.
Context `{Json PeerStatusInfo} `{Json AuthPeer} `{Json AuthPeerResponse}.

Definition ReceiveStatus (stream : bytes) : outcome (PeerStatusInfo * bytes) :=
  match json_Decode stream with Some r => Ok r | None => Fail "decode status" end.
Definition SendStatus (stream : bytes) (statusInfo : PeerStatusInfo) : bytes := stream ++ json_Encode statusInfo.
Definition ReceiveAuth (stream : bytes) : outcome (AuthPeer * bytes) :=
  match json_Decode stream with Some r => Ok r | None => Fail "decode auth" end.
Definition SendAuth (stream : bytes) (authPeer : AuthPeer) : bytes := stream ++ json_Encode authPeer.
Definition ReceiveAuthResponse (stream : bytes) : outcome (AuthPeerResponse * bytes) :=
  match json_Decode stream with Some r => Ok r | None => Fail "decode response" end.
Definition SendAuthResponse (stream : bytes) (response : AuthPeerResponse) : bytes := stream ++ json_Encode response.
End messages.

(** [ReadUint64]: the value or the error, and the stream behind it; the fuel
    suffices for every stream ([ReadUint64_total]). *)
Definition ReadUint64 (stream : Reader) : option (Z + read_error) * Reader :=
  match ReadFull (S (reads stream)) 8 [] stream with
  | Some (data, None, r) => (Some (inl (be_combine data)), r)
  | Some (_, Some err, r) => (Some (inr err), r)
  | None => (None, stream)
  end.

(** [AppendPacketToBuf]. *)
Definition AppendPacketToBuf (buf packet : bytes) : bytes :=
  buf ++ be_split 8 (u64 (Z.of_nat (length packet))) ++ packet.

(** The bytes of several packets in one buffer. *)
Definition frames (packets : list bytes) : bytes := foldl AppendPacketToBuf [] packets.

Lemma frames_cons_acc packets : ∀ buf, foldl AppendPacketToBuf buf packets = buf ++ frames packets.
Proof.
  unfold frames. induction packets as [|p packets IH] using rev_ind; intros buf; [by rewrite app_nil_r|].
  rewrite !foldl_app. simpl. unfold AppendPacketToBuf at 1 3. by rewrite (IH buf), <- app_assoc.
Qed.

Lemma frames_cons p packets : frames (p :: packets) = AppendPacketToBuf [] p ++ frames packets.
Proof. unfold frames at 1. simpl. by rewrite frames_cons_acc. Qed.

Lemma frames_app ps qs : frames (ps ++ qs) = frames ps ++ frames qs.
Proof. unfold frames at 1. by rewrite foldl_app, frames_cons_acc. Qed.

Lemma length_frames packets :
  length (frames packets) = (8 * length packets + sum_list (length <$> packets))%nat.
Proof.
  induction packets as [|p packets IH]; [done|]. rewrite frames_cons, length_app, IH.
  unfold AppendPacketToBuf. rewrite !length_app, length_be_split. csimpl. lia.
Qed.

Lemma ReadFull_total fuel : ∀ n got r, (reads r < fuel)%nat → is_Some (ReadFull fuel n got r).
Proof.
  induction fuel as [|fuel IH]; intros n got r Hf; [lia|]. simpl. case_decide; [by eexists|].
  destruct (Read n r) as [[bs e] r1] eqn:E. apply Read_spec in E as (_ & _ & _ & _ & Hp & _).
  case_decide; [by eexists|]. destruct e as [[]|]; [by eexists..|].
  apply IH. specialize (Hp ltac:(lia) eq_refl). lia.
Qed.

Lemma ReadUint64_total r : is_Some (ReadUint64 r).1.
Proof.
  unfold ReadUint64. destruct (ReadFull_total (S (reads r)) 8 [] r) as [[[data [e|]] r'] ->]; [lia|by eexists..].
Qed.

(** Reading the prefix of a frame, in however many reads it comes. *)
Lemma ReadUint64_frame r n rest : (0 ≤ n < 2 ^ 64) → remaining r = be_split 8 n ++ rest →
  ∃ r', ReadUint64 r = (Some (inl n), r') ∧ remaining r' = rest ∧ fin r' = fin r ∧
        fin_with_data r' = fin_with_data r.
Proof.
  intros Hn Hr. unfold ReadUint64.
  destruct (ReadFull_enough (S (reads r)) 8 [] r) as (r' & -> & H1 & H2 & H3).
  { rewrite Hr, length_app, length_be_split. lia. }
  { lia. }
  exists r'. rewrite Hr in *. rewrite app_nil_l.
  rewrite take_app_le, take_ge, drop_app_ge in * by (rewrite length_be_split; lia).
  rewrite length_be_split, Nat.sub_diag, drop_0 in H1.
  rewrite be_combine_split by done. done.
Qed.

(** At the end of the stream. *)
Lemma ReadUint64_end r : remaining r = [] → fin r = EOF → ∃ r', ReadUint64 r = (Some (inr EOF), r').
Proof.
  intros Hr Hf. unfold ReadUint64.
  assert (∀ fuel r, remaining r = [] → fin r = EOF → (reads r < fuel)%nat →
            ∃ r', ReadFull fuel 8 [] r = Some ([], Some EOF, r')) as Hgo.
  { clear. induction fuel as [|fuel IH]; intros r Hr Hf Hl; [lia|]. cbn [ReadFull]. rewrite decide_False by lia.
    destruct (Read 8 r) as [[bs e] r1] eqn:E. pose proof E as E0.
    apply Read_spec in E as (Hrem & _ & Hf1 & _ & Hp & He). rewrite Hr in Hrem.
    symmetry in Hrem. apply app_nil in Hrem as [-> Hr1]. rewrite decide_False by (simpl; lia).
    destruct e as [err|].
    - destruct (He err eq_refl) as [-> _]. rewrite Hf. rewrite app_nil_l, decide_True by done. by eexists.
    - apply IH; [done|congruence|]. specialize (Hp ltac:(lia) eq_refl). lia. }
  destruct (Hgo (S (reads r)) r Hr Hf) as [r' ->]; [lia|]. by exists r'.
Qed.
