(* ===== verification/Packet.v ===== *)
(** * IP packets in reusable buffers (src/vpn/packet.go)

    Packets are objects on a heap, because the slices [Packet], [Src] and [Dst]
    are views of a buffer: writing through [Src] changes the header, and after
    [CopyTo] the addresses of the copy are still views of the original buffer. *)

From S2P Require Import Prelude GoNet GoIO.
Local Open Scope Z_scope.

Definition IPProtocolTCP : Z := 6.
Definition IPProtocolUDP : Z := 17.
Definition ipv4offsetChecksum : nat := 10.
Definition InterfaceMTU : nat := Z.to_nat 3500.
Definition maxContentSize : nat := Z.to_nat 3600.
Definition tunPacketOffset : nat := 14.

#[global] Arguments maxContentSize : simpl never.
#[global] Arguments InterfaceMTU : simpl never.
#[global] Arguments tunPacketOffset : simpl never.
#[global] Arguments ipv4offsetChecksum : simpl never.

(** ** Objects, slices and the heap *)

Abbreviation loc := nat.

(** A slice of the buffer of a packet object, with the capacity up to its end. *)
Inductive slice :=
  | SNil
  | SView (obj : loc) (off len : nat).

Global Instance slice_eq_dec : EqDecision slice.
Proof. solve_decision. Defined.

(** [Packet]. *)
Record PacketObj := mkPacket {
  Buffer : bytes;
  Packet : slice;
  Src : slice;
  Dst : slice;
  IsIPv6 : bool;
  IPProtocol : Z;
}.

Abbreviation heap := (gmap loc PacketObj).

Definition newPacket : PacketObj := mkPacket (replicate maxContentSize 0) SNil SNil SNil false 0.

Definition with_Buffer (p : PacketObj) (b : bytes) : PacketObj :=
  mkPacket b (Packet p) (Src p) (Dst p) (IsIPv6 p) (IPProtocol p).
Definition with_Packet (p : PacketObj) (s : slice) : PacketObj :=
  mkPacket (Buffer p) s (Src p) (Dst p) (IsIPv6 p) (IPProtocol p).

Definition slen (s : slice) : nat := match s with SNil => 0 | SView _ _ n => n end.

Definition buffer (h : heap) (l : loc) : bytes := default [] (Buffer <$> h !! l).

(** The bytes a slice shows. *)
Definition view (h : heap) (s : slice) : bytes :=
  match s with SNil => [] | SView l o n => take n (drop o (buffer h l)) end.

(** [s\[lo:\]] and [s\[lo:hi\]], where [hi] may exceed the length up to the capacity. *)
Definition slice_from (s : slice) (lo : nat) : outcome slice :=
  match s with
  | SNil => if decide (lo = 0%nat) then Ok SNil else Panic
  | SView l o n => if decide (lo ≤ n)%nat then Ok (SView l (o + lo) (n - lo)) else Panic
  end.

Definition slice_range (s : slice) (lo hi : nat) : outcome slice :=
  match s with
  | SNil => if decide (lo = 0%nat ∧ hi = 0%nat) then Ok SNil else Panic
  | SView l o n => if decide (lo ≤ hi ∧ o + hi ≤ maxContentSize)%nat then Ok (SView l (o + lo) (hi - lo)) else Panic
  end.

Definition index (h : heap) (s : slice) (i : nat) : outcome Z := or_panic (view h s !! i).

(** [copy(s, src)]: at most [len(s)] bytes are written. *)
Definition copy_into (h : heap) (s : slice) (src : bytes) : heap :=
  match s with
  | SNil => h
  | SView l o n => alter (λ p, with_Buffer p (copy_at o (take n src) (Buffer p))) l h
  end.

(** [binary.BigEndian.PutUint16(s, v)]. *)
Definition PutUint16 (h : heap) (s : slice) (v : Z) : outcome heap :=
  if decide (slen s < 2)%nat then Panic else Ok (copy_into h s (be_split 2 v)).

Definition deref (h : heap) (l : loc) : outcome PacketObj := or_panic (h !! l).

(** ** Operations *)

(** [clear]. *)
Definition clear_packet (h : heap) (data : loc) : heap :=
  alter (λ p, mkPacket (Buffer p) SNil SNil SNil false 0) data h.

(** [CopyTo]: the structure is copied with its slices, then [Packet] is set to
    the new buffer. *)
Definition CopyTo (h : heap) (data copyPacket : loc) : outcome heap :=
  p ← deref h data;
  s ← slice_range (SView copyPacket 0 maxContentSize) tunPacketOffset (slen (Packet p) + tunPacketOffset);
  Ok (<[copyPacket := with_Packet p s]> h).

(** [ReadFrom]: [totalRead] bytes of the buffer are used; [None] is running out
    of fuel. The reader is an [io.LimitedReader]. *)
Fixpoint ReadFrom (fuel : nat) (h : heap) (data : loc) (totalRead : nat) (stream : Z * Reader)
    : option (heap * Z * option read_error * (Z * Reader)) :=
  match fuel with
  | O => None
  | S fuel =>
      let '(bs, err, stream) := LimitedRead (maxContentSize - totalRead) stream in
      let h := copy_into h (SView data totalRead (maxContentSize - totalRead)) bs in
      let totalRead := (totalRead + length bs)%nat in
      match err with
      | Some EOF =>
          Some (alter (λ p, with_Packet p (SView data tunPacketOffset (totalRead - tunPacketOffset))) data h,
                Z.of_nat (totalRead - tunPacketOffset), None, stream)
      | Some err => Some (h, Z.of_nat (totalRead - tunPacketOffset), Some err, stream)
      | None => ReadFrom fuel h data totalRead stream
      end
  end.

Definition ipv4_Version : Z := 4.
Definition ipv6_Version : Z := 6.
Definition ipv4_HeaderLen : nat := 20.
Definition ipv6_HeaderLen : nat := 40.

(** [Parse]. *)
Definition Parse (h : heap) (data : loc) : outcome (bool * heap) :=
  p ← deref h data;
  if decide (slen (Packet p) = 0%nat) then Ok (false, h)
  else
    b0 ← index h (Packet p) 0;
    let version := Z.shiftr b0 4 in
    if decide (version = ipv4_Version) then
      if decide (slen (Packet p) < ipv4_HeaderLen)%nat then Ok (false, h)
      else
        src ← slice_range (Packet p) 12 16;
        dst ← slice_range (Packet p) 16 20;
        proto ← index h (Packet p) 9;
        Ok (true, <[data := mkPacket (Buffer p) (Packet p) src dst false proto]> h)
    else if decide (version = ipv6_Version) then
      if decide (slen (Packet p) < ipv6_HeaderLen)%nat then Ok (false, h)
      else
        src ← slice_range (Packet p) 8 24;
        dst ← slice_range (Packet p) 24 40;
        Ok (true, <[data := mkPacket (Buffer p) (Packet p) src dst true (IPProtocol p)]> h)
    else Ok (false, h).

(** The loops [for v > 0xffff { v = (v >> 16) + (v & 0xffff) }]. *)
Fixpoint fold_carries (fuel : nat) (v : Z) : Z :=
  match fuel with
  | O => v
  | S fuel => if decide (0xffff < v) then fold_carries fuel (u32 (Z.shiftr v 16 + Z.land v 0xffff)) else v
  end.

(** [^uint16(v)]. *)
Definition not16 (v : Z) : Z := 0xffff - u16 v.

(** The loop over pairs of bytes, adding [BigEndian.Uint16(buf\[i:\])], with the odd
    byte last. *)
Fixpoint header_sum (buf : bytes) (v : Z) : Z :=
  match buf with
  | [] => v
  | [b] => u32 (v + u32 (Z.shiftl b 8))
  | b0 :: b1 :: buf => header_sum buf (u32 (v + be_combine [b0; b1]))
  end.

(** [checksumIPv4Header]. *)
Definition checksumIPv4Header (buf : bytes) : Z := not16 (fold_carries 3 (header_sum buf 0)).

(** The loop of [tcpipChecksum], which adds the bytes of a pair one by one. *)
Fixpoint tcpip_sum (data : bytes) (csum : Z) : Z :=
  match data with
  | [] => csum
  | [b] => u32 (csum + u32 (Z.shiftl b 8))
  | b0 :: b1 :: data => tcpip_sum data (u32 (u32 (csum + u32 (Z.shiftl b0 8)) + b1))
  end.

(** [tcpipChecksum]. *)
Definition tcpipChecksum (data : bytes) (csum : Z) : Z := not16 (fold_carries 3 (tcpip_sum data csum)).

(** The sum of the pseudo-header [checksumIPv4TCPUDP] starts from. *)
Definition pseudo_csum (len : nat) (protocol : Z) (srcIP dstIP : bytes) : outcome Z :=
  s0 ← or_panic (srcIP !! 0%nat); s2 ← or_panic (srcIP !! 2%nat);
  let csum := u32 (Z.shiftl (u32 (s0 + s2)) 8) in
  s1 ← or_panic (srcIP !! 1%nat); s3 ← or_panic (srcIP !! 3%nat);
  let csum := u32 (csum + u32 (s1 + s3)) in
  d0 ← or_panic (dstIP !! 0%nat); d2 ← or_panic (dstIP !! 2%nat);
  let csum := u32 (csum + u32 (Z.shiftl (u32 (d0 + d2)) 8)) in
  d1 ← or_panic (dstIP !! 1%nat); d3 ← or_panic (dstIP !! 3%nat);
  let csum := u32 (csum + u32 (d1 + d3)) in
  let totalLen := u32 (Z.of_nat len) in
  let csum := u32 (csum + protocol) in
  let csum := u32 (csum + Z.land totalLen 0xffff) in
  Ok (u32 (csum + Z.shiftr totalLen 16)).

(** [checksumIPv4TCPUDP]. *)
Definition checksumIPv4TCPUDP (headerAndPayload : bytes) (protocol : Z) (srcIP dstIP : bytes) : outcome Z :=
  csum ← pseudo_csum (length headerAndPayload) protocol srcIP dstIP;
  Ok (tcpipChecksum headerAndPayload csum).

(** The two transport cases of [RecalculateChecksum]: [off] is where the field
    lies in the packet. *)
Definition transport_checksum (h : heap) (p : PacketObj) (ipHeaderLen off : nat) (protocol : Z) : outcome heap :=
  field ← slice_from (Packet p) off;
  let h := copy_into h field [0; 0] in
  seg ← slice_from (Packet p) ipHeaderLen;
  checksum ← checksumIPv4TCPUDP (view h seg) protocol (view h (Src p)) (view h (Dst p));
  PutUint16 h field checksum.

(** [RecalculateChecksum]. *)
Definition RecalculateChecksum (h : heap) (data : loc) : outcome heap :=
  p ← deref h data;
  if IsIPv6 p then Ok h
  else
    b0 ← index h (Packet p) 0;
    let ipHeaderLen := Z.to_nat (Z.shiftl (Z.land b0 0x0f) 2) in
    field ← slice_from (Packet p) ipv4offsetChecksum;
    let h := copy_into h field [0; 0] in
    header ← slice_range (Packet p) 0 ipHeaderLen;
    h ← PutUint16 h field (checksumIPv4Header (view h header));
    protocol ← index h (Packet p) 9;
    if decide (protocol = IPProtocolTCP) then transport_checksum h p ipHeaderLen (ipHeaderLen + 16) protocol
    else if decide (protocol = IPProtocolUDP) then transport_checksum h p ipHeaderLen (ipHeaderLen + 6) protocol
    else Ok h.

(** [GetIPv4BroadcastAddress]: the bytes are read from [ipNet.IP] itself, not from
    its 4-byte form. *)
Definition GetIPv4BroadcastAddress (ipNet : IPNet) : outcome bytes :=
  foldr (λ i acc, rest ← acc;
           a ← or_panic (net_IP ipNet !! i); m ← or_panic (net_Mask ipNet !! i);
           Ok (Z.lor a (255 - m) :: rest))
    (Ok []) (seq 0 (length (To4 (net_IP ipNet)))).

(** ** Checksum arithmetic *)

(** The reference of RFC 1071: the sum of the big-endian words of the data, an odd
    byte padded with zero, in one's complement. *)
Fixpoint word_sum (l : bytes) : Z :=
  match l with
  | [] => 0
  | [b] => b * 256
  | b0 :: b1 :: l => b0 * 256 + b1 + word_sum l
  end.

Definition ones (v : Z) : Z := if decide (v = 0) then 0 else (v - 1) `mod` 65535 + 1.

Lemma pair_ind {A} (P : list A → Prop) :
  P [] → (∀ b, P [b]) → (∀ b0 b1 l, P l → P (b0 :: b1 :: l)) → ∀ l, P l.
Proof.
  intros H0 H1 H2. fix IH 1. intros [|b0 [|b1 l]]; [exact H0|apply H1|apply H2, IH].
Qed.

Lemma shiftr16 v : Z.shiftr v 16 = v / 65536.
Proof. by rewrite Z.shiftr_div_pow2 by lia. Qed.
Lemma land16 v : Z.land v 0xffff = v `mod` 65536.
Proof. change 0xffff with (Z.ones 16). by rewrite Z.land_ones by lia. Qed.

Lemma ones_step v : 0xffff < v < 2 ^ 32 → ones (v / 65536 + v `mod` 65536) = ones v.
Proof.
  intros. pose proof (Z.div_mod v 65536 ltac:(lia)). pose proof (Z.mod_pos_bound v 65536 ltac:(lia)).
  unfold ones. rewrite !decide_False by (zify; Z.to_euclidean_division_equations; lia).
  f_equal. replace (v - 1) with (v / 65536 + v `mod` 65536 - 1 + (v / 65536) * 65535) by lia.
  by rewrite Z.mod_add by lia.
Qed.

Lemma ones_small v : 0 ≤ v ≤ 0xffff → ones v = v.
Proof. intros. unfold ones. case_decide; [lia|]. rewrite Z.mod_small by lia. lia. Qed.

Lemma ones_range v : 0 ≤ v → 0 ≤ ones v ≤ 0xffff.
Proof. intros. unfold ones. case_decide; [lia|]. pose proof (Z.mod_pos_bound (v - 1) 65535). lia. Qed.

Lemma fold_carries_S fuel v : fold_carries (S fuel) v =
  if decide (0xffff < v) then fold_carries fuel (u32 (Z.shiftr v 16 + Z.land v 0xffff)) else v.
Proof. reflexivity. Qed.

(** Three rounds fold a 32-bit sum; more fuel changes nothing. *)
Lemma fold_carries_ones k v : 0 ≤ v < 2 ^ 32 → fold_carries (3 + k) v = ones v.
Proof.
  intros Hv.
  assert (forall w, 0xffff < w < 2 ^ 32 → u32 (Z.shiftr w 16 + Z.land w 0xffff) = w / 65536 + w `mod` 65536) as E.
  { intros w Hw. rewrite shiftr16, land16. apply u32_small. dlia. }
  change (3 + k)%nat with (S (S (S k))).
  rewrite fold_carries_S. case_decide as H1; [|by rewrite ones_small by lia].
  rewrite E by lia. set (v1 := v / 65536 + v `mod` 65536).
  assert (0 ≤ v1 ≤ 131070) as Hv1 by (subst v1; dlia).
  rewrite <- ones_step by lia. fold v1.
  rewrite fold_carries_S. case_decide as H2; [|by rewrite ones_small by lia].
  rewrite E by lia. set (v2 := v1 / 65536 + v1 `mod` 65536).
  assert (0 ≤ v2 ≤ 0xffff) as Hv2 by (subst v2; dlia).
  rewrite <- ones_step by lia. fold v2.
  rewrite fold_carries_S, decide_False by lia. by rewrite ones_small.
Qed.

Lemma word_sum_bound l : Forall is_byte l → 0 ≤ word_sum l ≤ 65535 * Z.of_nat (length l).
Proof.
  revert l. apply (pair_ind (λ l, Forall is_byte l → 0 ≤ word_sum l ≤ 65535 * Z.of_nat (length l)));
    simpl; unfold is_byte.
  - lia.
  - intros b [Hb _]%list.Forall_cons. lia.
  - intros b0 b1 l IH [? [? Hl]%list.Forall_cons]%list.Forall_cons. specialize (IH Hl). lia.
Qed.

Lemma shiftl8 b : is_byte b → u32 (Z.shiftl b 8) = b * 256.
Proof. intros [??]. rewrite Z.shiftl_mul_pow2 by lia. apply u32_small. lia. Qed.

Lemma header_sum_spec l : ∀ v, Forall is_byte l → 0 ≤ v → v + 65535 * Z.of_nat (length l) < 2 ^ 32 →
  header_sum l v = v + word_sum l.
Proof.
  revert l. apply (pair_ind (λ l, ∀ v, Forall is_byte l → 0 ≤ v → v + 65535 * Z.of_nat (length l) < 2 ^ 32 →
    header_sum l v = v + word_sum l)); cbn [header_sum word_sum length].
  - intros. lia.
  - intros b v [Hb _]%list.Forall_cons ??. rewrite shiftl8 by done. unfold is_byte in Hb. rewrite u32_small by lia. lia.
  - intros b0 b1 l IH v [H0 [H1 Hl]%list.Forall_cons]%list.Forall_cons Hv Hb.
    unfold is_byte in *. replace (be_combine [b0; b1]) with (b0 * 256 + b1) by (unfold be_combine; simpl; lia).
    rewrite u32_small by lia. rewrite IH by (done || lia). lia.
Qed.

Lemma tcpip_sum_spec l : ∀ v, Forall is_byte l → 0 ≤ v → v + 65535 * Z.of_nat (length l) < 2 ^ 32 →
  tcpip_sum l v = v + word_sum l.
Proof.
  revert l. apply (pair_ind (λ l, ∀ v, Forall is_byte l → 0 ≤ v → v + 65535 * Z.of_nat (length l) < 2 ^ 32 →
    tcpip_sum l v = v + word_sum l)); cbn [tcpip_sum word_sum length].
  - intros. lia.
  - intros b v [Hb _]%list.Forall_cons ??. rewrite shiftl8 by done. unfold is_byte in Hb. rewrite u32_small by lia. lia.
  - intros b0 b1 l IH v [H0 [H1 Hl]%list.Forall_cons]%list.Forall_cons Hv Hb.
    rewrite shiftl8 by done. unfold is_byte in *.
    rewrite !u32_small by (rewrite ?u32_small by lia; lia). rewrite IH by (done || lia). lia.
Qed.

(** Completing a sum with its checksum gives the all-ones word. *)
Lemma ones_complement v : 0 ≤ v → ones (v + not16 (ones v)) = 0xffff.
Proof.
  intros Hv. pose proof (ones_range v Hv). unfold not16, u16. rewrite Z.mod_small by lia.
  unfold ones. destruct (decide (v = 0)) as [->|Hn]; [done|].
  rewrite decide_False by (pose proof (Z.mod_pos_bound (v - 1) 65535); lia).
  set (r := (v - 1) `mod` 65535).
  pose proof (Z.div_mod (v - 1) 65535 ltac:(lia)) as E. fold r in E.
  replace (v + (0xffff - (r + 1)) - 1) with (65534 + (v - 1) / 65535 * 65535) by lia.
  by rewrite Z.mod_add by lia.
Qed.

Lemma word_sum_app a b : Nat.even (length a) = true → word_sum (a ++ b) = word_sum a + word_sum b.
Proof.
  revert a. apply (pair_ind (λ a, Nat.even (length a) = true → word_sum (a ++ b) = word_sum a + word_sum b)).
  - done.
  - done.
  - intros b0 b1 l IH Hl. simpl in Hl |- *. rewrite IH by done. lia.
Qed.

Lemma not16_range v : 0 ≤ not16 v ≤ 0xffff.
Proof. unfold not16, u16. pose proof (Z.mod_pos_bound v (2 ^ 16)). lia. Qed.

Lemma be_split2 v : be_split 2 v = [(v / 256) `mod` 256; v `mod` 256].
Proof. done. Qed.

Lemma word_sum_split2 v : 0 ≤ v ≤ 0xffff → word_sum (be_split 2 v) = v.
Proof. intros. rewrite be_split2. simpl. dlia. Qed.

(** ** Views of a buffer under writes *)

Lemma copy_at_nil {A} o (b : list A) : copy_at o [] b = b.
Proof. unfold copy_at. by rewrite take_nil, app_nil_l, Nat.add_0_r, take_drop. Qed.

Lemma window_in (b f : bytes) s m k : (k + length f ≤ m)%nat → (s + m ≤ length b)%nat →
  take m (drop s (copy_at (s + k) f b))
  = take k (drop s b) ++ f ++ drop (k + length f) (take m (drop s b)).
Proof.
  intros Hk Hm. rewrite copy_at_fit by lia. apply list_eq. intros i.
  rewrite lookup_take. case_decide as Hi.
  - rewrite lookup_drop. destruct (decide (i < k)%nat).
    + rewrite lookup_app_l by (rewrite length_take; lia).
      rewrite lookup_app_l by (rewrite length_take, length_drop; lia).
      rewrite !lookup_take_lt by lia. by rewrite lookup_drop.
    + rewrite lookup_app_r by (rewrite length_take; lia).
      rewrite (lookup_app_r (take k _)) by (rewrite length_take, length_drop; lia).
      rewrite !length_take, length_drop, !Nat.min_l by lia.
      replace (s + i - (s + k))%nat with (i - k)%nat by lia.
      destruct (decide (i - k < length f)%nat).
      * by rewrite !lookup_app_l by lia.
      * rewrite !lookup_app_r by lia. rewrite !lookup_drop.
        replace (k + length f + (i - k - length f))%nat with i by lia.
        rewrite lookup_take_lt by lia. rewrite lookup_drop. f_equal. lia.
  - symmetry. apply lookup_ge_None. repeat rewrite ?length_app, ?length_take, ?length_drop. lia.
Qed.

Lemma window_out (b f : bytes) s m o : (o + length f ≤ length b)%nat → (o + length f ≤ s ∨ s + m ≤ o)%nat →
  take m (drop s (copy_at o f b)) = take m (drop s b).
Proof.
  intros Ho Hd. apply list_eq. intros i. rewrite !lookup_take. case_decide; [|done].
  rewrite !lookup_drop. apply lookup_copy_at_out; [done|lia].
Qed.

Lemma copy_at_over (b f g : bytes) o : length f = length g → (o + length f ≤ length b)%nat →
  copy_at o g (copy_at o f b) = copy_at o g b.
Proof.
  intros Hl Ho. apply list_eq. intros i.
  destruct (decide (i < o ∨ o + length g ≤ i)%nat) as [Hi|Hi].
  - rewrite !lookup_copy_at_out by (rewrite ?length_copy_at by lia; lia). done.
  - rewrite !(copy_at_fit o g) by (rewrite ?length_copy_at by lia; lia).
    rewrite !(lookup_app_r (take o _)) by (rewrite length_take, ?length_copy_at by lia; lia).
    rewrite !length_take, length_copy_at by lia. by rewrite !lookup_app_l by lia.
Qed.

Lemma Forall_copy_at (P : Z → Prop) o f b : Forall P f → Forall P b → Forall P (copy_at o f b).
Proof.
  intros. unfold copy_at. rewrite !list.Forall_app.
  split; [by apply list.Forall_take|]. split; [by apply list.Forall_take|by apply list.Forall_drop].
Qed.

Lemma lookup_window (a b : bytes) s m i : a !! (s + i)%nat = b !! (s + i)%nat →
  take m (drop s a) !! i = take m (drop s b) !! i.
Proof.
  intros E. destruct (decide (i < m)%nat).
  - by rewrite !lookup_take_lt, !lookup_drop by done.
  - by rewrite !lookup_take_ge by lia.
Qed.

(** Replacing an even-aligned zero field by a word adds the word to the sum. *)
Lemma word_sum_put b s m k v : (k + 2 ≤ m)%nat → (s + m ≤ length b)%nat → Nat.even k = true →
  0 ≤ v ≤ 0xffff →
  word_sum (take m (drop s (copy_at (s + k) (be_split 2 v) b)))
  = word_sum (take m (drop s (copy_at (s + k) [0; 0] b))) + v.
Proof.
  intros Hk Hm He Hv. rewrite !window_in by (rewrite ?length_be_split; simpl; lia).
  assert (length (take k (drop s b)) = k) as Hl by (rewrite length_take, length_drop; lia).
  rewrite !word_sum_app by (rewrite ?Hl, ?length_be_split; done). rewrite word_sum_split2 by done.
  rewrite length_be_split. simpl. lia.
Qed.

(** ** The heap *)

Lemma view_of h l p o n : h !! l = Some p → view h (SView l o n) = take n (drop o (Buffer p)).
Proof. intros Hl. unfold view, buffer. by rewrite Hl. Qed.

Lemma view_upd h l p b o n : view (<[l := with_Buffer p b]> h) (SView l o n) = take n (drop o b).
Proof. unfold view, buffer. by rewrite lookup_insert_eq. Qed.

Lemma copy_into_upd h l p b o n src :
  copy_into (<[l := with_Buffer p b]> h) (SView l o n) src
  = <[l := with_Buffer p (copy_at o (take n src) b)]> h.
Proof. unfold copy_into. by rewrite alter_insert_eq. Qed.

Lemma with_Buffer_id p : with_Buffer p (Buffer p) = p.
Proof. by destruct p. Qed.

Lemma slice_from_ok l o n lo : (lo ≤ n)%nat → slice_from (SView l o n) lo = Ok (SView l (o + lo) (n - lo)).
Proof. intros. simpl. by rewrite decide_True. Qed.

Lemma slice_range_ok l o n lo hi : (lo ≤ hi)%nat → (o + hi ≤ maxContentSize)%nat →
  slice_range (SView l o n) lo hi = Ok (SView l (o + lo) (hi - lo)).
Proof. intros. simpl. by rewrite decide_True. Qed.

Lemma view_at h l o n i x : (i < n)%nat → buffer h l !! (o + i)%nat = Some x → index h (SView l o n) i = Ok x.
Proof. intros Hi Hx. unfold index, view. rewrite lookup_take_lt by done. by rewrite lookup_drop, Hx. Qed.

Lemma buffer_upd h l p b : buffer (<[l := with_Buffer p b]> h) l = b.
Proof. unfold buffer. by rewrite lookup_insert_eq. Qed.

(** A packet as [Parse] leaves it after reading [n] bytes: the views lie in its own
    buffer. *)
Record packet4 (p : PacketObj) (l : loc) (n : nat) : Prop := {
  p4_len : length (Buffer p) = maxContentSize;
  p4_bytes : Forall is_byte (Buffer p);
  p4_Packet : Packet p = SView l tunPacketOffset n;
  p4_Src : Src p = SView l (tunPacketOffset + 12) 4;
  p4_Dst : Dst p = SView l (tunPacketOffset + 16) 4;
  p4_v4 : IsIPv6 p = false;
  p4_min : (ipv4_HeaderLen ≤ n)%nat;
  p4_max : (tunPacketOffset + n ≤ maxContentSize)%nat;
}.

(** The header length the packet declares, in bytes. *)
Definition header_len (pkt : bytes) : nat := Z.to_nat (Z.shiftl (Z.land (nth 0 pkt 0) 0x0f) 2).

(** Where the checksum lies in a transport segment. *)
Definition transport_field (protocol : Z) : option nat :=
  if decide (protocol = IPProtocolTCP) then Some 16%nat
  else if decide (protocol = IPProtocolUDP) then Some 6%nat else None.

Lemma u32_add_l a b : u32 (u32 a + b) = u32 (a + b).
Proof. unfold u32. by rewrite Z.add_mod_idemp_l by lia. Qed.

(** The sum of the words of the pseudo-header of RFC 793. *)
Definition pseudo_sum (src dst : bytes) (protocol : Z) (len : nat) : Z :=
  word_sum src + word_sum dst + protocol + Z.of_nat len.

Lemma pseudo_csum_spec len protocol src dst :
  length src = 4%nat → length dst = 4%nat → Forall is_byte src → Forall is_byte dst →
  0 ≤ protocol < 256 → Z.of_nat len < 65536 →
  pseudo_csum len protocol src dst = Ok (pseudo_sum src dst protocol len).
Proof.
  intros Hs Hd Hsb Hdb Hp Hl.
  destruct src as [|s0 [|s1 [|s2 [|s3 [|]]]]]; try done.
  destruct dst as [|d0 [|d1 [|d2 [|d3 [|]]]]]; try done.
  repeat match goal with H : Forall is_byte (_ :: _) |- _ => apply list.Forall_cons in H as [? H] end.
  unfold is_byte in *. unfold pseudo_csum, pseudo_sum. cbn -[Z.shiftl Z.land Z.shiftr Z.add Z.mul Z.of_nat].
  f_equal. rewrite !Z.shiftl_mul_pow2, shiftr16, land16 by lia.
  rewrite (u32_small (Z.of_nat len)) by lia.
  rewrite (Z.div_small (Z.of_nat len)), (Z.mod_small (Z.of_nat len)) by lia.
  rewrite (u32_small (s0 + s2)), (u32_small (d0 + d2)), (u32_small (s1 + s3)), (u32_small (d1 + d3)) by lia.
  rewrite (u32_small ((s0 + s2) * _)), (u32_small ((d0 + d2) * _)) by lia.
  rewrite !u32_add_l.
  rewrite (u32_small ((s0 + s2) * _ + _ + _)) by lia.
  rewrite (u32_small ((s0 + s2) * _ + _ + _ + _ + _)) by lia. rewrite u32_small by lia. lia.
Qed.

(** Zeroing a field and then putting a word into it. *)
Lemma zero_then_put h l p b o n v : (2 ≤ n)%nat → (o + 2 ≤ length b)%nat →
  copy_into (<[l := with_Buffer p b]> h) (SView l o n) [0; 0] = <[l := with_Buffer p (copy_at o [0; 0] b)]> h ∧
  PutUint16 (<[l := with_Buffer p (copy_at o [0; 0] b)]> h) (SView l o n) v
  = Ok (<[l := with_Buffer p (copy_at o (be_split 2 v) b)]> h).
Proof.
  intros Hn Ho. rewrite copy_into_upd, take_ge by (simpl; lia). split; [done|].
  unfold PutUint16. simpl. rewrite decide_False by lia.
  pose proof (copy_into_upd h l p (copy_at o [0; 0] b) o n (be_split 2 v)) as E. unfold copy_into in E.
  rewrite E. rewrite take_ge by (rewrite length_be_split; lia).
  by rewrite copy_at_over by (rewrite ?length_be_split; simpl; lia).
Qed.

Section checksums.
Context (h : heap) (l : loc) (p : PacketObj) (n : nat) (Hp : packet4 p l n).

#[local] Abbreviation o := tunPacketOffset.

Lemma window_bytes b s m : Forall is_byte b → Forall is_byte (take m (drop s b)).
Proof. intros. by apply list.Forall_take, list.Forall_drop. Qed.

Lemma zeros_bytes : Forall is_byte [0; 0].
Proof. repeat constructor; unfold is_byte; lia. Qed.

(** One transport case: the segment with its pseudo-header sums to all ones, and
    only the field changes. *)
Lemma transport_checksum_spec b hl k protocol :
  length b = maxContentSize → Forall is_byte b → (20 ≤ hl)%nat → (hl + k + 2 ≤ n)%nat → Nat.even k = true →
  0 ≤ protocol < 256 →
  ∃ v, 0 ≤ v ≤ 0xffff ∧
    let b' := copy_at (o + hl + k) (be_split 2 v) b in
    transport_checksum (<[l := with_Buffer p b]> h) p hl (hl + k) protocol
      = Ok (<[l := with_Buffer p b']> h) ∧
    ones (pseudo_sum (take 4 (drop (o + 12) b)) (take 4 (drop (o + 16) b)) protocol (n - hl)
          + word_sum (take (n - hl) (drop (o + hl) b'))) = 0xffff.
Proof.
  intros Hlen Hb Hhl Hk Hev Hproto. destruct Hp as [_ _ EP ES ED _ _ Hmax].
  set (z := copy_at (o + hl + k) [0; 0] b).
  assert (Hm : maxContentSize = 3600%nat) by done.
  assert (Hzl : length z = maxContentSize) by (unfold z; rewrite length_copy_at by lia; done).
  assert (Hzb : Forall is_byte z) by (apply Forall_copy_at; [apply zeros_bytes|done]).
  set (seg := take (n - hl) (drop (o + hl) z)).
  set (src := take 4 (drop (o + 12) b)). set (dst := take 4 (drop (o + 16) b)).
  assert (length seg = (n - hl)%nat) as Hseg by (unfold seg; rewrite length_take, length_drop; lia).
  set (S0 := pseudo_sum src dst protocol (n - hl) + word_sum seg).
  assert (Forall is_byte seg ∧ Forall is_byte src ∧ Forall is_byte dst) as (Hsegb & Hsrcb & Hdstb)
    by (unfold seg, src, dst; auto using window_bytes).
  assert (length src = 4%nat ∧ length dst = 4%nat) as [Hsl Hdl]
    by (unfold src, dst; rewrite !length_take, !length_drop; lia).
  assert (0 ≤ pseudo_sum src dst protocol (n - hl) ≤ 600000) as Hps.
  { unfold pseudo_sum. pose proof (word_sum_bound src Hsrcb). pose proof (word_sum_bound dst Hdstb).
    rewrite Hsl, Hdl in *. lia. }
  pose proof (word_sum_bound seg Hsegb) as Hws. rewrite Hseg in Hws.
  assert (0 ≤ S0 < 2 ^ 32) as HS0 by (unfold S0; lia).
  exists (not16 (ones S0)). split; [apply not16_range|].
  destruct (zero_then_put h l p b (o + hl + k) (n - (hl + k)) (not16 (ones S0))) as [Ez Ep]; [lia|lia|].
  split.
  - unfold transport_checksum. rewrite EP, ES, ED. cbn [mbind outcome_bind].
    rewrite !slice_from_ok by lia. cbn [mbind outcome_bind].
    rewrite (Nat.add_assoc o hl k). rewrite Ez. fold z. rewrite !view_upd. fold seg.
    replace (take 4 (drop (o + 12) z)) with src
      by (symmetry; apply window_out; cbn [length]; lia).
    replace (take 4 (drop (o + 16) z)) with dst
      by (symmetry; apply window_out; cbn [length]; lia).
    unfold checksumIPv4TCPUDP. rewrite pseudo_csum_spec by (done || lia). cbn [mbind outcome_bind].
    unfold tcpipChecksum. rewrite Hseg, tcpip_sum_spec by (done || lia).
    fold S0. rewrite (fold_carries_ones 0) by done. exact Ep.
  - cbv zeta. rewrite <- Nat.add_assoc.
    replace (copy_at (o + (hl + k))) with (copy_at (A := Z) (o + hl + k)) by (f_equal; lia).
    rewrite word_sum_put by (try apply not16_range; lia || done). fold z seg.
    rewrite Z.add_assoc. fold S0. apply ones_complement. lia.
Qed.

(** The header checksum. *)
Lemma header_checksum_spec : h !! l = Some p →
  let hl := header_len (view h (Packet p)) in
  (20 ≤ hl ≤ n)%nat →
  ∃ v, 0 ≤ v ≤ 0xffff ∧
    let b' := copy_at (o + 10) (be_split 2 v) (Buffer p) in
    (RecalculateChecksum h l =
       let h' := <[l := with_Buffer p b']> h in
       let protocol := nth 9 (view h (Packet p)) 0 in
       if decide (protocol = IPProtocolTCP) then transport_checksum h' p hl (hl + 16) protocol
       else if decide (protocol = IPProtocolUDP) then transport_checksum h' p hl (hl + 6) protocol
       else Ok h') ∧
    ones (word_sum (take hl (drop o b'))) = 0xffff.
Proof.
  intros Hl hl Hhl. pose proof Hp as [Hlen Hb EP _ _ Hv4 Hmin Hmax].
  unfold ipv4_HeaderLen in Hmin. assert (Hm : maxContentSize = 3600%nat) by done.
  assert (Hv : view h (Packet p) = take n (drop o (Buffer p))).
  { rewrite EP. by apply view_of. }
  assert (Hlv : length (view h (Packet p)) = n) by (rewrite Hv, length_take, length_drop; lia).
  set (z := copy_at (o + 10) [0; 0] (Buffer p)).
  assert (Hzb : Forall is_byte z) by (apply Forall_copy_at; [apply zeros_bytes|done]).
  set (hdr := take hl (drop o z)).
  assert (Hhdr : length hdr = hl).
  { unfold hdr, z. rewrite length_take, length_drop, length_copy_at; lia. }
  assert (Forall is_byte hdr) as Hhb by (unfold hdr; by apply window_bytes).
  pose proof (word_sum_bound hdr Hhb) as Hws. rewrite Hhdr in Hws.
  exists (not16 (ones (word_sum hdr))). split; [apply not16_range|].
  destruct (zero_then_put h l p (Buffer p) (o + 10) (n - 10) (not16 (ones (word_sum hdr)))) as [Ez Ep]; [lia|lia|].
  rewrite with_Buffer_id, insert_id in Ez by done. fold z in Ez.
  assert (∀ i b, (i < n)%nat → b !! (o + i)%nat = Buffer p !! (o + i)%nat →
    ∀ h', h' = <[l := with_Buffer p b]> h → index h' (Packet p) i = Ok (nth i (view h (Packet p)) 0)) as Hidx.
  { intros i b Hi Hbi h' ->. rewrite EP at 1. apply view_at; [done|]. rewrite buffer_upd, Hbi.
    destruct (view h (Packet p) !! i) as [x|] eqn:Ex; [|apply lookup_ge_None in Ex; lia].
    rewrite (nth_lookup_Some _ _ _ _ Ex). rewrite Hv, lookup_take_lt, lookup_drop in Ex by done. done. }
  split.
  - unfold RecalculateChecksum, deref. rewrite Hl. cbn [or_panic mbind outcome_bind]. rewrite Hv4.
    rewrite (Hidx 0%nat (Buffer p)) by (try lia; by rewrite ?with_Buffer_id, ?insert_id).
    cbn [mbind outcome_bind]. fold (header_len (view h (Packet p))). fold hl.
    unfold ipv4offsetChecksum. rewrite EP at 1. rewrite slice_from_ok by lia. cbn [mbind outcome_bind].
    rewrite Ez. rewrite EP at 1. rewrite slice_range_ok by lia. cbn [mbind outcome_bind].
    rewrite view_upd, Nat.add_0_r, Nat.sub_0_r. fold hdr.
    unfold checksumIPv4Header. rewrite header_sum_spec by (done || lia). rewrite Z.add_0_l.
    rewrite (fold_carries_ones 0) by lia. unfold z. rewrite Ep. cbn [mbind outcome_bind].
    rewrite (Hidx 9%nat (copy_at (o + 10) (be_split 2 (not16 (ones (word_sum hdr)))) (Buffer p)));
      [done|lia| |done].
    apply lookup_copy_at_out; rewrite length_be_split; lia.
  - cbv zeta. rewrite word_sum_put by (try apply not16_range; lia || done). fold z hdr.
    apply ones_complement. lia.
Qed.
End checksums.

Lemma packet4_upd p l n b : packet4 p l n → length b = maxContentSize → Forall is_byte b →
  packet4 (with_Buffer p b) l n.
Proof. intros [] ??. by constructor. Qed.

Lemma transport_field_even protocol k : transport_field protocol = Some k → Nat.even k = true ∧ 0 ≤ protocol < 256.
Proof. unfold transport_field, IPProtocolTCP, IPProtocolUDP. intros. split_ifs; split; done || lia. Qed.

Lemma recalculate_checksum_spec h l p n :
  h !! l = Some p → packet4 p l n →
  let pkt := view h (Packet p) in
  let hl := header_len pkt in
  let protocol := nth 9 pkt 0 in
  (20 ≤ hl ≤ n)%nat →
  (∀ k, transport_field protocol = Some k → hl + k + 2 ≤ n)%nat →
  ∃ b', RecalculateChecksum h l = Ok (<[l := with_Buffer p b']> h) ∧
    packet4 (with_Buffer p b') l n ∧
    let pkt' := view (<[l := with_Buffer p b']> h) (Packet p) in
    ones (word_sum (take hl pkt')) = 0xffff ∧
    (∀ k, transport_field protocol = Some k →
       ones (pseudo_sum (view h (Src p)) (view h (Dst p)) protocol (n - hl) + word_sum (drop hl pkt')) = 0xffff) ∧
    (∀ i, (i < 10 ∨ 12 ≤ i)%nat →
       (∀ k, transport_field protocol = Some k → i < hl + k ∨ hl + k + 2 ≤ i)%nat → pkt' !! i = pkt !! i).
Proof.
  intros Hl Hp pkt hl protocol Hhl Htr.
  pose proof Hp as [Hlen Hb EP ES ED _ Hmin Hmax]. assert (Hm : maxContentSize = 3600%nat) by done.
  destruct (header_checksum_spec h l p n Hp Hl Hhl) as (v & Hv & E & Hsum). cbv zeta in *.
  set (b1 := copy_at (tunPacketOffset + 10) (be_split 2 v) (Buffer p)) in *.
  assert (length b1 = maxContentSize) as Hl1 by (unfold b1; rewrite length_copy_at; lia).
  assert (Forall is_byte b1) as Hb1 by (apply Forall_copy_at; [apply be_split_is_byte|done]).
  assert (Hsrc : view h (Src p) = take 4 (drop (tunPacketOffset + 12) b1)).
  { rewrite ES, (view_of _ _ p) by done. symmetry. apply window_out; rewrite length_be_split; lia. }
  assert (Hdst : view h (Dst p) = take 4 (drop (tunPacketOffset + 16) b1)).
  { rewrite ED, (view_of _ _ p) by done. symmetry. apply window_out; rewrite length_be_split; lia. }
  assert (Hpkt : pkt = take n (drop tunPacketOffset (Buffer p))).
  { unfold pkt. rewrite EP. by apply view_of. }
  fold pkt in E. fold hl protocol in E. destruct (transport_field protocol) as [k|] eqn:Et.
  - destruct (transport_field_even _ _ Et) as [Hev Hpr]. specialize (Htr k eq_refl).
    destruct (transport_checksum_spec h l p n Hp b1 hl k protocol) as (w & Hw & Et' & Hs2); try done; [lia|].
    cbv zeta in *. set (b2 := copy_at (tunPacketOffset + hl + k) (be_split 2 w) b1) in *.
    exists b2. split.
    { rewrite E. unfold transport_field in Et. repeat case_decide; simplify_eq; exact Et'. }
    split; [apply packet4_upd; [done|unfold b2; rewrite length_copy_at; lia|]|].
    { apply Forall_copy_at; [apply be_split_is_byte|done]. }
    rewrite EP, view_upd. split; [|split].
    + rewrite take_take, Nat.min_l by lia.
      unfold b2. rewrite window_out by (rewrite length_be_split; lia). exact Hsum.
    + intros k' [= <-]. rewrite Hsrc, Hdst, <- Hs2. do 3 f_equal.
      rewrite skipn_firstn_comm, drop_drop. f_equal; lia.
    + intros i Hi Hk. specialize (Hk k eq_refl). rewrite Hpkt. apply lookup_window. unfold b2, b1.
      rewrite !lookup_copy_at_out; rewrite ?length_be_split; lia || done || (rewrite length_copy_at; lia).
  - exists b1. split.
    { rewrite E. unfold transport_field in Et. repeat case_decide; done. }
    split; [by apply packet4_upd|]. rewrite EP, view_upd. split; [|split; [done|]].
    + by rewrite take_take, Nat.min_l by lia.
    + intros i Hi _. rewrite Hpkt. apply lookup_window. unfold b1. apply lookup_copy_at_out; rewrite length_be_split; lia.
Qed.

(** C8. Recomputing the checksums of a parsed IPv4 packet whose declared header and
    transport header lie inside it does not panic, leaves the header with the sum
    0xffff a receiver expects (RFC 1071), leaves the TCP or UDP segment with its
    pseudo-header with the sum 0xffff, and changes nothing but the checksum fields. *)
Theorem recalculate_checksum_correct h l p n :
  h !! l = Some p → packet4 p l n →
  let pkt := view h (Packet p) in
  let hl := header_len pkt in
  let protocol := nth 9 pkt 0 in
  (20 ≤ hl ≤ n)%nat →
  (∀ k, transport_field protocol = Some k → hl + k + 2 ≤ n)%nat →
  ∃ b', RecalculateChecksum h l = Ok (<[l := with_Buffer p b']> h) ∧
    packet4 (with_Buffer p b') l n ∧
    let pkt' := view (<[l := with_Buffer p b']> h) (Packet p) in
    ones (word_sum (take hl pkt')) = 0xffff ∧
    (∀ k, transport_field protocol = Some k →
       ones (pseudo_sum (view h (Src p)) (view h (Dst p)) protocol (n - hl) + word_sum (drop hl pkt')) = 0xffff) ∧
    (∀ i, (i < 10 ∨ 12 ≤ i)%nat →
       (∀ k, transport_field protocol = Some k → i < hl + k ∨ hl + k + 2 ≤ i)%nat → pkt' !! i = pkt !! i).
Proof. exact (recalculate_checksum_spec h l p n). Qed.


(** ** Receiving and parsing *)

(** A packet object filled with [n] bytes from a stream or from the interface. *)
Record received (p : PacketObj) (l : loc) (n : nat) : Prop := {
  rc_len : length (Buffer p) = maxContentSize;
  rc_bytes : Forall is_byte (Buffer p);
  rc_Packet : Packet p = SView l tunPacketOffset n;
  rc_max : (tunPacketOffset + n ≤ maxContentSize)%nat;
}.

(** What [Parse] accepts. *)
Definition parses4 (pkt : bytes) : Prop := Z.shiftr (nth 0 pkt 0) 4 = 4 ∧ (20 ≤ length pkt)%nat.
Definition parses6 (pkt : bytes) : Prop := Z.shiftr (nth 0 pkt 0) 4 = 6 ∧ (40 ≤ length pkt)%nat.

Lemma received_view h l p n : h !! l = Some p → received p l n →
  view h (Packet p) = take n (drop tunPacketOffset (Buffer p)) ∧ length (view h (Packet p)) = n.
Proof.
  intros Hl [Hlen _ EP Hmax]. assert (Hm : maxContentSize = 3600%nat) by done.
  rewrite EP, (view_of _ _ p) by done. split; [done|]. rewrite length_take, length_drop. lia.
Qed.

Lemma received_index h l p n i : h !! l = Some p → received p l n → (i < n)%nat →
  index h (Packet p) i = Ok (nth i (view h (Packet p)) 0).
Proof.
  intros Hl Hr Hi. destruct (received_view h l p n Hl Hr) as [_ Hn].
  unfold index. destruct (view h (Packet p) !! i) as [x|] eqn:E; [|apply lookup_ge_None in E; lia].
  by rewrite (nth_lookup_Some _ _ _ _ E).
Qed.

Lemma Parse_spec h l p n : h !! l = Some p → received p l n →
  let pkt := view h (Packet p) in
  (parses4 pkt ∧ ∃ p', Parse h l = Ok (true, <[l := p']> h) ∧ packet4 p' l n ∧
     Buffer p' = Buffer p ∧ IPProtocol p' = nth 9 pkt 0) ∨
  (parses6 pkt ∧ ∃ p', Parse h l = Ok (true, <[l := p']> h) ∧ received p' l n ∧ IsIPv6 p' = true ∧
     Buffer p' = Buffer p ∧ Src p' = SView l (tunPacketOffset + 8) 16 ∧ Dst p' = SView l (tunPacketOffset + 24) 16) ∨
  (¬ parses4 pkt ∧ ¬ parses6 pkt ∧ Parse h l = Ok (false, h)).
Proof.
  intros Hl Hr pkt. pose proof (received_view h l p n Hl Hr) as [Hv Hn]. fold pkt in Hv, Hn.
  pose proof Hr as [Hlen Hb EP Hmax]. assert (Hm : maxContentSize = 3600%nat) by done.
  unfold Parse, deref, parses4, parses6, ipv4_Version, ipv6_Version, ipv4_HeaderLen, ipv6_HeaderLen.
  rewrite Hl, Hn. cbn [or_panic mbind outcome_bind].
  assert (slen (Packet p) = n) as Hs by (by rewrite EP). rewrite Hs.
  case_decide as H0; [right; right; split_and!; [lia|lia|done]|].
  rewrite (received_index h l p n 0) by (done || lia). fold pkt. cbn [mbind outcome_bind].
  assert (∀ lo hi, (lo ≤ hi)%nat → (hi ≤ n)%nat → slice_range (Packet p) lo hi
      = Ok (SView l (tunPacketOffset + lo) (hi - lo))) as Hsl by (intros; rewrite EP; apply slice_range_ok; lia).
  case_decide as H4; [|case_decide as H6].
  - case_decide; [right; right; split_and!; [lia|lia|done]|]. left. split; [lia|].
    rewrite !Hsl by lia. cbn [mbind outcome_bind].
    rewrite (received_index h l p n 9) by (done || lia). cbn [mbind outcome_bind].
    eexists. split; [done|]. split; [constructor; simpl; try done; unfold ipv4_HeaderLen; lia|done].
  - case_decide; [right; right; split_and!; [lia|lia|done]|]. right. left. split; [lia|].
    rewrite !Hsl by lia. cbn [mbind outcome_bind].
    eexists. split; [done|]. split; [by constructor|done].
  - right; right; split_and!; [lia|lia|done].
Qed.

(** The fields and the heap after reading: [bs] lies at [totalRead] in the buffer. *)
Definition filled (p : PacketObj) (l : loc) (totalRead : nat) (bs : bytes) : PacketObj :=
  with_Packet (with_Buffer p (copy_at totalRead bs (Buffer p)))
    (SView l tunPacketOffset (totalRead + length bs - tunPacketOffset)).

Lemma copy_at_snoc {A} o (a b l : list A) : (o + length a ≤ length l)%nat →
  copy_at (o + length a) b (copy_at o a l) = copy_at o (a ++ b) l.
Proof.
  intros Hl. unfold copy_at at 1. rewrite length_copy_at by lia.
  rewrite (copy_at_fit o a) by lia. unfold copy_at.
  rewrite (app_assoc (take o l) a), take_app_length' by (rewrite length_app, length_take; lia).
  rewrite <- !app_assoc. f_equal. rewrite take_app, (take_ge a) by lia. rewrite <- !app_assoc.
  f_equal. f_equal; [f_equal; lia|].
  rewrite !app_assoc, drop_app_ge by (rewrite length_app, length_take; lia).
  rewrite drop_drop, !length_app, length_take. f_equal. lia.
Qed.

(** Reading a declared size that fits the buffer: the packet gets exactly the next
    bytes of the stream, in however many reads they come. *)
Lemma ReadFrom_spec fuel : ∀ h l p t N r,
  h !! l = Some p → length (Buffer p) = maxContentSize → (t ≤ maxContentSize)%nat →
  (0 ≤ N)%Z → (Z.of_nat t + N ≤ Z.of_nat maxContentSize)%Z →
  (fin r = EOF ∨ (N ≤ Z.of_nat (length (remaining r)))%Z ∧ fin_with_data r = false) →
  (reads r < fuel)%nat →
  let bs := take (Z.to_nat N) (remaining r) in
  ∃ N' r', ReadFrom fuel h l t (N, r) = Some (<[l := filled p l t bs]> h,
             Z.of_nat (t + length bs - tunPacketOffset), None, (N', r')) ∧
           remaining r' = drop (Z.to_nat N) (remaining r) ∧ fin r' = fin r ∧ fin_with_data r' = fin_with_data r.
Proof.
  induction fuel as [|fuel IH]; intros h l p t N r Hl Hlen Ht HN0 HN Hfin Hfuel; [lia|].
  cbn [ReadFrom]. destruct (LimitedRead (maxContentSize - t) (N, r)) as [[bs e] [N1 r1]] eqn:E.
  apply LimitedRead_spec in E as (Hrem & Hle & -> & HbN & Hf1 & Hd1 & Hdec & HeN & Herr).
  assert (Hbs : (length bs ≤ Z.to_nat N)%nat) by (destruct HbN as [?|Hnil]; [lia|rewrite Hnil; simpl; lia]).
  assert (Hcp : copy_into h (SView l t (maxContentSize - t)) bs
                = <[l := with_Buffer p (copy_at t bs (Buffer p))]> h).
  { rewrite <- (insert_id h l p) at 1 by done. rewrite <- (with_Buffer_id p) at 1.
    rewrite copy_into_upd. by rewrite take_ge by lia. }
  rewrite Hcp. destruct e as [err|].
  - assert (err = EOF ∧ take (Z.to_nat N) (remaining r) = bs ∧ remaining r1 = drop (Z.to_nat N) (remaining r))
      as (-> & -> & Hrem').
    { destruct (Herr err eq_refl) as [(-> & ? & ->)|(HN1 & -> & Hc & Hnil)].
      - replace (Z.to_nat N) with 0%nat by lia. rewrite take_0, drop_0. rewrite Hrem. done.
      - assert (remaining r1 = []) as Hr1 by (unfold remaining; by rewrite Hc).
        rewrite Hr1, app_nil_r in Hrem. rewrite Hrem, Hr1, take_ge, drop_ge by lia. split; [|done].
        destruct Hfin as [|[Hge Hd]]; [done|]. rewrite Hrem, (Hnil Hd) in Hge. simpl in Hge. lia. }
    eexists _, _. split; [by rewrite alter_insert_eq|]. done.
  - specialize (HeN eq_refl). specialize (Hdec ltac:(lia) eq_refl).
    destruct (IH (<[l := with_Buffer p (copy_at t bs (Buffer p))]> h) l (with_Buffer p (copy_at t bs (Buffer p)))
                (t + length bs)%nat (N - Z.of_nat (length bs)) r1) as (N' & r' & -> & Hr' & ? & ?);
      [apply lookup_insert_eq|simpl; rewrite length_copy_at; lia|lia|lia|lia| |lia|].
    { destruct Hfin as [Hf|[Hge Hd]]; [left; congruence|right]. rewrite Hrem, length_app in Hge.
      split; [lia|congruence]. }
    replace (Z.to_nat (N - Z.of_nat (length bs))) with (Z.to_nat N - length bs)%nat in * by lia.
    exists N', r'. rewrite Hrem, take_app_ge, drop_app_ge by lia. split; [|split; [done|split; congruence]].
    rewrite insert_insert_eq. unfold filled. cbn [Buffer with_Buffer].
    rewrite copy_at_snoc, length_app by lia.
    replace (t + length bs + length (take (Z.to_nat N - length bs) (remaining r1)))%nat
      with (t + (length bs + length (take (Z.to_nat N - length bs) (remaining r1))))%nat by lia.
    reflexivity.
Qed.

(** A stream that declares more than the buffer holds, and delivers it, is read
    forever: once the buffer is full every read asks for no bytes. *)
Lemma ReadFrom_stuck fuel : ∀ h l t N r,
  (t ≤ maxContentSize)%nat → Z.of_nat (maxContentSize - t) < N →
  (maxContentSize - t < length (remaining r))%nat → ReadFrom fuel h l t (N, r) = None.
Proof.
  induction fuel as [|fuel IH]; intros h l t N r Ht HN Hr; [done|].
  cbn [ReadFrom]. destruct (LimitedRead (maxContentSize - t) (N, r)) as [[bs e] [N1 r1]] eqn:E.
  apply LimitedRead_spec in E as (Hrem & Hle & -> & _ & _ & _ & _ & _ & Herr).
  rewrite Hrem, length_app in Hr. destruct e as [err|].
  - exfalso. destruct (Herr err eq_refl) as [(_ & ? & _)|(_ & _ & Hc & _)]; [lia|].
    unfold remaining at 1 in Hr. rewrite Hc in Hr. simpl in Hr. lia.
  - apply IH; lia.
Qed.

(** [ReadFrom] of a packet whose declared size exceeds the room in the buffer,
    from a stream that delivers that much, never returns: for every number of reads
    the loop is still running, although 3586 bytes are read at most. *)
Theorem oversized_packet_never_returns h l N r :
  Z.of_nat maxContentSize - Z.of_nat tunPacketOffset < N →
  (maxContentSize - tunPacketOffset < length (remaining r))%nat →
  ∀ fuel, ReadFrom fuel h l tunPacketOffset (N, r) = None.
Proof. intros HN Hr fuel. apply ReadFrom_stuck; unfold maxContentSize, tunPacketOffset in *; [lia|lia|done]. Qed.

Lemma oversized_packet_never_returns_witness :
  ReadFrom 1000%nat {[ 0%nat := newPacket ]} 0 tunPacketOffset
    (3587, mkReader [replicate (Z.to_nat 4000) 1] EOF false) = None.
Proof.
  apply oversized_packet_never_returns; [reflexivity|].
  apply (bool_decide_unpack _). vm_compute. exact I.
Defined.

Lemma or_panic_bind_cases {A B} (o : option A) (f : A → outcome B) :
  (∀ a, f a = Panic ∨ ∃ v, f a = Ok v) → or_panic o ≫= f = Panic ∨ ∃ v, or_panic o ≫= f = Ok v.
Proof. intros Hf. destruct o; [apply Hf|by left]. Qed.

Lemma pseudo_csum_cases len protocol src dst :
  pseudo_csum len protocol src dst = Panic ∨ ∃ v, pseudo_csum len protocol src dst = Ok v.
Proof.
  unfold pseudo_csum. do 8 (apply or_panic_bind_cases; intros ?; cbv zeta).
  right. eexists. reflexivity.
Qed.

Lemma header_len_bound pkt : Forall is_byte pkt → (header_len pkt ≤ 60)%nat.
Proof.
  intros Hb. unfold header_len. assert (is_byte (nth 0 pkt 0)) as [??].
  { destruct pkt; [by split|]. by apply list.Forall_cons in Hb as [? _]. }
  rewrite Z.shiftl_mul_pow2, (Z.land_ones _ 4) by lia. pose proof (Z.mod_pos_bound (nth 0 pkt 0) (2 ^ 4)). lia.
Qed.

Lemma transport_checksum_short h p l n hl k protocol :
  Packet p = SView l tunPacketOffset n → (n < hl + k + 2)%nat →
  transport_checksum h p hl (hl + k) protocol = Panic.
Proof.
  intros EP Hn. unfold transport_checksum. rewrite EP.
  destruct (decide (hl + k ≤ n)%nat) as [Hf|Hf].
  - rewrite !slice_from_ok by lia. cbn [mbind outcome_bind].
    set (h' := copy_into _ _ _). unfold checksumIPv4TCPUDP.
    destruct (pseudo_csum_cases (length (view h' (SView l (tunPacketOffset + hl) (n - hl)))) protocol
      (view h' (Src p)) (view h' (Dst p))) as [->|[v ->]]; [done|]. cbn [mbind outcome_bind].
    unfold PutUint16. cbn [slen]. rewrite decide_True by lia. done.
  - assert (slice_from (SView l tunPacketOffset n) (hl + k) = Panic) as -> by (simpl; by rewrite decide_False).
    done.
Qed.

(** A parsed IPv4 packet that declares TCP or UDP but ends before the checksum
    field of that header makes [RecalculateChecksum] panic: nothing between the
    network and this call compares the length with the transport header. *)
Theorem short_segment_panics h l p n k :
  h !! l = Some p → packet4 p l n →
  let pkt := view h (Packet p) in
  transport_field (nth 9 pkt 0) = Some k → (n < header_len pkt + k + 2)%nat →
  RecalculateChecksum h l = Panic.
Proof.
  intros Hl Hp pkt Ht Hn. pose proof Hp as [Hlen Hb EP ES ED Hv4 Hmin Hmax].
  unfold ipv4_HeaderLen in Hmin. assert (Hm : maxContentSize = 3600%nat) by done.
  assert (Ho : tunPacketOffset = 14%nat) by done.
  assert (Hr : received p l n) by by constructor.
  destruct (received_view h l p n Hl Hr) as [Hv Hvn]. fold pkt in Hv, Hvn.
  assert (header_len pkt ≤ 60)%nat as Hhl by (apply header_len_bound; rewrite Hv; by apply window_bytes).
  set (hl := header_len pkt) in *.
  unfold RecalculateChecksum, deref. rewrite Hl. cbn [or_panic mbind outcome_bind]. rewrite Hv4.
  rewrite (received_index h l p n 0) by (done || lia). cbn [mbind outcome_bind]. fold pkt.
  fold (header_len pkt). fold hl.
  assert (slice_from (Packet p) ipv4offsetChecksum = Ok (SView l (tunPacketOffset + 10) (n - 10))) as ->
    by (rewrite EP; apply slice_from_ok; lia).
  assert (slice_range (Packet p) 0 hl = Ok (SView l (tunPacketOffset + 0) (hl - 0))) as ->
    by (rewrite EP; apply slice_range_ok; lia).
  cbn [mbind outcome_bind].
  destruct (zero_then_put h l p (Buffer p) (tunPacketOffset + 10) (n - 10)
    (checksumIPv4Header (take hl (drop tunPacketOffset (copy_at (tunPacketOffset + 10) [0; 0] (Buffer p))))))
    as [Ez Ep]; [lia|lia|].
  rewrite with_Buffer_id, insert_id in Ez by done. rewrite Ez.
  rewrite view_upd, Nat.add_0_r, Nat.sub_0_r, Ep. cbn [mbind outcome_bind].
  set (b' := copy_at _ (be_split 2 _) _). set (h' := <[l := with_Buffer p b']> h).
  assert (index h' (Packet p) 9 = Ok (nth 9 pkt 0)) as ->.
  { rewrite EP. apply view_at; [lia|]. unfold h'. rewrite buffer_upd. unfold b'.
    rewrite lookup_copy_at_out by (rewrite length_be_split; lia).
    destruct (pkt !! 9%nat) as [x|] eqn:Ex; [|apply lookup_ge_None in Ex; lia].
    rewrite (nth_lookup_Some _ _ _ _ Ex). rewrite Hv, lookup_take_lt, lookup_drop in Ex by lia. done. }
  cbn [mbind outcome_bind]. set (pr := nth 9 pkt 0) in *.
  pose proof (transport_checksum_short h' p l n hl k pr EP ltac:(lia)) as HT.
  unfold transport_field in Ht. repeat case_decide; simplify_eq; exact HT.
Qed.

(** After [CopyTo] the copy carries the same packet bytes in its own buffer:
    whatever is later written to the buffer of the original, the bytes of the copy
    stay. Its address slices, however, are still views of the original buffer. *)
Theorem copy_to_independent h data copyPacket p n :
  h !! data = Some p → received p data n → data ≠ copyPacket →
  ∃ h' q, CopyTo h data copyPacket = Ok h' ∧ h' !! copyPacket = Some q ∧ received q copyPacket n ∧
    h' !! data = Some p ∧ Src q = Src p ∧ Dst q = Dst p ∧
    ∀ f, view (alter f data h') (Packet q) = view h (Packet p).
Proof.
  intros Hl Hr Hne. pose proof Hr as [Hlen Hb EP Hmax].
  destruct (received_view h data p n Hl Hr) as [Hv Hn].
  assert (Hm : maxContentSize = 3600%nat) by done.
  unfold CopyTo, deref. rewrite Hl. cbn [or_panic mbind outcome_bind].
  rewrite EP. cbn [slen]. rewrite slice_range_ok by lia. cbn [mbind outcome_bind].
  eexists _, _. split; [done|]. rewrite lookup_insert_eq. split; [done|].
  replace (n + tunPacketOffset - tunPacketOffset)%nat with n by lia. rewrite Nat.add_0_l.
  split; [by constructor|]. rewrite lookup_insert_ne by done. split_and!; try done.
  intros f. simpl. unfold buffer. rewrite lookup_alter_ne, lookup_insert_eq by done. simpl.
  by rewrite Hl.
Qed.

(** ** The broadcast address *)

Definition byte_range : list Z := Z.of_nat <$> seq 0 256.

Lemma byte_range_elem b : is_byte b → b ∈ byte_range.
Proof.
  intros [??]. unfold byte_range. apply list_elem_of_fmap. exists (Z.to_nat b).
  rewrite elem_of_seq. lia.
Qed.

Lemma forallb_byte (f : Z → bool) b : forallb f byte_range = true → is_byte b → f b = true.
Proof. intros H Hb. rewrite forallb_forall in H. apply H, list_elem_of_In, byte_range_elem, Hb. Qed.

Lemma lor_not b m : is_byte b → is_byte m →
  Z.lor b (255 - m) = Z.land b m + (255 - m) ∧ b ≤ Z.land b m + (255 - m) ∧ is_byte (Z.lor b (255 - m)).
Proof.
  intros Hb Hm.
  assert (forallb (λ b, forallb (λ m, bool_decide (Z.lor b (255 - m) = Z.land b m + (255 - m))
    && bool_decide (b ≤ Z.land b m + (255 - m)) && bool_decide (Z.lor b (255 - m) < 256)) byte_range) byte_range = true)
    as H by (vm_compute; reflexivity).
  apply (forallb_byte _ b) in H; [|done]. apply (forallb_byte _ m) in H; [|done].
  rewrite !andb_true_iff, !bool_decide_eq_true in H. unfold is_byte.
  rewrite (proj1 (proj1 H)). destruct H as [[H1 H2] H3]. rewrite H1 in H3.
  split_and!; [done|done|unfold is_byte in *; lia|done].
Qed.

Lemma lor_not_max a b m : is_byte a → is_byte b → is_byte m → Z.land a m = Z.land b m → a ≤ Z.lor b (255 - m).
Proof.
  intros Ha Hb Hm E. destruct (lor_not a m Ha Hm) as (_ & Hle & _), (lor_not b m Hb Hm) as (-> & _ & _). lia.
Qed.

(** For an IPv4 block the broadcast address of [GetIPv4BroadcastAddress] is in
    the block and no address of the block is larger. *)
Theorem broadcast_is_largest net mask :
  valid4 net → valid4 mask →
  ∃ b, GetIPv4BroadcastAddress (mkIPNet net mask) = Ok b ∧ valid4 b ∧
    ∀ ip, valid4 ip → zip_with Z.land ip mask = zip_with Z.land net mask → be_combine ip ≤ be_combine b.
Proof.
  intros [Hl1 Hb1] [Hl2 Hb2].
  destruct net as [|a0 [|a1 [|a2 [|a3 [|]]]]]; try done.
  destruct mask as [|m0 [|m1 [|m2 [|m3 [|]]]]]; try done.
  repeat match goal with H : Forall is_byte (_ :: _) |- _ => apply list.Forall_cons in H as [? H] end.
  eexists. split; [reflexivity|]. split.
  { split; [done|]. repeat (apply list.Forall_cons; split; [by apply lor_not|]). constructor. }
  intros ip [Hl3 Hb3] E. destruct ip as [|i0 [|i1 [|i2 [|i3 [|]]]]]; try done.
  repeat match goal with H : Forall is_byte (_ :: _) |- _ => apply list.Forall_cons in H as [? H] end.
  simpl in E. injection E as E0 E1 E2 E3. apply lor_not_max in E0, E1, E2, E3; try done.
  unfold be_combine. simpl. lia.
Qed.

Lemma broadcast_is_largest_witness :
  ∃ b, GetIPv4BroadcastAddress (mkIPNet [10; 66; 0; 1] [255; 255; 255; 0]) = Ok b ∧
    be_combine [10; 66; 0; 7] ≤ be_combine b.
Proof.
  assert (V : ∀ a b c d, forallb (λ x, bool_decide (is_byte x)) [a; b; c; d] = true → valid4 [a; b; c; d]).
  { intros a b c d H. split; [done|]. rewrite forallb_forall in H. apply list.Forall_forall. intros x Hx.
    apply (bool_decide_unpack _). rewrite H; [exact I|]. by apply list_elem_of_In. }
  destruct (broadcast_is_largest [10; 66; 0; 1] [255; 255; 255; 0]) as (b & H1 & _ & H3); [by apply V|by apply V|].
  exists b. split; [exact H1|]. apply H3; [by apply V|reflexivity].
Defined.

(** Sample packets. *)
Definition sample_obj (l : loc) (pkt : bytes) : PacketObj :=
  mkPacket (copy_at tunPacketOffset pkt (replicate maxContentSize 0)) (SView l tunPacketOffset (length pkt))
    (SView l (tunPacketOffset + 12) 4) (SView l (tunPacketOffset + 16) 4) false (nth 9 pkt 0).

Lemma sample_obj_packet4 l pkt : (20 ≤ length pkt)%nat → (length pkt ≤ 3586)%nat → Forall is_byte pkt →
  packet4 (sample_obj l pkt) l (length pkt).
Proof.
  intros H1 H2 H3. assert (Hm : maxContentSize = 3600%nat) by done. assert (Ho : tunPacketOffset = 14%nat) by done.
  constructor; try done; unfold sample_obj; cbn [Buffer].
  - rewrite length_copy_at by (rewrite length_replicate; lia). apply length_replicate.
  - apply Forall_copy_at; [done|]. apply Forall_replicate. unfold is_byte. lia.
  - lia.
Defined.

(** A TCP segment of 20 bytes behind a header of 20 bytes, and a header alone. *)
Definition tcp_packet : bytes :=
  [0x45; 0; 0; 40; 0; 1; 0; 0; 64; 6; 7; 7; 10; 66; 0; 2; 10; 66; 0; 1] ++
  [0x1f; 0x90; 0; 80; 0; 0; 0; 1; 0; 0; 0; 0; 0x50; 2; 0x20; 0; 9; 9; 0; 0].
Definition bare_header : bytes := take 20 tcp_packet.

Lemma sample_bytes pkt : forallb (λ x, bool_decide (is_byte x)) pkt = true → Forall is_byte pkt.
Proof.
  intros H. rewrite forallb_forall in H. apply list.Forall_forall. intros x Hx.
  apply (bool_decide_unpack _). rewrite H; [exact I|]. by apply list_elem_of_In.
Qed.

Lemma short_segment_panics_witness :
  RecalculateChecksum {[ 0%nat := sample_obj 0 bare_header ]} 0 = Panic.
Proof.
  eapply (short_segment_panics _ 0 (sample_obj 0 bare_header) 20 16).
  - reflexivity.
  - apply (sample_obj_packet4 0 bare_header); [cbn; lia|cbn; lia|apply sample_bytes; reflexivity].
  - vm_compute. reflexivity.
  - apply (bool_decide_unpack _). vm_compute. exact I.
Defined.

Lemma recalculate_checksum_correct_witness :
  ∃ h', RecalculateChecksum {[ 0%nat := sample_obj 0 tcp_packet ]} 0 = Ok h'.
Proof.
  destruct (recalculate_checksum_correct {[ 0%nat := sample_obj 0 tcp_packet ]} 0 (sample_obj 0 tcp_packet) 40)
    as (b' & H & _); [..|by eexists].
  - reflexivity.
  - apply (sample_obj_packet4 0 tcp_packet); [cbn; lia|cbn; lia|apply sample_bytes; reflexivity].
  - split; apply (bool_decide_unpack _); vm_compute; exact I.
  - intros k Hk. vm_compute in Hk. injection Hk as <-. apply (bool_decide_unpack _). vm_compute. exact I.
Defined.

Lemma copy_to_independent_witness :
  ∃ h' q, CopyTo {[ 0%nat := sample_obj 0 tcp_packet ]} 0 1 = Ok h' ∧ h' !! 1%nat = Some q ∧
    ∀ f, view (alter f 0%nat h') (Packet q) = tcp_packet.
Proof.
  destruct (copy_to_independent {[ 0%nat := sample_obj 0 tcp_packet ]} 0 1 (sample_obj 0 tcp_packet) 40)
    as (h' & q & H1 & H2 & _ & _ & _ & _ & H3); [reflexivity| |lia|].
  - destruct (sample_obj_packet4 0 tcp_packet); [cbn; lia|cbn; lia|apply sample_bytes; reflexivity|]. by constructor.
  - exists h', q. split; [exact H1|]. split; [exact H2|]. intros f. rewrite H3. vm_compute. reflexivity.
Defined.

(** ** The checksums a receiver verifies, on the bytes of a packet *)

Definition transport_ok (pkt : bytes) : Prop :=
  is_Some (transport_field (nth 9 pkt 0)) →
  ones (pseudo_sum (take 4 (drop 12 pkt)) (take 4 (drop 16 pkt)) (nth 9 pkt 0) (length pkt - header_len pkt)
        + word_sum (drop (header_len pkt) pkt)) = 0xffff.

Definition header_ok (pkt : bytes) : Prop := ones (word_sum (take (header_len pkt) pkt)) = 0xffff.

(** The declared header, and the checksum of the transport header if there is one,
    lie inside the packet. *)
Definition complete4 (pkt : bytes) : Prop :=
  (20 ≤ header_len pkt ≤ length pkt)%nat ∧
  ∀ k, transport_field (nth 9 pkt 0) = Some k → (header_len pkt + k + 2 ≤ length pkt)%nat.

(** The bytes that are neither a checksum nor an address. *)
Definition payload_byte (pkt : bytes) (i : nat) : Prop :=
  (i < 10 ∨ 20 ≤ i)%nat ∧
  ∀ k, transport_field (nth 9 pkt 0) = Some k → (i < header_len pkt + k ∨ header_len pkt + k + 2 ≤ i)%nat.

Lemma nth_of_lookup (a b : bytes) i : a !! i = b !! i → nth i a 0 = nth i b 0.
Proof. intros E. by rewrite !nth_lookup, E. Qed.

Lemma recalculate_packet h l p n :
  h !! l = Some p → packet4 p l n → complete4 (view h (Packet p)) →
  let pkt := view h (Packet p) in
  ∃ b', RecalculateChecksum h l = Ok (<[l := with_Buffer p b']> h) ∧ packet4 (with_Buffer p b') l n ∧
    let pkt' := take n (drop tunPacketOffset b') in
    header_ok pkt' ∧ transport_ok pkt' ∧ length pkt' = length pkt ∧
    header_len pkt' = header_len pkt ∧ nth 9 pkt' 0 = nth 9 pkt 0 ∧
    (∀ i, (i < 10 ∨ 12 ≤ i)%nat →
       (∀ k, transport_field (nth 9 pkt 0) = Some k → (i < header_len pkt + k ∨ header_len pkt + k + 2 ≤ i)%nat) →
       pkt' !! i = pkt !! i).
Proof.
  intros Hl Hp [Hc1 Hc2] pkt. pose proof Hp as [Hlen Hb EP ES ED _ Hmin Hmax].
  unfold ipv4_HeaderLen in Hmin. assert (Hm : maxContentSize = 3600%nat) by done.
  assert (Hr : received p l n) by by constructor.
  destruct (received_view h l p n Hl Hr) as [Hv Hvn]. fold pkt in Hv, Hvn, Hc1, Hc2. rewrite Hvn in Hc1, Hc2.
  destruct (recalculate_checksum_spec h l p n Hl Hp Hc1 Hc2) as (b' & E & Hp' & H1 & H2 & H3).
  fold pkt in H1, H2, H3. exists b'. rewrite EP, view_upd in H1, H2, H3.
  split; [done|]. split; [done|]. cbv zeta. set (pkt' := take n (drop tunPacketOffset b')) in *.
  assert (Hn' : length pkt' = n).
  { destruct Hp' as [Hl' _ _ _ _ _ _ _]. simpl in Hl'. unfold pkt'. rewrite length_take, length_drop. lia. }
  assert (Hsame : ∀ i, (i < 10 ∨ 12 ≤ i)%nat → (i < 20)%nat → pkt' !! i = pkt !! i).
  { intros i Hi Hi'. apply H3; [done|]. intros. lia. }
  assert (Hh : header_len pkt' = header_len pkt).
  { unfold header_len. by rewrite (nth_of_lookup pkt' pkt 0) by (apply Hsame; lia). }
  assert (H9 : nth 9 pkt' 0 = nth 9 pkt 0) by (apply nth_of_lookup, Hsame; lia).
  assert (Hwin : ∀ s, (12 ≤ s)%nat → (s + 4 ≤ 20)%nat → take 4 (drop s pkt') = take 4 (drop s pkt)).
  { intros s Hs1 Hs2. apply list_eq. intros i. destruct (decide (i < 4)%nat).
    - apply lookup_window, Hsame; lia.
    - by rewrite !lookup_take_ge by lia. }
  unfold header_ok, transport_ok. rewrite Hh, H9, Hn', Hvn. split_and!; try done.
  intros [k Hk]. rewrite !Hwin by lia. specialize (H2 k Hk).
  rewrite ES, ED, !(view_of _ _ p) in H2 by done.
  assert (Hw : ∀ s, (s + 4 ≤ n)%nat → take 4 (drop s pkt) = take 4 (drop (tunPacketOffset + s) (Buffer p))).
  { intros s Hs. by rewrite Hv, skipn_firstn_comm, take_take, drop_drop, Nat.min_l by lia. }
  rewrite !Hw by lia. exact H2.
Qed.
