(* ===== verification/Device.v ===== *)
(** * The VPN device and the packet pool (src/vpn/vpn.go)

    The world the data path works on: the heap of packet objects, the pool of free
    ones and what was handed to the TUN interface. The interface itself is outside:
    what its calls return is an argument. *)

From S2P Require Import Prelude GoNet GoIO Packet.
Local Open Scope Z_scope.

Record World := mkWorld {
  w_heap : heap;
  w_pool : list loc;            (* packetsPool *)
  w_next : loc;                 (* the next object new(Packet) returns *)
  w_written : list (list bytes) (* the batches given to tun.Write, first to last *)
}.

Definition with_heap (w : World) (h : heap) : World := mkWorld h (w_pool w) (w_next w) (w_written w).

(** [Device] without the parts above. *)
Record Device := mkDevice { d_mtu : Z; d_localIP : bytes }.

(** [sync.Pool] may return any free object or none: the policy picks a position. *)
Class PoolPolicy := pick : list loc → option nat.

(** [GetTempPacket]. *)
Definition GetTempPacket `{PoolPolicy} (w : World) : loc * World :=
  match (i ← pick (w_pool w); l ← w_pool w !! i; Some (i, l)) with
  | Some (i, l) => (l, mkWorld (w_heap w) (delete i (w_pool w)) (w_next w) (w_written w))
  | None => (w_next w, mkWorld (<[w_next w := newPacket]> (w_heap w)) (w_pool w) (S (w_next w)) (w_written w))
  end.

(** [PutTempPacket]. *)
Definition PutTempPacket (data : loc) (w : World) : World :=
  mkWorld (clear_packet (w_heap w) data) (data :: w_pool w) (w_next w) (w_written w).

(** The addresses of an outgoing packet are rewritten before its checksums. *)
Definition rewrite_addresses (h : heap) (data : loc) (senderIP localIP : bytes) : outcome heap :=
  p ← deref h data;
  let h := copy_into h (Src p) senderIP in
  let h := copy_into h (Dst p) localIP in
  RecalculateChecksum h data.

(** [packet.Buffer\[:tunPacketOffset+len(packet.Packet)\]]. *)
Definition tun_buf (h : heap) (data : loc) : outcome slice :=
  p ← deref h data;
  slice_range (SView data 0 maxContentSize) 0 (tunPacketOffset + slen (Packet p)).

(** [d.tun.Write(bufs, tunPacketOffset)]: [tun_err] is the error it returns. *)
Definition tun_Write (w : World) (bufs : list slice) (tun_err : bool) : World * bool :=
  (mkWorld (w_heap w) (w_pool w) (w_next w) (w_written w ++ [view (w_heap w) <$> bufs]), tun_err).

(** [WritePacket]: the new world and whether an error is returned. *)
Definition WritePacket (d : Device) (data : loc) (senderIP : bytes) (tun_err : bool) (w : World)
    : outcome (World * bool) :=
  p ← deref (w_heap w) data;
  if IsIPv6 p then Ok (w, false)
  else
    h ← rewrite_addresses (w_heap w) data senderIP (d_localIP d);
    buf ← tun_buf h data;
    Ok (tun_Write (with_heap w h) [buf] tun_err).

(** The loop of [WritePacketsBatch]. *)
Fixpoint prepare_batch (d : Device) (packets : list loc) (bufs : list slice) (senderIP : bytes) (h : heap)
    : outcome (heap * list slice) :=
  match packets with
  | [] => Ok (h, bufs)
  | packet :: packets =>
      p ← deref h packet;
      if IsIPv6 p then prepare_batch d packets bufs senderIP h
      else
        h ← rewrite_addresses h packet senderIP (d_localIP d);
        buf ← tun_buf h packet;
        prepare_batch d packets (bufs ++ [buf]) senderIP h
  end.

(** [WritePacketsBatch]: the new world and the error of the interface. *)
Definition WritePacketsBatch (d : Device) (packets : list loc) (senderIP : bytes) (tun_err : bool) (w : World)
    : outcome (World * bool) :=
  '(h, bufs) ← prepare_batch d packets [] senderIP (w_heap w);
  Ok (tun_Write (with_heap w h) bufs tun_err).

(** ** Events of the interface *)

(** An event of the TUN interface: its bits and what [tun.MTU()] answers. *)
Record TunEvent := mkTunEvent { ev_mtu_update : bool; ev_down : bool; ev_mtu : option Z }.

(** One round of [tunEventsReader]: the new MTU of the device. *)
Definition tun_event (d : Device) (e : TunEvent) : Device :=
  if ev_mtu_update e then
    match ev_mtu e with
    | None => d
    | Some mtu =>
        if decide (mtu < 0) then d
        else mkDevice (if decide (Z.of_nat maxContentSize < mtu) then Z.of_nat maxContentSize else mtu) (d_localIP d)
    end
  else d.

Definition tunEventsReader (d : Device) (es : list TunEvent) : Device := foldl tun_event d es.

(** [NewDevice]: the MTU and the local address. *)
Definition NewDevice (tun_ok : bool) (mtu : option Z) (localIP : bytes) : outcome Device :=
  if negb tun_ok then Fail "failed to create TUN device"
  else match mtu with
       | None => Fail "failed to get TUN mtu"
       | Some mtu => Ok (mkDevice mtu localIP)
       end.

(** ** Reading from the interface *)

(** The first loop of [ReadTUNPackets]: every slot gets a cleared packet. *)
Fixpoint refill `{PoolPolicy} (packets : list (option loc)) (w : World) : list loc * World :=
  match packets with
  | [] => ([], w)
  | None :: packets =>
      let '(l, w) := GetTempPacket w in
      let '(ls, w) := refill packets w in (l :: ls, w)
  | Some l :: packets =>
      let w := with_heap w (clear_packet (w_heap w) l) in
      let '(ls, w) := refill packets w in (l :: ls, w)
  end.

(** What [tun.Read] does to one slot: the bytes it puts at the offset and the size
    it reports. *)
Definition tun_fill (h : heap) (l : loc) (data : bytes) : heap :=
  copy_into h (SView l tunPacketOffset (maxContentSize - tunPacketOffset)) data.

(** The second loop, for one slot. *)
Definition read_slot (l : loc) (size : nat) (w : World) : outcome (option loc * World) :=
  if decide (size = 0%nat ∨ maxContentSize < size)%nat then Ok (Some l, w)
  else
    s ← slice_range (SView l 0 maxContentSize) tunPacketOffset (size + tunPacketOffset);
    let h := alter (λ p, with_Packet p s) l (w_heap w) in
    '(okay, h) ← Parse h l;
    if (okay : bool) then Ok (Some l, with_heap w h)
    else Ok (None, PutTempPacket l (with_heap w h)).

Fixpoint read_slots (slots : list (loc * (bytes * nat))) (w : World) : outcome (list (option loc) * World) :=
  match slots with
  | [] => Ok ([], w)
  | (l, (_, size)) :: slots =>
      '(s, w) ← read_slot l size w;
      '(ss, w) ← read_slots slots w;
      Ok (s :: ss, w)
  end.

Fixpoint fill_slots (slots : list (loc * (bytes * nat))) (h : heap) : heap :=
  match slots with
  | [] => h
  | (l, (data, _)) :: slots => fill_slots slots (tun_fill h l data)
  end.

(** One round of [ReadTUNPackets]: [reads] are the packets [tun.Read] delivers, one
    per slot from the first; the handler gets those slots and returns what it left
    in them. The result is the slots of the next round. *)
Definition read_round `{PoolPolicy} {S : Type}
    (packetsHandler : list (option loc) → World * S → outcome (list (option loc) * (World * S)))
    (packets : list (option loc)) (reads : list (bytes * nat)) (w : World * S)
    : outcome (list (option loc) * (World * S)) :=
  let '(w, s) := w in
  let '(ls, w) := refill packets w in
  let packetsCount := length reads in
  let slots := zip ls reads in
  let w := with_heap w (fill_slots slots (w_heap w)) in
  '(ps, w) ← read_slots slots w;
  '(ps, ws) ← (if decide (0 < packetsCount)%nat then packetsHandler ps (w, s) else Ok (ps, (w, s)));
  Ok (ps ++ (Some <$> drop packetsCount ls), ws).

(** The errors [tun.Read] may report, and whether the loop goes on. *)
Inductive tun_error := TooManySegments | Closed | OtherTunError.

Definition keep_reading (e : option tun_error) : bool :=
  match e with None | Some TooManySegments => true | _ => false end.

(** [ReadTUNPackets] on a finite run of the interface. *)
Fixpoint ReadTUNPackets `{PoolPolicy} {S : Type}
    (packetsHandler : list (option loc) → World * S → outcome (list (option loc) * (World * S)))
    (packets : list (option loc)) (run : list (list (bytes * nat) * option tun_error)) (w : World * S)
    : outcome (list (option loc) * (World * S)) :=
  match run with
  | [] => Ok (packets, w)
  | (reads, err) :: run =>
      '(packets, w) ← read_round packetsHandler packets reads w;
      if keep_reading err then ReadTUNPackets packetsHandler packets run w else Ok (packets, w)
  end.

(** ** Well-formed objects *)

(** Every object of the heap is a full buffer of bytes, and its packet is not set or
    lies in its own buffer behind the offset. *)
Record obj_ok (l : loc) (p : PacketObj) : Prop := {
  ok_len : length (Buffer p) = maxContentSize;
  ok_bytes : Forall is_byte (Buffer p);
  ok_Packet : Packet p = SNil ∨
              ∃ n, Packet p = SView l tunPacketOffset n ∧ (tunPacketOffset + n ≤ maxContentSize)%nat;
}.

Definition heap_ok (h : heap) : Prop := ∀ l p, h !! l = Some p → obj_ok l p.

Lemma newPacket_ok l : obj_ok l newPacket.
Proof.
  constructor; [apply length_replicate| |by left].
  apply Forall_replicate. unfold is_byte. lia.
Qed.

Lemma received_ok p l n : received p l n → obj_ok l p.
Proof. intros []. constructor; eauto. Qed.

Lemma packet4_ok p l n : packet4 p l n → obj_ok l p.
Proof. intros []. constructor; eauto. Qed.

Lemma heap_ok_insert h l p : heap_ok h → obj_ok l p → heap_ok (<[l := p]> h).
Proof. intros Hh ? l' p'. rewrite lookup_insert. case_decide; [naive_solver|apply Hh]. Qed.

Lemma heap_ok_alter h f l : heap_ok h → (∀ p, obj_ok l p → obj_ok l (f p)) → heap_ok (alter f l h).
Proof.
  intros Hh Hf l' p'. rewrite lookup_alter. case_decide; [|apply Hh]. subst.
  intros (p & Hp & ->)%fmap_Some. by apply Hf, Hh.
Qed.

Lemma clear_ok l p : obj_ok l p → obj_ok l (mkPacket (Buffer p) SNil SNil SNil false 0).
Proof. intros []. constructor; eauto. Qed.

(** ** Writing to the interface *)

(** What the interface must receive for a packet of the peer [sender]: the same
    packet with the addresses rewritten and valid checksums. *)
Record delivered (sender local pkt pkt' : bytes) : Prop := {
  dl_header : header_ok pkt';
  dl_transport : transport_ok pkt';
  dl_src : take 4 (drop 12 pkt') = sender;
  dl_dst : take 4 (drop 16 pkt') = local;
  dl_len : length pkt' = length pkt;
  dl_payload : ∀ i, payload_byte pkt i → pkt' !! i = pkt !! i;
}.

Definition ready4 (h : heap) (l : loc) : Prop :=
  ∃ p n, h !! l = Some p ∧ packet4 p l n ∧ complete4 (view h (Packet p)).

Section write.
Context (sender local : bytes) (Hsender : valid4 sender) (Hlocal : valid4 local).

Lemma rewrite_addresses_spec h l p n :
  h !! l = Some p → packet4 p l n → complete4 (view h (Packet p)) →
  ∃ b', rewrite_addresses h l sender local = Ok (<[l := with_Buffer p b']> h) ∧
    packet4 (with_Buffer p b') l n ∧
    delivered sender local (view h (Packet p)) (take n (drop tunPacketOffset b')).
Proof using Hsender Hlocal.
  intros Hl Hp Hc. pose proof Hp as [Hlen Hb EP ES ED _ Hmin Hmax].
  destruct Hsender as [Hsl Hsb], Hlocal as [Hll Hlb].
  unfold ipv4_HeaderLen in Hmin. assert (Hm : maxContentSize = 3600%nat) by done.
  assert (Hr : received p l n) by by constructor.
  destruct (received_view h l p n Hl Hr) as [Hv Hvn]. set (pkt := view h (Packet p)) in *.
  set (b1 := copy_at (tunPacketOffset + 12) sender (Buffer p)).
  set (b2 := copy_at (tunPacketOffset + 16) local b1).
  assert (length b1 = maxContentSize) as L1 by (unfold b1; rewrite length_copy_at; lia).
  assert (length b2 = maxContentSize) as L2 by (unfold b2; rewrite length_copy_at; lia).
  assert (Hp2 : packet4 (with_Buffer p b2) l n).
  { apply packet4_upd; [done|done|]. by repeat apply Forall_copy_at. }
  set (h2 := <[l := with_Buffer p b2]> h).
  set (pkt2 := take n (drop tunPacketOffset b2)).
  assert (Hv2 : view h2 (Packet (with_Buffer p b2)) = pkt2) by (simpl; rewrite EP; apply view_upd).
  assert (Hsame : ∀ i, (i < 12 ∨ 20 ≤ i)%nat → pkt2 !! i = pkt !! i).
  { intros i Hi. rewrite Hv. apply lookup_window. unfold b2.
    rewrite lookup_copy_at_out by lia. unfold b1. by rewrite lookup_copy_at_out by lia. }
  assert (L3 : length pkt2 = n) by (unfold pkt2; rewrite length_take, length_drop; lia).
  assert (Hh : header_len pkt2 = header_len pkt).
  { unfold header_len. by rewrite (nth_of_lookup pkt2 pkt 0) by (apply Hsame; lia). }
  assert (H9 : nth 9 pkt2 0 = nth 9 pkt 0) by (apply nth_of_lookup, Hsame; lia).
  destruct (recalculate_packet h2 l (with_Buffer p b2) n) as (b' & E & Hp' & Hk1 & Hk2 & Hk3 & Hk4 & Hk5 & Hk6);
    [apply lookup_insert_eq|done| |].
  { rewrite Hv2. unfold complete4. rewrite Hh, H9, L3, <- Hvn. exact Hc. }
  rewrite Hv2 in *. rewrite Hh, H9 in *. exists b'. split; [|split; [done|]].
  { unfold rewrite_addresses, deref. rewrite Hl. cbn [or_panic mbind outcome_bind]. rewrite ES, ED.
    rewrite <- (insert_id h l p) at 1 by done. rewrite <- (with_Buffer_id p) at 1.
    rewrite !copy_into_upd. rewrite (take_ge sender), (take_ge local) by lia. fold b1 b2 h2.
    rewrite E. unfold h2. by rewrite insert_insert_eq. }
  set (pkt' := take n (drop tunPacketOffset b')) in *.
  assert (Hwin : ∀ s bs, (12 ≤ s)%nat → (s + 4 ≤ 20)%nat → take 4 (drop s pkt2) = bs → take 4 (drop s pkt') = bs).
  { intros s bs Hs1 Hs2 <-. apply list_eq. intros i. destruct (decide (i < 4)%nat).
    - apply lookup_window, Hk6; [lia|]. intros k Hk. destruct Hc as [[? _] _]. lia.
    - by rewrite !lookup_take_ge by lia. }
  assert (Hwin2 : ∀ s, (s + 4 ≤ n)%nat → take 4 (drop s pkt2) = take 4 (drop (tunPacketOffset + s) b2)).
  { intros s Hs. unfold pkt2. by rewrite skipn_firstn_comm, take_take, drop_drop, Nat.min_l by lia. }
  constructor; try done.
  - apply Hwin; [lia|lia|]. rewrite Hwin2 by lia. unfold b2. rewrite window_out by lia. unfold b1.
    rewrite <- (Nat.add_0_r (tunPacketOffset + 12)) at 2. rewrite window_in by lia.
    rewrite take_0, Hsl, drop_ge, app_nil_r; [done|]. rewrite length_take. lia.
  - apply Hwin; [lia|lia|]. rewrite Hwin2 by lia. unfold b2.
    rewrite <- (Nat.add_0_r (tunPacketOffset + 16)) at 2. rewrite window_in by lia.
    rewrite take_0, Hll, drop_ge, app_nil_r; [done|]. rewrite length_take. lia.
  - by rewrite Hk3, L3, Hvn.
  - intros i [Hi1 Hi2]. rewrite Hk6; [apply Hsame; lia|lia|done].
Qed.

Definition batch_spec (h : heap) (l : loc) (buf : bytes) : Prop :=
  ∃ p, h !! l = Some p ∧ delivered sender local (view h (Packet p)) (drop tunPacketOffset buf).

(** A packet that stays where it is keeps what its slices show. *)
Lemma ready4_other h l l' p b : l ≠ l' → ready4 h l → ready4 (<[l' := with_Buffer p b]> h) l.
Proof.
  intros Hne (q & n & Hq & H4 & Hc). exists q, n. rewrite lookup_insert_ne by done. split_and!; [done|done|].
  destruct H4 as [_ _ EP _ _ _ _ _]. rewrite EP in *. unfold view, buffer in *.
  by rewrite lookup_insert_ne.
Qed.

Definition plen (h : heap) (l : loc) : nat := default 0%nat ((λ p, slen (Packet p)) <$> h !! l).

Definition tun_slice (h : heap) (l : loc) : slice := SView l 0 (tunPacketOffset + plen h l).

Lemma prepare_batch_spec d packets : ∀ bufs h,
  d_localIP d = local → NoDup packets → (∀ l, l ∈ packets → ready4 h l) →
  ∃ h', prepare_batch d packets bufs sender h = Ok (h', bufs ++ (tun_slice h <$> packets)) ∧
    (∀ l, l ∉ packets → h' !! l = h !! l) ∧
    (∀ l p, h !! l = Some p → ∃ b, h' !! l = Some (with_Buffer p b) ∧ (obj_ok l p → obj_ok l (with_Buffer p b))) ∧
    (∀ l, l ∈ packets → batch_spec h l (view h' (tun_slice h l))).
Proof using Hsender Hlocal.
  induction packets as [|l ls IH]; intros bufs h Hd Hnd Hready.
  { exists h. rewrite app_nil_r. split_and!; [done|done| |set_solver].
    intros l p Hp. exists (Buffer p). by rewrite with_Buffer_id. }
  apply list.NoDup_cons in Hnd as [Hnl Hnd].
  destruct (Hready l) as (p & n & Hp & H4 & Hc); [set_solver|].
  destruct (rewrite_addresses_spec h l p n Hp H4 Hc) as (b & E & H4' & Hdel).
  pose proof H4' as [Hlen _ EP _ _ _ _ Hmax]. simpl in EP, Hlen. pose proof (p4_v4 _ _ _ H4) as Hv4.
  set (h1 := <[l := with_Buffer p b]> h) in *.
  destruct (IH (bufs ++ [SView l 0 (tunPacketOffset + n)]) h1) as (h' & E' & Hout & Hin & Hall); [done|done| |].
  { intros l' Hl'. apply ready4_other; [|apply Hready; set_solver]. intros ->. done. }
  assert (Hsl : tun_slice h l = SView l 0 (tunPacketOffset + n)) by (unfold tun_slice, plen; rewrite Hp; simpl; by rewrite EP).
  assert (Hother : ∀ l', l' ∈ ls → h1 !! l' = h !! l').
  { intros l' Hl'. unfold h1. apply lookup_insert_ne. by intros ->. }
  assert (Hsls : ∀ l', l' ∈ ls → tun_slice h1 l' = tun_slice h l').
  { intros l' Hl'. unfold tun_slice, plen. by rewrite Hother. }
  exists h'. split_and!.
  - cbn [prepare_batch]. unfold deref at 1. rewrite Hp. cbn [or_panic mbind outcome_bind]. rewrite Hv4, Hd, E.
    cbn [mbind outcome_bind]. unfold tun_buf, deref.
    assert (h1 !! l = Some (with_Buffer p b)) as -> by apply lookup_insert_eq.
    cbn [or_panic mbind outcome_bind Packet with_Buffer]. rewrite EP. cbn [slen].
    rewrite slice_range_ok by lia. cbn [mbind outcome_bind]. rewrite Nat.add_0_l, Nat.sub_0_r.
    rewrite E', <- app_assoc, fmap_cons, Hsl. do 4 f_equal.
    apply list_fmap_ext. intros i l' Hl'. apply Hsls. by eapply list_elem_of_lookup_2.
  - intros l' Hl'. rewrite Hout by set_solver. unfold h1. by rewrite lookup_insert_ne by set_solver.
  - intros l' q Hq. destruct (decide (l = l')) as [<-|Hne].
    + destruct (Hin l (with_Buffer p b)) as (b2 & ? & ?); [apply lookup_insert_eq|].
      simplify_eq. exists b2. split; [done|]. intros _. by eapply H0, packet4_ok.
    + apply Hin. unfold h1. by rewrite lookup_insert_ne.
  - intros l' Hl'. apply elem_of_cons in Hl' as [->|Hl'].
    + exists p. split; [done|]. assert (h' !! l = Some (with_Buffer p b)) as Hl'.
      { rewrite Hout by done. apply lookup_insert_eq. }
      rewrite Hsl, (view_of h' l (with_Buffer p b)), drop_0 by done. cbn [Buffer with_Buffer].
      rewrite skipn_firstn_comm. replace (tunPacketOffset + n - tunPacketOffset)%nat with n by lia. exact Hdel.
    + destruct (Hall l' Hl') as (q & Hq & Hdq). rewrite Hsls in Hdq by done. rewrite Hother in Hq by done.
      exists q. split; [done|]. destruct (Hready l') as (q' & m & Hq' & Hq4 & _); [set_solver|]. simplify_eq.
      destruct Hq4 as [_ _ EQ _ _ _ _ _]. rewrite EQ in *. unfold view, buffer in Hdq |- *.
      by rewrite Hother in Hdq by done.
Qed.
End write.

(** C5. A batch of complete IPv4 packets reaches the interface in one write, in
    order: each with the address of the peer that sent it as its source, the local
    address as its destination, valid header and transport checksums, and every
    other byte as it was received. *)
Theorem write_batch_delivers d packets sender tun_err w :
  valid4 sender → valid4 (d_localIP d) → NoDup packets →
  (∀ l, l ∈ packets → ready4 (w_heap w) l) →
  ∃ w' batch, WritePacketsBatch d packets sender tun_err w = Ok (w', tun_err) ∧
    w_pool w' = w_pool w ∧ w_written w' = w_written w ++ [batch] ∧
    Forall2 (λ l buf, ∃ p, w_heap w !! l = Some p ∧
      delivered sender (d_localIP d) (view (w_heap w) (Packet p)) (drop tunPacketOffset buf)) packets batch.
Proof.
  intros Hs Hl Hnd Hready.
  destruct (prepare_batch_spec sender (d_localIP d) Hs Hl d packets [] (w_heap w)) as (h' & E & _ & _ & Hall);
    [done..|].
  unfold WritePacketsBatch. rewrite E. cbn [mbind outcome_bind]. eexists _, _. split; [reflexivity|].
  split; [done|]. split; [done|]. simpl. rewrite <- list_fmap_compose, Forall2_fmap_r.
  apply Forall_Forall2_diag, list.Forall_forall. intros l Hin. apply Hall, Hin.
Qed.

Lemma write_batch_delivers_witness :
  ∃ w' batch, WritePacketsBatch (mkDevice 1500 [10; 66; 0; 1]) [0%nat] [10; 66; 0; 9] false
      (mkWorld {[ 0%nat := sample_obj 0 tcp_packet ]} [] 1 []) = Ok (w', false) ∧
    w_written w' = [batch] ∧ length batch = 1%nat.
Proof.
  destruct (write_batch_delivers (mkDevice 1500 [10; 66; 0; 1]) [0%nat] [10; 66; 0; 9] false
      (mkWorld {[ 0%nat := sample_obj 0 tcp_packet ]} [] 1 [])) as (w' & batch & H1 & _ & H2 & H3).
  - split; [reflexivity|by apply sample_bytes].
  - split; [reflexivity|by apply sample_bytes].
  - apply NoDup_singleton.
  - intros l ->%list_elem_of_singleton. exists (sample_obj 0 tcp_packet), 40%nat. split; [reflexivity|]. split.
    + apply (sample_obj_packet4 0 tcp_packet); [cbn; lia|cbn; lia|by apply sample_bytes].
    + split.
      * split; apply (bool_decide_unpack _); vm_compute; exact I.
      * intros k Hk. vm_compute in Hk. injection Hk as <-. apply (bool_decide_unpack _). vm_compute. exact I.
  - exists w', batch. split; [exact H1|]. split; [exact H2|]. by apply Forall2_length in H3.
Defined.

(** ** The pool *)

(** The objects in use: [used] are those held outside the pool. Every object ever
    allocated is in the pool or in use (none is lost), exactly once: no object is
    free twice, free and in use, or held in two places. *)
Record owns (w : World) (used : list loc) : Prop := {
  own_nodup : NoDup (w_pool w ++ used);
  own_alloc : ∀ l, l ∈ w_pool w ++ used → is_Some (w_heap w !! l);
  own_fresh : ∀ l, is_Some (w_heap w !! l) → (l < w_next w)%nat;
  own_heap : heap_ok (w_heap w);
  own_all : ∀ l, is_Some (w_heap w !! l) → l ∈ w_pool w ++ used;
}.

Global Instance owns_Permutation w : Proper ((≡ₚ) ==> iff) (owns w).
Proof.
  intros u1 u2 E. split; intros [H1 H2 H3 H4 H5]; constructor; try done.
  - by rewrite <- E.
  - intros l. rewrite <- E. apply H2.
  - intros l. rewrite <- E. apply H5.
  - by rewrite E.
  - intros l. rewrite E. apply H2.
  - intros l. rewrite E. apply H5.
Qed.

Lemma PutTempPacket_owns w l used : owns w (l :: used) → owns (PutTempPacket l w) used.
Proof.
  intros [H1 H2 H3 H4 H5]. constructor; simpl; unfold clear_packet.
  - by rewrite <- Permutation_middle in H1.
  - intros l' Hl'. rewrite lookup_alter. case_decide as E; [|apply H2; set_solver]. subst.
    apply fmap_is_Some, H2. set_solver.
  - intros l'. rewrite lookup_alter. case_decide as E; [|apply H3]. subst. rewrite fmap_is_Some. apply H3.
  - apply heap_ok_alter; [done|apply clear_ok].
  - intros l' Hl'. assert (is_Some (w_heap w !! l')) as ?%H5; [|set_solver].
    revert Hl'. rewrite lookup_alter. case_decide as E; [subst; by rewrite fmap_is_Some|done].
Qed.

Lemma elem_of_delete_idx {A} (l : list A) i x y : l !! i = Some x → y ∈ l ↔ y = x ∨ y ∈ delete i l.
Proof. intros Hi. rewrite (delete_Permutation l i x Hi) at 1. by rewrite elem_of_cons. Qed.

Lemma owns_head w l used : owns w (l :: used) → l ∉ used.
Proof.
  intros [Hnd _ _ _ _]. apply list.NoDup_app in Hnd as (_ & _ & Hnd). by apply list.NoDup_cons in Hnd as [? _].
Qed.

Definition alloc (w : World) : World :=
  mkWorld (<[w_next w := newPacket]> (w_heap w)) (w_pool w) (S (w_next w)) (w_written w).

Lemma alloc_owns w used : owns w used →
  owns (alloc w) (w_next w :: used) ∧ (∀ l', l' ∈ used → w_heap (alloc w) !! l' = w_heap w !! l').
Proof.
  intros [H1 H2 H3 H4 H5]. assert (w_next w ∉ w_pool w ++ used) as Hfr by (intros Hin%H2%H3; lia).
  split; [constructor|]; simpl.
  - rewrite <- Permutation_middle. constructor; done.
  - intros l' Hl'. rewrite lookup_insert. case_decide; [done|]. apply H2. set_solver.
  - intros l'. rewrite lookup_insert. case_decide; [lia|]. intros ?%H3. lia.
  - apply heap_ok_insert; [done|apply newPacket_ok].
  - intros l'. rewrite lookup_insert. case_decide; [set_solver|]. intros ?%H5. set_solver.
  - intros l' Hl'. rewrite lookup_insert_ne by set_solver. done.
Qed.

Lemma GetTempPacket_owns `{PoolPolicy} w l w' used :
  owns w used → GetTempPacket w = (l, w') →
  owns w' (l :: used) ∧ w_written w' = w_written w ∧
  (∀ l', l' ∈ used → w_heap w' !! l' = w_heap w !! l').
Proof.
  intros Hw. pose proof Hw as [H1 H2 H3 H4 H5]. unfold GetTempPacket. fold (alloc w).
  destruct (pick (w_pool w)) as [i|]; simpl; [destruct (w_pool w !! i) as [x|] eqn:Ei; simpl|];
    intros [= <- <-]; [|destruct (alloc_owns w used Hw); done..].
  split_and!; [|done|done]. constructor; simpl; try done.
  - by rewrite <- Permutation_middle, app_comm_cons, <- (delete_Permutation _ _ _ Ei).
  - intros l' Hl'. apply H2. rewrite elem_of_app, (elem_of_delete_idx _ _ _ _ Ei). set_solver.
  - intros l' Hl'%H5. rewrite elem_of_app, (elem_of_delete_idx _ _ _ _ Ei) in Hl'. set_solver.
Qed.

Lemma owns_heap w used h :
  owns w used → heap_ok h → (∀ l, is_Some (h !! l) ↔ is_Some (w_heap w !! l)) → owns (with_heap w h) used.
Proof.
  intros [H1 H2 H3 H4 H5] Hh Hd. constructor; simpl; [done| | |done|].
  - intros l Hl. apply Hd, H2, Hl.
  - intros l Hl. apply H3, Hd, Hl.
  - intros l Hl. apply H5, Hd, Hl.
Qed.

Lemma alter_is_Some {V} (f : V → V) (l l' : loc) (h : gmap loc V) : is_Some (alter f l h !! l') ↔ is_Some (h !! l').
Proof. rewrite lookup_alter. case_decide; [subst; by rewrite fmap_is_Some|done]. Qed.

Lemma owns_alter w used f l :
  owns w used → (∀ p, obj_ok l p → obj_ok l (f p)) → owns (with_heap w (alter f l (w_heap w))) used.
Proof.
  intros Hw Hf. apply owns_heap; [done|apply heap_ok_alter; [apply Hw|done]|intros; apply alter_is_Some].
Qed.

(** The objects [ls] are left as they were. *)
Definition keeps (w w' : World) (ls : list loc) : Prop := ∀ l, l ∈ ls → w_heap w' !! l = w_heap w !! l.

Lemma keeps_refl w ls : keeps w w ls.
Proof. done. Qed.

Lemma keeps_trans w1 w2 w3 ls : keeps w1 w2 ls → keeps w2 w3 ls → keeps w1 w3 ls.
Proof. intros H1 H2 l Hl. rewrite H2, H1 by done. done. Qed.

Lemma keeps_sub w w' ls ls' : keeps w w' ls → ls' ⊆ ls → keeps w w' ls'.
Proof. intros H1 Hs l Hl. apply H1. by apply Hs. Qed.

Lemma keeps_app_l w w' ls rest : keeps w w' (ls ++ rest) → keeps w w' ls.
Proof. intros Hk l Hl. apply Hk. apply elem_of_app. by left. Qed.

Lemma keeps_app_r w w' ls rest : keeps w w' (ls ++ rest) → keeps w w' rest.
Proof. intros Hk l Hl. apply Hk. apply elem_of_app. by right. Qed.

(** What is owned apart from an object is not the object. *)
Lemma owns_apart w ls rest l : owns w (ls ++ rest) → l ∈ rest → l ∉ ls.
Proof.
  intros [Hnd _ _ _ _] Hr Hl. apply list.NoDup_app in Hnd as (_ & _ & Hnd). apply list.NoDup_app in Hnd as (_ & Hd & _).
  by apply (Hd l).
Qed.

Lemma keeps_heap w h l : ∀ rest, owns w (l :: rest) → (∀ l', l' ≠ l → h !! l' = w_heap w !! l') → keeps w (with_heap w h) rest.
Proof. intros rest Hw Hh l' Hl'. apply Hh. intros ->. by apply (owns_head w l rest). Qed.

Lemma keeps_put w l rest : owns w (l :: rest) → keeps w (PutTempPacket l w) rest.
Proof.
  intros Hw l' Hl'. simpl. unfold clear_packet. apply lookup_alter_ne. intros ->. by apply (owns_head w l' rest).
Qed.

(** The slots of [ReadTUNPackets] as the objects they hold. *)
Definition held (packets : list (option loc)) : list loc := omap id packets.

Lemma refill_owns `{PoolPolicy} packets : ∀ w ls w' rest,
  owns w (held packets ++ rest) → refill packets w = (ls, w') →
  owns w' (ls ++ rest) ∧ length ls = length packets ∧ keeps w w' rest.
Proof.
  induction packets as [|[l|] packets IH]; intros w ls w' rest Hw; cbn [refill].
  - by intros [= <- <-].
  - destruct (refill packets _) as [ls' w1] eqn:E. intros [= <- <-].
    destruct (IH (with_heap w (clear_packet (w_heap w) l)) ls' w1 (l :: rest)) as (H1 & H2 & H3); [|exact E|].
    { apply owns_alter; [|apply clear_ok]. by rewrite <- Permutation_middle. }
    rewrite <- Permutation_middle in H1. split; [done|]. split; [simpl; by f_equal|].
    apply keeps_trans with (with_heap w (clear_packet (w_heap w) l)); [|eapply keeps_sub; [exact H3|set_solver]].
    eapply keeps_sub; [apply (keeps_heap w _ l (held packets ++ rest)); [done|]|set_solver].
    intros l' Hl'. by apply lookup_alter_ne.
  - destruct (GetTempPacket w) as [l w1] eqn:E1. destruct (refill packets w1) as [ls' w2] eqn:E. intros [= <- <-].
    destruct (GetTempPacket_owns w l w1 _ Hw E1) as (Hw1 & _ & Hk1).
    destruct (IH w1 ls' w2 (l :: rest)) as (H1 & H2 & H3); [by rewrite <- Permutation_middle|done|].
    rewrite <- Permutation_middle in H1. split; [done|]. split; [simpl; by f_equal|].
    apply keeps_trans with w1; [|eapply keeps_sub; [exact H3|set_solver]].
    intros l' Hl'. apply Hk1. set_solver.
Qed.

Lemma tun_fill_ok h l data : heap_ok h → Forall is_byte data →
  heap_ok (tun_fill h l data) ∧ ∀ l', is_Some (tun_fill h l data !! l') ↔ is_Some (h !! l').
Proof.
  intros Hh Hd. split; [|intros; apply alter_is_Some].
  apply heap_ok_alter; [done|]. intros p [Hl Hb Hs]. constructor; [..|exact Hs]; cbn [Buffer with_Buffer].
  - rewrite length_copy_at; [done|]. unfold tunPacketOffset, maxContentSize in *. lia.
  - apply Forall_copy_at; [by apply list.Forall_take|done].
Qed.

Lemma fill_slots_ok slots : ∀ h, heap_ok h → Forall (λ s, Forall is_byte s.2.1) slots →
  heap_ok (fill_slots slots h) ∧ ∀ l', is_Some (fill_slots slots h !! l') ↔ is_Some (h !! l').
Proof.
  induction slots as [|[l [data n]] slots IH]; intros h Hh Hs; [done|]. simpl.
  apply list.Forall_cons in Hs as [Hd Hs]. destruct (tun_fill_ok h l data Hh Hd) as [H1 H2].
  destruct (IH _ H1 Hs) as [H3 H4]. split; [done|]. intros l'. by rewrite H4.
Qed.

Lemma fill_slots_keeps slots : ∀ h l, l ∉ slots.*1 → fill_slots slots h !! l = h !! l.
Proof.
  induction slots as [|[l' [data n]] slots IH]; intros h l Hl; [done|]. simpl in *.
  apply not_elem_of_cons in Hl as [Hne Hl]. rewrite IH by done. by apply lookup_alter_ne.
Qed.

(** A slot whose size fits the room behind the offset is handled without a panic,
    and the object stays held or goes back to the pool. *)
Lemma read_slot_owns w l size rest :
  owns w (l :: rest) → (size ≤ maxContentSize - tunPacketOffset)%nat →
  ∃ s w', read_slot l size w = Ok (s, w') ∧ owns w' (held [s] ++ rest) ∧ keeps w w' rest.
Proof.
  intros Hw Hs. unfold read_slot. case_decide; [by eexists _, _|].
  assert (maxContentSize = 3600%nat) as Hm by done. assert (tunPacketOffset = 14%nat) as Ho by done.
  rewrite slice_range_ok by lia. cbn [mbind outcome_bind].
  replace (size + tunPacketOffset - tunPacketOffset)%nat with size by lia. rewrite Nat.add_0_l.
  destruct (own_alloc _ _ Hw l) as [p Hp]; [apply elem_of_app; right; by left|].
  destruct (own_heap _ _ Hw l p Hp) as [Hl Hb _].
  set (s := SView l tunPacketOffset size). set (h := alter (λ p, with_Packet p s) l (w_heap w)).
  assert (Hh : h !! l = Some (with_Packet p s)) by (unfold h; by rewrite lookup_alter_eq, Hp).
  assert (Hr : received (with_Packet p s) l size) by (constructor; simpl; try done; lia).
  assert (Hok : owns (with_heap w h) (l :: rest)) by (apply owns_alter; [done|];
    intros q [? ? _]; constructor; [done|done|]; right; exists size; split; [done|lia]).
  assert (Hins : ∀ p', obj_ok l p' → owns (with_heap w (<[l := p']> h)) (l :: rest)).
  { intros p' Hp'. apply (owns_heap (with_heap w h)); [done|apply heap_ok_insert; [apply Hok|done]|].
    intros l'. simpl. rewrite lookup_insert. case_decide; [|done]. subst. rewrite Hh. by split; eexists. }
  assert (Hne : ∀ l', l' ≠ l → h !! l' = w_heap w !! l') by (intros l' ?; unfold h; by rewrite lookup_alter_ne).
  assert (Hkp : ∀ p', keeps w (with_heap w (<[l := p']> h)) rest).
  { intros p'. apply (keeps_heap w _ l rest Hw). intros l' Hl'. rewrite lookup_insert_ne by done. by apply Hne. }
  destruct (Parse_spec h l _ size Hh Hr) as [(_ & p' & E & Hp4 & _)|[(_ & p' & E & Hp6 & _)|(_ & _ & E)]];
    rewrite E; cbn [mbind outcome_bind]; eexists _, _; (split; [reflexivity|]); simpl.
  - split; [apply Hins; by eapply packet4_ok|apply Hkp].
  - split; [apply Hins; by eapply received_ok|apply Hkp].
  - split; [by apply PutTempPacket_owns|]. apply keeps_trans with (with_heap w h); [by apply (keeps_heap w h l)|].
    by apply keeps_put.
Qed.

Lemma read_slots_owns slots : ∀ w rest,
  owns w (slots.*1 ++ rest) → Forall (λ s, s.2.2 ≤ maxContentSize - tunPacketOffset)%nat slots →
  ∃ ss w', read_slots slots w = Ok (ss, w') ∧ owns w' (held ss ++ rest) ∧ length ss = length slots ∧ keeps w w' rest.
Proof.
  induction slots as [|[l [data size]] slots IH]; intros w rest Hw Hs; [by eexists _, _|].
  apply list.Forall_cons in Hs as [Hsz Hs].
  destruct (read_slot_owns w l size (slots.*1 ++ rest) Hw Hsz) as (s & w1 & E & Hw1 & Hk1).
  destruct (IH w1 (held [s] ++ rest)) as (ss & w2 & E2 & Hw2 & Hlen & Hk2); [|done|].
  { by rewrite app_assoc, (Permutation_app_comm slots.*1), <- app_assoc. }
  exists (s :: ss), w2. cbn [read_slots]. rewrite E. cbn [mbind outcome_bind]. rewrite E2.
  split; [done|]. split; [|split; [simpl; by f_equal|]].
  - rewrite app_assoc, (Permutation_app_comm (held ss)), <- app_assoc in Hw2. by destruct s.
  - apply keeps_trans with w1; [exact (keeps_app_r _ _ _ _ Hk1)|exact (keeps_app_r _ _ _ _ Hk2)].
Qed.

(** ** The reading loop against its handler

    What [ReadTUNPackets] expects of [packetsHandler], with a state [S] of its own:
    it returns, keeps the number of slots, and every object it takes out of a slot
    is held in its state or goes back to the pool; objects held before are left as they
    are, and [ph_keeps] is what it promises of its state. *)
Class PacketsHandler (S : Type) := {
  ph_handle : list (option loc) → World * S → outcome (list (option loc) * (World * S));
  ph_held : S → list loc;
  ph_inv : S → Prop;
  ph_keeps : S → S → Prop;
  ph_keeps_refl : ∀ s, ph_keeps s s;
  ph_owns : ∀ ps w s rest, ph_inv s → owns w (held ps ++ ph_held s ++ rest) →
    ∃ ps' w' s', ph_handle ps (w, s) = Ok (ps', (w', s')) ∧ length ps' = length ps ∧
      ph_inv s' ∧ owns w' (held ps' ++ ph_held s' ++ rest) ∧ keeps w w' (ph_held s ++ rest) ∧ ph_keeps s s';
}.

(** What the interface delivers in one read of [batch] slots. *)
Definition reads_ok (batch : nat) (reads : list (bytes * nat)) : Prop :=
  (length reads ≤ batch)%nat ∧
  Forall (λ r, Forall is_byte r.1 ∧ (r.2 ≤ maxContentSize - tunPacketOffset)%nat) reads.

Lemma held_app a b : held (a ++ b) = held a ++ held b.
Proof. apply omap_app. Qed.

Lemma held_Some ls : held (Some <$> ls) = ls.
Proof. induction ls; simpl; [done|]. by f_equal. Qed.

Lemma Forall_zip_r {A B} (P : B → Prop) (l : list A) (k : list B) : Forall P k → Forall (λ x, P x.2) (zip l k).
Proof.
  revert l. induction k as [|b k IH]; intros [|a l] H; try constructor; apply list.Forall_cons in H as [? ?]; [done|].
  by apply IH.
Qed.

Lemma zip_fst_take {A B} (l : list A) (k : list B) : (zip l k).*1 = take (length k) l.
Proof. revert k. induction l as [|a l IH]; intros [|b k]; simpl; try done. by f_equal. Qed.

Section loop.
Context {S : Type} `{PacketsHandler S} `{PoolPolicy}.

Lemma read_round_owns packets reads w s :
  ph_inv s → owns w (held packets ++ ph_held s) → reads_ok (length packets) reads →
  ∃ ps' w' s', read_round ph_handle packets reads (w, s) = Ok (ps', (w', s')) ∧
    length ps' = length packets ∧ ph_inv s' ∧ owns w' (held ps' ++ ph_held s') ∧
    keeps w w' (ph_held s) ∧ ph_keeps s s'.
Proof.
  intros Hinv Hw [Hlen Hreads]. unfold read_round.
  destruct (refill packets w) as [ls w1] eqn:E1.
  destruct (refill_owns packets w ls w1 _ Hw E1) as (Hw1 & Hls & Hk1). cbv zeta.
  set (slots := zip ls reads). set (k := length reads) in *.
  assert (Hfst : slots.*1 = take k ls).
  { apply zip_fst_take. }
  assert (Hok : Forall (λ s, Forall is_byte s.2.1) slots).
  { apply (Forall_zip_r (λ r, Forall is_byte r.1)). eapply list.Forall_impl; [exact Hreads|]. naive_solver. }
  assert (Hsz : Forall (λ s, s.2.2 ≤ maxContentSize - tunPacketOffset)%nat slots).
  { apply (Forall_zip_r (λ r, r.2 ≤ maxContentSize - tunPacketOffset)%nat).
    eapply list.Forall_impl; [exact Hreads|]. naive_solver. }
  destruct (fill_slots_ok slots (w_heap w1) (own_heap _ _ Hw1) Hok) as [Hf1 Hf2].
  assert (Hw2 : owns (with_heap w1 (fill_slots slots (w_heap w1))) (slots.*1 ++ (drop k ls ++ ph_held s))).
  { apply owns_heap; [|done|done]. by rewrite Hfst, app_assoc, take_drop. }
  destruct (read_slots_owns _ _ _ Hw2 Hsz) as (ss & w3 & E3 & Hw3 & Hss & Hk3). rewrite E3. cbn [mbind outcome_bind].
  assert (Hk : keeps w w3 (ph_held s)).
  { apply keeps_trans with w1; [done|].
    apply keeps_trans with (with_heap w1 (fill_slots slots (w_heap w1))); [|exact (keeps_app_r _ _ _ _ Hk3)].
    intros l Hl. simpl. apply fill_slots_keeps. rewrite Hfst. intros Hin. apply (owns_apart w1 ls (ph_held s) l Hw1 Hl).
    apply elem_of_take in Hin as (i & Hi & _). by eapply list_elem_of_lookup_2. }
  assert (Hls2 : length slots = k) by (unfold slots, k; rewrite length_zip_with; lia).
  assert (Hfin : ∀ ps' w' s', length ps' = k → owns w' (held ps' ++ (drop k ls ++ ph_held s')) →
    length (ps' ++ (Some <$> drop k ls)) = length packets ∧ owns w' (held (ps' ++ (Some <$> drop k ls)) ++ ph_held s')).
  { intros ps' w' s' Hps Ho. rewrite held_app, held_Some, <- app_assoc. split; [|done].
    rewrite length_app, length_fmap, length_drop. unfold k. lia. }
  case_decide.
  - destruct (ph_owns ss w3 s (drop k ls) Hinv) as (ps' & w4 & s' & E4 & Hps & Hinv' & Hw4 & Hk4 & Hkeep).
    { by rewrite (Permutation_app_comm (ph_held s)). }
    rewrite E4. cbn [mbind outcome_bind]. eexists _, w4, s'. split; [reflexivity|].
    destruct (Hfin ps' w4 s') as [??]; [congruence|by rewrite (Permutation_app_comm (drop k ls))|].
    split_and!; try done. apply keeps_trans with w3; [done|]. exact (keeps_app_l _ _ _ _ Hk4).
  - eexists _, w3, s. split; [reflexivity|]. destruct (Hfin ss w3 s) as [??]; [congruence|done|].
    split_and!; try done. apply ph_keeps_refl.
Qed.

Lemma ReadTUNPackets_owns run : ∀ packets w s,
  ph_inv s → owns w (held packets ++ ph_held s) → Forall (λ r, reads_ok (length packets) r.1) run →
  ∃ ps' w' s', ReadTUNPackets ph_handle packets run (w, s) = Ok (ps', (w', s')) ∧
    length ps' = length packets ∧ ph_inv s' ∧ owns w' (held ps' ++ ph_held s').
Proof.
  induction run as [|[reads err] run IH]; intros packets w s Hinv Hw Hrun.
  { eexists _, _, _. split; [reflexivity|]. done. }
  apply list.Forall_cons in Hrun as [Hr Hrun]. cbn [ReadTUNPackets].
  destruct (read_round_owns packets reads w s Hinv Hw Hr) as (ps1 & w1 & s1 & -> & Hlen & Hinv1 & Hw1 & _).
  cbn [mbind outcome_bind]. destruct (keep_reading err).
  - destruct (IH ps1 w1 s1) as (ps2 & w2 & s2 & -> & ? & ? & ?); [done|done|by rewrite Hlen|].
    eexists _, _, _. split; [reflexivity|]. split; [congruence|done].
  - eexists _, _, _. split; [reflexivity|]. done.
Qed.
End loop.

(** A size reported by the interface makes [ReadTUNPackets] panic exactly when
    it is between 3587 and 3600: the guard compares it with the whole buffer, but
    the packet starts behind the offset. *)
Theorem tun_size_guard_misses_offset w l size rest :
  owns w (l :: rest) →
  read_slot l size w = Panic ↔
  (maxContentSize - tunPacketOffset < size ∧ size ≤ maxContentSize)%nat.
Proof.
  intros Hw. split.
  - intros E. destruct (decide (size ≤ maxContentSize - tunPacketOffset)%nat) as [Hs|Hs].
    + destruct (read_slot_owns w l size rest Hw Hs) as (? & ? & E' & _). congruence.
    + split; [lia|]. destruct (decide (size ≤ maxContentSize)%nat); [done|].
      unfold read_slot in E. rewrite decide_True in E by lia. done.
  - intros [H1 H2]. unfold read_slot. rewrite decide_False; [|unfold maxContentSize, tunPacketOffset in *; lia].
    simpl. rewrite decide_False; [done|lia].
Qed.

Lemma owns_initial : owns (alloc (mkWorld ∅ [] 0 [])) [0%nat].
Proof.
  apply (alloc_owns (mkWorld ∅ [] 0 []) []). constructor; simpl.
  - constructor.
  - intros l Hl. by apply not_elem_of_nil in Hl.
  - intros l [? Hl]. by rewrite lookup_empty in Hl.
  - intros l p Hl. by rewrite lookup_empty in Hl.
  - intros l [? Hl]. by rewrite lookup_empty in Hl.
Defined.

Lemma tun_size_guard_misses_offset_witness :
  read_slot 0 (Z.to_nat 3590) (alloc (mkWorld ∅ [] 0 [])) = Panic.
Proof.
  apply (tun_size_guard_misses_offset _ 0 (Z.to_nat 3590) [] owns_initial).
  split; apply (bool_decide_unpack _); vm_compute; exact I.
Defined.
