(* ===== verification/Interface.v ===== *)
(** * Creating the interface
      (src/vpn/iface_linux.go, iface_android.go, iface_darwin.go, iface_windows.go, vpn.go)

    [newTUN] of every system as the calls it makes and where it stops. The libraries and
    external commands answer with errors, which are arguments; the calls that succeed are
    recorded, so that what a failed creation leaves behind can be stated. *)

From S2P Require Import Prelude GoStrings GoNet GoHostPort Externals Config NetworkAddr Packet Device.
Local Open Scope Z_scope.

Inductive tun_call :=
  | CreateTUN (ifname : string) (mtu : Z)
  | CreateUnmonitoredTUNFromFD (fd : Z)
  | SetLinkIp (ip : IP) (net : IPNet)
  | SetLinkUp
  | Ifconfig (ifname : string) (net : IPNet) (ip : IP)     (* ifconfig <ifname> inet <net> <ip> *)
  | RouteAdd (net : IPNet) (ifname : string)               (* route -q -n add -inet <net> -iface <ifname> *)
  | SetIPAddresses (addr : Addr) (ones : Z)
  | CloseFD (fd : Z).

(** A creation: its error and the calls that succeeded. *)
Definition creation : Type := outcome unit * list tun_call.

(** One call with its error, under the text the code puts before it. *)
Definition call (c : tun_call) (prefix : string) (err : option string) (k : creation) : creation :=
  match err with
  | Some e => (Fail (prefix +:+ e), [])
  | None => (k.1, c :: k.2)
  end.

Definition done_ : creation := (Ok tt, []).

(** Linux; the addresses in the text of an error are left out. *)
Definition linux_newTUN (create link setIp up : option string) (ifname : string) (mtu : Z) (localIP : IP) (ipMask : bytes) : creation :=
  let ipNet := mkIPNet (IP_Mask localIP ipMask) ipMask in
  call (CreateTUN ifname mtu) "create tun: " create
    match link with
    | Some e => (Fail ("unable to get interface info: " +:+ e), [])
    | None => call (SetLinkIp localIP ipNet) "unable to set IP: " setIp (call SetLinkUp "unable to UP interface: " up done_)
    end.

(** Android: the descriptor [fdStr] comes from the environment. *)
Definition android_newTUN (fdStr : string) (create : option string) : creation :=
  match ParseInt 32 fdStr with
  | None => (Fail ("invalid tun FD " +:+ fdStr), [])
  | Some tunFD =>
      if decide (tunFD = 0) then (Fail ("invalid tun FD " +:+ fdStr), [])
      else match create with
           | Some e => (Fail ("CreateUnmonitoredTUNFromFD: " +:+ e), [CloseFD tunFD])
           | None => (Ok tt, [CreateUnmonitoredTUNFromFD tunFD])
           end
  end.

(** macOS: the system chooses the name of the interface. *)
Definition darwin_newTUN (create : option string) (name : outcome string) (ifconfig route : option string) (ifname : string) (mtu : Z)
    (localIP : IP) (ipMask : bytes) : creation :=
  call (CreateTUN ifname mtu) "create tun: " create
    match name with
    | Fail e => (Fail ("get interface name: " +:+ e), [])
    | Panic => (Panic, [])
    | Ok realIfname =>
        call (Ifconfig realIfname (mkIPNet localIP ipMask) localIP) "unable to setup interface mask: " ifconfig
          (call (RouteAdd (mkIPNet (IP_Mask localIP ipMask) ipMask) realIfname) "unable to setup interface route: " route done_)
    end.

(** [net.IPMask.Size], the number of leading ones of a mask, zero if it is not one. *)
Definition byte_ones (v : Z) : option Z :=
  list_find (λ k, v = 256 - 2 ^ (8 - k)) (seqZ 0 8) ≫= λ e, Some e.2.
Fixpoint simpleMaskLength (mask : bytes) : option Z :=
  match mask with
  | [] => Some 0
  | v :: mask =>
      if decide (v = 255) then Z.add 8 <$> simpleMaskLength mask
      else if forallb (Z.eqb 0) mask then byte_ones v else None
  end.
Definition Mask_Size (mask : bytes) : Z := default 0 (simpleMaskLength mask).

(** Windows: the address is printed and parsed again. *)
Definition windows_newTUN (create setIp : option string) (ifname : string) (mtu : Z) (localIP : IP) (ipMask : bytes) : creation :=
  call (CreateTUN ifname mtu) "do as system: create tun: " create
    match ParseAddr (if decide (localIP = []) then "<nil>" else ip4_string localIP) with
    | None => (Panic, [])
    | Some netipAddr => call (SetIPAddresses netipAddr (Mask_Size ipMask)) "unable to setup interface IP: " setIp done_
    end.

(** ** Facts *)

Definition creates (c : tun_call) : bool := match c with CreateTUN _ _ | CreateUnmonitoredTUNFromFD _ => true | _ => false end.
Definition releases (c : tun_call) : bool := match c with CloseFD _ => true | _ => false end.

(** The interface exists when the calls are over. *)
Definition left_open (l : list tun_call) : bool := existsb creates l && negb (existsb releases l).

Section network.
Context (c : Config).

(** The prefix that Windows gets for the mask of a network [/n] is [n]. *)
Theorem mask_size_of_prefix n : (n ≤ 32)%nat → Mask_Size (cidr_mask n 4) = Z.of_nat n.
Proof. intros Hn. do 33 (destruct n as [|n]; [vm_compute; reflexivity|]). lia. Qed.

(** On Linux and macOS a created interface has the address of the configuration, and what
    is routed to it is the network in which addresses are given to peers, whichever text
    the interface name is. *)
Theorem interface_covers_network create link setIp up name ifconfig route ifname mtu :
  let '(localIP, ipMask) := VPNLocalIPMask c in
  ((linux_newTUN create link setIp up ifname mtu localIP ipMask).1 = Ok tt →
     SetLinkIp localIP (vpn_net c) ∈ (linux_newTUN create link setIp up ifname mtu localIP ipMask).2) ∧
  ((darwin_newTUN create name ifconfig route ifname mtu localIP ipMask).1 = Ok tt →
     ∃ realIfname, name = Ok realIfname ∧
       RouteAdd (vpn_net c) realIfname ∈ (darwin_newTUN create name ifconfig route ifname mtu localIP ipMask).2).
Proof.
  unfold vpn_net. destruct (VPNLocalIPMask c) as [localIP ipMask]. split.
  - unfold linux_newTUN, call. destruct create; [done|]. destruct link; [done|]. destruct setIp; [done|]. intros _. right. by left.
  - unfold darwin_newTUN, call. destruct create; [done|]. destruct name as [realIfname|e|]; [|done..].
    destruct ifconfig; [done|]. destruct route; [done|]. intros _. exists realIfname. split; [done|]. right. right. by left.
Qed.
End network.

(** A creation that fails after its first step leaves the interface open: on Linux, macOS
    and Windows exactly when the interface could be made, on Android never, where the
    descriptor is closed. The daemon cannot close it either, for it only gets the error. *)
Theorem failed_creation_leaks create link setIp up name ifconfig route fd ifname mtu localIP ipMask :
  let leaks (c : creation) := c.1 ≠ Ok tt → left_open c.2 = bool_decide (create = None) in
  leaks (linux_newTUN create link setIp up ifname mtu localIP ipMask) ∧
  leaks (darwin_newTUN create name ifconfig route ifname mtu localIP ipMask) ∧
  leaks (windows_newTUN create setIp ifname mtu localIP ipMask) ∧
  ((android_newTUN fd create).1 ≠ Ok tt → left_open (android_newTUN fd create).2 = false).
Proof.
  cbv zeta. unfold linux_newTUN, darwin_newTUN, windows_newTUN, android_newTUN, call. split_and!.
  - destruct create; [done|]. destruct link; [done|]. destruct setIp; [done|]. by destruct up.
  - destruct create; [done|]. destruct name; [|done..]. destruct ifconfig; [done|]. by destruct route.
  - destruct create; [done|]. destruct (ParseAddr _); [|done]. by destruct setIp.
  - destruct (ParseInt 32 fd) as [n|]; [|done]. case_decide; [done|]. by destruct create.
Qed.

(** An address that is not one makes the creation panic on Windows, after the interface
    was made. *)
Example windows_invalid_address_panics : windows_newTUN None None "awl0" 3500 [] [255; 255; 255; 0] = (Panic, [CreateTUN "awl0" 3500]).
Proof. vm_compute. reflexivity. Qed.
