(* ===== verification/Tunnel.v ===== *)
(** * The tunnel service (src/service/tunnel.go)

    Peers are objects shared by two maps, so they live on a heap of their own; the
    packet objects are those of the device's world. Channels are queues with a
    capacity and a closed flag; the goroutines of a peer are modelled by the steps
    they make on its queues. *)

From S2P Require Import Prelude GoNet GoIO Packet Device Protocol Externals Config NetworkAddr.
Local Open Scope Z_scope.

Definition packetHandlersChanCap : nat := Z.to_nat 2000.
#[global] Arguments packetHandlersChanCap : simpl never.

Abbreviation vploc := nat.

(** [VpnPeer]. *)
Record VpnPeer := mkVpnPeer {
  vp_peerID : string;
  vp_localIP : bytes;
  vp_inbound : list loc;
  vp_outbound : list loc;
  vp_closed : bool;       (* Close was called: the channels are closed *)
}.

(** [Tunnel]. *)
Record Tunnel := mkTunnel {
  t_peers : gmap vploc VpnPeer;       (* the peer objects *)
  t_nextPeer : vploc;
  t_isClosed : bool;
  peerIDToPeer : gmap string vploc;
  netIPToPeer : gmap bytes vploc;
  udpBroadcastAddr : bytes;
}.

Definition State : Type := World * Tunnel.

Definition with_peers (t : Tunnel) (m : gmap vploc VpnPeer) : Tunnel :=
  mkTunnel m (t_nextPeer t) (t_isClosed t) (peerIDToPeer t) (netIPToPeer t) (udpBroadcastAddr t).
Definition with_maps (t : Tunnel) (ids : gmap string vploc) (ips : gmap bytes vploc) : Tunnel :=
  mkTunnel (t_peers t) (t_nextPeer t) (t_isClosed t) ids ips (udpBroadcastAddr t).

Definition with_localIP (vp : VpnPeer) (ip : bytes) : VpnPeer :=
  mkVpnPeer (vp_peerID vp) ip (vp_inbound vp) (vp_outbound vp) (vp_closed vp).
Definition with_inbound (vp : VpnPeer) (q : list loc) : VpnPeer :=
  mkVpnPeer (vp_peerID vp) (vp_localIP vp) q (vp_outbound vp) (vp_closed vp).
Definition with_outbound (vp : VpnPeer) (q : list loc) : VpnPeer :=
  mkVpnPeer (vp_peerID vp) (vp_localIP vp) (vp_inbound vp) q (vp_closed vp).

Definition peer_obj (t : Tunnel) (v : vploc) : outcome VpnPeer := or_panic (t_peers t !! v).

(** [NewVpnPeer]. *)
Definition NewVpnPeer (peerID : string) (localIP : bytes) : VpnPeer := mkVpnPeer peerID localIP [] [] false.

(** [VpnPeer.Close]: closing twice panics; what is left in the channels is released. *)
Definition VpnPeer_Close (v : vploc) (st : State) : outcome State :=
  let '(w, t) := st in
  vp ← peer_obj t v;
  if vp_closed vp then Panic
  else Ok (foldl (λ w l, PutTempPacket l w) w (vp_inbound vp ++ vp_outbound vp),
           with_peers t (<[v := mkVpnPeer (vp_peerID vp) (vp_localIP vp) [] [] true]> (t_peers t))).

(** ** The peers list *)

(** One round of the first loop of [RefreshPeersList]. *)
Definition refresh_peer `{PeerCodec} (t : Tunnel) (knownPeer : KnownPeer) : outcome Tunnel :=
  let peerID := PeerId knownPeer in
  let newLocalIP := To4 (ParseIP (kp_IPAddr knownPeer)) in
  if decide (newLocalIP = []) then Ok t
  else
    match peerIDToPeer t !! peerID with
    | Some v =>
        prevPeer ← peer_obj t v;
        let oldLocalIP := vp_localIP prevPeer in
        if IP_Equal oldLocalIP newLocalIP then Ok t
        else
          let t := with_maps t (peerIDToPeer t) (delete oldLocalIP (netIPToPeer t)) in
          let t := with_peers t (<[v := with_localIP prevPeer newLocalIP]> (t_peers t)) in
          Ok (with_maps t (peerIDToPeer t) (<[newLocalIP := v]> (netIPToPeer t)))
    | None =>
        let v := t_nextPeer t in
        Ok (mkTunnel (<[v := NewVpnPeer peerID newLocalIP]> (t_peers t)) (S v) (t_isClosed t)
              (<[peerID := v]> (peerIDToPeer t)) (<[newLocalIP := v]> (netIPToPeer t)) (udpBroadcastAddr t))
    end.

Fixpoint refresh_peers `{PeerCodec} (known : list KnownPeer) (t : Tunnel) : outcome Tunnel :=
  match known with
  | [] => Ok t
  | k :: known => t ← refresh_peer t k; refresh_peers known t
  end.

(** Closing a peer and deleting it from both maps, as [RefreshPeersList] and [Close] do. *)
Definition drop_peer (v : vploc) (st : State) : outcome State :=
  vpnPeer ← peer_obj st.2 v;
  let localIP := vp_localIP vpnPeer in
  '(w, t) ← VpnPeer_Close v st;
  Ok (w, with_maps t (delete (vp_peerID vpnPeer) (peerIDToPeer t)) (delete localIP (netIPToPeer t))).

(** One round of the second loop of [RefreshPeersList]. *)
Definition refresh_delete `{PeerCodec} (c : Config) (v : vploc) (st : State) : outcome State :=
  vpnPeer ← peer_obj st.2 v;
  match KnownPeers c !! peer_String (vp_peerID vpnPeer) with
  | Some _ => Ok st
  | None => drop_peer v st
  end.

Fixpoint each_peer (f : vploc → State → outcome State) (vs : list vploc) (st : State) : outcome State :=
  match vs with
  | [] => Ok st
  | v :: vs => st ← f v st; each_peer f vs st
  end.

(** [RefreshPeersList]: [known] and [order] are the orders of its two loops. *)
Definition RefreshPeersList `{PeerCodec} (c : Config) (known : list KnownPeer) (order : list vploc) (st : State)
    : outcome State :=
  let '(w, t) := st in
  t ← refresh_peers known t;
  each_peer (refresh_delete c) order (w, t).

(** [Tunnel.Close]. *)
Definition Tunnel_Close (order : list vploc) (st : State) : outcome State :=
  let '(w, t) := st in
  each_peer drop_peer order
    (w, mkTunnel (t_peers t) (t_nextPeer t) true (peerIDToPeer t) (netIPToPeer t) (udpBroadcastAddr t)).

(** [NewTunnel]. *)
Definition NewTunnel `{PeerCodec} (c : Config) (known : list KnownPeer) (order : list vploc) (w : World)
    : outcome State :=
  let '(localIP, netMask) := VPNLocalIPMask c in
  udpBroadcast ← GetIPv4BroadcastAddress (mkIPNet localIP netMask);
  RefreshPeersList c known order (w, mkTunnel ∅ 0 false ∅ ∅ udpBroadcast).

(** ** Packets from the interface *)

(** A send without blocking: whether it was accepted; sending on a closed channel panics. *)
Definition send_outbound (v : vploc) (packet : loc) (t : Tunnel) : outcome (bool * Tunnel) :=
  vp ← peer_obj t v;
  if vp_closed vp then Panic
  else if decide (length (vp_outbound vp) < packetHandlersChanCap)%nat
  then Ok (true, with_peers t (<[v := with_outbound vp (vp_outbound vp ++ [packet])]> (t_peers t)))
  else Ok (false, t).

Definition send_inbound (v : vploc) (packet : loc) (t : Tunnel) : outcome (bool * Tunnel) :=
  vp ← peer_obj t v;
  if vp_closed vp then Panic
  else if decide (length (vp_inbound vp) < packetHandlersChanCap)%nat
  then Ok (true, with_peers t (<[v := with_inbound vp (vp_inbound vp ++ [packet])]> (t_peers t)))
  else Ok (false, t).

(** [net.IPv4bcast]. *)
Definition IPv4bcast : bytes := v4InV6Prefix ++ [255; 255; 255; 255].

(** The loop over the peers for a broadcast packet. *)
Fixpoint broadcast `{PoolPolicy} (connected : string → bool) (packet : loc) (peers : list vploc) (st : State)
    : outcome State :=
  match peers with
  | [] => Ok st
  | v :: peers =>
      let '(w, t) := st in
      vp ← peer_obj t v;
      if negb (connected (vp_peerID vp)) then broadcast connected packet peers (w, t)
      else
        let '(copyPacket, w) := GetTempPacket w in
        h ← CopyTo (w_heap w) packet copyPacket;
        let w := with_heap w h in
        '(sent, t) ← send_outbound v copyPacket t;
        broadcast connected packet peers (if (sent : bool) then w else PutTempPacket copyPacket w, t)
  end.

(** One round of the loop of [HandleReadPackets]: what is left in the slot. *)
Definition handle_packet `{PoolPolicy} (connected : string → bool) (order : list vploc) (slot : option loc)
    (st : State) : outcome (option loc * State) :=
  match slot with
  | None => Ok (None, st)
  | Some packet =>
      let '(w, t) := st in
      p ← deref (w_heap w) packet;
      let dst := view (w_heap w) (Dst p) in
      if IP_Equal dst (udpBroadcastAddr t) || IP_Equal dst IPv4bcast then
        st ← broadcast connected packet order st; Ok (Some packet, st)
      else
        match netIPToPeer t !! dst with
        | None => Ok (Some packet, st)
        | Some v =>
            '(sent, t) ← send_outbound v packet t;
            Ok (if (sent : bool) then None else Some packet, (w, t))
        end
  end.

Fixpoint handle_packets `{PoolPolicy} (connected : string → bool) (order : nat → list vploc) (i : nat)
    (packets : list (option loc)) (st : State) : outcome (list (option loc) * State) :=
  match packets with
  | [] => Ok ([], st)
  | slot :: packets =>
      '(slot, st) ← handle_packet connected (order i) slot st;
      '(packets, st) ← handle_packets connected order (S i) packets st;
      Ok (slot :: packets, st)
  end.

(** [HandleReadPackets]: [order i] is the order in which the packet of slot [i] is
    broadcast. *)
Definition HandleReadPackets `{PoolPolicy} (connected : string → bool) (order : nat → list vploc)
    (packets : list (option loc)) (st : State) : outcome (list (option loc) * State) :=
  if t_isClosed st.2 then Ok (packets, st)
  else handle_packets connected order 0 packets st.

(** ** Packets from a peer *)

(** One round of the loop of [StreamHandler] after it took a temporary packet: the
    reader of the next round, if there is one. The peer is looked up again for every
    packet. The outer [None] is a read that does not end: more reads than the stream has
    data for are allowed. *)
Definition stream_packet (peerID : string) (stream : Reader) (packet : loc) (st : State)
    : option (outcome (option Reader * State)) :=
  let '(w, t) := st in
  match ReadUint64 stream with
  | (None, _) => None
  | (Some (inr err), _) => Some (Ok (None, (PutTempPacket packet w, t)))
  | (Some (inl packetSize), stream) =>
      match ReadFrom (S (S (reads stream))) (w_heap w) packet tunPacketOffset (i64 packetSize, stream) with
      | None => None
      | Some (h, _, Some err, _) => Some (Ok (None, (PutTempPacket packet (with_heap w h), t)))
      | Some (h, _, None, (_, stream)) =>
          let w := with_heap w h in
          Some match peerIDToPeer t !! peerID with
               | None => Ok (None, (PutTempPacket packet w, t))
               | Some v =>
                   '(sent, t) ← send_inbound v packet t;
                   Ok (Some stream, (if (sent : bool) then w else PutTempPacket packet w, t))
               end
      end
  end.

(** The whole round. *)
Definition stream_round `{PoolPolicy} (peerID : string) (stream : Reader) (st : State)
    : option (outcome (option Reader * State)) :=
  let '(w, t) := st in
  let '(packet, w) := GetTempPacket w in
  stream_packet peerID stream packet (w, t).

Fixpoint stream_loop `{PoolPolicy} (fuel : nat) (peerID : string) (stream : Reader) (st : State)
    : option (outcome State) :=
  match fuel with
  | O => None
  | S fuel =>
      match stream_round peerID stream st with
      | None => None
      | Some Panic => Some Panic
      | Some (Fail e) => Some (Fail e)
      | Some (Ok (None, st)) => Some (Ok st)
      | Some (Ok (Some stream, st)) => stream_loop fuel peerID stream st
      end
  end.

(** [StreamHandler]: [None] is running out of fuel. *)
Definition StreamHandler `{PoolPolicy} (fuel : nat) (peerID : string) (stream : Reader) (st : State)
    : option (outcome State) :=
  match peerIDToPeer st.2 !! peerID with
  | None => Some (Ok st)
  | Some _ => stream_loop fuel peerID stream st
  end.

(** ** The invariant of the two maps *)

(** Both maps only lead to open peers; an address leads to the peer that has it, and
    an identifier to the peer that carries it. *)
Record tunnel_ok (t : Tunnel) : Prop := {
  ok_ids : ∀ id v, peerIDToPeer t !! id = Some v →
    ∃ vp, t_peers t !! v = Some vp ∧ vp_peerID vp = id ∧ vp_closed vp = false;
  ok_ips : ∀ ip v, netIPToPeer t !! ip = Some v →
    ∃ vp, t_peers t !! v = Some vp ∧ vp_localIP vp = ip ∧ peerIDToPeer t !! vp_peerID vp = Some v;
  ok_fresh : ∀ v, is_Some (t_peers t !! v) → (v < t_nextPeer t)%nat;
  ok_valid : ∀ v vp, t_peers t !! v = Some vp → valid4 (vp_localIP vp);
}.

(** The packets in the channels. *)
Definition vq (vp : VpnPeer) : list loc := vp_inbound vp ++ vp_outbound vp.
Definition queues (t : Tunnel) : list loc := concat (vq <$> (map_to_list (t_peers t)).*2).

Lemma queues_delete (m : gmap vploc VpnPeer) v vp : m !! v = Some vp →
  concat (vq <$> (map_to_list m).*2) ≡ₚ vq vp ++ concat (vq <$> (map_to_list (delete v m)).*2).
Proof. intros Hv. rewrite <- (map_to_list_delete m v vp Hv). done. Qed.

Lemma queues_replace t v vp vp' : t_peers t !! v = Some vp →
  ∃ rest, queues t ≡ₚ vq vp ++ rest ∧
          queues (with_peers t (<[v := vp']> (t_peers t))) ≡ₚ vq vp' ++ rest.
Proof.
  intros Hv. exists (concat (vq <$> (map_to_list (delete v (t_peers t))).*2)). split.
  - by apply queues_delete.
  - unfold queues. cbn [t_peers with_peers]. rewrite (queues_delete _ v vp') by apply lookup_insert_eq.
    by rewrite delete_insert_eq.
Qed.

Lemma queues_same t v vp vp' : t_peers t !! v = Some vp → vq vp' = vq vp →
  queues (with_peers t (<[v := vp']> (t_peers t))) ≡ₚ queues t.
Proof. intros Hv E. destruct (queues_replace t v vp vp' Hv) as (rest & -> & ->). by rewrite E. Qed.

(** The channels from the peers, and the packets in them. *)
Definition inbounds (t : Tunnel) : gmap vploc (list loc) := vp_inbound <$> t_peers t.

Lemma inbounds_update t v vp vp' : t_peers t !! v = Some vp → vp_inbound vp' = vp_inbound vp →
  inbounds (with_peers t (<[v := vp']> (t_peers t))) = inbounds t.
Proof.
  intros Hv E. unfold inbounds. cbn [t_peers with_peers]. rewrite fmap_insert, E. apply insert_id.
  by rewrite lookup_fmap, Hv.
Qed.

Definition inbound_in (t : Tunnel) (l : loc) : Prop := ∃ v q, inbounds t !! v = Some q ∧ l ∈ q.

Lemma inbound_queued t l : inbound_in t l → l ∈ queues t.
Proof.
  intros (v & q & Hv & Hl). unfold inbounds in Hv. rewrite lookup_fmap in Hv. apply fmap_Some in Hv as (vp & Hv & ->).
  destruct (queues_replace t v vp vp Hv) as (rest & -> & _). unfold vq. set_solver.
Qed.

Lemma inbound_in_update t v vp vp' l : t_peers t !! v = Some vp → vp_inbound vp' ⊆ vp_inbound vp →
  inbound_in (with_peers t (<[v := vp']> (t_peers t))) l → inbound_in t l.
Proof.
  intros Hv Hs (u & q & Hu & Hl). unfold inbounds in *. cbn [t_peers with_peers] in Hu. rewrite fmap_insert, lookup_insert in Hu.
  case_decide as E; [|by exists u, q]. injection Hu as <-. exists v, (vp_inbound vp).
  split; [|set_solver]. unfold inbounds. by rewrite lookup_fmap, Hv.
Qed.

Lemma To4_ParseIP_valid s : To4 (ParseIP s) ≠ [] → valid4 (To4 (ParseIP s)).
Proof. intros Hne. destruct (To4_valid (ParseIP s)); [apply ParseIP_bytes|done|done]. Qed.

Lemma IP_Equal_valid4 a b : valid4 a → valid4 b → IP_Equal a b = bool_decide (a = b).
Proof. intros [Ha _] [Hb _]. unfold IP_Equal. by rewrite decide_True by congruence. Qed.

Section refresh.
Context `{PeerCodec}.

Lemma refresh_peer_ok t k : tunnel_ok t →
  ∃ t', refresh_peer t k = Ok t' ∧ tunnel_ok t' ∧ queues t' ≡ₚ queues t ∧ t_isClosed t' = t_isClosed t.
Proof.
  intros [Hids Hips Hfr Hval]. unfold refresh_peer.
  case_decide as Hne; [by eexists|]. set (ip := To4 _) in *.
  assert (valid4 ip) as Hip by by apply To4_ParseIP_valid.
  destruct (peerIDToPeer t !! PeerId k) as [v|] eqn:Ev.
  - destruct (Hids _ _ Ev) as (vp & Hv & Hid & Hcl). unfold peer_obj. rewrite Hv. cbn [or_panic mbind outcome_bind].
    pose proof (Hval _ _ Hv) as Hold. rewrite IP_Equal_valid4 by done.
    case_bool_decide as Heq; [by eexists|]. eexists. split; [reflexivity|].
    split; [|split; [exact (queues_same t v vp (with_localIP vp ip) Hv eq_refl)|done]].
    assert (Hkeep : ∀ v' vp', t_peers t !! v' = Some vp' → ∃ vp'', <[v := with_localIP vp ip]> (t_peers t) !! v' = Some vp''
              ∧ vp_peerID vp'' = vp_peerID vp' ∧ vp_closed vp'' = vp_closed vp' ∧ (v' ≠ v → vp'' = vp')).
    { intros v' vp' Hv'. rewrite lookup_insert. case_decide; [subst; simplify_eq|]; by eexists. }
    constructor; simpl.
    + intros id v' Hid'. destruct (Hids _ _ Hid') as (vp' & Hv' & ? & ?).
      destruct (Hkeep _ _ Hv') as (vp'' & ? & ? & ? & _). exists vp''. split_and!; [done|congruence|congruence].
    + intros ip' v'. rewrite lookup_insert. case_decide as E.
      * intros [= <-]. subst. eexists. rewrite lookup_insert_eq. split_and!; [done|done|]. simpl. by rewrite Hid.
      * intros [Hne' Hl]%lookup_delete_Some. destruct (Hips _ _ Hl) as (vp' & Hv' & Hl' & Hm).
        assert (v' ≠ v) by (intros ->; congruence).
        exists vp'. rewrite lookup_insert_ne by done. done.
    + intros v'. rewrite lookup_insert. case_decide; [subst; intros _; apply Hfr; by eexists|apply Hfr].
    + intros v' vp'. rewrite lookup_insert. case_decide; [by intros [= <-]|apply Hval].
  - eexists. split; [reflexivity|].
    assert (Hn : t_peers t !! t_nextPeer t = None).
    { destruct (t_peers t !! t_nextPeer t) eqn:E; [|done]. exfalso. apply (Nat.lt_irrefl (t_nextPeer t)), Hfr. by eexists. }
    split; [constructor; simpl|split; [|done]].
    + intros id v'. rewrite lookup_insert. case_decide as E.
      * intros [= <-]. eexists. rewrite lookup_insert_eq. done.
      * intros Hl. destruct (Hids _ _ Hl) as (vp & Hv & ? & ?). exists vp.
        rewrite lookup_insert_ne by (intros E'; rewrite E' in Hn; congruence). done.
    + intros ip' v'. rewrite lookup_insert. case_decide as E.
      * intros [= <-]. subst. eexists. rewrite lookup_insert_eq. split_and!; [done|done|]. simpl. apply lookup_insert_eq.
      * intros Hl. destruct (Hips _ _ Hl) as (vp & Hv & ? & Hm). exists vp.
        rewrite lookup_insert_ne by (intros E'; rewrite E' in Hn; congruence). split_and!; [done|done|].
        rewrite lookup_insert_ne; [done|]. intros E'. rewrite <- E' in Hm. congruence.
    + intros v'. rewrite lookup_insert. case_decide; [lia|]. intros ?%Hfr. lia.
    + intros v' vp'. rewrite lookup_insert. case_decide; [by intros [= <-]|apply Hval].
    + unfold queues. simpl. by rewrite map_to_list_insert.
Qed.

Lemma refresh_peers_ok known : ∀ t, tunnel_ok t →
  ∃ t', refresh_peers known t = Ok t' ∧ tunnel_ok t' ∧ queues t' ≡ₚ queues t ∧ t_isClosed t' = t_isClosed t.
Proof.
  induction known as [|k known IH]; intros t Ht; simpl; [by eexists|].
  destruct (refresh_peer_ok t k Ht) as (t1 & -> & Ht1 & Hq1 & Hc1). cbn [mbind outcome_bind].
  destruct (IH t1 Ht1) as (t2 & -> & Ht2 & Hq2 & Hc2). exists t2. split_and!; [done|done|by rewrite Hq2|congruence].
Qed.
End refresh.

(** Releasing packets. *)
Lemma put_all_owns ls : ∀ w used, owns w (ls ++ used) → owns (foldl (λ w l, PutTempPacket l w) w ls) used.
Proof. induction ls as [|l ls IH]; intros w used Hw; [done|]. by apply IH, PutTempPacket_owns. Qed.

Lemma drop_peer_ok w t v vp used :
  tunnel_ok t → owns w (used ++ queues t) → t_peers t !! v = Some vp → peerIDToPeer t !! vp_peerID vp = Some v →
  ∃ w' t', drop_peer v (w, t) = Ok (w', t') ∧ tunnel_ok t' ∧ owns w' (used ++ queues t') ∧
    peerIDToPeer t' = delete (vp_peerID vp) (peerIDToPeer t) ∧
    (∀ v', v' ≠ v → t_peers t' !! v' = t_peers t !! v') ∧ t_isClosed t' = t_isClosed t.
Proof.
  intros [Hids Hips Hfr Hval] Hw Hv Hm. unfold drop_peer, VpnPeer_Close, peer_obj. cbn [snd].
  rewrite Hv. cbn [or_panic mbind outcome_bind].
  destruct (Hids _ _ Hm) as (vp0 & Hv0 & _ & Hcl). simplify_eq. rewrite Hcl. cbn [mbind outcome_bind].
  eexists _, _. split; [reflexivity|].
  assert (Hne : ∀ v' vp', t_peers t !! v' = Some vp' → peerIDToPeer t !! vp_peerID vp' = Some v' → v' ≠ v →
            vp_peerID vp ≠ vp_peerID vp').
  { intros v' vp' _ Hm' Hn E. rewrite <- E in Hm'. congruence. }
  split_and!; simpl; [constructor; simpl| |done| |done].
  - intros id v' [Hn Hl]%lookup_delete_Some. destruct (Hids _ _ Hl) as (vp' & Hv' & ? & ?).
    exists vp'. rewrite lookup_insert_ne by (intros ->; congruence). done.
  - intros ip v' [Hn Hl]%lookup_delete_Some. destruct (Hips _ _ Hl) as (vp' & Hv' & Hl' & Hm').
    assert (v' ≠ v) by (intros ->; congruence).
    exists vp'. rewrite lookup_insert_ne by done. split_and!; [done|done|].
    rewrite lookup_delete_ne; [done|]. by apply (Hne v').
  - intros v'. rewrite lookup_insert. case_decide; [subst; intros _; apply Hfr; by eexists|apply Hfr].
  - intros v' vp'. rewrite lookup_insert. case_decide; [intros [= <-]; exact (Hval _ _ Hv)|apply Hval].
  - apply put_all_owns.
    destruct (queues_replace t v vp (mkVpnPeer (vp_peerID vp) (vp_localIP vp) [] [] true) Hv) as (rest & E1 & E2).
    unfold queues, with_maps, with_peers in *. cbn [t_peers] in *. rewrite E2. rewrite E1 in Hw. simpl.
    by rewrite (Permutation_app_comm used), <- app_assoc, (Permutation_app_comm rest used) in Hw.
  - intros v' Hn. by rewrite lookup_insert_ne.
Qed.

Lemma put_all_same ls : ∀ w l, l ∉ ls → w_heap (foldl (λ w l, PutTempPacket l w) w ls) !! l = w_heap w !! l.
Proof.
  induction ls as [|x ls IH]; intros w l Hl; [done|]. cbn [foldl]. rewrite IH by set_solver. simpl. unfold clear_packet.
  by rewrite lookup_alter_ne by set_solver.
Qed.

(** Dropping a peer releases its packets and leaves the others as they are. *)
Lemma drop_peer_keeps v w t w' t' used : owns w (used ++ queues t) → drop_peer v (w, t) = Ok (w', t') →
  queues t' ⊆ queues t ∧ keeps w w' (used ++ queues t') ∧ ∀ l, inbound_in t' l → inbound_in t l.
Proof.
  intros Hw. unfold drop_peer, VpnPeer_Close, peer_obj. cbn [snd].
  destruct (t_peers t !! v) as [vp|] eqn:Hv; [|done]. cbn [or_panic mbind outcome_bind].
  destruct (vp_closed vp); [done|]. cbn [mbind outcome_bind]. intros [= <- <-].
  set (vp' := mkVpnPeer (vp_peerID vp) (vp_localIP vp) [] [] true).
  destruct (queues_replace t v vp vp' Hv) as (rest & Hq & Hq').
  change (queues (with_maps (with_peers t (<[v := vp']> (t_peers t))) _ _)) with (queues (with_peers t (<[v := vp']> (t_peers t)))).
  split_and!.
  - intros l. rewrite Hq, Hq'. set_solver.
  - intros l Hl. apply put_all_same. rewrite elem_of_app, Hq' in Hl. simpl in Hl.
    assert (owns w ((vp_inbound vp ++ vp_outbound vp) ++ (rest ++ used))) as Hw0.
    { by rewrite (Permutation_app_comm used), Hq, <- app_assoc in Hw. }
    apply (owns_apart w _ _ l Hw0). set_solver.
  - intros l Hl. apply (inbound_in_update t v vp vp'); [done|cbn; set_solver|done].
Qed.

(** A peer object reached through the map of identifiers. *)
Definition listed (t : Tunnel) (v : vploc) (vp : VpnPeer) : Prop :=
  t_peers t !! v = Some vp ∧ peerIDToPeer t !! vp_peerID vp = Some v.

(** [order] visits the entries of the map of identifiers. *)
Definition visits (t : Tunnel) (order : list vploc) : Prop := order ≡ₚ (map_to_list (peerIDToPeer t)).*2.

Lemma visits_elem t order v : tunnel_ok t → visits t order → v ∈ order ↔ ∃ vp, listed t v vp.
Proof.
  intros Ht Ho. rewrite Ho, list_elem_of_fmap. split.
  - intros ([id v'] & -> & Hl%elem_of_map_to_list). destruct (ok_ids t Ht _ _ Hl) as (vp & ? & <- & _). by exists vp.
  - intros (vp & Hv & Hl). exists (vp_peerID vp, v). by rewrite elem_of_map_to_list.
Qed.

Lemma visits_nodup t order : tunnel_ok t → visits t order → NoDup order.
Proof.
  intros Ht ->. apply NoDup_fmap_2_strong; [|apply NoDup_map_to_list].
  intros [id v] [id' v'] H1%elem_of_map_to_list H2%elem_of_map_to_list E. simpl in *. subst v'.
  destruct (ok_ids t Ht _ _ H1) as (vp & Hv & <- & _), (ok_ids t Ht _ _ H2) as (vp' & Hv' & <- & _). congruence.
Qed.

(** What a round of the deleting loops does: the peer stays or is dropped. *)
Definition drops_ok (f : vploc → State → outcome State) (stays : string → Prop) : Prop :=
  ∀ w t v vp used, tunnel_ok t → owns w (used ++ queues t) → listed t v vp →
  ∃ w' t', f v (w, t) = Ok (w', t') ∧ tunnel_ok t' ∧ owns w' (used ++ queues t') ∧
    t_isClosed t' = t_isClosed t ∧
    (queues t' ⊆ queues t ∧ keeps w w' (used ++ queues t') ∧ ∀ l, inbound_in t' l → inbound_in t l) ∧
    (stays (vp_peerID vp) ∧ t' = t ∨
     ¬ stays (vp_peerID vp) ∧ peerIDToPeer t' = delete (vp_peerID vp) (peerIDToPeer t) ∧
     netIPToPeer t' = delete (vp_localIP vp) (netIPToPeer t) ∧
     (∀ v', v' ≠ v → t_peers t' !! v' = t_peers t !! v')).

Lemma drop_peer_drops : drops_ok drop_peer (λ _, False).
Proof.
  intros w t v vp used Ht Hw [Hv Hl]. destruct (drop_peer_ok w t v vp used Ht Hw Hv Hl) as (w' & t' & E & H1 & H2 & H3 & H4 & H5).
  destruct (drop_peer_keeps v w t w' t' used Hw E) as (Hq & Hk & Hi).
  exists w', t'. split_and!; try done. right. split; [by intros []|]. split_and!; try done.
  unfold drop_peer, VpnPeer_Close, peer_obj in E. cbn [snd] in E. rewrite Hv in E. cbn [or_panic mbind outcome_bind] in E.
  destruct (vp_closed vp); [done|]. cbn [mbind outcome_bind] in E. by injection E as _ <-.
Qed.

Lemma refresh_delete_drops `{PeerCodec} c :
  drops_ok (refresh_delete c) (λ id, is_Some (KnownPeers c !! peer_String id)).
Proof.
  intros w t v vp used Ht Hw Hl. pose proof Hl as [Hv _]. unfold refresh_delete, peer_obj. cbn [snd].
  rewrite Hv. cbn [or_panic mbind outcome_bind].
  destruct (KnownPeers c !! peer_String (vp_peerID vp)) as [k|] eqn:E.
  - exists w, t. split_and!; try done. left. split; [by exists k|done].
  - destruct (drop_peer_drops w t v vp used Ht Hw Hl) as (w' & t' & E' & ? & ? & ? & (? & ? & ?) & [[[] _]|[_ Hr]]).
    exists w', t'. split_and!; try done. right. split; [intros [? Hk]; congruence|done].
Qed.

Lemma each_peer_ok f stays (Hf : drops_ok f stays) vs : ∀ w t used,
  tunnel_ok t → owns w (used ++ queues t) → NoDup vs → (∀ v, v ∈ vs → ∃ vp, listed t v vp) →
  ∃ w' t', each_peer f vs (w, t) = Ok (w', t') ∧ tunnel_ok t' ∧ owns w' (used ++ queues t') ∧
    t_isClosed t' = t_isClosed t ∧
    (∀ v vp, listed t' v vp ↔ listed t v vp ∧ (v ∈ vs → stays (vp_peerID vp))) ∧
    (∀ ip v, netIPToPeer t' !! ip = Some v → netIPToPeer t !! ip = Some v) ∧
    (∀ ip v, netIPToPeer t !! ip = Some v →
       (∀ u up, u ∈ vs → listed t u up → vp_localIP up = ip → stays (vp_peerID up)) → netIPToPeer t' !! ip = Some v) ∧
    (queues t' ⊆ queues t ∧ keeps w w' (used ++ queues t') ∧ ∀ l, inbound_in t' l → inbound_in t l).
Proof.
  induction vs as [|v vs IH]; intros w t used Ht Hw Hnd Hlist.
  { exists w, t. cbn [each_peer]. split_and!; try done. set_solver. }
  apply list.NoDup_cons in Hnd as [Hnv Hnd]. cbn [each_peer].
  destruct (Hlist v) as [vp Hvp]; [set_solver|].
  destruct (Hf w t v vp used Ht Hw Hvp) as (w1 & t1 & -> & Ht1 & Hw1 & Hc1 & (Hq1 & Hkp1 & Hin1) & Hcase). cbn [mbind outcome_bind].
  assert (Hl1 : ∀ u up, listed t1 u up ↔ listed t u up ∧ (u = v → stays (vp_peerID up))).
  { destruct Hcase as [[Hs ->]|(Hs & Hids & _ & Hother)].
    - intros u up. split; [|naive_solver]. intros Hu. split; [done|]. intros ->.
      destruct Hu as [Hu _], Hvp as [Hv _]. congruence.
    - intros u up. unfold listed. rewrite Hids. destruct Hvp as [Hv Hm]. split.
      + intros [Hu [Hne Hl]%lookup_delete_Some].
        assert (u ≠ v) as Hn.
        { intros ->. destruct (ok_ids t Ht _ _ Hl) as (vp0 & Hv0 & Hid0 & _). congruence. }
        rewrite Hother in Hu by done. naive_solver.
      + intros [[Hu Hl] Hst]. assert (u ≠ v) as Hn by (intros ->; simplify_eq; naive_solver).
        rewrite Hother by done. split; [done|]. apply lookup_delete_Some. split; [|done]. congruence. }
  destruct (IH w1 t1 used Ht1 Hw1 Hnd) as (w2 & t2 & E2 & Ht2 & Hw2 & Hc2 & Hl2 & Hi2 & Hk2 & Hq2 & Hkp2 & Hin2).
  { intros u Hu. destruct (Hlist u) as [up Hup]; [set_solver|]. exists up. apply Hl1. split; [done|]. by intros ->. }
  exists w2, t2. split_and!; try done; [congruence| | | |by etrans| |auto].
  - intros u up. rewrite Hl2, Hl1. rewrite elem_of_cons. naive_solver.
  - intros ip u Hu. apply Hi2 in Hu. destruct Hcase as [[_ ->]|(_ & _ & Hd & _)]; [done|].
    rewrite Hd in Hu. by apply lookup_delete_Some in Hu as [_ ?].
  - intros ip u Hu Hst. apply Hk2.
    + destruct Hcase as [[_ ->]|(Hs & _ & Hd & _)]; [done|]. rewrite Hd. apply lookup_delete_Some.
      split; [|done]. intros E. apply Hs. apply (Hst v vp); [set_solver|done|done].
    + intros u' up' Hu' Hl'. apply Hl1 in Hl' as [Hl' _]. apply (Hst u'); [set_solver|done].
  - apply keeps_trans with w1; [|done]. eapply keeps_sub; [done|]. set_solver.
Qed.

(** ** Routing agrees with the configuration *)

Definition ip_of (k : KnownPeer) : bytes := To4 (ParseIP (kp_IPAddr k)).

(** Every peer is reached through its own address. *)
Definition complete (t : Tunnel) : Prop :=
  ∀ v vp, listed t v vp → netIPToPeer t !! vp_localIP vp = Some v.

(** No other peer of the tunnel holds the address of [k]. *)
Definition unclaimed `{PeerCodec} (t : Tunnel) (k : KnownPeer) : Prop :=
  ∀ v vp, listed t v vp → vp_localIP vp = ip_of k → vp_peerID vp = PeerId k.

Lemma NoDup_fmap_cons {A B} (f : A → B) (x : A) (l : list A) :
  NoDup (f <$> x :: l) → (f x ∉ f <$> l) ∧ NoDup (f <$> l).
Proof. intros Hn. rewrite fmap_cons in Hn. by apply list.NoDup_cons in Hn. Qed.

Section consistent.
Context `{PeerCodec}.

(** What one round of the first loop does to the listed peers. *)
Record refreshed (t t' : Tunnel) (k : KnownPeer) : Prop := {
  rf_complete : complete t';
  rf_new : ∃ v vp, listed t' v vp ∧ vp_peerID vp = PeerId k ∧ vp_localIP vp = ip_of k;
  rf_from : ∀ v vp, listed t' v vp → vp_peerID vp = PeerId k ∧ vp_localIP vp = ip_of k ∨ listed t v vp ∧ vp_peerID vp ≠ PeerId k;
  rf_keep : ∀ v vp, listed t v vp → vp_peerID vp ≠ PeerId k → listed t' v vp;
}.

Lemma refresh_peer_refreshed t k t' :
  tunnel_ok t → complete t → ip_of k ≠ [] → unclaimed t k → refresh_peer t k = Ok t' → refreshed t t' k.
Proof.
  intros Ht Hc Hip Hun. unfold refresh_peer. fold (ip_of k). rewrite decide_False by done.
  pose proof (To4_ParseIP_valid _ Hip) as Hval. fold (ip_of k) in Hval.
  destruct (peerIDToPeer t !! PeerId k) as [v|] eqn:Ev.
  - destruct (ok_ids t Ht _ _ Ev) as (vp & Hv & Hid & Hcl). unfold peer_obj. rewrite Hv. cbn [or_panic mbind outcome_bind].
    rewrite (IP_Equal_valid4 _ _ (ok_valid t Ht _ _ Hv) Hval).
    assert (Hlv : listed t v vp) by (split; [done|by rewrite Hid]).
    case_bool_decide as Heq; intros [= <-].
    + constructor; [done|by exists v, vp| |done]. intros u up Hu.
      destruct (decide (vp_peerID up = PeerId k)) as [E|E]; [left|by right].
      split; [done|]. destruct Hu as [Hu1 Hu2]. rewrite E in Hu2. by simplify_eq.
    + assert (Hlist : ∀ u up, (<[v := with_localIP vp (ip_of k)]> (t_peers t) !! u = Some up ∧
                peerIDToPeer t !! vp_peerID up = Some u) ↔
                (u = v ∧ up = with_localIP vp (ip_of k)) ∨ (listed t u up ∧ u ≠ v)).
      { intros u up. rewrite lookup_insert. case_decide; subst; unfold listed; [|naive_solver].
        split; [naive_solver|]. intros [[_ ->]|[_ ?]]; [|done]. simpl. by rewrite Hid. }
      assert (Hnv : ∀ u up, listed t u up → vp_peerID up ≠ PeerId k ↔ u ≠ v).
      { intros u up [Hu1 Hu2]. split; [|intros Hn E; rewrite E in Hu2; congruence]. intros Hn ->. congruence. }
      constructor; unfold complete, listed; simpl.
      * intros u up [[-> ->]|[Hu Hn]]%Hlist; [apply lookup_insert_eq|].
        rewrite lookup_insert_ne.
        -- rewrite lookup_delete_ne; [by apply Hc|]. intros E. pose proof (Hc _ _ Hu) as H1.
           rewrite <- E, (Hc _ _ Hlv) in H1. congruence.
        -- intros E. apply (Hnv u up Hu) in Hn. apply Hn, (Hun u); done.
      * exists v, (with_localIP vp (ip_of k)). split; [|done]. apply Hlist. by left.
      * intros u up [[-> ->]|[Hu Hn]]%Hlist; [by left|]. right. split; [done|]. by apply (Hnv u).
      * intros u up Hu Hn. apply Hlist. right. split; [done|]. by apply (Hnv u up).
  - intros [= <-].
    assert (Hn : t_peers t !! t_nextPeer t = None).
    { destruct (t_peers t !! t_nextPeer t) eqn:E; [|done]. exfalso.
      apply (Nat.lt_irrefl (t_nextPeer t)), (ok_fresh t Ht). by eexists. }
    assert (Hlist : ∀ u up, (<[t_nextPeer t := NewVpnPeer (PeerId k) (ip_of k)]> (t_peers t) !! u = Some up ∧
              <[PeerId k := t_nextPeer t]> (peerIDToPeer t) !! vp_peerID up = Some u) ↔
              (u = t_nextPeer t ∧ up = NewVpnPeer (PeerId k) (ip_of k)) ∨ listed t u up).
    { intros u up. unfold listed. rewrite !lookup_insert. split.
      - intros [H1 H2]. destruct (decide (t_nextPeer t = u)) as [<-|Hu]; [left; split; congruence|].
        right. split; [done|]. destruct (decide (PeerId k = vp_peerID up)); [congruence|done].
      - intros [[-> ->]|[H1 H2]]; simpl; [by rewrite !decide_True|].
        rewrite decide_False by (intros E; rewrite E in Hn; congruence). split; [done|].
        case_decide as E; [rewrite <- E in H2; congruence|done]. }
    assert (Hne : ∀ u up, listed t u up → vp_peerID up ≠ PeerId k).
    { intros u up [_ Hu] E. rewrite E in Hu. congruence. }
    constructor; unfold complete, listed; simpl.
    + intros u up [[-> ->]|Hu]%Hlist; [apply lookup_insert_eq|].
      rewrite lookup_insert_ne; [by apply Hc|]. intros E. by apply (Hne u up Hu), (Hun u up).
    + exists (t_nextPeer t), (NewVpnPeer (PeerId k) (ip_of k)). split; [|done]. apply Hlist. by left.
    + intros u up [[-> ->]|Hu]%Hlist; [by left|]. right. split; [done|by eapply Hne].
    + intros u up Hu _. apply Hlist. by right.
Qed.

Lemma refresh_peers_refreshed known : ∀ t t',
  tunnel_ok t → complete t → Forall (λ k, ip_of k ≠ []) known → NoDup (PeerId <$> known) → NoDup (ip_of <$> known) →
  Forall (unclaimed t) known → refresh_peers known t = Ok t' →
  tunnel_ok t' ∧ complete t' ∧
  (∀ k, k ∈ known → ∃ v vp, listed t' v vp ∧ vp_peerID vp = PeerId k ∧ vp_localIP vp = ip_of k) ∧
  (∀ v vp, listed t' v vp → (∃ k, k ∈ known ∧ vp_peerID vp = PeerId k ∧ vp_localIP vp = ip_of k) ∨
           listed t v vp ∧ vp_peerID vp ∉ PeerId <$> known) ∧
  (∀ v vp, listed t v vp → vp_peerID vp ∉ PeerId <$> known → listed t' v vp).
Proof.
  induction known as [|k known IH]; intros t t' Ht Hc Hip Hid Hips Hun; cbn [refresh_peers].
  { intros [= <-]. split_and!; [done|done|set_solver| |done]. intros v vp Hl. right. set_solver. }
  destruct (refresh_peer_ok t k Ht) as (t1 & E1 & Ht1 & _). rewrite E1. cbn [mbind outcome_bind]. intros E.
  apply list.Forall_cons in Hip as [Hk Hip], Hun as [Huk Hun].
  apply NoDup_fmap_cons in Hid as [Hnid Hid], Hips as [Hnip Hips].
  destruct (refresh_peer_refreshed t k t1 Ht Hc Hk Huk E1) as [Hc1 (v0 & vp0 & Hl0 & Hi0 & Hp0) Hfrom Hkeep].
  destruct (IH t1 t' Ht1 Hc1 Hip Hid Hips) as (Ht' & Hc' & Hall & Hfrom' & Hkeep'); [|done|].
  { apply list.Forall_forall. intros k' Hk' v vp Hl E'. rewrite list.Forall_forall in Hun.
    destruct (Hfrom v vp Hl) as [[? Hipk]|[Hl' _]]; [|by apply (Hun k' Hk' v)].
    exfalso. apply Hnip. rewrite <- Hipk, E'. by apply list_elem_of_fmap_2. }
  split_and!; [done|done| | |].
  - intros k' [->|Hk']%elem_of_cons; [|by apply Hall].
    exists v0, vp0. split; [|done]. apply Hkeep'; [done|]. by rewrite Hi0.
  - intros v vp Hl. rewrite fmap_cons, not_elem_of_cons.
    destruct (Hfrom' v vp Hl) as [(k' & Hk' & ?)|[Hl1 Hn]].
    + left. exists k'. split; [set_solver|done].
    + destruct (Hfrom v vp Hl1) as [Hnew|[Hold Hne]]; [|by right]. left. exists k. split; [set_solver|done].
  - intros v vp Hl. rewrite fmap_cons, not_elem_of_cons. intros [Hn1 Hn2]. apply Hkeep'; [|done].
    by apply Hkeep.
Qed.
End consistent.

(** The configuration as the tunnel needs it: peers are stored under the text of
    their identifier, and have IPv4 addresses that no two of them share. *)
Record routable `{PeerCodec} (c : Config) : Prop := {
  ro_key : ∀ key k, KnownPeers c !! key = Some k → key = peer_String (PeerId k);
  ro_ip : ∀ key k, KnownPeers c !! key = Some k → ip_of k ≠ [];
  ro_uniq : ∀ key k key' k', KnownPeers c !! key = Some k → KnownPeers c !! key' = Some k' →
    ip_of k = ip_of k' → key = key';
}.

Section refresh_theorem.
Context `{PeerCodec}.

Lemma known_elem c known k : known ≡ₚ known_list c → k ∈ known ↔ ∃ key, KnownPeers c !! key = Some k.
Proof.
  intros ->. unfold known_list. rewrite list_elem_of_fmap. split.
  - intros ([key k'] & -> & Hl%elem_of_map_to_list). by exists key.
  - intros [key Hl]. exists (key, k). by rewrite elem_of_map_to_list.
Qed.

Lemma routable_nodup {B} c known (f : KnownPeer → B) :
  known ≡ₚ known_list c →
  (∀ key k key' k', KnownPeers c !! key = Some k → KnownPeers c !! key' = Some k' → f k = f k' → key = key') →
  NoDup (f <$> known).
Proof.
  intros -> Hf. unfold known_list. rewrite <- list_fmap_compose.
  apply NoDup_fmap_2_strong; [|apply NoDup_map_to_list].
  intros [key k] [key' k'] H1%elem_of_map_to_list H2%elem_of_map_to_list E.
  assert (key = key') as -> by (eapply Hf; eauto). by simplify_eq.
Qed.

Lemma routable_nodups c known : routable c → known ≡ₚ known_list c →
  NoDup (PeerId <$> known) ∧ NoDup (ip_of <$> known).
Proof.
  intros Hc Hk. split; apply (routable_nodup c known _ Hk); intros key k key' k' H1 H2 E.
  - rewrite (ro_key c Hc _ _ H1), (ro_key c Hc _ _ H2). by rewrite E.
  - by apply (ro_uniq c Hc _ _ _ _ H1 H2).
Qed.
End refresh_theorem.

Lemma refresh_routes `{PeerCodec} `{!Inj (=) (=) peer_String} c known order w t used :
  routable c → tunnel_ok t → complete t → owns w (used ++ queues t) →
  known ≡ₚ known_list c → Forall (unclaimed t) known →
  (∀ t1, refresh_peers known t = Ok t1 → visits t1 order) →
  ∃ w' t', RefreshPeersList c known order (w, t) = Ok (w', t') ∧
    tunnel_ok t' ∧ complete t' ∧ owns w' (used ++ queues t') ∧
    (∀ key k, KnownPeers c !! key = Some k → ∃ v vp,
       netIPToPeer t' !! ip_of k = Some v ∧ t_peers t' !! v = Some vp ∧ vp_peerID vp = PeerId k ∧ vp_closed vp = false) ∧
    (∀ ip v, netIPToPeer t' !! ip = Some v → ∃ key k vp,
       KnownPeers c !! key = Some k ∧ ip_of k = ip ∧ t_peers t' !! v = Some vp ∧ vp_peerID vp = PeerId k).
Proof.
  intros Hc Ht Hcomp Hw Hk Hun Hord. unfold RefreshPeersList.
  destruct (refresh_peers_ok known t Ht) as (t1 & E1 & Ht1 & Hq1 & _). rewrite E1. cbn [mbind outcome_bind].
  specialize (Hord t1 E1). destruct (routable_nodups c known Hc Hk) as [Hn1 Hn2].
  destruct (refresh_peers_refreshed known t t1 Ht Hcomp) as (_ & Hc1 & Hall & Hfrom & _); try done.
  { apply list.Forall_forall. intros k [key Hkey]%(known_elem c known k Hk). by apply (ro_ip c Hc key). }
  destruct (each_peer_ok (refresh_delete c) _ (refresh_delete_drops c) order w t1 used Ht1)
    as (w2 & t2 & E2 & Ht2 & Hw2 & _ & Hl2 & Hi2 & Hk2 & _);
    [by rewrite Hq1|by apply (visits_nodup t1)|intros v; by apply (visits_elem t1)|].
  assert (Hstay : ∀ v vp, listed t2 v vp ↔ listed t1 v vp ∧ is_Some (KnownPeers c !! peer_String (vp_peerID vp))).
  { intros v vp. rewrite Hl2. split; [|naive_solver]. intros [Hl Hs]. split; [done|]. apply Hs.
    apply (visits_elem t1); eauto. }
  assert (Hc2 : complete t2).
  { intros v vp [Hl Hs]%Hstay. apply Hk2; [by apply Hc1|]. intros u up Hu Hlu Eip.
    assert (u = v) as -> by (pose proof (Hc1 _ _ Hlu) as H1; rewrite Eip, (Hc1 _ _ Hl) in H1; congruence).
    destruct Hl as [Hl _], Hlu as [Hlu _]. by simplify_eq. }
  exists w2, t2. split_and!; try done.
  - intros key k Hkey. destruct (Hall k) as (v & vp & Hl & Hid & Hip); [apply (known_elem c known k Hk); eauto|].
    assert (listed t2 v vp) as Hl'.
    { apply Hstay. split; [done|]. rewrite Hid, <- (ro_key c Hc _ _ Hkey). by eexists. }
    exists v, vp. rewrite <- Hip. split; [by apply Hc2|]. destruct Hl' as [Hv Hm].
    destruct (ok_ids t2 Ht2 _ _ Hm) as (vp' & ? & _ & ?). by simplify_eq.
  - intros ip v Hl. destruct (ok_ips t2 Ht2 _ _ Hl) as (vp & Hv & Eip & Hm).
    assert (listed t2 v vp) as [Hl1 [k' Hs]]%Hstay by done.
    destruct (Hfrom v vp Hl1) as [(k & [key Hkey]%(known_elem c known k Hk) & Hid & Hip)|[_ Hn]].
    + exists key, k, vp. split_and!; try done. congruence.
    + exfalso. apply Hn. pose proof (ro_key c Hc _ _ Hs) as Hkey. apply (inj peer_String) in Hkey.
      rewrite Hkey. apply list_elem_of_fmap_2, (known_elem c known k' Hk). eauto.
Qed.

(** C7. After [RefreshPeersList] the routing table is exactly the configuration, in
    whatever order the two loops run: every known peer is reached through its address,
    and every entry of the table leads to a known peer with that address. The tunnel
    must not have another peer on the address of a known one (a new tunnel has none). *)
Theorem refresh_routes_known_peers `{PeerCodec} `{!Inj (=) (=) peer_String} c known order w t used :
  routable c → tunnel_ok t → complete t → owns w (used ++ queues t) →
  known ≡ₚ known_list c → Forall (unclaimed t) known →
  (∀ t1, refresh_peers known t = Ok t1 → visits t1 order) →
  ∃ w' t', RefreshPeersList c known order (w, t) = Ok (w', t') ∧
    tunnel_ok t' ∧ complete t' ∧ owns w' (used ++ queues t') ∧
    (∀ key k, KnownPeers c !! key = Some k → ∃ v vp,
       netIPToPeer t' !! ip_of k = Some v ∧ t_peers t' !! v = Some vp ∧ vp_peerID vp = PeerId k ∧ vp_closed vp = false) ∧
    (∀ ip v, netIPToPeer t' !! ip = Some v → ∃ key k vp,
       KnownPeers c !! key = Some k ∧ ip_of k = ip ∧ t_peers t' !! v = Some vp ∧ vp_peerID vp = PeerId k).
Proof. apply refresh_routes. Qed.

(** ** Packets between the interface and the queues *)

(** The tunnel with other contents of the channels. *)
Record same_peers (t t' : Tunnel) : Prop := {
  sp_ids : peerIDToPeer t' = peerIDToPeer t;
  sp_ips : netIPToPeer t' = netIPToPeer t;
  sp_bcast : udpBroadcastAddr t' = udpBroadcastAddr t;
  sp_closed : t_isClosed t' = t_isClosed t;
  sp_ok : tunnel_ok t → tunnel_ok t';
  sp_open : ∀ v vp, t_peers t !! v = Some vp → ∃ vp', t_peers t' !! v = Some vp' ∧
    vp_peerID vp' = vp_peerID vp ∧ vp_localIP vp' = vp_localIP vp ∧ vp_closed vp' = vp_closed vp;
  sp_back : ∀ v, is_Some (t_peers t' !! v) → is_Some (t_peers t !! v);
}.

Lemma same_peers_refl t : same_peers t t.
Proof. constructor; try done. intros v vp Hv. by exists vp. Qed.

Lemma same_peers_trans t1 t2 t3 : same_peers t1 t2 → same_peers t2 t3 → same_peers t1 t3.
Proof.
  intros [? ? ? ? ? H1 ?] [? ? ? ? ? H2 ?]. constructor; try congruence; [tauto| |eauto].
  intros v vp Hv. destruct (H1 v vp Hv) as (vp' & Hv' & ? & ? & ?).
  destruct (H2 v vp' Hv') as (vp'' & ? & ? & ? & ?). exists vp''. split_and!; congruence.
Qed.

Lemma same_peers_update t v vp vp' : t_peers t !! v = Some vp →
  vp_peerID vp' = vp_peerID vp → vp_localIP vp' = vp_localIP vp → vp_closed vp' = vp_closed vp →
  same_peers t (with_peers t (<[v := vp']> (t_peers t))).
Proof.
  intros Hv E1 E2 E3.
  assert (Hup : ∀ u up, t_peers t !! u = Some up → ∃ up', <[v := vp']> (t_peers t) !! u = Some up' ∧
    vp_peerID up' = vp_peerID up ∧ vp_localIP up' = vp_localIP up ∧ vp_closed up' = vp_closed up).
  { intros u up Hu. rewrite lookup_insert. case_decide; [subst; simplify_eq|]; by eexists. }
  constructor; try done.
  2: { intros u. simpl. rewrite lookup_insert. case_decide; [subst; by eexists|done]. }
  intros [Hids Hips Hfr Hval]. constructor; simpl.
  - intros id u Hu. destruct (Hids _ _ Hu) as (up & Hp & ? & ?). destruct (Hup _ _ Hp) as (up' & ? & ? & ? & ?).
    exists up'. split_and!; congruence.
  - intros ip u Hu. destruct (Hips _ _ Hu) as (up & Hp & ? & Hm). destruct (Hup _ _ Hp) as (up' & ? & E & ? & ?).
    exists up'. rewrite E. split_and!; congruence.
  - intros u. rewrite lookup_insert. case_decide; [subst; intros _; apply Hfr; by eexists|apply Hfr].
  - intros u up. rewrite lookup_insert. case_decide; [intros [= <-]; rewrite E2; by eapply Hval|apply Hval].
Qed.

Lemma send_outbound_ok v vp packet t : t_peers t !! v = Some vp → vp_closed vp = false →
  ∃ sent t', send_outbound v packet t = Ok (sent, t') ∧ same_peers t t' ∧ inbounds t' = inbounds t ∧
    ((sent = true ∧ queues t' ≡ₚ packet :: queues t) ∨ (sent = false ∧ t' = t)).
Proof.
  intros Hv Hc. unfold send_outbound, peer_obj. rewrite Hv. cbn [or_panic mbind outcome_bind]. rewrite Hc.
  case_decide.
  - eexists _, _. split; [reflexivity|]. split; [by apply (same_peers_update t v vp)|].
    split; [by apply (inbounds_update t v vp)|]. left. split; [done|].
    destruct (queues_replace t v vp (with_outbound vp (vp_outbound vp ++ [packet])) Hv) as (rest & -> & ->).
    unfold vq. simpl. rewrite app_assoc, <- (app_assoc _ [packet] rest). simpl.
    by rewrite <- Permutation_middle.
  - eexists _, _. split; [reflexivity|]. split; [apply same_peers_refl|]. split; [done|by right].
Qed.

Lemma send_inbound_ok v vp packet t : t_peers t !! v = Some vp → vp_closed vp = false →
  ∃ sent t', send_inbound v packet t = Ok (sent, t') ∧ same_peers t t' ∧
    ((sent = true ∧ queues t' ≡ₚ packet :: queues t) ∨ (sent = false ∧ t' = t)).
Proof.
  intros Hv Hc. unfold send_inbound, peer_obj. rewrite Hv. cbn [or_panic mbind outcome_bind]. rewrite Hc.
  case_decide.
  - eexists _, _. split; [reflexivity|]. split; [by apply (same_peers_update t v vp)|]. left. split; [done|].
    destruct (queues_replace t v vp (with_inbound vp (vp_inbound vp ++ [packet])) Hv) as (rest & -> & ->).
    unfold vq. simpl. rewrite <- !app_assoc. simpl. by rewrite <- Permutation_middle.
  - eexists _, _. split; [reflexivity|]. split; [apply same_peers_refl|by right].
Qed.

(** An open peer of the tunnel. *)
Definition open_peer (t : Tunnel) (v : vploc) : Prop := ∃ vp, t_peers t !! v = Some vp ∧ vp_closed vp = false.

Lemma same_peers_open t t' v : same_peers t t' → open_peer t v → open_peer t' v.
Proof. intros Hs (vp & Hv & Hc). destruct (sp_open _ _ Hs _ _ Hv) as (vp' & ? & _ & _ & ?). exists vp'. split; congruence. Qed.

Lemma netIP_open t ip v : tunnel_ok t → netIPToPeer t !! ip = Some v → open_peer t v.
Proof.
  intros Ht Hv. destruct (ok_ips t Ht _ _ Hv) as (vp & Hp & _ & Hm).
  destruct (ok_ids t Ht _ _ Hm) as (vp' & Hp' & _ & Hc). exists vp. split; congruence.
Qed.

Section handler.
Context `{PoolPolicy} (connected : string → bool).

Lemma CopyTo_owns w packet copyPacket used :
  owns w (copyPacket :: used) → packet ∈ used →
  ∃ h, CopyTo (w_heap w) packet copyPacket = Ok h ∧ owns (with_heap w h) (copyPacket :: used) ∧ keeps w (with_heap w h) used.
Proof.
  intros Hw Hin. destruct (own_alloc w _ Hw packet) as [p Hp]; [set_solver|].
  destruct (own_heap w _ Hw packet p Hp) as [Hl Hb Hs].
  assert (Hm : maxContentSize = 3600%nat) by done. assert (Ho : tunPacketOffset = 14%nat) by done.
  assert (slen (Packet p) + tunPacketOffset ≤ maxContentSize)%nat as Hlen.
  { destruct Hs as [->|(n & -> & Hn)]; simpl; lia. }
  unfold CopyTo, deref. rewrite Hp. cbn [or_panic mbind outcome_bind].
  rewrite slice_range_ok by lia. cbn [mbind outcome_bind]. eexists. split; [reflexivity|].
  split; [|apply (keeps_heap w _ copyPacket used Hw); intros l' Hl'; by apply lookup_insert_ne].
  apply owns_heap; [done| |].
  - apply heap_ok_insert; [apply Hw|]. constructor; [done|done|]. right.
    exists (slen (Packet p) + tunPacketOffset - tunPacketOffset)%nat. split; [done|lia].
  - intros l. rewrite lookup_insert. case_decide; [|done]. subst. split; [|by eexists]. intros _.
    apply (own_alloc w _ Hw). set_solver.
Qed.

Lemma broadcast_ok packet peers : ∀ w t used,
  owns w (used ++ queues t) → packet ∈ used → (∀ v, v ∈ peers → open_peer t v) →
  ∃ w' t', broadcast connected packet peers (w, t) = Ok (w', t') ∧ same_peers t t' ∧ owns w' (used ++ queues t') ∧
    keeps w w' (used ++ queues t) ∧ inbounds t' = inbounds t ∧ queues t ⊆ queues t'.
Proof.
  induction peers as [|v peers IH]; intros w t used Hw Hin Hopen; cbn [broadcast].
  { exists w, t. split_and!; [done|apply same_peers_refl|done..]. }
  destruct (Hopen v) as (vp & Hv & Hc); [set_solver|].
  unfold peer_obj at 1. rewrite Hv. cbn [or_panic mbind outcome_bind].
  destruct (connected (vp_peerID vp)); cbn [negb]; [|apply IH; [done|done|set_solver]].
  destruct (GetTempPacket w) as [copy w1] eqn:E1.
  destruct (GetTempPacket_owns w copy w1 _ Hw E1) as (Hw1 & _ & Hk1).
  destruct (CopyTo_owns w1 packet copy _ Hw1) as (h & -> & Hw2 & Hk2); [set_solver|]. cbn [mbind outcome_bind].
  destruct (send_outbound_ok v vp copy t Hv Hc) as (sent & t1 & -> & Hs & Hin1 & Hq). cbn [mbind outcome_bind].
  assert (Hk : keeps w (if (sent : bool) then with_heap w1 h else PutTempPacket copy (with_heap w1 h)) (used ++ queues t)).
  { apply keeps_trans with w1; [done|]. apply keeps_trans with (with_heap w1 h); [done|].
    destruct sent; [done|]. by apply keeps_put. }
  assert (Hsub : queues t ⊆ queues t1).
  { destruct Hq as [[_ Hq]|[_ ->]]; [|done]. intros l Hl. rewrite Hq. by right. }
  destruct (IH (if (sent : bool) then with_heap w1 h else PutTempPacket copy (with_heap w1 h)) t1 used)
    as (w' & t' & -> & Hs' & Hw' & Hk' & Hin' & Hsub'); [|done| |].
  - destruct Hq as [[-> Hq]|[-> ->]].
    + by rewrite Hq, <- Permutation_middle.
    + by apply PutTempPacket_owns.
  - intros v' Hv'. eapply same_peers_open; [done|]. apply Hopen. set_solver.
  - exists w', t'. split_and!; [done|by eapply same_peers_trans|done| |congruence|by etrans].
    eapply keeps_trans; [exact Hk|]. eapply keeps_sub; [exact Hk'|]. intros l. rewrite !elem_of_app. intros [?|?]; [by left|right; by apply Hsub].
Qed.

Lemma handle_packet_ok order slot w t used :
  tunnel_ok t → owns w (held [slot] ++ used ++ queues t) → (∀ v, v ∈ order → open_peer t v) →
  ∃ slot' w' t', handle_packet connected order slot (w, t) = Ok (slot', (w', t')) ∧ same_peers t t' ∧
    owns w' (held [slot'] ++ used ++ queues t') ∧ keeps w w' (used ++ queues t) ∧ inbounds t' = inbounds t ∧
    queues t ⊆ queues t'.
Proof.
  intros Ht Hw Hopen. destruct slot as [packet|]; cbn [handle_packet].
  2: { exists None, w, t. split_and!; [done|apply same_peers_refl|done..]. }
  destruct (own_alloc w _ Hw packet) as [p Hp]; [simpl; set_solver|].
  unfold deref. rewrite Hp. cbn [or_panic mbind outcome_bind].
  set (dst := view (w_heap w) (Dst p)). destruct (_ || _).
  - destruct (broadcast_ok packet order w t (packet :: used)) as (w' & t' & -> & Hs & Hw' & Hk & Hin & Hsub);
      [done|set_solver|done|]. cbn [mbind outcome_bind]. exists (Some packet), w', t'. split_and!; try done.
    eapply keeps_sub; [exact Hk|]. set_solver.
  - destruct (netIPToPeer t !! dst) as [v|] eqn:Ev.
    + destruct (netIP_open t dst v Ht Ev) as (vp & Hv & Hc).
      destruct (send_outbound_ok v vp packet t Hv Hc) as (sent & t1 & -> & Hs & Hin & Hq). cbn [mbind outcome_bind].
      eexists _, w, t1. split; [reflexivity|]. split; [done|]. split; [|split_and!; try done].
      * destruct Hq as [[-> Hq]|[-> ->]]; [|done]. simpl in *. by rewrite Hq, <- Permutation_middle.
      * destruct Hq as [[_ Hq]|[_ ->]]; [|done]. intros l Hl. rewrite Hq. by right.
    + exists (Some packet), w, t. split_and!; [done|apply same_peers_refl|done..].
Qed.

Lemma handle_packets_ok order packets : ∀ i w t used,
  tunnel_ok t → owns w (held packets ++ used ++ queues t) → (∀ i v, v ∈ order i → open_peer t v) →
  ∃ ps w' t', handle_packets connected order i packets (w, t) = Ok (ps, (w', t')) ∧ same_peers t t' ∧
    length ps = length packets ∧ owns w' (held ps ++ used ++ queues t') ∧
    keeps w w' (used ++ queues t) ∧ inbounds t' = inbounds t ∧ queues t ⊆ queues t'.
Proof.
  induction packets as [|slot packets IH]; intros i w t used Ht Hw Hopen; cbn [handle_packets].
  { exists [], w, t. split_and!; [done|apply same_peers_refl|done..]. }
  assert (∀ ps (s : option loc) u, held (s :: ps) ++ u ≡ₚ held [s] ++ (held ps ++ u)) as Hh by (by intros ps [|] u).
  destruct (handle_packet_ok (order i) slot w t (held packets ++ used)) as (slot' & w1 & t1 & E1 & Hs1 & Hw1 & Hk1 & Hin1 & Hsub1);
    [done|by rewrite <- app_assoc, <- Hh|by apply Hopen|].
  rewrite E1. cbn [mbind outcome_bind].
  destruct (IH (S i) w1 t1 (held [slot'] ++ used)) as (ps & w2 & t2 & E2 & Hs2 & Hlen & Hw2 & Hk2 & Hin2 & Hsub2);
    [by apply (sp_ok _ _ Hs1)| |intros j v Hv; eapply same_peers_open; [done|by eapply Hopen]|].
  { rewrite <- app_assoc in Hw1 |- *. by rewrite (Permutation_app_swap_app (held packets)). }
  rewrite E2. cbn [mbind outcome_bind]. exists (slot' :: ps), w2, t2.
  split_and!; [done|by eapply same_peers_trans|simpl; by f_equal| | |congruence|by etrans].
  - rewrite Hh. rewrite <- app_assoc in Hw2. by rewrite (Permutation_app_swap_app (held [slot'])).
  - rewrite <- app_assoc in Hk1, Hk2. apply keeps_trans with w1; [exact (keeps_app_r _ _ _ _ Hk1)|].
    apply keeps_app_r, (keeps_sub _ _ _ (used ++ queues t)) in Hk2; [done|]. intros l. rewrite !elem_of_app.
    intros [?|?]; [by left|right; by apply Hsub1].
Qed.
End handler.

(** An order of the broadcast loops for every table of addresses. *)
Class BroadcastOrder := {
  border : gmap bytes vploc → nat → list vploc;
  border_visits : ∀ m i, border m i ≡ₚ (map_to_list m).*2;
}.

Lemma border_open `{BroadcastOrder} t i v : tunnel_ok t → v ∈ border (netIPToPeer t) i → open_peer t v.
Proof.
  intros Ht Hv. rewrite border_visits in Hv. apply list_elem_of_fmap in Hv as ([ip v'] & -> & Hl%elem_of_map_to_list).
  by eapply netIP_open.
Qed.

(** [HandleReadPackets] is the handler [ReadTUNPackets] expects. *)
Global Program Instance tunnel_handler `{PoolPolicy} `{BroadcastOrder} (connected : string → bool) : PacketsHandler Tunnel := {
  ph_handle ps st := HandleReadPackets connected (border (netIPToPeer st.2)) ps st;
  ph_held := queues;
  ph_inv := tunnel_ok;
  ph_keeps t t' := inbounds t' = inbounds t;
}.
Next Obligation. done. Qed.
Next Obligation.
  intros HP HB connected ps w t rest Ht Hw. unfold HandleReadPackets. cbn [snd].
  destruct (t_isClosed t); [by exists ps, w, t|].
  destruct (handle_packets_ok connected (border (netIPToPeer t)) ps 0 w t rest) as (ps' & w' & t' & -> & Hs & Hlen & Hw' & Hk & Hin & _);
    [done|by rewrite (Permutation_app_comm rest)|intros i v; by apply border_open|].
  exists ps', w', t'. split_and!; [done|done|by apply (sp_ok _ _ Hs)| | |done].
  - by rewrite (Permutation_app_comm (queues t')).
  - eapply keeps_sub; [exact Hk|]. set_solver.
Qed.

(** The loop that reads the interface, with the tunnel as its handler, runs
    without a panic on everything the interface may deliver: no packet is sent on a
    closed channel, and at any time every packet object is in exactly one of the pool,
    the slots of the loop and the channels of the peers. *)
Theorem tun_loop_safe `{PoolPolicy} `{BroadcastOrder} connected packets run w t :
  tunnel_ok t → owns w (held packets ++ queues t) → Forall (λ r, reads_ok (length packets) r.1) run →
  ∃ packets' w' t',
    ReadTUNPackets (λ ps st, HandleReadPackets connected (border (netIPToPeer st.2)) ps st) packets run (w, t)
      = Ok (packets', (w', t')) ∧
    tunnel_ok t' ∧ owns w' (held packets' ++ queues t').
Proof.
  intros Ht Hw Hrun.
  destruct (ReadTUNPackets_owns (H := tunnel_handler connected) run packets w t Ht Hw Hrun)
    as (ps' & w' & t' & E & _ & Ht' & Hw').
  by exists ps', w', t'.
Qed.

(** ** Packets from a peer *)

(** The bytes of the packet an object holds. *)
Definition content (w : World) (l : loc) : bytes :=
  default [] ((λ p, view (w_heap w) (Packet p)) <$> w_heap w !! l).

Lemma content_same w w' l : heap_ok (w_heap w) → w_heap w' !! l = w_heap w !! l → content w' l = content w l.
Proof.
  intros Hh E. unfold content. rewrite E. destruct (w_heap w !! l) as [p|] eqn:Ep; [|done]. simpl.
  destruct (ok_Packet l p (Hh l p Ep)) as [->|(n & -> & _)]; [done|].
  unfold view, buffer. by rewrite E, Ep.
Qed.

Lemma filled_ok p l bs : obj_ok l p → Forall is_byte bs → (tunPacketOffset + length bs ≤ maxContentSize)%nat →
  obj_ok l (filled p l tunPacketOffset bs) ∧
  ∀ h, view (<[l := filled p l tunPacketOffset bs]> h) (Packet (filled p l tunPacketOffset bs)) = bs.
Proof.
  intros [Hl Hb _] Hbs Hlen. split.
  - constructor; unfold filled; cbn [Buffer with_Packet with_Buffer Packet].
    + rewrite length_copy_at; lia.
    + by apply Forall_copy_at.
    + right. eexists. split; [reflexivity|]. lia.
  - intros h. unfold filled at 2. cbn [Packet with_Packet]. rewrite (view_of _ l (filled p l tunPacketOffset bs)) by apply lookup_insert_eq.
    unfold filled. cbn [Buffer with_Packet with_Buffer].
    replace (tunPacketOffset + length bs - tunPacketOffset)%nat with (length bs) by lia.
    rewrite <- (Nat.add_0_r tunPacketOffset) at 2. rewrite window_in by lia.
    rewrite take_0, drop_ge, app_nil_r; [done|]. rewrite length_take. lia.
Qed.

Section stream.
Context `{PoolPolicy}.

(** One frame of the stream, in however many reads it comes, becomes one packet at
    the end of the peer's channel. *)
Lemma stream_round_frame peerID r rest pkt v vp w t used :
  remaining r = AppendPacketToBuf [] pkt ++ rest → fin r = EOF → Forall is_byte pkt →
  (tunPacketOffset + length pkt ≤ maxContentSize)%nat →
  peerIDToPeer t !! peerID = Some v → t_peers t !! v = Some vp → vp_closed vp = false →
  (length (vp_inbound vp) < packetHandlersChanCap)%nat → owns w (used ++ queues t) →
  ∃ r' w' l, let t' := with_peers t (<[v := with_inbound vp (vp_inbound vp ++ [l])]> (t_peers t)) in
    stream_round peerID r (w, t) = Some (Ok (Some r', (w', t'))) ∧ remaining r' = rest ∧ fin r' = EOF ∧
    owns w' (used ++ queues t') ∧ content w' l = pkt ∧
    (∀ l', l' ∈ used ++ queues t → w_heap w' !! l' = w_heap w !! l').
Proof.
  intros Hr Hf Hb Hlen Hid Hv Hc Hroom Hw. assert (Hm : maxContentSize = 3600%nat) by done.
  assert (Ho : tunPacketOffset = 14%nat) by done. unfold AppendPacketToBuf in Hr. rewrite app_nil_l, <- app_assoc in Hr.
  unfold stream_round. destruct (GetTempPacket w) as [l w1] eqn:E1. unfold stream_packet.
  destruct (GetTempPacket_owns w l w1 _ Hw E1) as (Hw1 & _ & Hh1).
  set (n := Z.of_nat (length pkt)) in *. rewrite u64_small in Hr by lia.
  destruct (ReadUint64_frame r n (pkt ++ rest)) as (r1 & -> & Hr1 & Hf1 & _); [lia|done|].
  rewrite i64_small by lia.
  destruct (own_alloc w1 _ Hw1 l) as [p Hp]; [set_solver|].
  pose proof (own_heap w1 _ Hw1 l p Hp) as Hok.
  destruct (ReadFrom_spec (S (S (reads r1))) (w_heap w1) l p tunPacketOffset n r1) as (N' & r2 & E2 & Hr2 & Hf2 & _);
    [done|apply Hok|lia|lia|lia|left; congruence|lia|].
  assert (Ebs : take (Z.to_nat n) (remaining r1) = pkt).
  { rewrite Hr1. unfold n. rewrite Nat2Z.id, take_app_le, take_ge; lia || done. }
  rewrite Ebs in E2. rewrite E2, Hid. destruct (filled_ok p l pkt Hok Hb Hlen) as [Hfok Hfv].
  set (w2 := with_heap w1 (<[l := filled p l tunPacketOffset pkt]> (w_heap w1))).
  unfold send_inbound, peer_obj. rewrite Hv. cbn [or_panic mbind outcome_bind]. rewrite Hc, decide_True by done.
  cbn [mbind outcome_bind]. exists r2, w2, l. cbv zeta. split; [done|].
  split. { rewrite Hr2, Hr1. unfold n. rewrite Nat2Z.id, drop_app_ge, Nat.sub_diag, drop_0; lia || done. }
  split; [congruence|]. split; [|split].
  - destruct (queues_replace t v vp (with_inbound vp (vp_inbound vp ++ [l])) Hv) as (q & Hq1 & ->).
    assert (Hw2 : owns w2 (l :: used ++ queues t)).
    { apply owns_heap; [done|by apply heap_ok_insert; [apply Hw1|]|].
      intros l'. rewrite lookup_insert. case_decide as El; [|done]. rewrite <- El, Hp. by split; eexists. }
    rewrite Hq1 in Hw2. unfold vq in *. simpl. rewrite <- !app_assoc in *.
    rewrite (Permutation_app_swap_app _ [l]), (Permutation_app_swap_app _ [l]). exact Hw2.
  - unfold content, w2. simpl. rewrite lookup_insert_eq. simpl. apply Hfv.
  - intros l' Hl'. unfold w2. simpl. rewrite lookup_insert_ne; [by apply Hh1|]. intros ->.
    by apply (owns_head w1 l' (used ++ queues t)).
Qed.

Lemma stream_loop_frames peerID pkts : ∀ fuel r v vp w t used,
  (length pkts < fuel)%nat → remaining r = frames pkts → fin r = EOF →
  Forall (λ pkt, Forall is_byte pkt ∧ (tunPacketOffset + length pkt ≤ maxContentSize)%nat) pkts →
  peerIDToPeer t !! peerID = Some v → t_peers t !! v = Some vp → vp_closed vp = false →
  (length (vp_inbound vp) + length pkts ≤ packetHandlersChanCap)%nat → owns w (used ++ queues t) →
  ∃ w' ls, let t' := with_peers t (<[v := with_inbound vp (vp_inbound vp ++ ls)]> (t_peers t)) in
    stream_loop fuel peerID r (w, t) = Some (Ok (w', t')) ∧ owns w' (used ++ queues t') ∧
    content w' <$> ls = pkts ∧ (∀ l', l' ∈ used ++ queues t → content w' l' = content w l').
Proof.
  induction pkts as [|pkt pkts IH]; intros fuel r v vp w t used Hfuel Hr Hf Hall Hid Hv Hc Hroom Hw;
    (destruct fuel as [|fuel]; [simpl in Hfuel; lia|]); cbn [stream_loop].
  - unfold stream_round. destruct (GetTempPacket w) as [l w1] eqn:E1. unfold stream_packet.
    destruct (GetTempPacket_owns w l w1 _ Hw E1) as (Hw1 & _ & Hh1).
    destruct (ReadUint64_end r Hr Hf) as (r' & ->).
    exists (PutTempPacket l w1), []. rewrite app_nil_r. cbv zeta.
    assert (with_inbound vp (vp_inbound vp) = vp) as -> by by destruct vp. rewrite insert_id by done.
    assert (with_peers t (t_peers t) = t) as -> by by destruct t.
    split_and!; [done|by apply PutTempPacket_owns|done|].
    intros l' Hl'. apply content_same; [apply Hw|]. simpl. unfold clear_packet. rewrite lookup_alter_ne; [by apply Hh1|].
    intros ->. by apply (owns_head w1 l' (used ++ queues t)).
  - rewrite frames_cons in Hr. apply list.Forall_cons in Hall as [[Hb Hlen] Hall]. simpl in Hfuel, Hroom.
    destruct (stream_round_frame peerID r (frames pkts) pkt v vp w t used) as (r1 & w1 & l & -> & Hr1 & Hf1 & Hw1 & Hcont & Hsame);
      try done; [lia|].
    set (vp1 := with_inbound vp (vp_inbound vp ++ [l])) in *. set (t1 := with_peers t (<[v := vp1]> (t_peers t))) in *.
    destruct (IH fuel r1 v vp1 w1 t1 used) as (w2 & ls & -> & Hw2 & Hls & Hsame2); try done; [lia|apply lookup_insert_eq| |].
    { simpl. rewrite length_app. simpl. lia. }
    exists w2, (l :: ls). cbv zeta.
    assert (with_peers t1 (<[v := with_inbound vp1 (vp_inbound vp1 ++ ls)]> (t_peers t1))
            = with_peers t (<[v := with_inbound vp (vp_inbound vp ++ l :: ls)]> (t_peers t))) as Et.
    { unfold t1, vp1, with_peers, with_inbound. simpl. by rewrite insert_insert_eq, <- app_assoc. }
    rewrite Et in *. split_and!; [done|done| |].
    + rewrite fmap_cons, Hls. f_equal. rewrite Hsame2; [done|].
      destruct (queues_replace t v vp vp1 Hv) as (q & _ & Hq). fold t1 in Hq. rewrite Hq.
      unfold vq, vp1. simpl. rewrite !elem_of_app, list_elem_of_singleton. tauto.
    + intros l' Hl'. rewrite Hsame2.
      * apply content_same; [apply Hw|by apply Hsame].
      * destruct (queues_replace t v vp vp1 Hv) as (q & Hq1 & Hq). fold t1 in Hq. rewrite Hq. rewrite Hq1 in Hl'.
        unfold vq, vp1 in *. simpl. rewrite !elem_of_app in *. tauto.
Qed.
End stream.

(** C3. Packets framed with [AppendPacketToBuf] and sent over a stream, however the
    stream cuts them into reads, arrive through [StreamHandler] in the channel of the
    peer: the same packets, in order, once each, when the channel has room for them
    and no packet exceeds the buffer; the packets already queued keep their bytes. *)
Theorem stream_delivers_frames `{PoolPolicy} peerID pkts fuel r v vp w t used :
  (length pkts < fuel)%nat → remaining r = frames pkts → fin r = EOF →
  Forall (λ pkt, Forall is_byte pkt ∧ (tunPacketOffset + length pkt ≤ maxContentSize)%nat) pkts →
  tunnel_ok t → peerIDToPeer t !! peerID = Some v → t_peers t !! v = Some vp →
  (length (vp_inbound vp) + length pkts ≤ packetHandlersChanCap)%nat → owns w (used ++ queues t) →
  ∃ w' ls, let t' := with_peers t (<[v := with_inbound vp (vp_inbound vp ++ ls)]> (t_peers t)) in
    StreamHandler fuel peerID r (w, t) = Some (Ok (w', t')) ∧ owns w' (used ++ queues t') ∧
    content w' <$> ls = pkts ∧ (∀ l', l' ∈ used ++ queues t → content w' l' = content w l').
Proof.
  intros Hfuel Hr Hf Hall Ht Hid Hv Hroom Hw. unfold StreamHandler. cbn [snd]. rewrite Hid.
  destruct (ok_ids t Ht _ _ Hid) as (vp' & Hv' & _ & Hc). simplify_eq.
  by apply (stream_loop_frames peerID pkts fuel r v).
Qed.

(** ** Routing of packets from the interface *)

(** The destination of a packet object, and the channel it belongs to. *)
Definition dest (w : World) (l : loc) : bytes :=
  default [] ((λ p, view (w_heap w) (Dst p)) <$> w_heap w !! l).

Definition is_broadcast (t : Tunnel) (d : bytes) : bool := IP_Equal d (udpBroadcastAddr t) || IP_Equal d IPv4bcast.

Definition to_peer (w : World) (t : Tunnel) (v : vploc) (l : loc) : Prop := netIPToPeer t !! dest w l = Some v.

Global Instance to_peer_dec w t v l : Decision (to_peer w t v l).
Proof. unfold to_peer. apply _. Defined.

(** What the loop leaves in a slot. *)
Definition slot_after (w : World) (t : Tunnel) (slot : option loc) : option loc :=
  match slot with
  | None => None
  | Some l => match netIPToPeer t !! dest w l with Some _ => None | None => Some l end
  end.

Section routing.
Context `{PoolPolicy} (connected : string → bool) (order : nat → list vploc).

Lemma handle_packet_routes i w t l :
  tunnel_ok t → is_Some (w_heap w !! l) → is_broadcast t (dest w l) = false →
  (∀ v vp, t_peers t !! v = Some vp → length (vp_outbound vp) < packetHandlersChanCap)%nat →
  ∃ t', handle_packet connected (order i) (Some l) (w, t) = Ok (slot_after w t (Some l), (w, t')) ∧
    same_peers t t' ∧
    ∀ v vp, t_peers t !! v = Some vp →
      t_peers t' !! v = Some (with_outbound vp (vp_outbound vp ++ filter (to_peer w t v) [l])).
Proof.
  intros Ht [p Hp] Hb Hroom. cbn [handle_packet]. unfold deref. rewrite Hp. cbn [or_panic mbind outcome_bind].
  assert (dest w l = view (w_heap w) (Dst p)) as Hd by (unfold dest; by rewrite Hp).
  rewrite <- Hd. unfold is_broadcast in Hb. rewrite Hb. unfold slot_after.
  destruct (netIPToPeer t !! dest w l) as [v|] eqn:Ev.
  - destruct (netIP_open t _ v Ht Ev) as (vp & Hv & Hc). unfold send_outbound, peer_obj.
    rewrite Hv. cbn [or_panic mbind outcome_bind]. rewrite Hc, decide_True by (by eapply Hroom).
    cbn [mbind outcome_bind]. eexists. split; [reflexivity|].
    split; [by apply (same_peers_update t v vp)|]. intros u up Hu. cbn [t_peers with_peers].
    rewrite filter_cons, filter_nil. rewrite lookup_insert. destruct (decide (v = u)) as [<-|Hne].
    + simplify_eq. by rewrite decide_True.
    + rewrite decide_False by (unfold to_peer; congruence). rewrite app_nil_r. by destruct up.
  - exists t. split; [done|]. split; [apply same_peers_refl|]. intros u up Hu.
    rewrite filter_cons, filter_nil, decide_False by (unfold to_peer; congruence). rewrite app_nil_r. by destruct up.
Qed.

Lemma handle_packets_routes packets : ∀ i w t,
  tunnel_ok t → (∀ l, l ∈ held packets → is_Some (w_heap w !! l) ∧ is_broadcast t (dest w l) = false) →
  (∀ v vp, t_peers t !! v = Some vp → length (vp_outbound vp) + length packets ≤ packetHandlersChanCap)%nat →
  ∃ t', handle_packets connected order i packets (w, t) = Ok (slot_after w t <$> packets, (w, t')) ∧
    same_peers t t' ∧
    ∀ v vp, t_peers t !! v = Some vp →
      t_peers t' !! v = Some (with_outbound vp (vp_outbound vp ++ filter (to_peer w t v) (held packets))).
Proof.
  induction packets as [|[l|] packets IH]; intros i w t Ht Hl Hroom; cbn [handle_packets].
  - exists t. split; [done|]. split; [apply same_peers_refl|]. intros v vp Hv. simpl. rewrite app_nil_r. by destruct vp.
  - destruct (Hl l) as [Hs Hb]; [set_solver|].
    destruct (handle_packet_routes i w t l Ht Hs Hb) as (t1 & -> & Hs1 & Hq1).
    { intros v vp Hv. specialize (Hroom v vp Hv). simpl in Hroom. lia. }
    cbn [mbind outcome_bind].
    assert (Hsl : ∀ o, slot_after w t1 o = slot_after w t o) by (intros [?|]; simpl; by rewrite ?(sp_ips _ _ Hs1)).
    destruct (IH (S i) w t1) as (t2 & -> & Hs2 & Hq2).
    { by apply (sp_ok _ _ Hs1). }
    { intros l' Hl'. destruct (Hl l') as [? Hb']; [set_solver|]. split; [done|].
      unfold is_broadcast. by rewrite (sp_bcast _ _ Hs1). }
    { intros v vp1 Hv1. destruct (sp_back _ _ Hs1 v) as [vp Hv]; [by eexists|].
      rewrite (Hq1 v vp Hv) in Hv1. injection Hv1 as <-. specialize (Hroom v vp Hv). simpl in *.
      rewrite length_app. pose proof (length_filter (to_peer w t v) [l]). simpl in *. lia. }
    cbn [mbind outcome_bind]. exists t2. split_and!.
    + rewrite fmap_cons. do 2 f_equal. f_equal. by apply list_fmap_ext.
    + by eapply same_peers_trans.
    + intros v vp Hv. rewrite (Hq2 v _ (Hq1 v vp Hv)). f_equal. unfold with_outbound. cbn [vp_peerID vp_localIP vp_inbound vp_outbound vp_closed]. f_equal.
      change (held (Some l :: packets)) with ([l] ++ held packets). rewrite list.filter_app, app_assoc. f_equal.
      apply list_filter_iff. intros l'. unfold to_peer. by rewrite (sp_ips _ _ Hs1).
  - cbn [handle_packet mbind outcome_bind].
    destruct (IH (S i) w t Ht Hl) as (t2 & -> & Hs2 & Hq2); [intros v vp Hv; specialize (Hroom v vp Hv); simpl in Hroom; lia|].
    cbn [mbind outcome_bind]. by exists t2.
Qed.
End routing.

(** C4. Packets read from the interface for single peers end up in the channel of
    the peer that has the destination address and in no other: each channel grows by
    exactly the packets addressed to it, in the order they were read, their slots are
    emptied, and packets for unknown addresses stay in their slots. *)
Theorem packets_routed_by_destination `{PoolPolicy} connected order packets w t :
  tunnel_ok t → t_isClosed t = false →
  (∀ l, l ∈ held packets → is_Some (w_heap w !! l) ∧ is_broadcast t (dest w l) = false) →
  (∀ v vp, t_peers t !! v = Some vp → length (vp_outbound vp) + length packets ≤ packetHandlersChanCap)%nat →
  ∃ t', HandleReadPackets connected order packets (w, t) = Ok (slot_after w t <$> packets, (w, t')) ∧
    netIPToPeer t' = netIPToPeer t ∧ peerIDToPeer t' = peerIDToPeer t ∧
    ∀ v vp, t_peers t !! v = Some vp →
      t_peers t' !! v = Some (with_outbound vp (vp_outbound vp ++ filter (to_peer w t v) (held packets))).
Proof.
  intros Ht Hc Hl Hroom. unfold HandleReadPackets. cbn [snd]. rewrite Hc.
  destruct (handle_packets_routes connected order packets 0 w t Ht Hl Hroom) as (t' & E & [] & Hq).
  by exists t'.
Qed.

(** ** Sample tunnels *)

#[local] Existing Instance toy_codec.

Definition empty_world : World := mkWorld ∅ [] 0 [].
Definition first_free : PoolPolicy := λ pool, match pool with [] => None | _ => Some 0%nat end.

Definition peer_at (id ip : string) : KnownPeer := sample_peer id "" id ip "".
Definition conf_peers (l : list (string * string)) : Config :=
  conf_with (list_to_map ((λ e, (e.1, peer_at e.1 e.2)) <$> l)).

(** The tunnel of a daemon that knows peer b at 10.66.0.3. *)
Definition tunnel_b : outcome State :=
  NewTunnel (conf_peers [("b", "10.66.0.3")]) [peer_at "b" "10.66.0.3"] [0%nat] empty_world.

Definition routes (r : outcome State) : list (bytes * string) :=
  match r with
  | Ok (_, t) => (λ e, (e.1, default "" (vp_peerID <$> t_peers t !! e.2))) <$> map_to_list (netIPToPeer t)
  | _ => []
  end.

(** When a peer is replaced by another one with its address before the tunnel
    refreshes, the refresh drops the route of the new peer: the second loop deletes
    the address of the removed peer, which by then is the route of the new one. The
    new peer is in the table of peers, but no packet reaches it. *)
Theorem refresh_loses_reused_address :
  let c := conf_peers [("c", "10.66.0.3")] in
  let after := '(w, t) ← tunnel_b; RefreshPeersList c (known_list c) [0%nat; 1%nat] (w, t) in
  routes tunnel_b = [([10; 66; 0; 3], "b")] ∧
  routable c ∧ routes after = [] ∧
  (∃ w t, after = Ok (w, t) ∧ peerIDToPeer t !! "c" = Some 1%nat ∧ visits t [1%nat]).
Proof.
  split; [vm_compute; reflexivity|]. split.
  { constructor.
    - intros key k Hk. change (KnownPeers (conf_peers [("c", "10.66.0.3")])) with
        ({[ "c" := peer_at "c" "10.66.0.3" ]} : gmap string KnownPeer) in Hk.
      apply lookup_singleton_Some in Hk as [<- <-]. reflexivity.
    - intros key k Hk. change (KnownPeers (conf_peers [("c", "10.66.0.3")])) with
        ({[ "c" := peer_at "c" "10.66.0.3" ]} : gmap string KnownPeer) in Hk.
      apply lookup_singleton_Some in Hk as [<- <-]. discriminate.
    - intros key k key' k' Hk Hk'. change (KnownPeers (conf_peers [("c", "10.66.0.3")])) with
        ({[ "c" := peer_at "c" "10.66.0.3" ]} : gmap string KnownPeer) in Hk, Hk'.
      apply lookup_singleton_Some in Hk as [<- _], Hk' as [<- _]. reflexivity. }
  split; [vm_compute; reflexivity|].
  eexists _, _. split; [vm_compute; reflexivity|]. split; vm_compute; reflexivity.
Qed.

Definition vp_b : VpnPeer := NewVpnPeer "b" [10; 66; 0; 3].
Definition t_empty : Tunnel := mkTunnel ∅ 0 false ∅ ∅ [10; 66; 0; 255].
Definition t_b : Tunnel :=
  mkTunnel {[ 0%nat := vp_b ]} 1 false {[ "b" := 0%nat ]} {[ [10; 66; 0; 3] := 0%nat ]} [10; 66; 0; 255].

Lemma t_empty_ok : tunnel_ok t_empty.
Proof. constructor; simpl; intros *; rewrite ?lookup_empty; try done. Defined.

Lemma t_b_ok : tunnel_ok t_b.
Proof.
  constructor; simpl.
  - intros id v [<- <-]%lookup_singleton_Some. exists vp_b. by rewrite lookup_singleton_eq.
  - intros ip v [<- <-]%lookup_singleton_Some. exists vp_b. by rewrite !lookup_singleton_eq.
  - intros v [vp [<- _]%lookup_singleton_Some]. lia.
  - intros v vp [_ <-]%lookup_singleton_Some. split; [done|by apply sample_bytes].
Defined.

Lemma empty_world_owns : owns empty_world [].
Proof.
  constructor; simpl.
  - constructor.
  - intros l Hl. by apply not_elem_of_nil in Hl.
  - intros l [? Hl]. by rewrite lookup_empty in Hl.
  - intros l p Hl. by rewrite lookup_empty in Hl.
  - intros l [? Hl]. by rewrite lookup_empty in Hl.
Defined.

Lemma refresh_routes_known_peers_witness :
  ∃ w' t', RefreshPeersList (conf_peers [("b", "10.66.0.3")]) [peer_at "b" "10.66.0.3"] [0%nat] (empty_world, t_empty)
             = Ok (w', t') ∧ complete t'.
Proof.
  assert (Hsome : ∀ key k, KnownPeers (conf_peers [("b", "10.66.0.3")]) !! key = Some k →
    "b" = key ∧ peer_at "b" "10.66.0.3" = k).
  { intros key k Hk. apply (lookup_singleton_Some "b" key (peer_at "b" "10.66.0.3") k). exact Hk. }
  destruct (refresh_routes_known_peers (H := toy_codec) (conf_peers [("b", "10.66.0.3")]) [peer_at "b" "10.66.0.3"] [0%nat]
    empty_world t_empty []) as (w' & t' & E & _ & Hc & _); [..|by exists w', t'].
  - constructor.
    + intros key k [<- <-]%Hsome. reflexivity.
    + intros key k [<- <-]%Hsome. discriminate.
    + intros key k key' k' [<- _]%Hsome [<- _]%Hsome _. reflexivity.
  - exact t_empty_ok.
  - intros v vp [Hv _]. simpl in Hv. by rewrite lookup_empty in Hv.
  - exact empty_world_owns.
  - vm_compute. reflexivity.
  - repeat constructor. intros v vp [Hv _]. simpl in Hv. by rewrite lookup_empty in Hv.
  - intros t1 E. vm_compute in E. injection E as <-. vm_compute. reflexivity.
Defined.

Definition any_order : BroadcastOrder := {| border m _ := (map_to_list m).*2; border_visits m _ := reflexivity _ |}.

(** One read delivers a packet for the peer b, then the interface is closed. *)
Definition pkt_to_b : bytes :=
  [0x45; 0; 0; 20; 0; 1; 0; 0; 64; 1; 0; 0; 10; 66; 0; 1; 10; 66; 0; 3].

Lemma pkt_to_b_frame : Forall (λ pkt, Forall is_byte pkt ∧ (tunPacketOffset + length pkt ≤ maxContentSize)%nat) [pkt_to_b].
Proof.
  constructor; [|constructor]. split; [by apply sample_bytes|]. apply (bool_decide_unpack _). vm_compute. exact I.
Qed.

Lemma pkt_to_b_read : Forall (λ r, reads_ok 2 r.1) [([(pkt_to_b, 20%nat)], Some Closed)].
Proof.
  constructor; [|constructor]. split; [cbn; lia|]. constructor; [|constructor].
  split; [by apply sample_bytes|]. apply (bool_decide_unpack _). vm_compute. exact I.
Qed.

Lemma tun_loop_safe_witness :
  ∃ packets' w' t',
    ReadTUNPackets (λ ps st, HandleReadPackets (H := first_free) (λ _, true) (@border any_order (netIPToPeer st.2)) ps st)
      (H := first_free) [None; None] [([(pkt_to_b, 20%nat)], Some Closed)] (empty_world, t_b) = Ok (packets', (w', t')) ∧
    owns w' (held packets' ++ queues t').
Proof.
  destruct (tun_loop_safe (H := first_free) (H0 := any_order) (λ _, true) [None; None] [([(pkt_to_b, 20%nat)], Some Closed)]
    empty_world t_b t_b_ok) as (ps & w' & t' & E & _ & Ho); [exact empty_world_owns| |by exists ps, w', t'].
  exact pkt_to_b_read.
Defined.

Lemma stream_delivers_frames_witness :
  ∃ w' ls, StreamHandler (H := first_free) 2 "b" (mkReader [take 11 (frames [pkt_to_b]); drop 11 (frames [pkt_to_b])] EOF true)
             (empty_world, t_b) = Some (Ok (w', with_peers t_b (<[0%nat := with_inbound vp_b ls]> (t_peers t_b)))) ∧
    content w' <$> ls = [pkt_to_b].
Proof.
  destruct (stream_delivers_frames (H := first_free) "b" [pkt_to_b] 2
    (mkReader [take 11 (frames [pkt_to_b]); drop 11 (frames [pkt_to_b])] EOF true) 0 vp_b empty_world t_b [])
    as (w' & ls & E & _ & Hls & _); [simpl; lia|reflexivity|reflexivity| |exact t_b_ok|reflexivity|reflexivity| |exact empty_world_owns|].
  - exact pkt_to_b_frame.
  - apply (bool_decide_unpack _). vm_compute. exact I.
  - exists w', ls. split; [exact E|exact Hls].
Defined.

Lemma packets_routed_by_destination_witness :
  ∃ t', HandleReadPackets (H := first_free) (λ _, true) (λ _, [])
          [Some 0%nat; None] (mkWorld {[ 0%nat := sample_obj 0 pkt_to_b ]} [] 1 [], t_b)
        = Ok ([None; None], (mkWorld {[ 0%nat := sample_obj 0 pkt_to_b ]} [] 1 [], t')) ∧
    t_peers t' !! 0%nat = Some (with_outbound vp_b [0%nat]).
Proof.
  destruct (packets_routed_by_destination (H := first_free) (λ _, true) (λ _, []) [Some 0%nat; None]
    (mkWorld {[ 0%nat := sample_obj 0 pkt_to_b ]} [] 1 []) t_b t_b_ok) as (t' & E & _ & _ & Hq); [reflexivity| | |].
  - intros l ->%list_elem_of_singleton. split; [by eexists|]. vm_compute. reflexivity.
  - intros v vp Hv. simpl in Hv. apply lookup_singleton_Some in Hv as [_ <-]. apply (bool_decide_unpack _). vm_compute. exact I.
  - exists t'. split; [exact E|]. rewrite (Hq 0%nat vp_b) by reflexivity. vm_compute. reflexivity.
Defined.
