(* ===== verification/TunnelPeers.v ===== *)
(** * The goroutines of a tunnel peer (src/service/tunnel.go)

    [backgroundOutboundHandler] and [backgroundInboundHandler] as the rounds they
    make: what they take from a channel, what they write to the stream or to the
    interface, and which packet objects they release. *)

From S2P Require Import Prelude GoNet GoIO Packet Device Protocol Externals Config Tunnel.
Local Open Scope Z_scope.

(** [readBatchFromChan]: [i] slots of [buf] are used; the packets that fit the rest
    are taken from the channel. *)
Fixpoint readBatchFromChan (ch : list loc) (buf : list loc) (len : nat) : list loc * list loc :=
  if decide (length buf = len) then (buf, ch)
  else match ch with
       | [] => (buf, [])
       | packet :: ch => readBatchFromChan ch (buf ++ [packet]) len
       end.

Lemma readBatchFromChan_spec ch : ∀ buf len, (length buf ≤ len)%nat →
  readBatchFromChan ch buf len = (buf ++ take (len - length buf) ch, drop (len - length buf) ch).
Proof.
  induction ch as [|p ch IH]; intros buf len Hl; simpl.
  - rewrite take_nil, drop_nil, app_nil_r. by case_decide.
  - case_decide as E; [rewrite E, Nat.sub_diag; simpl; by rewrite app_nil_r|].
    rewrite IH by (rewrite length_app; simpl; lia). rewrite length_app. simpl.
    replace (len - length buf)%nat with (S (len - (length buf + 1))) by lia. simpl. by rewrite <- app_assoc.
Qed.

(** ** To the peer *)

Definition maxPacketsPerUnlimitedStream : Z := Z.shiftl 5 30 / Z.of_nat InterfaceMTU.
Definition maxPacketsPerLimitedStream : Z := Z.shiftl 20 20 / Z.of_nat InterfaceMTU.
Definition packetsBatchSize : nat := 100.

(** The variables of [backgroundOutboundHandler]: the stream, if there is one, with
    its [Limited] flag. *)
Record OutState := mkOut {
  os_stream : option bool;
  os_maxPacketsPerStream : Z;
  os_currentPacketsForStream : Z;
}.

Definition initial_out : OutState := mkOut None 0 0.

(** What happens to streams. *)
Inductive stream_event :=
  | Opened (limited : bool)
  | Wrote (packets : list bytes) (data : bytes)
  | ClosedStream.

(** What the network answers to a round: whether the peer is connected, the stream
    [makeTunnelStream] opens (none if it fails), and whether the write succeeds. *)
Record OutEnv := mkOutEnv { oe_connected : bool; oe_open : option bool; oe_write_ok : bool }.

(** [makeTunnelStream]: connecting, then opening a stream on a connection of its own or
    on the shared one, as configured; the streams are what [p2p] returns. *)
Definition makeTunnelStream (connect_ok UseDedicatedConnForEachStream : bool)
    (newStream newStreamWithDedicatedConn : option bool) : option bool :=
  if connect_ok then
    if UseDedicatedConnForEachStream then newStreamWithDedicatedConn else newStream
  else None.

(** [closeStream]. *)
Definition closeStream (s : OutState) : OutState * list stream_event :=
  (mkOut None (os_maxPacketsPerStream s) 0, match os_stream s with Some _ => [ClosedStream] | None => [] end).

Definition stream_limit (limited : bool) : Z :=
  if limited then maxPacketsPerLimitedStream else maxPacketsPerUnlimitedStream.

(** [sendPacket]: the new state, the events and whether it failed. *)
Definition sendPacket (env : OutEnv) (packets : list bytes) (s : OutState) : OutState * list stream_event * bool :=
  let opened :=
    match os_stream s with
    | Some _ => Some (s, [])
    | None => match oe_open env with
              | None => None
              | Some limited => Some (mkOut (Some limited) (stream_limit limited) (os_currentPacketsForStream s),
                                      [Opened limited])
              end
    end in
  match opened with
  | None => (s, [], true)
  | Some (s, evs) => (s, evs ++ [Wrote packets (frames packets)], negb (oe_write_ok env))
  end.

(** A batch of packets, from the check of the connection to the release. *)
Definition outbound_batch (env : OutEnv) (packets : list bytes) (s : OutState) : OutState * list stream_event :=
  if negb (oe_connected env) then (s, [])
  else
    let n := Z.of_nat (length packets) in
    let '(s, e1) := if decide (os_maxPacketsPerStream s ≤ os_currentPacketsForStream s + n)
                    then closeStream s else (s, []) in
    let s := mkOut (os_stream s) (os_maxPacketsPerStream s) (os_currentPacketsForStream s + n) in
    let '(s, e2, failed) := sendPacket env packets s in
    let '(s, e3) := if (failed : bool) then closeStream s else (s, []) in
    (s, e1 ++ e2 ++ e3).

(** What the handler does with a batch it has taken from the channel: it is sent, and
    [clearTempPackets] releases it. *)
Definition outbound_send (env : OutEnv) (packetsBatch : list loc) (s : OutState) (w : World)
    : OutState * list stream_event * World :=
  let '(s, evs) := outbound_batch env (content w <$> packetsBatch) s in
  (s, evs, foldl (λ w l, PutTempPacket l w) w packetsBatch).

(** A round of the handler on the channel of the peer [v]: [None] when it is empty. *)
Definition outbound_round (v : vploc) (env : OutEnv) (s : OutState) (st : State)
    : option (OutState * list stream_event * State) :=
  let '(w, t) := st in
  vp ← t_peers t !! v;
  match vp_outbound vp with
  | [] => None
  | packet :: ch =>
      let '(packetsBatch, ch) := readBatchFromChan ch [packet] packetsBatchSize in
      let t := with_peers t (<[v := with_outbound vp ch]> (t_peers t)) in
      let '(s, evs, w) := outbound_send env packetsBatch s w in
      Some (s, evs, (w, t))
  end.

(** The tick of the idle timer. *)
Definition outbound_idle (queueEmpty : bool) (s : OutState) : OutState * list stream_event :=
  if queueEmpty then closeStream s else (s, []).

(** ** From the peer *)

(** The loop of [backgroundInboundHandler] that parses the batch in place: invalid
    packets are released and their slot is set to nil, valid ones are moved to the
    front; [newLen] counts them. *)
Fixpoint parse_batch (n i : nat) (packetsBatch : list (option loc)) (newLen : nat) (w : World)
    : outcome (list (option loc) * nat * World) :=
  match n with
  | O => Ok (packetsBatch, newLen, w)
  | S n =>
      packet ← or_panic (slot ← packetsBatch !! i; slot);
      '(ok, h) ← Parse (w_heap w) packet;
      if (ok : bool) then
        parse_batch n (S i) (<[newLen := Some packet]> packetsBatch) (S newLen) (with_heap w h)
      else
        parse_batch n (S i) (<[i := None]> packetsBatch) newLen (PutTempPacket packet (with_heap w h))
  end.

(** The loop that releases what is left in the batch. *)
Fixpoint release_batch (packetsBatch : list (option loc)) (w : World) : World :=
  match packetsBatch with
  | [] => w
  | None :: packetsBatch => release_batch packetsBatch w
  | Some packet :: packetsBatch => release_batch packetsBatch (PutTempPacket packet w)
  end.

(** What [backgroundInboundHandler] does with a batch it has taken from the channel:
    it is parsed, written to the interface and released. *)
Definition inbound_write (d : Device) (localIP : bytes) (batch : list loc) (tun_err : bool) (w : World) : outcome World :=
  '(packetsBatch, newLen, w) ← parse_batch (length batch) 0 (Some <$> batch) 0 w;
  let filteredPackets := omap id (take newLen packetsBatch) in
  w ← (if decide (0 < newLen)%nat
       then '(w, _) ← WritePacketsBatch d filteredPackets localIP tun_err w; Ok w
       else Ok w);
  Ok (release_batch packetsBatch w).

(** A round of [backgroundInboundHandler]: [None] when the channel is empty. *)
Definition inbound_round (d : Device) (batchSize : nat) (v : vploc) (tun_err : bool) (st : State)
    : option (outcome State) :=
  let '(w, t) := st in
  vp ← t_peers t !! v;
  match vp_inbound vp with
  | [] => None
  | firstPacket :: ch =>
      let localIP := vp_localIP vp in
      let '(batch, ch) := readBatchFromChan ch [firstPacket] batchSize in
      let t := with_peers t (<[v := with_inbound vp ch]> (t_peers t)) in
      Some (w ← inbound_write d localIP batch tun_err w; Ok (w, t))
  end.

(** ** The limit on streams *)

(** A log of stream events is well formed when streams are used one after another,
    and no stream carries as many packets as its limit. The state is the open stream
    with the number of packets written to it. *)
Definition log_step (cur : option (bool * Z)) (e : stream_event) : option (option (bool * Z)) :=
  match e, cur with
  | Opened limited, None => Some (Some (limited, 0))
  | Wrote packets _, Some (limited, n) =>
      let n := n + Z.of_nat (length packets) in
      if decide (n < stream_limit limited) then Some (Some (limited, n)) else None
  | ClosedStream, Some _ => Some None
  | _, _ => None
  end.

Fixpoint log_run (cur : option (bool * Z)) (evs : list stream_event) : option (option (bool * Z)) :=
  match evs with
  | [] => Some cur
  | e :: evs => match log_step cur e with Some cur => log_run cur evs | None => None end
  end.

Lemma log_run_app cur e1 e2 : log_run cur (e1 ++ e2) = (cur' ← log_run cur e1; log_run cur' e2).
Proof. revert cur. induction e1 as [|e e1 IH]; intros cur; simpl; [done|]. destruct (log_step cur e); simpl; auto. Qed.

(** The variables of the handler against the open stream of the log. *)
Definition out_inv (s : OutState) (cur : option (bool * Z)) : Prop :=
  match os_stream s, cur with
  | None, None => os_currentPacketsForStream s = 0
  | Some limited, Some (limited', n) =>
      limited = limited' ∧ os_maxPacketsPerStream s = stream_limit limited ∧
      0 ≤ n ≤ os_currentPacketsForStream s
  | _, _ => False
  end.

(** The inputs of the handler: batches of at most [packetsBatchSize] packets and ticks. *)
Inductive out_input :=
  | InBatch (env : OutEnv) (packets : list bytes)
  | InTick (queueEmpty : bool).

Definition out_step (i : out_input) (s : OutState) : OutState * list stream_event :=
  match i with
  | InBatch env packets => outbound_batch env packets s
  | InTick queueEmpty => outbound_idle queueEmpty s
  end.

Fixpoint out_run (inputs : list out_input) (s : OutState) : list stream_event :=
  match inputs with
  | [] => []
  | i :: inputs => let '(s, evs) := out_step i s in evs ++ out_run inputs s
  end.

Definition batch_ok (i : out_input) : Prop :=
  match i with InBatch _ packets => (length packets ≤ packetsBatchSize)%nat | InTick _ => True end.

Lemma close_inv s cur : out_inv s cur →
  ∃ cur', log_run cur (closeStream s).2 = Some cur' ∧ out_inv (closeStream s).1 cur' ∧ cur' = None.
Proof.
  unfold out_inv, closeStream. destruct s as [[lim|] mx n], cur as [[l' m]|]; simpl; try done; intros; by exists None.
Qed.

Lemma stream_limit_large limited : Z.of_nat packetsBatchSize < stream_limit limited.
Proof. destruct limited; vm_compute; reflexivity. Qed.

Lemma log_wrote limited n packets data :
  n + Z.of_nat (length packets) < stream_limit limited →
  log_step (Some (limited, n)) (Wrote packets data) = Some (Some (limited, n + Z.of_nat (length packets))).
Proof. intros Hn. simpl. by rewrite decide_True. Qed.

Lemma send_inv env packets s cur :
  out_inv s cur → (length packets ≤ packetsBatchSize)%nat →
  (os_stream s ≠ None → os_currentPacketsForStream s + Z.of_nat (length packets) < os_maxPacketsPerStream s) →
  let s1 := mkOut (os_stream s) (os_maxPacketsPerStream s) (os_currentPacketsForStream s + Z.of_nat (length packets)) in
  let '(s2, evs, failed) := sendPacket env packets s1 in
  ∃ cur', log_run cur evs = Some cur' ∧ (out_inv s2 cur' ∨ cur' = None ∧ os_stream s2 = None ∧ failed = true).
Proof.
  intros Hinv Hlen Hlim. pose proof stream_limit_large as Hlarge.
  destruct s as [[lim|] mx n], cur as [[l' m]|]; unfold out_inv in Hinv; simpl in Hinv; try done;
    unfold sendPacket; cbn [os_stream os_maxPacketsPerStream os_currentPacketsForStream] in *.
  - destruct Hinv as (-> & -> & Hm). specialize (Hlim ltac:(done)).
    exists (Some (l', m + Z.of_nat (length packets))). split.
    + cbn [app log_run]. rewrite log_wrote by lia. done.
    + left. unfold out_inv. simpl. split_and!; [done|done|lia|lia].
  - destruct (oe_open env) as [limited|]; cbn [app].
    + exists (Some (limited, 0 + Z.of_nat (length packets))). split.
      * cbn [log_run log_step]. rewrite decide_True by (specialize (Hlarge limited); lia). done.
      * left. unfold out_inv. simpl. split_and!; [done|done|lia|lia].
    + exists None. split; [done|by right].
Qed.

Lemma out_step_inv i s cur : out_inv s cur → batch_ok i →
  ∃ cur', log_run cur (out_step i s).2 = Some cur' ∧ out_inv (out_step i s).1 cur'.
Proof.
  intros Hinv Hb. destruct i as [env packets|queueEmpty]; simpl in *.
  2: { unfold outbound_idle. destruct queueEmpty; [|by exists cur].
       destruct (close_inv s cur Hinv) as (cur' & ? & ? & _). by exists cur'. }
  unfold outbound_batch. destruct (oe_connected env); simpl; [|by exists cur].
  assert (∃ s1 e1 cur1, (if decide (os_maxPacketsPerStream s ≤ os_currentPacketsForStream s + Z.of_nat (length packets))
                    then closeStream s else (s, [])) = (s1, e1) ∧ log_run cur e1 = Some cur1 ∧ out_inv s1 cur1 ∧
          (os_stream s1 ≠ None → os_currentPacketsForStream s1 + Z.of_nat (length packets) < os_maxPacketsPerStream s1))
    as (s1 & e1 & cur1 & -> & Hr1 & Hinv1 & Hlim).
  { case_decide.
    - destruct (close_inv s cur Hinv) as (cur1 & Hr & Hi & ->). destruct (closeStream s) as [s1 e1] eqn:E.
      exists s1, e1, None. split_and!; try done. unfold closeStream in E. injection E as <- _. done.
    - exists s, [], cur. split_and!; try done. lia. }
  pose proof (send_inv env packets s1 cur1 Hinv1 Hb Hlim) as Hsend. cbv zeta in Hsend.
  destruct (sendPacket env packets _) as [[s2 e2] failed] eqn:Es. destruct Hsend as (cur2 & Hr2 & Hinv2).
  destruct failed.
  - destruct Hinv2 as [Hinv2|(-> & Hn & _)].
    + destruct (close_inv s2 cur2 Hinv2) as (cur3 & Hr3 & Hinv3 & _). destruct (closeStream s2) as [s3 e3]. simpl in *.
      exists cur3. rewrite log_run_app, Hr1. simpl. rewrite log_run_app, Hr2. simpl. by rewrite Hr3.
    + unfold closeStream. rewrite Hn. simpl. exists None. rewrite log_run_app, Hr1. simpl. by rewrite log_run_app, Hr2.
  - destruct Hinv2 as [Hinv2|(_ & _ & [=])]. simpl. exists cur2.
    rewrite app_nil_r, log_run_app, Hr1. simpl. by rewrite Hr2.
Qed.

(** C37. Whatever batches, ticks, failures and kinds of streams come, the sending
    goroutine uses its streams one after another and never writes as many packets to
    one as its limit: fewer than 5991 on a limited stream and fewer than 1533916 on
    another. *)
Theorem packets_per_stream_bounded inputs :
  Forall batch_ok inputs → is_Some (log_run None (out_run inputs initial_out)) ∧
  maxPacketsPerLimitedStream = 5991 ∧ maxPacketsPerUnlimitedStream = 1533916.
Proof.
  intros Hall. split; [|split; vm_compute; reflexivity].
  assert (∀ s cur, out_inv s cur → is_Some (log_run cur (out_run inputs s))) as H; [|by apply H].
  induction Hall as [|i inputs Hi Hall IH]; intros s cur Hinv; [by eexists|]. simpl.
  destruct (out_step_inv i s cur Hinv Hi) as (cur' & Hr & Hinv'). destruct (out_step i s) as [s' evs]. simpl in *.
  rewrite log_run_app, Hr. simpl. by apply IH.
Qed.

Lemma packets_per_stream_bounded_witness :
  is_Some (log_run None (out_run [InBatch (mkOutEnv true (Some true) true) [[1]; [2]]; InTick true] initial_out)).
Proof.
  apply (packets_per_stream_bounded [InBatch (mkOutEnv true (Some true) true) [[1]; [2]]; InTick true]).
  repeat constructor.
Defined.

(** The limit counts packets of the interface size without their length prefix:
    5990 packets of 3500 bytes are allowed on a limited stream, and their frames are
    longer than the 20 MiB the limit stands for. *)
Theorem limited_stream_exceeds_20MiB packets :
  length packets = Z.to_nat 5990 → Forall (λ p, length p = InterfaceMTU) packets →
  Z.of_nat (length packets) < maxPacketsPerLimitedStream ∧
  20 * 2 ^ 20 < Z.of_nat (length (frames packets)).
Proof.
  intros Hn Hall. assert (sum_list (length <$> packets) = (length packets * InterfaceMTU)%nat) as E.
  { clear Hn. induction Hall as [|p ps Hp _ IH]; [done|].
    change (sum_list (length <$> p :: ps)) with (length p + sum_list (length <$> ps))%nat.
    rewrite Hp, IH. cbn [length]. lia. }
  rewrite length_frames, E, Hn. split; [vm_compute; reflexivity|]. unfold InterfaceMTU.
  rewrite Nat2Z.inj_add, !Nat2Z.inj_mul, !Z2Nat.id by lia. lia.
Qed.

Lemma limited_stream_exceeds_20MiB_witness :
  20 * 2 ^ 20 < Z.of_nat (length (frames (replicate (Z.to_nat 5990) (replicate InterfaceMTU 0)))).
Proof.
  apply limited_stream_exceeds_20MiB.
  - apply length_replicate.
  - apply Forall_replicate. apply length_replicate.
Defined.

(** ** Batches from a peer *)

(** An object that was filled from a stream with a complete IPv4 packet. *)
Definition fresh4 (h : heap) (l : loc) : Prop :=
  ∃ p n, h !! l = Some p ∧ received p l n ∧ parses4 (view h (Packet p)) ∧ complete4 (view h (Packet p)).

(** An object that was filled with something that is not a packet. *)
Definition invalid (h : heap) (l : loc) : Prop :=
  ∃ p n, h !! l = Some p ∧ received p l n ∧ ¬ parses4 (view h (Packet p)) ∧ ¬ parses6 (view h (Packet p)).

Lemma parses4_not6 pkt : parses4 pkt → ¬ parses6 pkt.
Proof. unfold parses4, parses6. intros [E _] [E' _]. congruence. Qed.

Lemma view_same h h' l p n : received p l n → h' !! l = h !! l → view h' (Packet p) = view h (Packet p).
Proof. intros [_ _ EP _] E. rewrite EP. unfold view, buffer. by rewrite E. Qed.

Lemma fresh4_same h h' l : h' !! l = h !! l → fresh4 h l → fresh4 h' l.
Proof. intros E (p & n & Hp & Hr & H1 & H2). exists p, n. rewrite E, !(view_same h h' l p n Hr E). done. Qed.

Lemma packet4_received p l n : packet4 p l n → received p l n.
Proof. intros []. by constructor. Qed.

Lemma ready4_same h h' l : h' !! l = h !! l → ready4 h l → ready4 h' l.
Proof.
  intros E (p & n & Hp & H4 & Hc). exists p, n.
  rewrite E, (view_same h h' l p n (packet4_received p l n H4) E). done.
Qed.

Lemma Parse_fresh4 h l : fresh4 h l →
  ∃ p p', Parse h l = Ok (true, <[l := p']> h) ∧ ready4 (<[l := p']> h) l ∧ obj_ok l p' ∧
    h !! l = Some p ∧ view (<[l := p']> h) (Packet p') = view h (Packet p).
Proof.
  intros (p & n & Hp & Hr & H4 & Hc).
  destruct (Parse_spec h l p n Hp Hr) as [(_ & p' & E & Hp4 & Hb & _)|[(H6 & _)|(Hn & _)]];
    [|by destruct (parses4_not6 _ H4)|done].
  assert (view (<[l := p']> h) (Packet p') = view h (Packet p)) as Hv.
  { rewrite (p4_Packet _ _ _ Hp4), (view_of _ l p') by apply lookup_insert_eq. rewrite Hb.
    by destruct (received_view h l p n Hp Hr) as [<- _]. }
  exists p, p'. split; [done|]. split; [|split; [by eapply packet4_ok|done]].
  exists p', n. rewrite lookup_insert_eq, Hv. done.
Qed.

Lemma Parse_invalid h l : invalid h l → Parse h l = Ok (false, h).
Proof.
  intros (p & n & Hp & Hr & H4 & H6).
  by destruct (Parse_spec h l p n Hp Hr) as [(? & _)|[(? & _)|(_ & _ & E)]].
Qed.

Lemma owns_insert w l p used : owns w used → l ∈ used → obj_ok l p →
  owns (with_heap w (<[l := p]> (w_heap w))) used.
Proof.
  intros Hw Hl Hp. apply owns_heap; [done|by apply heap_ok_insert; [apply Hw|]|].
  intros l'. rewrite lookup_insert. case_decide as E; [|done]. subst. split; [|by eexists].
  intros _. apply (own_alloc _ _ Hw). set_solver.
Qed.

(** A batch of valid packets stays in place. *)
Lemma parse_batch_valid todo : ∀ done_ w used,
  NoDup (done_ ++ todo) → (∀ l, l ∈ done_ → ready4 (w_heap w) l) → (∀ l, l ∈ todo → fresh4 (w_heap w) l) →
  owns w used → (∀ l, l ∈ todo → l ∈ used) →
  ∃ w', parse_batch (length todo) (length done_) (Some <$> done_ ++ todo) (length done_) w
          = Ok (Some <$> done_ ++ todo, length (done_ ++ todo), w') ∧
    (∀ l, l ∈ done_ ++ todo → ready4 (w_heap w') l) ∧ owns w' used ∧
    (∀ l, content w' l = content w l) ∧ w_pool w' = w_pool w ∧ w_written w' = w_written w.
Proof.
  induction todo as [|l todo IH]; intros done_ w used Hnd Hready Hfresh Hw Hin; cbn [parse_batch length].
  { exists w. rewrite app_nil_r. done. }
  rewrite list_lookup_fmap, list_lookup_middle by done. cbn [fmap option_fmap option_map mbind option_bind or_panic outcome_bind].
  destruct (Parse_fresh4 (w_heap w) l) as (p & p' & E & Hr & Hok & Hp & Hv); [apply Hfresh; set_solver|].
  rewrite E. cbn [mbind outcome_bind].
  set (w1 := with_heap w (<[l := p']> (w_heap w))).
  assert ((l ∉ done_) ∧ (l ∉ todo)) as [Hn1 Hn2].
  { rewrite <- Permutation_middle in Hnd. apply list.NoDup_cons in Hnd as [Hn _]. set_solver. }
  assert (Hoth : ∀ l', l' ≠ l → w_heap w1 !! l' = w_heap w !! l') by (intros; unfold w1; simpl; by rewrite lookup_insert_ne).
  destruct (IH (done_ ++ [l]) w1 used) as (w2 & E2 & Hr2 & Hw2 & Hc2 & Hp2 & Ht2).
  - by rewrite <- app_assoc.
  - intros l' Hl'. apply elem_of_app in Hl' as [Hl'|Hl']; [|by apply list_elem_of_singleton in Hl' as ->].
    apply (ready4_same (w_heap w)); [apply Hoth; set_solver|by apply Hready].
  - intros l' Hl'. apply (fresh4_same (w_heap w)); [apply Hoth; set_solver|apply Hfresh; set_solver].
  - apply owns_insert; [done|apply Hin; set_solver|done].
  - set_solver.
  - exists w2. rewrite <- app_assoc in E2, Hr2. rewrite length_app in E2. cbn [length app] in E2.
    rewrite Nat.add_1_r in E2. rewrite list_insert_id by by rewrite list_lookup_fmap, list_lookup_middle.
    split_and!; try done. intros l'. rewrite Hc2. destruct (decide (l' = l)) as [->|Hne].
    + unfold content, w1. simpl. rewrite lookup_insert_eq, Hp. exact Hv.
    + apply content_same; [apply Hw|by apply Hoth].
Qed.

Lemma release_batch_all ls : ∀ w, release_batch (Some <$> ls) w = foldl (λ w l, PutTempPacket l w) w ls.
Proof. induction ls as [|l ls IH]; intros w; simpl; [done|]. apply IH. Qed.

Lemma write_batch_owns d packets sender tun_err w used :
  valid4 sender → valid4 (d_localIP d) → NoDup packets → (∀ l, l ∈ packets → ready4 (w_heap w) l) → owns w used →
  ∃ w', WritePacketsBatch d packets sender tun_err w = Ok (w', tun_err) ∧ owns w' used ∧ w_pool w' = w_pool w ∧
    (∀ l, l ∉ packets → w_heap w' !! l = w_heap w !! l) ∧
    ∃ batch, w_written w' = w_written w ++ [batch] ∧
      Forall2 (λ l buf, delivered sender (d_localIP d) (content w l) (drop tunPacketOffset buf)) packets batch.
Proof.
  intros Hs Hl Hnd Hready Hw.
  destruct (prepare_batch_spec sender (d_localIP d) Hs Hl d packets [] (w_heap w)) as (h' & E & Hout & Hin & Hall);
    [done..|].
  unfold WritePacketsBatch. rewrite E. cbn [mbind outcome_bind]. eexists. split; [reflexivity|].
  assert (Hsome : ∀ l, is_Some (h' !! l) ↔ is_Some (w_heap w !! l)).
  { intros l. destruct (w_heap w !! l) as [p|] eqn:Ep.
    - destruct (Hin l p Ep) as (b & -> & _). by split; eexists.
    - destruct (decide (l ∈ packets)) as [Hl'|Hl']; [|by rewrite Hout, Ep].
      destruct (Hready l Hl') as (p & n & Hp & _). congruence. }
  split; [|split; [done|split; [exact Hout|]]].
  - destruct (owns_heap w used h' Hw) as [H1 H2 H3 H4 H5]; [|done|by constructor].
    intros l p Hp. destruct (Hsome l) as [[q Hq] _]; [by eexists|].
    destruct (Hin l q Hq) as (b & Hb & Hok). simplify_eq. apply Hok. by apply Hw.
  - eexists. split; [done|]. simpl. rewrite <- list_fmap_compose, Forall2_fmap_r.
    apply Forall_Forall2_diag, list.Forall_forall. intros l Hin'.
    destruct (Hall l Hin') as (p & Hp & Hd). unfold content. rewrite Hp. exact Hd.
Qed.

(** A batch that was sent, or not, is released. *)
Lemma outbound_send_owns env packetsBatch s w used s' evs w' :
  owns w (packetsBatch ++ used) → outbound_send env packetsBatch s w = (s', evs, w') →
  owns w' used ∧ keeps w w' used.
Proof.
  intros Hw. unfold outbound_send. destruct (outbound_batch _ _ _) as [s1 evs1]. intros [= <- <- <-].
  split; [by apply put_all_owns|]. intros l Hl. apply put_all_same. by apply (owns_apart w _ _ l Hw).
Qed.

(** A batch of complete packets in the hands of the receiving goroutine. *)
Lemma inbound_write_batch d localIP batch tun_err w used :
  valid4 localIP → valid4 (d_localIP d) → batch ≠ [] → (∀ l, l ∈ batch → fresh4 (w_heap w) l) → owns w (batch ++ used) →
  ∃ w' bufs, inbound_write d localIP batch tun_err w = Ok w' ∧ owns w' used ∧
    w_written w' = w_written w ++ [bufs] ∧
    Forall2 (λ l buf, delivered localIP (d_localIP d) (content w l) (drop tunPacketOffset buf)) batch bufs ∧
    (∀ l, l ∈ used → content w' l = content w l).
Proof.
  intros Hip Hd Hne Hfresh Hw0.
  assert (Hnd : NoDup batch).
  { pose proof (own_nodup _ _ Hw0) as Hnd. apply list.NoDup_app in Hnd as (_ & _ & Hnd).
    by apply list.NoDup_app in Hnd as (? & _). }
  unfold inbound_write.
  destruct (parse_batch_valid batch [] w (batch ++ used)) as (w1 & E1 & Hr1 & Hw1 & Hc1 & _ & Hwr1);
    [done|intros l Hl; by apply not_elem_of_nil in Hl|done|done|intros l Hl; apply elem_of_app; by left|].
  cbn [app length] in E1, Hr1. rewrite E1. cbn [mbind outcome_bind].
  assert (omap id (take (length batch) (Some <$> batch)) = batch) as ->.
  { rewrite take_ge by (rewrite length_fmap; lia). apply held_Some. }
  rewrite decide_True by (destruct batch; [done|simpl; lia]).
  destruct (write_batch_owns d batch localIP tun_err w1 _ Hip Hd Hnd Hr1 Hw1)
    as (w2 & -> & Hw2 & _ & Hout2 & bufs & Hwr2 & Hall). cbn [mbind outcome_bind].
  rewrite release_batch_all. eexists _, bufs. split; [reflexivity|]. split; [by apply put_all_owns|]. split; [|split].
  - rewrite <- Hwr1, <- Hwr2. generalize batch. clear. intros ls. revert w2.
    induction ls as [|l ls IH]; intros w; [done|]. simpl. by rewrite IH.
  - apply (list.Forall2_impl _ _ _ _ Hall). intros l buf. cbv beta. by rewrite Hc1.
  - intros l Hl. pose proof (owns_apart w batch used l Hw0 Hl) as Hnb.
    rewrite <- (Hc1 l). apply content_same; [apply Hw1|]. rewrite put_all_same by done. by apply Hout2.
Qed.

Lemma inbound_round_batch d batchSize v vp tun_err w t used :
  tunnel_ok t → valid4 (d_localIP d) → t_peers t !! v = Some vp → vp_inbound vp ≠ [] → (0 < batchSize)%nat →
  (∀ l, l ∈ take batchSize (vp_inbound vp) → fresh4 (w_heap w) l) → owns w (used ++ queues t) →
  ∃ w' batch, let t' := with_peers t (<[v := with_inbound vp (drop batchSize (vp_inbound vp))]> (t_peers t)) in
    inbound_round d batchSize v tun_err (w, t) = Some (Ok (w', t')) ∧ owns w' (used ++ queues t') ∧
    w_written w' = w_written w ++ [batch] ∧
    Forall2 (λ l buf, delivered (vp_localIP vp) (d_localIP d) (content w l) (drop tunPacketOffset buf))
      (take batchSize (vp_inbound vp)) batch ∧
    (∀ l, l ∈ used ++ queues t' → content w' l = content w l).
Proof.
  intros Ht Hd Hv Hne Hbs Hfresh Hw. pose proof (ok_valid t Ht v vp Hv) as Hip.
  destruct (queues_replace t v vp (with_inbound vp (drop batchSize (vp_inbound vp))) Hv) as (q & Hq1 & Hq2).
  unfold inbound_round. rewrite Hv. cbn [mbind option_bind].
  destruct (vp_inbound vp) as [|first ch] eqn:Ein; [done|].
  rewrite readBatchFromChan_spec by (simpl; lia). change (length [first]) with 1%nat. cbn [app].
  destruct batchSize as [|bs]; [lia|]. cbn [take drop] in *. rewrite Nat.sub_succ, Nat.sub_0_r.
  set (batch := first :: take bs ch) in *.
  set (t' := with_peers t (<[v := with_inbound vp (drop bs ch)]> (t_peers t))) in *.
  assert (Hw0 : owns w (batch ++ used ++ queues t')).
  { rewrite Hq2. rewrite Hq1 in Hw. unfold vq in *. rewrite Ein in Hw. simpl in *.
    rewrite <- (take_drop bs ch) in Hw at 1. rewrite <- !app_assoc in *.
    change (owns w (used ++ batch ++ drop bs ch ++ vp_outbound vp ++ q)) in Hw.
    by rewrite (Permutation_app_swap_app used batch) in Hw. }
  destruct (inbound_write_batch d (vp_localIP vp) batch tun_err w (used ++ queues t')) as (w' & bufs & -> & Hrest); [done..|].
  cbn [mbind outcome_bind]. by exists w', bufs.
Qed.


(** C6. A round of the receiving goroutine on a batch of complete IPv4 packets: they
    reach the interface in one write, in order, with the local address of the sending
    peer as their source, our address as their destination and valid checksums; and
    every packet object of the batch is released exactly once. *)
Theorem inbound_batch_delivered d batchSize v vp tun_err w t used :
  tunnel_ok t → valid4 (d_localIP d) → t_peers t !! v = Some vp → vp_inbound vp ≠ [] → (0 < batchSize)%nat →
  (∀ l, l ∈ take batchSize (vp_inbound vp) → fresh4 (w_heap w) l) → owns w (used ++ queues t) →
  ∃ w' batch, let t' := with_peers t (<[v := with_inbound vp (drop batchSize (vp_inbound vp))]> (t_peers t)) in
    inbound_round d batchSize v tun_err (w, t) = Some (Ok (w', t')) ∧ owns w' (used ++ queues t') ∧
    w_written w' = w_written w ++ [batch] ∧
    Forall2 (λ l buf, delivered (vp_localIP vp) (d_localIP d) (content w l) (drop tunPacketOffset buf))
      (take batchSize (vp_inbound vp)) batch.
Proof.
  intros Ht Hd Hv Hne Hbs Hfresh Hw.
  destruct (inbound_round_batch d batchSize v vp tun_err w t used Ht Hd Hv Hne Hbs Hfresh Hw) as (w' & batch & E & Ho & Hwr & Hall & _).
  by exists w', batch.
Qed.

(** When a batch holds an invalid packet before a valid one, the valid packet is
    released twice: it was moved to the front of the batch, but its old slot still
    holds it. Its object is then free twice, so that two later users share it. *)
Theorem invalid_packet_double_release d batchSize v vp bad good tun_err w t used :
  tunnel_ok t → valid4 (d_localIP d) → t_peers t !! v = Some vp → vp_inbound vp = [bad; good] → (2 ≤ batchSize)%nat →
  invalid (w_heap w) bad → fresh4 (w_heap w) good → owns w (used ++ queues t) →
  ∃ w' t', inbound_round d batchSize v tun_err (w, t) = Some (Ok (w', t')) ∧
    w_pool w' = good :: good :: bad :: w_pool w ∧ ∀ used', ¬ owns w' used'.
Proof.
  intros Ht Hd Hv Hin Hbs Hbad Hgood Hw. pose proof (ok_valid t Ht v vp Hv) as Hip.
  assert (∃ u, owns w (bad :: good :: u)) as [u Hw0].
  { destruct (queues_replace t v vp vp Hv) as (q & Hq & _). rewrite Hq in Hw. unfold vq in Hw. rewrite Hin in Hw.
    rewrite <- !app_assoc in Hw. rewrite (Permutation_app_swap_app used [bad; good]) in Hw. eexists. exact Hw. }
  assert (bad ≠ good) as Hne by (intros ->; apply owns_head in Hw0; set_solver).
  unfold inbound_round. rewrite Hv. cbn [mbind option_bind]. rewrite Hin.
  rewrite readBatchFromChan_spec by (simpl; lia). cbn [length app].
  rewrite take_ge by (simpl; lia). unfold inbound_write. cbn [app length fmap list_fmap parse_batch lookup list_lookup mbind option_bind or_panic outcome_bind id].
  rewrite (Parse_invalid _ _ Hbad). cbn [mbind outcome_bind].
  set (w1 := PutTempPacket bad (with_heap w (w_heap w))).
  assert (Hw1 : owns w1 (good :: u)) by (apply PutTempPacket_owns; by destruct w).
  assert (Hg1 : fresh4 (w_heap w1) good).
  { apply (fresh4_same (w_heap w)); [|done]. unfold w1. simpl. unfold clear_packet. by rewrite lookup_alter_ne. }
  destruct (Parse_fresh4 (w_heap w1) good Hg1) as (p & p' & E & Hr & Hok & _).
  change (<[0%nat := None]> [Some bad; Some good]) with [None; Some good].
  change ([None; Some good] !! 1%nat ≫= λ slot : option loc, slot) with (Some good).
  cbn [or_panic mbind outcome_bind]. rewrite E. cbn [mbind outcome_bind].
  change (<[0%nat := Some good]> [None; Some good]) with [Some good; Some good].
  set (w2 := with_heap w1 (<[good := p']> (w_heap w1))).
  rewrite decide_True by lia. change (omap id (take 1 [Some good; Some good])) with [good].
  destruct (write_batch_owns d [good] (vp_localIP vp) tun_err w2 (good :: u)) as (w3 & -> & _ & Hp3 & _ & _);
    [done|done|apply NoDup_singleton| |apply owns_insert; [done|set_solver|done]|].
  { intros l Hl. by apply list_elem_of_singleton in Hl as ->. }
  cbn [mbind outcome_bind release_batch]. eexists _, _. split; [reflexivity|].
  assert (Hpool : w_pool (PutTempPacket good (PutTempPacket good w3)) = good :: good :: bad :: w_pool w).
  { simpl. by rewrite Hp3. }
  split; [exact Hpool|]. intros used' [Hnd _ _ _ _]. rewrite Hpool in Hnd. simpl in Hnd.
  apply list.NoDup_cons in Hnd as [Hn _]. set_solver.
Qed.

(** Samples: the channel of peer b holds garbage and a packet. *)
Definition received_obj (l : loc) (pkt : bytes) : PacketObj :=
  mkPacket (copy_at tunPacketOffset pkt (replicate maxContentSize 0)) (SView l tunPacketOffset (length pkt))
    SNil SNil false 0.

Lemma received_obj_ok l pkt : (length pkt ≤ 3586)%nat → Forall is_byte pkt → received (received_obj l pkt) l (length pkt).
Proof.
  intros H1 H2. assert (Hm : maxContentSize = 3600%nat) by done. assert (Ho : tunPacketOffset = 14%nat) by done.
  constructor; try done; unfold received_obj; cbn [Buffer].
  - rewrite length_copy_at by (rewrite length_replicate; lia). apply length_replicate.
  - apply Forall_copy_at; [done|]. apply Forall_replicate. unfold is_byte. lia.
  - lia.
Defined.

Definition vp_two (q : list loc) : VpnPeer := mkVpnPeer "b" [10; 66; 0; 3] q [] false.
Definition t_two (q : list loc) : Tunnel :=
  mkTunnel {[ 0%nat := vp_two q ]} 1 false {[ "b" := 0%nat ]} {[ [10; 66; 0; 3] := 0%nat ]} [10; 66; 0; 255].

Lemma t_two_ok q : tunnel_ok (t_two q).
Proof.
  constructor; simpl.
  - intros id v [<- <-]%lookup_singleton_Some. exists (vp_two q). by rewrite lookup_singleton_eq.
  - intros ip v [<- <-]%lookup_singleton_Some. exists (vp_two q). by rewrite !lookup_singleton_eq.
  - intros v [vp [<- _]%lookup_singleton_Some]. lia.
  - intros v vp [_ <-]%lookup_singleton_Some. split; [done|by apply sample_bytes].
Defined.

Definition w_two : World :=
  mkWorld {[ 0%nat := received_obj 0 [7; 7]; 1%nat := received_obj 1 tcp_packet ]} [] 2 [].

Lemma w_two_lookup l p : w_heap w_two !! l = Some p →
  l = 0%nat ∧ p = received_obj 0 [7; 7] ∨ l = 1%nat ∧ p = received_obj 1 tcp_packet.
Proof.
  unfold w_two. cbn [w_heap]. rewrite lookup_insert_Some, lookup_singleton_Some. naive_solver.
Qed.

Lemma received_samples : received (received_obj 0 [7; 7]) 0 2 ∧ received (received_obj 1 tcp_packet) 1 40.
Proof. split; apply received_obj_ok; try (apply sample_bytes; reflexivity); simpl; lia. Defined.

Lemma w_two_owns used : used ≡ₚ [0%nat; 1%nat] → owns w_two used.
Proof.
  intros ->. destruct received_samples as [H0 H1]. constructor; simpl.
  - apply (bool_decide_unpack _). vm_compute. exact I.
  - intros l Hl. apply elem_of_cons in Hl as [->|Hl]; [by eexists|].
    apply list_elem_of_singleton in Hl as ->. by eexists.
  - intros l [p [[-> _]|[-> _]]%w_two_lookup]; lia.
  - intros l p [[-> ->]|[-> ->]]%w_two_lookup; by eapply received_ok.
  - intros l [p [[-> _]|[-> _]]%w_two_lookup]; set_solver.
Defined.

Lemma w_two_fresh : fresh4 (w_heap w_two) 1.
Proof.
  exists (received_obj 1 tcp_packet), 40%nat. split; [reflexivity|]. split; [apply received_samples|]. split.
  - split; [vm_compute; reflexivity|apply (bool_decide_unpack _); vm_compute; exact I].
  - split.
    + split; apply (bool_decide_unpack _); vm_compute; exact I.
    + intros k Hk. vm_compute in Hk. injection Hk as <-. apply (bool_decide_unpack _). vm_compute. exact I.
Defined.

Lemma w_two_invalid : invalid (w_heap w_two) 0.
Proof.
  exists (received_obj 0 [7; 7]), 2%nat. split; [reflexivity|]. split; [apply received_samples|].
  split; intros [H _]; vm_compute in H; discriminate.
Defined.

Lemma invalid_packet_double_release_witness :
  ∃ w' t', inbound_round (mkDevice 1500 [10; 66; 0; 1]) 8 0 false (w_two, t_two [0%nat; 1%nat]) = Some (Ok (w', t')) ∧
    w_pool w' = [1%nat; 1%nat; 0%nat].
Proof.
  destruct (invalid_packet_double_release (mkDevice 1500 [10; 66; 0; 1]) 8 0 (vp_two [0%nat; 1%nat]) 0 1 false w_two
    (t_two [0%nat; 1%nat]) [] (t_two_ok _)) as (w' & t' & E & Hp & _);
    [by split; [|apply sample_bytes]|reflexivity|reflexivity|lia|exact w_two_invalid|exact w_two_fresh| |by exists w', t'].
  apply w_two_owns. vm_compute. reflexivity.
Defined.

Lemma inbound_batch_delivered_witness :
  ∃ w' batch, inbound_round (mkDevice 1500 [10; 66; 0; 1]) 8 0 false (w_two, t_two [1%nat])
    = Some (Ok (w', with_peers (t_two [1%nat]) (<[0%nat := with_inbound (vp_two [1%nat]) []]> (t_peers (t_two [1%nat]))))) ∧
    w_written w' = [batch] ∧ length batch = 1%nat.
Proof.
  destruct (inbound_batch_delivered (mkDevice 1500 [10; 66; 0; 1]) 8 0 (vp_two [1%nat]) false w_two
    (t_two [1%nat]) [0%nat] (t_two_ok _)) as (w' & batch & E & _ & Hw & Hall);
    [by split; [|apply sample_bytes]|reflexivity|done|lia| | |].
  - intros l Hl. apply list_elem_of_singleton in Hl as ->. exact w_two_fresh.
  - apply w_two_owns. vm_compute. reflexivity.
  - exists w', batch. split; [exact E|]. split; [exact Hw|]. by apply Forall2_length in Hall.
Defined.
