(* ===== verification/EndToEnd.v ===== *)
(** * A packet from one node to another

    The tunnel of two nodes put together: what the sending goroutine of one writes to a
    stream, the stream handler of the other reads, and its receiving goroutine writes to
    its interface. *)

From S2P Require Import Prelude GoNet GoIO Packet Device Protocol Externals Config Tunnel TunnelPeers.
Local Open Scope Z_scope.

(** [backgroundInboundHandler]: rounds until the channel is empty, when the goroutine
    waits. [fuel] bounds the rounds. *)
Fixpoint inbound_loop (fuel : nat) (d : Device) (batchSize : nat) (v : vploc) (st : State) : option (outcome State) :=
  match fuel with
  | O => None
  | S fuel =>
      match inbound_round d batchSize v false st with
      | None => Some (Ok st)
      | Some (Ok st) => inbound_loop fuel d batchSize v st
      | Some r => Some r
      end
  end.

(** ** Facts *)

(** What an owned object holds: bytes that fit the buffer. *)
Lemma owned_content w used l : owns w used → l ∈ used →
  Forall is_byte (content w l) ∧ (tunPacketOffset + length (content w l) ≤ maxContentSize)%nat.
Proof.
  intros Hw Hl. assert (Hm : maxContentSize = 3600%nat) by done. assert (Ho : tunPacketOffset = 14%nat) by done.
  destruct (own_alloc w used Hw l) as [p Hp]; [set_solver|].
  destruct (own_heap w used Hw l p Hp) as [Hlen Hb HP]. unfold content. rewrite Hp. simpl.
  destruct HP as [->|(n & -> & Hn)]; [simpl; split; [constructor|lia]|].
  rewrite (view_of _ l p) by done. split; [by apply Forall_take, Forall_drop|].
  rewrite length_take, length_drop. lia.
Qed.

(** An owned object with a complete IPv4 packet can be parsed and written. *)
Lemma owned_fresh4 w used l : owns w used → l ∈ used → parses4 (content w l) → complete4 (content w l) → fresh4 (w_heap w) l.
Proof.
  intros Hw Hl H4 Hc. destruct (own_alloc w used Hw l) as [p Hp]; [set_solver|].
  destruct (own_heap w used Hw l p Hp) as [Hlen Hb HP]. unfold content in *. rewrite Hp in *. simpl in *.
  destruct HP as [E|(n & E & Hn)].
  { rewrite E in H4. destruct H4 as [_ H4]. simpl in H4. lia. }
  exists p, n. split_and!; [done|by constructor|done|done].
Qed.

Section end_to_end.
Context `{PoolPolicy}.

Lemma GetTempPacket_written (w : World) : w_written (GetTempPacket w).2 = w_written w.
Proof. unfold GetTempPacket. by repeat case_match. Qed.

Lemma stream_round_written peerID r w t res w' t' :
  stream_round peerID r (w, t) = Some (Ok (res, (w', t'))) → w_written w' = w_written w.
Proof.
  unfold stream_round. pose proof (GetTempPacket_written w) as Hg. destruct (GetTempPacket w) as [l w1]. simpl in Hg.
  unfold stream_packet.
  destruct (ReadUint64 r) as [[[n|e]|] r1]; [|by intros [= <- <- <-]|done].
  destruct (ReadFrom _ _ _ _ _) as [[[[h k] [e|]] [N r2]]|]; [by intros [= <- <- <-]| |done].
  destruct (peerIDToPeer t !! peerID) as [v|]; [|by intros [= <- <- <-]].
  destruct (send_inbound v l t) as [[[] t1]|e|]; cbn [mbind outcome_bind]; intros Heq; try done; by injection Heq as <- <- <-.
Qed.

Lemma stream_loop_written peerID fuel : ∀ r w t w' t',
  stream_loop fuel peerID r (w, t) = Some (Ok (w', t')) → w_written w' = w_written w.
Proof.
  induction fuel as [|fuel IH]; intros r w t w' t'; [done|]. cbn [stream_loop].
  destruct (stream_round peerID r (w, t)) as [[[[r'|] [w1 t1]]|e|]|] eqn:E; try done.
  - intros Hl. rewrite (IH _ _ _ _ _ Hl). by eapply stream_round_written.
  - intros [= <- <-]. by eapply stream_round_written.
Qed.

(** The loop drains a channel of complete IPv4 packets. *)
Lemma inbound_loop_drains d batchSize v fuel : ∀ vp w t used,
  (length (vp_inbound vp) < fuel)%nat → (0 < batchSize)%nat → valid4 (d_localIP d) →
  tunnel_ok t → t_peers t !! v = Some vp → owns w (used ++ queues t) →
  (∀ l, l ∈ vp_inbound vp → parses4 (content w l) ∧ complete4 (content w l)) →
  ∃ w' batches, let t' := with_peers t (<[v := with_inbound vp []]> (t_peers t)) in
    inbound_loop fuel d batchSize v (w, t) = Some (Ok (w', t')) ∧ owns w' (used ++ queues t') ∧
    w_written w' = w_written w ++ batches ∧
    Forall2 (λ pkt buf, delivered (vp_localIP vp) (d_localIP d) pkt (drop tunPacketOffset buf))
      (content w <$> vp_inbound vp) (concat batches).
Proof.
  induction fuel as [|fuel IH]; intros vp w t used Hfuel Hbs Hd Ht Hv Hw Hpk; [lia|]. cbn [inbound_loop].
  destruct (decide (vp_inbound vp = [])) as [E|Hne].
  - exists w, []. cbv zeta. assert (with_inbound vp [] = vp) as -> by (destruct vp; by simpl in *; subst).
    rewrite insert_id by done. assert (with_peers t (t_peers t) = t) as Et by by destruct t. rewrite !Et.
    unfold inbound_round. rewrite Hv. cbn [mbind option_bind]. rewrite E. split; [done|].
    split; [done|]. split; [by rewrite app_nil_r|]. constructor.
  - assert (Hin : ∀ l, l ∈ vp_inbound vp → l ∈ used ++ queues t).
    { intros l Hl. destruct (queues_replace t v vp vp Hv) as (q & Hq & _). rewrite Hq. unfold vq. set_solver. }
    destruct (inbound_round_batch d batchSize v vp false w t used) as (w1 & batch & E1 & Hw1 & Hwr1 & Hall1 & Hsame); try done.
    { intros l Hl. assert (l ∈ vp_inbound vp) as Hl' by (rewrite <- (take_drop batchSize (vp_inbound vp)); apply elem_of_app; by left).
      destruct (Hpk l Hl'). by eapply owned_fresh4; [|apply Hin| |]. }
    rewrite E1. set (vp1 := with_inbound vp (drop batchSize (vp_inbound vp))) in *.
    set (t1 := with_peers t (<[v := vp1]> (t_peers t))) in *.
    assert (∀ l, l ∈ vp_inbound vp1 → content w1 l = content w l) as Hsame1.
    { intros l Hl. apply Hsame. destruct (queues_replace t v vp vp1 Hv) as (q & _ & Hq). fold t1 in Hq. rewrite Hq. unfold vq. set_solver. }
    destruct (IH vp1 w1 t1 used) as (w2 & batches & E2 & Hw2 & Hwr2 & Hall2); try done.
    + simpl. rewrite length_drop. destruct (vp_inbound vp); [done|simpl in *; lia].
    + by apply (sp_ok _ _ (same_peers_update t v vp vp1 Hv eq_refl eq_refl eq_refl)).
    + apply lookup_insert_eq.
    + intros l Hl. rewrite Hsame1 by done. apply Hpk. cbn [vp_inbound vp1 with_inbound] in Hl. rewrite <- (take_drop batchSize (vp_inbound vp)). apply elem_of_app. by right.
    + exists w2, (batch :: batches). cbv zeta in *.
      assert (with_peers t1 (<[v := with_inbound vp1 []]> (t_peers t1)) = with_peers t (<[v := with_inbound vp []]> (t_peers t))) as Et.
      { unfold t1, vp1, with_peers, with_inbound. simpl. by rewrite insert_insert_eq. }
      rewrite Et in *. split_and!; [done|done|by rewrite Hwr2, Hwr1, <- app_assoc|].
      rewrite <- (take_drop batchSize (vp_inbound vp)), fmap_app. cbn [concat]. apply Forall2_app.
      * by apply Forall2_fmap_l.
      * assert (content w <$> drop batchSize (vp_inbound vp) = content w1 <$> vp_inbound vp1) as ->; [|done].
        simpl. apply list_fmap_ext. intros i l Hi. symmetry. apply Hsame1. by eapply list_elem_of_lookup_2.
Qed.

(** A batch of the sending goroutine is written to the stream as frames, and its
    objects go back to the pool. *)
Lemma outbound_round_writes v vp env s w t used :
  t_peers t !! v = Some vp → vp_outbound vp ≠ [] → owns w (used ++ queues t) →
  oe_connected env = true → oe_write_ok env = true → is_Some (oe_open env) →
  let pkts := content w <$> take packetsBatchSize (vp_outbound vp) in
  let t' := with_peers t (<[v := with_outbound vp (drop packetsBatchSize (vp_outbound vp))]> (t_peers t)) in
  ∃ s' evs w', outbound_round v env s (w, t) = Some (s', evs, (w', t')) ∧ Wrote pkts (frames pkts) ∈ evs ∧
    owns w' (used ++ queues t').
Proof.
  intros Hv Hne Hw Hcon Hok [limited Hopen] pkts t'. unfold outbound_round. rewrite Hv. cbn [mbind option_bind].
  destruct (queues_replace t v vp (with_outbound vp (drop packetsBatchSize (vp_outbound vp))) Hv) as (q & Hq1 & Hq2).
  assert (Hw0 : owns w (take packetsBatchSize (vp_outbound vp) ++ used ++ queues t')).
  { unfold t'. rewrite Hq2. rewrite Hq1 in Hw. unfold vq in *. cbn [vp_inbound vp_outbound with_outbound].
    rewrite <- (take_drop packetsBatchSize (vp_outbound vp)) in Hw at 1. rewrite <- !app_assoc in *.
    by rewrite (Permutation_app_swap_app (vp_inbound vp)), (Permutation_app_swap_app used) in Hw. }
  subst t' pkts. destruct (vp_outbound vp) as [|p ch]; [done|].
  rewrite readBatchFromChan_spec by (unfold packetsBatchSize; simpl; lia).
  change (take packetsBatchSize (p :: ch)) with ([p] ++ take (packetsBatchSize - length [p]) ch) in *.
  change (drop packetsBatchSize (p :: ch)) with (drop (packetsBatchSize - length [p]) ch) in *.
  set (batch := [p] ++ _) in *. destruct (outbound_send env batch s w) as [[s1 evs] w1] eqn:E.
  exists s1, evs, w1. split; [done|]. split; [|by eapply outbound_send_owns].
  revert E. unfold outbound_send, outbound_batch. rewrite Hcon. cbn [negb]. set (pkts := content w <$> batch).
  assert (∀ s0, ∃ s1 e, sendPacket env pkts s0 = (s1, e ++ [Wrote pkts (frames pkts)], false)) as Hsend.
  { intros s0. unfold sendPacket. rewrite Hok. destruct (os_stream s0); [by eexists _, []|]. rewrite Hopen. by eexists _, [_]. }
  destruct (if decide _ then closeStream s else (s, [])) as [s0 e1].
  destruct (Hsend (mkOut (os_stream s0) (os_maxPacketsPerStream s0) (os_currentPacketsForStream s0 + Z.of_nat (length pkts)))) as (s2 & e & ->).
  intros [= _ <- _]. rewrite !elem_of_app, list_elem_of_singleton. tauto.
Qed.
End end_to_end.

(** ** Properties *)

(** C1. From node to node: the packets a node has queued for a peer are taken in one
    batch and written to a stream; whoever reads exactly these bytes, in whatever
    pieces, on the other node queues the packets for its own interface, and its
    receiving goroutine, in however many writes the interface needs, hands over every
    packet once and in order, with the address the receiver has for the sender as its
    source, the receiver's own address as its destination and valid checksums. On both
    nodes every packet object taken on the way is back in the pool in the end: apart from
    what was in use before and still is, every object is free, exactly once. *)
Theorem tunnel_end_to_end `{PoolPolicy} vA vpA env s wA tA usedA peerA vB vpB d batchSize fuel wB tB usedB :
  let pkts := content wA <$> take packetsBatchSize (vp_outbound vpA) in
  (* the sender *)
  owns wA (usedA ++ queues tA) → t_peers tA !! vA = Some vpA → vp_outbound vpA ≠ [] →
  oe_connected env = true → oe_write_ok env = true → is_Some (oe_open env) →
  Forall (λ pkt, parses4 pkt ∧ complete4 pkt) pkts →
  (* the receiver *)
  owns wB (usedB ++ queues tB) → tunnel_ok tB → peerIDToPeer tB !! peerA = Some vB → t_peers tB !! vB = Some vpB →
  vp_inbound vpB = [] → valid4 (d_localIP d) → (0 < batchSize)%nat → (length pkts < fuel)%nat →
  let tA' := with_peers tA (<[vA := with_outbound vpA (drop packetsBatchSize (vp_outbound vpA))]> (t_peers tA)) in
  ∃ s' evs wA' data, outbound_round vA env s (wA, tA) = Some (s', evs, (wA', tA')) ∧ Wrote pkts data ∈ evs ∧
  owns wA' (usedA ++ queues tA') ∧
  ∀ r, remaining r = data → fin r = EOF →
  ∃ st wB' batches, StreamHandler fuel peerA r (wB, tB) = Some (Ok st) ∧
    inbound_loop fuel d batchSize vB st = Some (Ok (wB', tB)) ∧
    owns wB' (usedB ++ queues tB) ∧ w_written wB' = w_written wB ++ batches ∧
    Forall2 (λ pkt buf, delivered (vp_localIP vpB) (d_localIP d) pkt (drop tunPacketOffset buf)) pkts (concat batches).
Proof.
  intros pkts HwA HvA HneA Hcon Hok Hopen Hpk HwB HtB Hid HvB Hempty Hd Hbs Hfuel tA'.
  destruct (outbound_round_writes vA vpA env s wA tA usedA) as (s' & evs & wA' & Ho & Hw & HwA'); try done. fold pkts in Hw.
  exists s', evs, wA', (frames pkts). split; [done|]. split; [done|]. split; [done|]. intros r Hr Hf.
  assert (Hlen : (length pkts ≤ 100)%nat).
  { unfold pkts. rewrite length_fmap, length_take. unfold packetsBatchSize. lia. }
  destruct (ok_ids tB HtB _ _ Hid) as (vp' & Hv' & _ & Hc). simplify_eq.
  destruct (stream_loop_frames peerA pkts fuel r vB vpB wB tB usedB) as (w1 & ls & E1 & Hw1 & Hls & _); try done.
  { apply list.Forall_forall. intros pkt Hpkt. unfold pkts in Hpkt. apply list_elem_of_fmap in Hpkt as (l & -> & Hl).
    apply (owned_content wA (usedA ++ queues tA)); [done|].
    destruct (queues_replace tA vA vpA vpA HvA) as (q & Hq & _). rewrite Hq. unfold vq.
    rewrite <- (take_drop packetsBatchSize (vp_outbound vpA)). rewrite !elem_of_app. tauto. }
  { rewrite Hempty. change packetHandlersChanCap with 2000%nat. simpl. lia. }
  rewrite Hempty in *. cbn [app] in *. set (t1 := with_peers tB _) in *.
  assert (HtB1 : tunnel_ok t1) by by apply (sp_ok _ _ (same_peers_update tB vB vpB (with_inbound vpB ls) HvB eq_refl eq_refl eq_refl)).
  assert (length ls = length pkts) as Hll by (rewrite <- Hls; by rewrite length_fmap).
  destruct (inbound_loop_drains d batchSize vB fuel (with_inbound vpB ls) w1 t1 usedB) as (w2 & batches & E2 & Hw2 & Hwr & Hall); try done.
  - cbn [vp_inbound with_inbound]. lia.
  - apply lookup_insert_eq.
  - intros l Hl. rewrite list.Forall_forall in Hpk. apply Hpk. rewrite <- Hls. by apply list_elem_of_fmap_2.
  - cbv zeta in *. assert (with_peers t1 (<[vB := with_inbound (with_inbound vpB ls) []]> (t_peers t1)) = tB) as Et.
    { unfold t1, with_peers. cbn [t_peers]. rewrite insert_insert_eq.
      assert (with_inbound (with_inbound vpB ls) [] = vpB) as -> by (destruct vpB; by simpl in *; subst).
      rewrite insert_id by done. by destruct tB. }
    rewrite Et in *. exists (w1, t1), w2, batches.
    split; [unfold StreamHandler; cbn [snd]; by rewrite Hid|]. split; [done|]. split; [done|].
    cbn [vp_inbound with_inbound vp_localIP] in Hall. rewrite Hls in Hall. split; [|done].
    rewrite Hwr. f_equal. by eapply stream_loop_written.
Qed.

(** ** Witness: node A sends a TCP packet to node B. *)

Definition vp_out : VpnPeer := mkVpnPeer "b" [10; 66; 0; 3] [] [1%nat] false.
Definition t_out : Tunnel :=
  mkTunnel {[ 0%nat := vp_out ]} 1 false {[ "b" := 0%nat ]} {[ [10; 66; 0; 3] := 0%nat ]} [10; 66; 0; 255].

Lemma content_out : content w_two 1 = tcp_packet.
Proof. vm_compute. reflexivity. Qed.

Lemma tunnel_end_to_end_witness :
  let env := mkOutEnv true (Some false) true in
  ∃ s' evs stA', outbound_round 0 env initial_out (w_two, t_out) = Some (s', evs, stA') ∧ owns stA'.1 (0%nat :: queues stA'.2) ∧
  ∃ st wB' batches, StreamHandler (H := first_free) 5 "b" (mkReader [frames [tcp_packet]] EOF false) (empty_world, t_two []) = Some (Ok st) ∧
    inbound_loop 5 (mkDevice 1500 [10; 66; 0; 1]) 8 0 st = Some (Ok (wB', t_two [])) ∧
    w_written wB' = batches ∧ length (concat batches) = 1%nat.
Proof.
  intros env.
  destruct (tunnel_end_to_end (H := first_free) 0 vp_out env initial_out w_two t_out [0%nat] "b" 0 (vp_two [])
    (mkDevice 1500 [10; 66; 0; 1]) 8 5 empty_world (t_two []) []) as (s' & evs & wA' & data & Ho & Hw & HoA & Hrun).
  - apply w_two_owns. vm_compute. reflexivity.
  - reflexivity.
  - discriminate.
  - reflexivity.
  - reflexivity.
  - by eexists.
  - cbn [vp_out vp_outbound take packetsBatchSize fmap list_fmap]. constructor; [|constructor]. rewrite content_out. split.
    + split; [vm_compute; reflexivity|apply (bool_decide_unpack _); vm_compute; exact I].
    + destruct w_two_fresh as (p & n & Hp & _ & _ & Hc). injection Hp as <-. exact Hc.
  - apply empty_world_owns.
  - apply t_two_ok.
  - reflexivity.
  - reflexivity.
  - reflexivity.
  - split; [reflexivity|by apply sample_bytes].
  - lia.
  - vm_compute. lia.
  - eexists s', evs, (wA', _). split; [exact Ho|]. split; [exact HoA|]. clear HoA.
    assert (data = frames [tcp_packet]) as ->.
    { vm_compute in Ho. injection Ho as <- <- <-. vm_compute in Hw.
      apply elem_of_cons in Hw as [Hw|Hw]; [discriminate|]. apply list_elem_of_singleton in Hw. by injection Hw as ->. }
    destruct (Hrun (mkReader [frames [tcp_packet]] EOF false)) as (st & wB' & batches & E1 & E2 & _ & Hwr & Hall); [reflexivity..|].
    exists st, wB', batches. split; [exact E1|]. split; [exact E2|]. split; [exact Hwr|].
    apply Forall2_length in Hall. rewrite <- Hall. reflexivity.
Defined.
