(* ===== verification/Node.v ===== *)
(** * A node under every interleaving of its goroutines (src/service/tunnel.go, src/vpn/vpn.go)

    The goroutines of the data path share the packet pool, the peers and their
    channels: the reader of the interface, one handler per stream, one receiving and
    several sending goroutines per peer, and the callback that refreshes the peers. An
    execution of the node is any interleaving of their steps, given as a list of actions.
    A step is what a goroutine does between two points at which it can wait or another
    goroutine can be seen: a single receive from a channel, the sending of a batch it
    holds, the writing of a batch it holds, one frame read into the packet it holds, or a
    section under the lock of the peers. Between its steps a goroutine holds packets
    ([n_hands]), and the others run. *)

From S2P Require Import Prelude GoNet GoIO Packet Device Protocol Externals Config NetworkAddr Tunnel TunnelPeers EndToEnd.
Local Open Scope Z_scope.

(** The goroutines that hold packets between their steps: sender [i] of the peer [v]
    ([ParallelSendingStreamsCount] of them), the receiver of [v], the handler of stream
    [k]. *)
Inductive goroutine := GSender (v : vploc) (i : nat) | GReceiver (v : vploc) | GStream (k : nat).

Global Instance goroutine_eq_dec : EqDecision goroutine.
Proof. solve_decision. Defined.

Global Program Instance goroutine_countable : Countable goroutine :=
  inj_countable' (λ g, match g with GSender v i => inl (v, i) | GReceiver v => inr (inl v) | GStream k => inr (inr k) end)
    (λ c, match c with inl (v, i) => GSender v i | inr (inl v) => GReceiver v | inr (inr k) => GStream k end) _.
Next Obligation. by intros []. Qed.

(** The slots of the reader of the interface, the shared state, what the goroutines hold,
    and their variables: those of the senders, and [localIP] of the receivers. *)
Record Node := mkNode {
  n_slots : list (option loc);
  n_state : State;
  n_hands : gmap goroutine (list loc);
  n_out : gmap (vploc * nat) OutState;
  n_localIP : gmap vploc bytes;
}.

(** A step of a goroutine, with what it meets. *)
Inductive action :=
  | ATun (reads : list (bytes * nat)) (connected : string → bool)      (* the interface delivers packets *)
  | AStream (k : nat)                                                  (* a stream handler takes a packet *)
  | AFrame (k : nat) (peerID : string) (stream : Reader)               (* and reads a frame into it *)
  | ATakeOut (v : vploc) (i : nat)                                     (* a sender receives from the queue of its peer *)
  | ASend (v : vploc) (i : nat) (env : OutEnv)                         (* and sends what it holds *)
  | AIdle (v : vploc) (i : nat)                                        (* the idle timer of a sender *)
  | ATakeIn (v : vploc)                                                (* a receiver receives from the queue of its peer *)
  | AWrite (v : vploc) (tun_err : bool)                                (* and writes what it holds *)
  | ARefresh (c : Config) (known : list KnownPeer)                     (* the known peers changed *)
  | AClose.                                                            (* the tunnel is closed *)

(** An order of the loops over the table of peers. *)
Class PeerOrder := {
  porder : Tunnel → list vploc;
  porder_visits : ∀ t, visits t (porder t);
}.

Definition hand (m : gmap goroutine (list loc)) (g : goroutine) : list loc := default [] (m !! g).
Definition in_hands (m : gmap goroutine (list loc)) : list loc := concat (map_to_list m).*2.

Section node.
Context `{PoolPolicy} `{BroadcastOrder} `{PeerOrder} `{PeerCodec}.
Context (d : Device) (batchSize : nat).

Definition out_of (n : Node) (v : vploc) (i : nat) : OutState := default initial_out (n_out n !! (v, i)).

(** One step. A goroutine whose channel is empty waits, as does one whose batch is full
    until it has sent or written it; a stream handler that reads without end makes no
    step. *)
Definition node_step (a : action) (n : Node) : outcome Node :=
  let '(mkNode slots (w, t) hands out ips) := n in
  match a with
  | ATun reads connected =>
      '(slots, st) ← read_round (λ ps st, HandleReadPackets connected (border (netIPToPeer st.2)) ps st) slots reads (w, t);
      Ok (mkNode slots st hands out ips)
  | AStream k =>
      match hand hands (GStream k) with
      | [] => let '(packet, w) := GetTempPacket w in Ok (mkNode slots (w, t) (<[GStream k := [packet]]> hands) out ips)
      | _ => Ok n
      end
  | AFrame k peerID stream =>
      match hand hands (GStream k) with
      | [packet] =>
          match stream_packet peerID stream packet (w, t) with
          | None => Ok n
          | Some r => '(_, st) ← r; Ok (mkNode slots st (<[GStream k := []]> hands) out ips)
          end
      | _ => Ok n
      end
  | ATakeOut v i =>
      match t_peers t !! v with
      | None => Ok n
      | Some vp =>
          let batch := hand hands (GSender v i) in
          match vp_outbound vp with
          | packet :: ch =>
              if decide (length batch < packetsBatchSize)%nat then
                Ok (mkNode slots (w, with_peers t (<[v := with_outbound vp ch]> (t_peers t)))
                      (<[GSender v i := batch ++ [packet]]> hands) out ips)
              else Ok n
          | [] => Ok n
          end
      end
  | ASend v i env =>
      match hand hands (GSender v i) with
      | [] => Ok n
      | batch =>
          let '(s, _, w) := outbound_send env batch (out_of n v i) w in
          Ok (mkNode slots (w, t) (<[GSender v i := []]> hands) (<[(v, i) := s]> out) ips)
      end
  | AIdle v i =>
      match hand hands (GSender v i), t_peers t !! v with
      | [], Some vp =>
          Ok (mkNode slots (w, t) hands (<[(v, i) := (outbound_idle (bool_decide (vp_outbound vp = [])) (out_of n v i)).1]> out) ips)
      | _, _ => Ok n
      end
  | ATakeIn v =>
      match t_peers t !! v with
      | None => Ok n
      | Some vp =>
          let batch := hand hands (GReceiver v) in
          match vp_inbound vp with
          | packet :: ch =>
              if decide (length batch < batchSize)%nat then
                Ok (mkNode slots (w, with_peers t (<[v := with_inbound vp ch]> (t_peers t)))
                      (<[GReceiver v := batch ++ [packet]]> hands) out
                      (match batch with [] => <[v := vp_localIP vp]> ips | _ => ips end))
              else Ok n
          | [] => Ok n
          end
      end
  | AWrite v tun_err =>
      match hand hands (GReceiver v) with
      | [] => Ok n
      | batch =>
          w ← inbound_write d (default [] (ips !! v)) batch tun_err w;
          Ok (mkNode slots (w, t) (<[GReceiver v := []]> hands) out ips)
      end
  | ARefresh c known =>
      t1 ← refresh_peers known t;
      st ← RefreshPeersList c known (porder t1) (w, t);
      Ok (mkNode slots st hands out ips)
  | AClose =>
      st ← Tunnel_Close (porder t) (w, t);
      Ok (mkNode slots st hands out ips)
  end.

Fixpoint node_run (actions : list action) (n : Node) : outcome Node :=
  match actions with
  | [] => Ok n
  | a :: actions => n ← node_step a n; node_run actions n
  end.

(** ** What is assumed of the outside *)

(** The next frame of a stream, if its length can be read: it fits the buffer, and it is
    a complete IPv4 packet or the stream fails inside it with an error other than EOF. *)
Definition frame_ok (r : Reader) : Prop :=
  Forall is_byte (remaining r) ∧
  ∀ n r1, ReadUint64 r = (Some (inl n), r1) →
    Z.of_nat tunPacketOffset + n ≤ Z.of_nat maxContentSize ∧
    ((∃ pkt rest, remaining r1 = pkt ++ rest ∧ n = Z.of_nat (length pkt) ∧ parses4 pkt ∧ complete4 pkt ∧
        (fin r1 = EOF ∨ fin_with_data r1 = false)) ∨
     Z.of_nat (length (remaining r1)) < n ∧ fin r1 ≠ EOF).

Definition action_ok (slots : nat) (a : action) : Prop :=
  match a with
  | ATun reads _ => reads_ok slots reads
  | AFrame _ _ stream => frame_ok stream
  | _ => True
  end.

(** ** The invariant *)

(** A packet a receiving goroutine can parse and write. *)
Definition good (w : World) (l : loc) : Prop := parses4 (content w l) ∧ complete4 (content w l).

(** Packets that came from peers and are not yet written: queued, or held by receivers. *)
Definition received_in (hands : gmap goroutine (list loc)) (t : Tunnel) (l : loc) : Prop :=
  inbound_in t l ∨ ∃ v, l ∈ hand hands (GReceiver v).

Definition ips_ok (hands : gmap goroutine (list loc)) (ips : gmap vploc bytes) : Prop :=
  ∀ v, hand hands (GReceiver v) ≠ [] → valid4 (default [] (ips !! v)).

Record node_inv (n : Node) : Prop := {
  ni_tunnel : tunnel_ok (n_state n).2;
  ni_owns : owns (n_state n).1 (in_hands (n_hands n) ++ held (n_slots n) ++ queues (n_state n).2);
  ni_good : ∀ l, received_in (n_hands n) (n_state n).2 l → good (n_state n).1 l;
  ni_ips : ips_ok (n_hands n) (n_localIP n);
}.

Lemma hand_insert m g g' ls : hand (<[g := ls]> m) g' = if decide (g = g') then ls else hand m g'.
Proof. unfold hand. rewrite lookup_insert. by case_decide. Qed.

(** What one goroutine holds, and the rest. *)
Lemma in_hands_set m g : ∃ rest, in_hands m ≡ₚ hand m g ++ rest ∧ ∀ ls, in_hands (<[g := ls]> m) ≡ₚ ls ++ rest.
Proof.
  exists (concat (map_to_list (delete g m)).*2). unfold in_hands, hand. split.
  - destruct (m !! g) as [ls|] eqn:E; simpl; [by rewrite <- (map_to_list_delete m g ls E)|by rewrite delete_id].
  - intros ls. rewrite <- (map_to_list_delete (<[g := ls]> m) g ls) by apply lookup_insert_eq. by rewrite delete_insert_eq.
Qed.

Lemma hand_in m g l : l ∈ hand m g → l ∈ in_hands m.
Proof. destruct (in_hands_set m g) as (rest & -> & _). set_solver. Qed.

Lemma received_used hands t l slots : received_in hands t l → l ∈ in_hands hands ++ held slots ++ queues t.
Proof. intros [Hl|[v Hl]]; rewrite !elem_of_app; [right; right; by apply inbound_queued|left; by eapply hand_in]. Qed.

Lemma good_same w w' l : heap_ok (w_heap w) → w_heap w' !! l = w_heap w !! l → good w l → good w' l.
Proof. intros Hh E. unfold good. by rewrite (content_same w w' l). Qed.

(** Steps that leave the received packets as they are and add none. *)
Lemma good_kept w w' hands hands' t t' :
  heap_ok (w_heap w) → (∀ l, received_in hands' t' l → received_in hands t l ∧ w_heap w' !! l = w_heap w !! l) →
  (∀ l, received_in hands t l → good w l) → ∀ l, received_in hands' t' l → good w' l.
Proof. intros Hh Hk Hg l Hl. destruct (Hk l Hl) as [Hl' E]. by apply (good_same w); auto. Qed.

(** Changes of what others than receivers hold. *)
Definition not_receiver (g : goroutine) : Prop := ∀ v, g ≠ GReceiver v.

Lemma hand_other m g ls v : not_receiver g → hand (<[g := ls]> m) (GReceiver v) = hand m (GReceiver v).
Proof. intros Hg. rewrite hand_insert, decide_False; [done|apply Hg]. Qed.

Lemma received_other hands g ls t l : not_receiver g → received_in (<[g := ls]> hands) t l ↔ received_in hands t l.
Proof. intros Hg. unfold received_in. split; (intros [?|[v Hl]]; [by left|right; exists v]); by rewrite hand_other in *. Qed.

Lemma ips_other hands g ls ips : not_receiver g → ips_ok hands ips → ips_ok (<[g := ls]> hands) ips.
Proof. intros Hg Hi v. rewrite hand_other by done. apply Hi. Qed.

(** The handler of the interface, next to packets it does not see. *)
Program Definition beside (H' : PacketsHandler Tunnel) (extra : list loc) : PacketsHandler Tunnel := {|
  ph_handle := ph_handle (PacketsHandler := H');
  ph_held t := ph_held (PacketsHandler := H') t ++ extra;
  ph_inv := ph_inv (PacketsHandler := H');
  ph_keeps := ph_keeps (PacketsHandler := H');
|}.
Next Obligation. intros H' extra s. apply ph_keeps_refl. Qed.
Next Obligation.
  intros H' extra ps w s rest Hi Hw. cbv beta in *. rewrite <- app_assoc in Hw.
  destruct (ph_owns (PacketsHandler := H') ps w s (extra ++ rest) Hi Hw) as (ps' & w' & s' & E & Hr).
  exists ps', w', s'. by rewrite <- !app_assoc.
Qed.

(** The result of a step: no panic, the invariant, as many slots as before. *)
Definition stepped (n : Node) (r : outcome Node) : Prop :=
  ∃ n', r = Ok n' ∧ node_inv n' ∧ length (n_slots n') = length (n_slots n).

Lemma stepped_idle n : node_inv n → stepped n (Ok n).
Proof. intros Hn. by exists n. Qed.

(** The reader of the interface. *)
Lemma tun_step reads connected n : node_inv n → reads_ok (length (n_slots n)) reads → stepped n (node_step (ATun reads connected) n).
Proof.
  destruct n as [slots [w t] hands out ips]. intros [Ht Hw Hg Hi] Hr. cbn [n_state n_slots n_hands n_localIP fst snd] in *.
  assert (Hw0 : owns w (held slots ++ queues t ++ in_hands hands)).
  { by rewrite (Permutation_app_comm (in_hands hands)), <- app_assoc in Hw. }
  destruct (read_round_owns (H := beside (tunnel_handler connected) (in_hands hands)) slots reads w t Ht Hw0 Hr)
    as (ps' & w' & t' & E & Hlen & Ht' & Hw' & Hk & Hin).
  change (read_round (λ ps st, HandleReadPackets connected (border (netIPToPeer st.2)) ps st) slots reads (w, t) = Ok (ps', (w', t'))) in E.
  change (owns w' (held ps' ++ queues t' ++ in_hands hands)) in Hw'. change (keeps w w' (queues t ++ in_hands hands)) in Hk.
  change (inbounds t' = inbounds t) in Hin. cbn [node_step]. rewrite E. cbn [mbind outcome_bind].
  eexists. split; [reflexivity|]. split; [|done]. constructor; cbn [n_state n_slots n_hands n_localIP fst snd]; [done| | |done].
  - by rewrite (Permutation_app_comm (in_hands hands)), <- app_assoc.
  - apply (good_kept w w' hands hands t t'); [apply Hw| |done]. intros l Hl.
    assert (received_in hands t l) as Hl0.
    { destruct Hl as [(v & q & Hv & Hl)|?]; [left|by right]. rewrite Hin in Hv. by exists v, q. }
    split; [done|]. apply Hk, elem_of_app. destruct Hl0 as [?|[v Hv]]; [left; by apply inbound_queued|right; by eapply hand_in].
Qed.

(** A sender takes a packet from the queue of its peer. *)
Lemma take_out_step v i n : node_inv n → stepped n (node_step (ATakeOut v i) n).
Proof.
  intros Hn. pose proof Hn as [Ht Hw Hg Hi]. destruct n as [slots [w t] hands out ips]. cbn [node_step n_state n_slots n_hands n_localIP fst snd] in *.
  destruct (t_peers t !! v) as [vp|] eqn:Hv; [|by apply stepped_idle].
  destruct (vp_outbound vp) as [|packet ch] eqn:Eout; [by apply stepped_idle|].
  case_decide; [|by apply stepped_idle]. eexists. split; [reflexivity|]. split; [|done].
  set (vp' := with_outbound vp ch). destruct (queues_replace t v vp vp' Hv) as (q & Hq & Hq').
  destruct (in_hands_set hands (GSender v i)) as (rest & Hh & Hh').
  assert (not_receiver (GSender v i)) as Hnr by (by intros ?).
  constructor; cbn [n_state n_slots n_hands n_localIP fst snd].
  - by apply (sp_ok _ _ (same_peers_update t v vp vp' Hv eq_refl eq_refl eq_refl)).
  - rewrite Hq', Hh'. rewrite Hq, Hh in Hw. unfold vq in *. rewrite Eout in Hw. cbn [vp_inbound vp_outbound vp' with_outbound].
    eapply owns_Permutation; [|exact Hw]. solve_Permutation.
  - apply (good_kept w w hands _ t _); [apply Hw| |done]. intros l Hl. split; [|done]. apply received_other in Hl; [|done].
    destruct Hl as [Hl|?]; [left; by apply (inbound_in_update t v vp vp')|by right].
  - by apply ips_other.
Qed.

(** A sender sends and releases what it holds. *)
Lemma send_step v i env n : node_inv n → stepped n (node_step (ASend v i env) n).
Proof.
  intros Hn. pose proof Hn as [Ht Hw Hg Hi]. destruct n as [slots [w t] hands out ips]. cbn [node_step n_state n_slots n_hands n_localIP fst snd] in *.
  destruct (in_hands_set hands (GSender v i)) as (rest & Hh & Hh').
  destruct (hand hands (GSender v i)) as [|p batch]; [by apply stepped_idle|].
  rewrite Hh, <- app_assoc in Hw.
  destruct (outbound_send _ _ _ _) as [[s' evs] w'] eqn:E. destruct (outbound_send_owns _ _ _ _ _ _ _ _ Hw E) as [Hw' Hk].
  eexists. split; [reflexivity|]. split; [|done]. assert (not_receiver (GSender v i)) as Hnr by (by intros ?).
  constructor; cbn [n_state n_slots n_hands n_localIP fst snd]; [done|by rewrite Hh'| |by apply ips_other].
  apply (good_kept w w' hands _ t _); [apply Hw| |done]. intros l Hl. split; [by apply received_other in Hl|].
  apply Hk. apply (received_used _ _ _ slots) in Hl. by rewrite Hh' in Hl.
Qed.

Lemma idle_step v i n : node_inv n → stepped n (node_step (AIdle v i) n).
Proof.
  intros Hn. pose proof Hn as [Ht Hw Hg Hi]. destruct n as [slots [w t] hands out ips]. cbn [node_step].
  destruct (hand _ _); [|by apply stepped_idle]. destruct (t_peers t !! v); [|by apply stepped_idle].
  eexists. split; [reflexivity|]. done.
Qed.

(** A receiver takes a packet from the queue of its peer. *)
Lemma take_in_step v n : node_inv n → stepped n (node_step (ATakeIn v) n).
Proof.
  intros Hn. pose proof Hn as [Ht Hw Hg Hi]. destruct n as [slots [w t] hands out ips]. cbn [node_step n_state n_slots n_hands n_localIP fst snd] in *.
  destruct (t_peers t !! v) as [vp|] eqn:Hv; [|by apply stepped_idle].
  destruct (vp_inbound vp) as [|packet ch] eqn:Ein; [by apply stepped_idle|].
  case_decide; [|by apply stepped_idle]. eexists. split; [reflexivity|]. split; [|done].
  set (vp' := with_inbound vp ch). destruct (queues_replace t v vp vp' Hv) as (q & Hq & Hq').
  destruct (in_hands_set hands (GReceiver v)) as (rest & Hh & Hh').
  constructor; cbn [n_state n_slots n_hands n_localIP fst snd].
  - by apply (sp_ok _ _ (same_peers_update t v vp vp' Hv eq_refl eq_refl eq_refl)).
  - rewrite Hq', Hh'. rewrite Hq, Hh in Hw. unfold vq in *. rewrite Ein in Hw. cbn [vp_inbound vp_outbound vp' with_inbound].
    eapply owns_Permutation; [|exact Hw]. solve_Permutation.
  - apply (good_kept w w hands _ t _); [apply Hw| |done]. intros l Hl. split; [|done].
    assert (inbound_in t packet) as Hp.
    { exists v, (vp_inbound vp). unfold inbounds. rewrite lookup_fmap, Hv. split; [done|rewrite Ein; set_solver]. }
    destruct Hl as [Hl|[u Hl]]; [left|].
    + apply (inbound_in_update t v vp vp'); [done| |done]. rewrite Ein. cbn. set_solver.
    + rewrite hand_insert in Hl. case_decide as Eu; [|right; by exists u]. injection Eu as <-.
      apply elem_of_app in Hl as [Hl|Hl]; [right; by exists v|]. apply list_elem_of_singleton in Hl as ->. by left.
  - intros u. rewrite hand_insert. case_decide as Eu.
    + injection Eu as <-. intros _. specialize (Hi v). destruct (hand hands (GReceiver v)); [|by apply Hi].
      rewrite lookup_insert_eq. by apply (ok_valid t Ht v vp).
    + intros Hu. specialize (Hi u Hu). destruct (hand hands (GReceiver v)); [|done].
      rewrite lookup_insert_ne; [done|]. congruence.
Qed.

(** A receiver writes and releases what it holds. *)
Lemma write_step v tun_err n : valid4 (d_localIP d) → node_inv n → stepped n (node_step (AWrite v tun_err) n).
Proof.
  intros Hd Hn. pose proof Hn as [Ht Hw Hg Hi]. destruct n as [slots [w t] hands out ips]. cbn [node_step n_state n_slots n_hands n_localIP fst snd] in *.
  destruct (in_hands_set hands (GReceiver v)) as (rest & Hh & Hh').
  destruct (hand hands (GReceiver v)) as [|p batch] eqn:Eh; [by apply stepped_idle|].
  rewrite Hh, <- app_assoc in Hw.
  destruct (inbound_write_batch d (default [] (ips !! v)) (p :: batch) tun_err w (rest ++ held slots ++ queues t))
    as (w' & bufs & -> & Hw' & _ & _ & Hc); [apply Hi; by rewrite Eh|done|done| |done|].
  { intros l Hl. destruct (Hg l) as [H4 Hc4]; [right; exists v; by rewrite Eh|].
    eapply owned_fresh4; [exact Hw|apply elem_of_app; by left|done|done]. }
  cbn [mbind outcome_bind]. eexists. split; [reflexivity|]. split; [|done].
  constructor; cbn [n_state n_slots n_hands n_localIP fst snd]; [done|by rewrite Hh'| |].
  - intros l Hl. pose proof (received_used _ _ _ slots Hl) as Hu. rewrite Hh' in Hu. unfold good. rewrite Hc by exact Hu.
    apply Hg. destruct Hl as [?|[u Hl]]; [by left|right; exists u]. rewrite hand_insert in Hl. case_decide; [|done].
    by apply elem_of_nil in Hl.
  - intros u. rewrite hand_insert. case_decide; [done|apply Hi].
Qed.

(** A stream handler takes a packet. *)
Lemma stream_step k n : node_inv n → stepped n (node_step (AStream k) n).
Proof.
  intros Hn. pose proof Hn as [Ht Hw Hg Hi]. destruct n as [slots [w t] hands out ips]. cbn [node_step n_state n_slots n_hands n_localIP fst snd] in *.
  destruct (in_hands_set hands (GStream k)) as (rest & Hh & Hh').
  destruct (hand hands (GStream k)); [|by apply stepped_idle].
  destruct (GetTempPacket w) as [l w1] eqn:E1. destruct (GetTempPacket_owns w l w1 _ Hw E1) as (Hw1 & _ & Hk1).
  eexists. split; [reflexivity|]. split; [|done]. assert (not_receiver (GStream k)) as Hnr by (by intros ?).
  constructor; cbn [n_state n_slots n_hands n_localIP fst snd]; [done| | |by apply ips_other].
  - rewrite Hh'. by rewrite Hh in Hw1.
  - apply (good_kept w w1 hands _ t _); [apply Hw| |done]. intros x Hx. apply received_other in Hx; [|done].
    split; [done|]. by apply Hk1, received_used.
Qed.

(** Refreshing adds no packet from a peer. *)
Lemma refresh_peer_inbound t k t' l : refresh_peer t k = Ok t' → inbound_in t' l → inbound_in t l.
Proof.
  unfold refresh_peer, peer_obj. case_decide; [by intros [= <-]|].
  destruct (peerIDToPeer t !! PeerId k) as [v|].
  - destruct (t_peers t !! v) as [vp|] eqn:Hv; [|done]. cbn [or_panic mbind outcome_bind].
    destruct (IP_Equal _ _); intros [= <-]; [done|]. by apply (inbound_in_update t v vp).
  - intros [= <-] (u & q & Hu & Hl). unfold inbounds in Hu. cbn [t_peers] in Hu. rewrite fmap_insert, lookup_insert in Hu.
    case_decide; [|by exists u, q]. injection Hu as <-. by apply elem_of_nil in Hl.
Qed.

Lemma refresh_peers_inbound known : ∀ t t' l, refresh_peers known t = Ok t' → inbound_in t' l → inbound_in t l.
Proof.
  induction known as [|k known IH]; intros t t' l; cbn [refresh_peers]; [by intros [= <-]|].
  intros (t1 & E1 & E2)%outcome_bind_Ok Hl. eapply refresh_peer_inbound; [done|]. by eapply IH.
Qed.


(** The deleting loops on the whole state. *)
Lemma each_peer_step f stays vs hands slots w t : drops_ok f stays → visits t vs →
  tunnel_ok t → owns w (in_hands hands ++ held slots ++ queues t) → (∀ l, received_in hands t l → good w l) →
  ∃ w' t', each_peer f vs (w, t) = Ok (w', t') ∧ tunnel_ok t' ∧ owns w' (in_hands hands ++ held slots ++ queues t') ∧
    ∀ l, received_in hands t' l → good w' l.
Proof.
  intros Hf Hv Ht Hw Hg. rewrite app_assoc in Hw.
  destruct (each_peer_ok f stays Hf vs w t (in_hands hands ++ held slots) Ht Hw) as (w' & t' & E & Ht' & Hw' & _ & _ & _ & _ & _ & Hk & Hi).
  - by apply (visits_nodup t).
  - intros v. by apply (visits_elem t).
  - rewrite <- app_assoc in Hw', Hk. exists w', t'. split_and!; try done.
    apply (good_kept w w' hands hands t t'); [apply Hw| |done]. intros l Hl. split; [|by apply Hk, received_used].
    destruct Hl as [?|?]; [left; by apply Hi|by right].
Qed.

Lemma refresh_step c known n : node_inv n → stepped n (node_step (ARefresh c known) n).
Proof.
  destruct n as [slots [w t] hands out ips]. intros [Ht Hw Hg Hi]. cbn [n_state n_slots n_hands n_localIP fst snd node_step] in *.
  destruct (refresh_peers_ok known t Ht) as (t1 & E1 & Ht1 & Hq1 & _). unfold RefreshPeersList. rewrite E1. cbn [mbind outcome_bind].
  destruct (each_peer_step _ _ (porder t1) hands slots w t1 (refresh_delete_drops c) (porder_visits t1) Ht1) as (w' & t' & -> & Ht' & Hw' & Hg').
  - by rewrite Hq1.
  - intros l [Hl|?]; apply Hg; [left; by eapply refresh_peers_inbound|by right].
  - cbn [mbind outcome_bind]. eexists. split; [reflexivity|]. split; [by constructor|done].
Qed.

Lemma close_step n : node_inv n → stepped n (node_step AClose n).
Proof.
  destruct n as [slots [w t] hands out ips]. intros [Ht Hw Hg Hi]. cbn [n_state n_slots n_hands n_localIP fst snd node_step] in *.
  unfold Tunnel_Close. set (t0 := mkTunnel _ _ true _ _ _).
  destruct (each_peer_step drop_peer _ (porder t) hands slots w t0 drop_peer_drops) as (w' & t' & -> & Ht' & Hw' & Hg').
  - exact (porder_visits t).
  - by destruct Ht.
  - done.
  - done.
  - cbn [mbind outcome_bind]. eexists. split; [reflexivity|]. split; [by constructor|done].
Qed.

(** ** Frames *)

(** A stream that fails inside a frame: the object is still a buffer of bytes. *)
Lemma ReadFrom_fails fuel : ∀ h l p t N r,
  h !! l = Some p → obj_ok l p → Forall is_byte (remaining r) → (tunPacketOffset ≤ t)%nat →
  Z.of_nat t + N ≤ Z.of_nat maxContentSize → Z.of_nat (length (remaining r)) < N → fin r ≠ EOF → (reads r < fuel)%nat →
  ∃ k e s p', ReadFrom fuel h l t (N, r) = Some (<[l := p']> h, k, Some e, s) ∧ obj_ok l p'.
Proof.
  induction fuel as [|fuel IH]; intros h l p t N r Hl Hok Hb Ht HN Hrem Hfin Hfuel; [lia|].
  cbn [ReadFrom]. destruct (LimitedRead (maxContentSize - t) (N, r)) as [[bs e] [N1 r1]] eqn:E.
  apply LimitedRead_spec in E as (Hr & Hle & -> & HbN & Hf1 & Hd1 & Hdec & HeN & Herr).
  rewrite Hr in Hb. apply Forall_app in Hb as [Hbs Hb1]. destruct Hok as [Hlen Hbytes HP].
  assert (Hcp : copy_into h (SView l t (maxContentSize - t)) bs = <[l := with_Buffer p (copy_at t bs (Buffer p))]> h).
  { rewrite <- (insert_id h l p) at 1 by done. rewrite <- (with_Buffer_id p) at 1. rewrite copy_into_upd. by rewrite take_ge by lia. }
  assert (Hok' : obj_ok l (with_Buffer p (copy_at t bs (Buffer p)))).
  { constructor; cbn [Buffer with_Buffer Packet]; [rewrite length_copy_at; lia|by apply Forall_copy_at|done]. }
  rewrite Hcp. rewrite Hr, length_app in Hrem. destruct e as [err|].
  - destruct (Herr err eq_refl) as [(_ & ? & _)|(_ & -> & _)]; [lia|]. destruct (fin r) eqn:Ef; [done|..];
      (eexists _, _, _, _; split; [reflexivity|done]).
  - specialize (Hdec ltac:(lia) eq_refl).
    destruct (IH (<[l := with_Buffer p (copy_at t bs (Buffer p))]> h) l (with_Buffer p (copy_at t bs (Buffer p)))
                (t + length bs)%nat (N - Z.of_nat (length bs)) r1) as (k & e & s & p' & -> & Hp');
      [apply lookup_insert_eq|done|done|lia|lia|lia|congruence|lia|].
    rewrite insert_insert_eq. by exists k, e, s, p'.
Qed.

Lemma ReadFull_remaining fuel : ∀ n got r x e r', ReadFull fuel n got r = Some (x, e, r') → ∃ pre, remaining r = pre ++ remaining r'.
Proof.
  induction fuel as [|fuel IH]; intros n got r x e r'; cbn [ReadFull]; (case_decide; [intros [= _ _ <-]; by exists []|]); [done|].
  destruct (Read n r) as [[bs e1] r1] eqn:E. apply Read_spec in E as (Hr & _).
  case_decide; [intros [= _ _ <-]; by exists bs|]. destruct e1 as [[]|]; [intros [= _ _ <-]; by exists bs..|].
  intros [pre Hpre]%IH. exists (bs ++ pre). by rewrite Hr, Hpre, app_assoc.
Qed.

Lemma ReadUint64_remaining r x r' : ReadUint64 r = (Some (inl x), r') → ∃ pre, remaining r = pre ++ remaining r'.
Proof.
  unfold ReadUint64. destruct (ReadFull _ _ _ r) as [[[data [e|]] r1]|] eqn:E; [done| |done].
  intros [= _ <-]. by eapply ReadFull_remaining.
Qed.

(** What a stream handler does with the packet it holds: given back, or queued from the
    peer. [w] is the state in which it holds it, [w2] the state after it was filled. *)
Section frame.
Context (k : nat) (l : loc) (w w2 : World) (t : Tunnel) (slots : list (option loc)).
Context (hands : gmap goroutine (list loc)) (out : gmap (vploc * nat) OutState) (ips : gmap vploc bytes).
Let hands' := <[GStream k := []]> hands.
Hypothesis (Ht : tunnel_ok t) (Hw2 : owns w2 (l :: in_hands hands' ++ held slots ++ queues t)).
Hypothesis (Hh : heap_ok (w_heap w)) (Hk : keeps w w2 (in_hands hands' ++ held slots ++ queues t)).
Hypothesis (Hg : ∀ x, received_in hands t x → good w x) (Hi : ips_ok hands ips).

Lemma stream_not_receiver : not_receiver (GStream k).
Proof. by intros v. Qed.

Lemma put_back : node_inv (mkNode slots (PutTempPacket l w2, t) hands' out ips).
Proof.
  constructor; cbn [n_state n_slots n_hands n_localIP fst snd]; [done|by apply PutTempPacket_owns| |apply ips_other, Hi; by intros ?].
  apply (good_kept w _ hands hands' t t Hh); [|done]. intros x Hx. pose proof (received_used _ _ _ slots Hx) as Hu.
  split; [by apply received_other in Hx; [|apply stream_not_receiver]|].
  rewrite (keeps_put w2 l _ Hw2 x Hu). by apply Hk.
Qed.

Lemma queue_inbound v vp : t_peers t !! v = Some vp → good w2 l →
  node_inv (mkNode slots (w2, with_peers t (<[v := with_inbound vp (vp_inbound vp ++ [l])]> (t_peers t))) hands' out ips).
Proof.
  intros Hv Hgood. set (vp' := with_inbound vp (vp_inbound vp ++ [l])).
  destruct (queues_replace t v vp vp' Hv) as (rest & Hq & Hq').
  constructor; cbn [n_state n_slots n_hands n_localIP fst snd]; [| | |apply ips_other, Hi; by intros ?].
  - by apply (sp_ok _ _ (same_peers_update t v vp vp' Hv eq_refl eq_refl eq_refl)).
  - rewrite Hq'. pose proof Hw2 as Hw0. rewrite Hq in Hw0. unfold vq in *. cbn [vp_inbound vp_outbound vp' with_inbound].
    eapply owns_Permutation; [|exact Hw0]. solve_Permutation.
  - intros x Hx. apply received_other in Hx; [|apply stream_not_receiver].
    assert (x = l ∨ received_in hands t x) as [->|Hr]; [|done|].
    { destruct Hx as [(u & q & Hu & Hx)|?]; [|by right; right]. unfold inbounds in Hu. cbn [t_peers with_peers] in Hu.
      rewrite fmap_insert, lookup_insert in Hu. case_decide; [|right; left; by exists u, q]. injection Hu as <-.
      cbn [vp_inbound vp' with_inbound] in Hx. apply elem_of_app in Hx as [Hx|Hx]; [|left; by apply list_elem_of_singleton in Hx].
      right; left. exists v, (vp_inbound vp). unfold inbounds. by rewrite lookup_fmap, Hv. }
    apply (good_same w); [done| |by apply Hg]. apply Hk, received_used. by apply received_other; [apply stream_not_receiver|].
Qed.
End frame.

Lemma frame_step k peerID r n : node_inv n → frame_ok r → stepped n (node_step (AFrame k peerID r) n).
Proof.
  intros Hn [Hb Hframe]. pose proof Hn as [Ht Hw Hg Hi]. destruct n as [slots [w t] hands out ips].
  cbn [n_state n_slots n_hands n_localIP fst snd node_step] in *.
  assert (Hm : maxContentSize = 3600%nat) by done. assert (Ho : tunPacketOffset = 14%nat) by done.
  destruct (in_hands_set hands (GStream k)) as (rest & Eh & Eh').
  destruct (hand hands (GStream k)) as [|l [|]]; [by apply stepped_idle| |by apply stepped_idle].
  assert (Hw1 : owns w (l :: in_hands (<[GStream k := []]> hands) ++ held slots ++ queues t)) by (rewrite Eh'; by rewrite Eh in Hw).
  set (used := in_hands _ ++ held slots ++ queues t) in Hw1. assert (heap_ok (w_heap w)) as Hh by apply Hw.
  unfold stream_packet. destruct (ReadUint64 r) as [[[n|e]|] r1] eqn:Er; [| |by apply stepped_idle].
  2: { cbn [mbind outcome_bind]. eexists. split; [reflexivity|]. split; [|done]. by apply (put_back k l w w). }
  destruct (own_alloc w _ Hw1 l) as [p Hp]; [set_solver|]. pose proof (own_heap w _ Hw1 l p Hp) as Hok.
  assert (Hset : ∀ p', obj_ok l p' → let w2 := with_heap w (<[l := p']> (w_heap w)) in owns w2 (l :: used) ∧ keeps w w2 used).
  { intros p' Hp'. cbv zeta. split; [apply owns_insert; [done|set_solver|done]|].
    apply (keeps_heap w _ l _ Hw1). intros l' Hl'. by apply lookup_insert_ne. }
  assert (Forall is_byte (remaining r1)) as Hb1.
  { destruct (ReadUint64_remaining r _ r1 Er) as [pre Hpre]. rewrite Hpre in Hb. by apply Forall_app in Hb as [_ ?]. }
  destruct (Hframe n r1 eq_refl) as [Hfit [(pkt & tail & Hr1 & -> & H4 & Hc4 & Hfin)|[Hshort Hfin]]]; rewrite i64_small by lia.
  - assert (Forall is_byte pkt) as Hbp by (rewrite Hr1 in Hb1; by apply Forall_app in Hb1 as [? _]).
    destruct (ReadFrom_spec (S (S (reads r1))) (w_heap w) l p tunPacketOffset (Z.of_nat (length pkt)) r1) as (N' & r2 & E2 & _);
      [done|apply Hok|lia|lia|lia|destruct Hfin as [?|?]; [by left|right]; split; [rewrite Hr1, length_app; lia|done]|lia|].
    assert (Ebs : take (Z.to_nat (Z.of_nat (length pkt))) (remaining r1) = pkt).
    { rewrite Hr1, Nat2Z.id, take_app_le, take_ge; lia || done. }
    rewrite Ebs in E2. rewrite E2. destruct (filled_ok p l pkt Hok Hbp) as [Hfok Hfv]; [lia|].
    destruct (Hset _ Hfok) as [Hw2 Hk2]. set (w2 := with_heap w _) in *.
    assert (good w2 l) as Hgood. { assert (content w2 l = pkt) as Ec by (unfold content, w2; cbn [w_heap with_heap]; rewrite lookup_insert_eq; apply Hfv).
      unfold good. by rewrite Ec. }
    destruct (peerIDToPeer t !! peerID) as [v|] eqn:Hid.
    2: { cbn [mbind outcome_bind]. eexists. split; [reflexivity|]. split; [|done]. by apply (put_back k l w w2). }
    destruct (ok_ids t Ht _ _ Hid) as (vp & Hv & _ & Hc). unfold send_inbound, peer_obj. rewrite Hv.
    cbn [or_panic mbind outcome_bind]. rewrite Hc. case_decide; cbn [mbind outcome_bind];
      (eexists; split; [reflexivity|]; split; [|done]); [by apply (queue_inbound k l w w2)|by apply (put_back k l w w2)].
  - destruct (ReadFrom_fails (S (S (reads r1))) (w_heap w) l p tunPacketOffset n r1) as (k' & e & [N' r2] & p' & -> & Hp');
      [done|done|done|lia|lia|lia|done|lia|].
    cbn [mbind outcome_bind]. destruct (Hset _ Hp') as [Hw2 Hk2]. eexists. split; [reflexivity|]. split; [|done].
    by apply (put_back k l w (with_heap w (<[l := p']> (w_heap w)))).
Qed.

Lemma node_step_inv a n : valid4 (d_localIP d) → node_inv n → action_ok (length (n_slots n)) a → stepped n (node_step a n).
Proof.
  intros Hd Hn Ha. destruct a as [reads connected|k|k peerID r|v i|v i env|v i|v|v e|c known|].
  - by apply tun_step.
  - by apply stream_step.
  - by apply frame_step.
  - by apply take_out_step.
  - by apply send_step.
  - by apply idle_step.
  - by apply take_in_step.
  - by apply write_step.
  - by apply refresh_step.
  - by apply close_step.
Qed.
(** ** Undisturbed, the steps of a goroutine are a round of its loop *)

Lemma node_run_app acts1 acts2 n n' : node_run acts1 n = Ok n' → node_run (acts1 ++ acts2) n = node_run acts2 n'.
Proof.
  revert n. induction acts1 as [|a acts1 IH]; intros n; cbn [node_run app]; [by intros [= ->]|].
  intros (n1 & -> & E)%outcome_bind_Ok. cbn [mbind outcome_bind]. by apply IH.
Qed.

Lemma take_out_run v i vp slots w out ips j : ∀ t hands batch ch, t_peers t !! v = Some (with_outbound vp ch) →
  hand hands (GSender v i) = batch → (length batch + j ≤ packetsBatchSize)%nat → (j ≤ length ch)%nat →
  node_run (replicate j (ATakeOut v i)) (mkNode slots (w, t) hands out ips) =
  Ok (mkNode slots (w, with_peers t (<[v := with_outbound vp (drop j ch)]> (t_peers t)))
        (<[GSender v i := batch ++ take j ch]> hands) out ips) ∨ j = 0%nat.
Proof.
  induction j as [|j IH]; intros t hands batch ch Hv Hh Hb Hc; [by right|left]. destruct ch as [|packet ch]; [simpl in Hc; lia|].
  cbn [replicate node_run node_step]. rewrite Hv. cbn [vp_outbound with_outbound]. rewrite Hh, decide_True by lia.
  cbn [mbind outcome_bind]. cbn [length take drop] in *.
  edestruct (IH (with_peers t (<[v := with_outbound vp ch]> (t_peers t))) (<[GSender v i := batch ++ [packet]]> hands) (batch ++ [packet]) ch)
    as [E| ->]; [apply lookup_insert_eq|by rewrite hand_insert, decide_True|rewrite length_app; simpl; lia|lia| |].
  - unfold with_outbound in *. cbn [vp_peerID vp_localIP vp_inbound vp_outbound vp_closed] in *. rewrite E.
    unfold with_peers. cbn [t_peers]. rewrite !insert_insert_eq, <- app_assoc. done.
  - cbn [replicate node_run take drop]. done.
Qed.

(** A sender that takes what its queue holds, up to a full batch, and sends it. *)
Lemma sender_round v i env slots w t hands out ips vp s' evs st' :
  hand hands (GSender v i) = [] → t_peers t !! v = Some vp →
  outbound_round v env (default initial_out (out !! (v, i))) (w, t) = Some (s', evs, st') →
  node_run (replicate (packetsBatchSize `min` length (vp_outbound vp)) (ATakeOut v i) ++ [ASend v i env]) (mkNode slots (w, t) hands out ips) =
  Ok (mkNode slots st' (<[GSender v i := []]> hands) (<[(v, i) := s']> out) ips).
Proof.
  intros Hh Hv. unfold outbound_round. rewrite Hv. cbn [mbind option_bind].
  assert (with_outbound vp (vp_outbound vp) = vp) as Evp by by destruct vp.
  destruct (vp_outbound vp) as [|packet ch] eqn:Eout; [done|].
  rewrite readBatchFromChan_spec by (simpl; unfold packetsBatchSize; lia). intros E.
  edestruct (take_out_run v i vp slots w out ips (packetsBatchSize `min` length (packet :: ch)) t hands [] (packet :: ch)) as [Er|Er];
    [by rewrite Evp|done|cbn [length]; lia|lia| |unfold packetsBatchSize in Er; simpl in Er; lia].
  rewrite (node_run_app _ _ _ _ Er). cbn [node_run node_step app]. rewrite hand_insert, decide_True by done.
  assert (take (packetsBatchSize `min` length (packet :: ch)) (packet :: ch) = [packet] ++ take (packetsBatchSize - length [packet]) ch) as ->.
  { rewrite <- take_take, (take_ge (packet :: ch)) by lia. done. }
  assert (drop (packetsBatchSize `min` length (packet :: ch)) (packet :: ch) = drop (packetsBatchSize - length [packet]) ch) as ->.
  { change (drop (packetsBatchSize - length [packet]) ch) with (drop packetsBatchSize (packet :: ch)).
    destruct (decide (packetsBatchSize ≤ length (packet :: ch))%nat); [by rewrite Nat.min_l|].
    rewrite Nat.min_r by lia. by rewrite !drop_ge by lia. }
  cbn [app] in *. unfold out_of. cbn [n_out]. destruct (outbound_send _ _ _ _) as [[s1 evs1] w1]. injection E as <- <- <-.
  cbn [mbind outcome_bind]. by rewrite insert_insert_eq.
Qed.
End node.

(** ** Properties *)

(** C2. Under every interleaving of the steps of its goroutines a node runs without a
    panic, as long as its peers send complete IPv4 packets that fit the buffer (streams may
    also end between frames or fail inside one): the reader of the interface, the stream
    handlers, the receiving goroutine and any number of sending goroutines of every peer,
    refreshes of the known peers and the closing of the tunnel, in any order, also while
    others hold packets. At any time every packet object that was ever allocated is in
    exactly one place: the pool, a slot, a channel or the hands of one goroutine; so none
    leaks and none is shared. The tables of peers agree, and no channel is used after it
    was closed. *)
Theorem node_safe `{PoolPolicy} `{BroadcastOrder} `{PeerOrder} `{PeerCodec} d batchSize actions n :
  valid4 (d_localIP d) → node_inv n → Forall (action_ok (length (n_slots n))) actions →
  ∃ n', node_run d batchSize actions n = Ok n' ∧ node_inv n'.
Proof.
  intros Hd. revert n. induction actions as [|a actions IH]; intros n Hn Hall; [by exists n|].
  apply list.Forall_cons in Hall as [Ha Hall].
  destruct (node_step_inv d batchSize a n Hd Hn Ha) as (n1 & E1 & Hn1 & Hl1). cbn [node_run]. rewrite E1. cbn [mbind outcome_bind].
  apply IH; [done|]. by rewrite Hl1.
Qed.

(** A stream that ends inside a frame is not noticed: [ReadFrom] takes the end of the
    stream for the end of the packet and delivers what there was, without an error. *)
Theorem truncated_frame_accepted h l p N r :
  h !! l = Some p → length (Buffer p) = maxContentSize → Z.of_nat tunPacketOffset + N ≤ Z.of_nat maxContentSize →
  Z.of_nat (length (remaining r)) < N → fin r = EOF →
  ∃ N' r', ReadFrom (S (reads r)) h l tunPacketOffset (N, r) =
    Some (<[l := filled p l tunPacketOffset (remaining r)]> h, Z.of_nat (length (remaining r)), None, (N', r')).
Proof.
  intros Hl Hlen HN Hshort Hf. assert (Hm : maxContentSize = 3600%nat) by done. assert (Ho : tunPacketOffset = 14%nat) by done.
  destruct (ReadFrom_spec (S (reads r)) h l p tunPacketOffset N r) as (N' & r' & E & _); [done|done|lia|lia|lia|by left|lia|].
  rewrite take_ge in E by lia. exists N', r'. rewrite E. repeat f_equal. lia.
Qed.

(** ** Witness: packets cross a node in both directions while it refreshes and closes. *)

Definition tunnel_order : PeerOrder := {| porder t := (map_to_list (peerIDToPeer t)).*2; porder_visits t := reflexivity _ |}.
#[local] Existing Instances first_free any_order tunnel_order toy_codec.

Definition node_b : Node := mkNode [None; None] (empty_world, t_b) ∅ ∅ ∅.
Definition frame_from_b : Reader := mkReader [take 5 (frames [tcp_packet]); drop 5 (frames [tcp_packet])] EOF false.
Definition busy : list action :=
  [AStream 0; ATun [(pkt_to_b, 20%nat)] (λ _, true); AFrame 0 "b" frame_from_b; AStream 1; ATakeOut 0 2; ATakeIn 0; AStream 0;
   ASend 0 2 (mkOutEnv true (Some false) true); AFrame 1 "b" frame_from_b; AIdle 0 2; AFrame 0 "b" frame_from_b; ATakeIn 0;
   AStream 0; ARefresh (conf_peers [("c", "10.66.0.4")]) [peer_at "c" "10.66.0.4"]; AWrite 0 false;
   AFrame 0 "b" frame_from_b; ATakeIn 0; AClose].

Lemma node_b_inv : node_inv node_b.
Proof.
  constructor; cbn [node_b n_state n_slots fst snd].
  - exact t_b_ok.
  - exact empty_world_owns.
  - intros l [(v & q & Hv & Hl)|[v Hl]]; [|by apply elem_of_nil in Hl]. unfold inbounds, t_b in Hv. cbn [t_peers] in Hv. rewrite map_fmap_singleton in Hv.
    apply lookup_singleton_Some in Hv as [_ <-]. by apply elem_of_nil in Hl.
  - by intros v.
Qed.

Lemma frame_from_b_ok : frame_ok frame_from_b.
Proof.
  split; [apply sample_bytes; vm_compute; reflexivity|]. intros n r1 E.
  assert (remaining frame_from_b = be_split 8 40 ++ tcp_packet) as Hr by (vm_compute; reflexivity).
  destruct (ReadUint64_frame frame_from_b 40 tcp_packet) as (r' & E' & Hr' & Hf & _); [lia|done|].
  rewrite E' in E. injection E as <- <-. split; [vm_compute; discriminate|]. left. exists tcp_packet, [].
  split_and!; [by rewrite app_nil_r|reflexivity| | |by left].
  - split; [vm_compute; reflexivity|apply (bool_decide_unpack _); vm_compute; exact I].
  - rewrite <- content_out. destruct w_two_fresh as (p & k & Hp & _ & _ & Hc). injection Hp as <-. exact Hc.
Qed.

Lemma busy_ok : Forall (action_ok 2) busy.
Proof.
  repeat (constructor; [first [exact frame_from_b_ok|exact I|pose proof pkt_to_b_read as Hr; by apply list.Forall_cons in Hr as [Hr _]]|]).
  constructor.
Qed.

Lemma node_safe_witness :
  ∃ n', node_run (mkDevice 1500 [10; 66; 0; 1]) 8 busy node_b = Ok n' ∧ node_inv n' ∧
    in_hands (n_hands n') = [] ∧ queues (n_state n').2 = [] ∧ length (w_written (n_state n').1) = 1%nat.
Proof.
  destruct (node_safe (mkDevice 1500 [10; 66; 0; 1]) 8 busy node_b) as (n' & E & Hn').
  - split; [reflexivity|by apply sample_bytes].
  - exact node_b_inv.
  - exact busy_ok.
  - exists n'. split; [exact E|]. split; [exact Hn'|]. vm_compute in E. injection E as <-. split_and!; vm_compute; reflexivity.
Defined.
