(* ===== verification/AuthStatus.v ===== *)
(** * Friend requests and status exchange (src/service/auth_status.go)

    The service keeps the pending friend requests and updates the configuration. A
    handler takes the lock of the configuration for each access only, so where the
    source re-reads the configuration the argument [mid] is what other goroutines did
    to it meanwhile. What the network delivers is an argument too. *)

From S2P Require Import Prelude GoStrings GoNet Externals Config NetworkAddr AwlDns Protocol.

(** [AuthStatus], with the configuration it shares and the [ReceivedAuthRequest]
    events it emitted. *)
Record Auth := mkAuth {
  ingoingAuths : gmap string AuthPeer;
  outgoingAuths : gmap string AuthPeer;
  a_store : Store;
  a_emitted : list (string * AuthPeer);
}.

Definition with_store (a : Auth) (s : Store) : Auth := mkAuth (ingoingAuths a) (outgoingAuths a) s (a_emitted a).
Definition with_outgoing (a : Auth) (m : gmap string AuthPeer) : Auth :=
  mkAuth (ingoingAuths a) m (a_store a) (a_emitted a).
Definition with_ingoing (a : Auth) (m : gmap string AuthPeer) : Auth :=
  mkAuth m (outgoingAuths a) (a_store a) (a_emitted a).

Definition a_conf (a : Auth) : Config := conf (a_store a).

(** [createPeerInfo]. *)
Definition createPeerInfo (c : Config) (peer : KnownPeer) (myPeerName : string) (declined : bool) : PeerStatusInfo :=
  if declined then mkPeerStatusInfo "" true false ""
  else mkPeerStatusInfo myPeerName false (kp_WeAllowUsingAsExitNode peer) (UsingPeerID (SOCKS5 c)).

Definition set_UsingPeerID (id : string) (s : Store) : Store :=
  update_conf (λ c, with_SOCKS5 c (with_UsingPeerID (SOCKS5 c) id)) s.

(** The peer after its status was processed. *)
Definition declined_peer (now : time) (peer : KnownPeer) : KnownPeer :=
  mkKnownPeer (kp_PeerID peer) (kp_Name peer) (kp_Alias peer) (kp_IPAddr peer) (kp_DomainName peer)
    (kp_CreatedAt peer) now (kp_Confirmed peer) true (kp_WeAllowUsingAsExitNode peer)
    (kp_AllowedUsingAsExitNode peer) (kp_ReportedUsingPeerID peer).

Definition accepted_peer `{Unicode} (now : time) (peer : KnownPeer) (peerInfo : PeerStatusInfo) (c : Config) : KnownPeer :=
  let named := mkKnownPeer (kp_PeerID peer) (psi_Name peerInfo) (kp_Alias peer) (kp_IPAddr peer) (kp_DomainName peer)
    (kp_CreatedAt peer) now true false (kp_WeAllowUsingAsExitNode peer)
    (kp_AllowedUsingAsExitNode peer) (kp_ReportedUsingPeerID peer) in
  let domain := if decide (kp_DomainName peer = "") then TrimDomainName (DisplayName named) else kp_DomainName peer in
  let alias := if decide (kp_Alias peer = "") then GenUniqPeerAlias (psi_Name peerInfo) "" c else kp_Alias peer in
  mkKnownPeer (kp_PeerID peer) (psi_Name peerInfo) alias (kp_IPAddr peer) domain
    (kp_CreatedAt peer) now true false (kp_WeAllowUsingAsExitNode peer)
    (psi_AllowUsingAsExitNode peerInfo) (psi_UsingPeerID peerInfo).

(** [processPeerStatusInfo]. *)
Definition processPeerStatusInfo `{Unicode} (now : time) (peer : KnownPeer) (peerInfo : PeerStatusInfo) (s : Store)
    : Store :=
  if psi_Declined peerInfo then
    let peer := declined_peer now peer in
    let s := UpsertPeer peer s in
    if decide (UsingPeerID (SOCKS5 (conf s)) = kp_PeerID peer) then set_UsingPeerID "" s else s
  else
    let peer := accepted_peer now peer peerInfo (conf s) in
    let s := UpsertPeer peer s in
    let s := if kp_AllowedUsingAsExitNode peer && bool_decide (UsingPeerID (SOCKS5 (conf s)) = "")
             then set_UsingPeerID (kp_PeerID peer) s else s in
    if negb (kp_AllowedUsingAsExitNode peer) && bool_decide (UsingPeerID (SOCKS5 (conf s)) = kp_PeerID peer)
    then set_UsingPeerID "" s else s.

(** What the network does in an outgoing exchange: connecting, opening the stream and
    sending succeed or not, and the answer. *)
Record Exchange (A : Type) := mkExchange { ex_connect : bool; ex_stream : bool; ex_send : bool; ex_answer : option A }.
Arguments mkExchange {A}.
Arguments ex_connect {A}.
Arguments ex_stream {A}.
Arguments ex_send {A}.
Arguments ex_answer {A}.

Section service.
Context `{PeerCodec} `{Unicode}.

(** [StatusStreamHandler]: the reply, if one is sent. [received] is the message the
    peer sends, none if it cannot be read. *)
Definition StatusStreamHandler (now : time) (remotePeer : string) (received : option PeerStatusInfo)
    (mid : Store → Store) (a : Auth) : option PeerStatusInfo * Auth :=
  let peerID := peer_String remotePeer in
  let '(knownPeer, known) := GetPeer peerID (a_conf a) in
  let '(_, isBlocked) := GetBlockedPeer peerID (a_conf a) in
  if negb known && negb isBlocked then (None, a)
  else
    match received with
    | None => (None, a)
    | Some oppositePeerInfo =>
        let a := with_outgoing a (delete remotePeer (outgoingAuths a)) in
        let myPeerInfo := createPeerInfo (a_conf a) knownPeer (Name (P2pNode (a_conf a))) isBlocked in
        if isBlocked then (Some myPeerInfo, a)
        else
          let a := with_store a (mid (a_store a)) in
          let knownPeer := (GetPeer peerID (a_conf a)).1 in
          (Some myPeerInfo, with_store a (processPeerStatusInfo now knownPeer oppositePeerInfo (a_store a)))
    end.

(** [ExchangeNewStatusInfo]: what was sent and whether an error is returned. *)
Definition ExchangeNewStatusInfo (now : time) (remotePeerID : string) (knownPeer : KnownPeer)
    (ex : Exchange PeerStatusInfo) (mid : Store → Store) (a : Auth) : option PeerStatusInfo * bool * Auth :=
  let a := with_ingoing a (delete remotePeerID (ingoingAuths a)) in
  if negb (ex_connect ex) then (None, true, a)
  else if negb (ex_stream ex) then (None, true, a)
  else
    let '(_, isBlocked) := GetBlockedPeer (peer_String remotePeerID) (a_conf a) in
    let myPeerInfo := createPeerInfo (a_conf a) knownPeer (Name (P2pNode (a_conf a))) isBlocked in
    if negb (ex_send ex) then (None, true, a)
    else match ex_answer ex with
         | None => (Some myPeerInfo, true, a)
         | Some oppositePeerInfo =>
             if isBlocked then (Some myPeerInfo, false, a)
             else
               let a := with_store a (mid (a_store a)) in
               let knownPeer := (GetPeer (peer_String remotePeerID) (a_conf a)).1 in
               (Some myPeerInfo, false,
                with_store a (processPeerStatusInfo now knownPeer oppositePeerInfo (a_store a)))
         end.

(** [BlockPeer]: the update, then the exchange its goroutine makes. *)
Definition BlockPeer (now : time) (peerID name : string) (ex : Exchange PeerStatusInfo) (mid : Store → Store)
    (a : Auth) : option PeerStatusInfo * Auth :=
  let a := with_store a (UpsertBlockedPeer now (peer_String peerID) name (a_store a)) in
  let '(sent, _, a) := ExchangeNewStatusInfo now peerID zeroKnownPeer ex mid a in
  (sent, a).

(** [SendAuthRequest]. *)
Definition SendAuthRequest (peerID : string) (req : AuthPeer) (ex : Exchange AuthPeerResponse) (a : Auth)
    : bool * Auth :=
  let a := with_outgoing a (<[peerID := req]> (outgoingAuths a)) in
  if negb (ex_connect ex && ex_stream ex && ex_send ex) then (true, a)
  else match ex_answer ex with
       | None => (true, a)
       | Some authResponse =>
           let a := if apr_Confirmed authResponse || apr_Declined authResponse
                    then with_outgoing a (delete peerID (outgoingAuths a)) else a in
           let a := if apr_Declined authResponse then
                      let '(knownPeer, exists_) := GetPeer (peer_String peerID) (a_conf a) in
                      if exists_ then
                        with_store a (UpsertPeer
                          (mkKnownPeer (kp_PeerID knownPeer) (kp_Name knownPeer) (kp_Alias knownPeer) (kp_IPAddr knownPeer)
                             (kp_DomainName knownPeer) (kp_CreatedAt knownPeer) (kp_LastSeen knownPeer)
                             (kp_Confirmed knownPeer) true (kp_WeAllowUsingAsExitNode knownPeer)
                             (kp_AllowedUsingAsExitNode knownPeer) (kp_ReportedUsingPeerID knownPeer)) (a_store a))
                      else a
                    else a in
           (false, a)
       end.

(** The peer [AddPeer] stores. *)
Definition new_peer (now : time) (peerIDStr name alias ipAddr : string) (confirmed : bool) : KnownPeer :=
  let p := mkKnownPeer peerIDStr name alias ipAddr "" now 0 confirmed false false false "" in
  mkKnownPeer peerIDStr name alias ipAddr (TrimDomainName (DisplayName p)) now 0 confirmed false false false "".

(** [AddPeer] when no other goroutine changes the configuration between its checks and
    its updates, without the exchanges of its goroutine. *)
Definition AddPeer (now : time) (peerID name alias : string) (confirmed : bool) (ipAddr : string) (a : Auth)
    : outcome Auth :=
  let peerIDStr := peer_String peerID in
  let c := a_conf a in
  let '(_, exists_) := GetPeer peerIDStr c in
  if exists_ then Fail "peer has already been added"
  else
    let alias := TrimSpace alias in
    if negb (IsUniqPeerAlias "" alias c) then Fail "peer name is not unique"
    else
      ipAddr ← (if decide (ipAddr ≠ "") then _ ← CheckIPUnique ipAddr peerIDStr c; Ok ipAddr
                else GenerateNextIpAddr c);
      let s := RemoveBlockedPeer peerIDStr (a_store a) in
      Ok (with_store a (UpsertPeer (new_peer now peerIDStr name alias ipAddr confirmed) s)).

(** [AddPeer] with its gaps: each access takes the lock of the configuration for itself,
    and [mid1] to [mid4] are what other goroutines do to it between two of them. *)
Definition AddPeer_interleaved (now : time) (peerID name alias : string) (confirmed : bool) (ipAddr : string)
    (mid1 mid2 mid3 mid4 : Store → Store) (a : Auth) : outcome Auth :=
  let peerIDStr := peer_String peerID in
  let '(_, exists_) := GetPeer peerIDStr (a_conf a) in
  if exists_ then Fail "peer has already been added"
  else
    let alias := TrimSpace alias in
    let s := mid1 (a_store a) in
    if negb (IsUniqPeerAlias "" alias (conf s)) then Fail "peer name is not unique"
    else
      let s := mid2 s in
      ipAddr ← (if decide (ipAddr ≠ "") then _ ← CheckIPUnique ipAddr peerIDStr (conf s); Ok ipAddr
                else GenerateNextIpAddr (conf s));
      let s := mid3 s in
      let s := RemoveBlockedPeer peerIDStr s in
      let s := mid4 s in
      Ok (with_store a (UpsertPeer (new_peer now peerIDStr name alias ipAddr confirmed) s)).

(** The goroutine [AddPeer] starts. *)
Definition AddPeer_background (now : time) (peerID : string) (confirmed : bool) (exAuth : Exchange AuthPeerResponse)
    (ex : Exchange PeerStatusInfo) (mid : Store → Store) (a : Auth) : Auth :=
  let a := if confirmed then a
           else (SendAuthRequest peerID (mkAuthPeer (Name (P2pNode (a_conf a)))) exAuth a).2 in
  let knownPeer := (GetPeer (peer_String peerID) (a_conf a)).1 in
  (ExchangeNewStatusInfo now peerID knownPeer ex mid a).2.

(** [AuthStreamHandler]: the reply and the new state. [received] is the request;
    [sent] is the success of sending the reply, which changes nothing. The deferred
    call adds the peer when requests are accepted automatically. *)
Definition AuthStreamHandler (now : time) (remotePeer : string) (received : option AuthPeer) (a : Auth)
    : option AuthPeerResponse * outcome Auth :=
  let peerID := peer_String remotePeer in
  match received with
  | None => (None, Ok a)
  | Some authPeer =>
      let '(_, isBlocked) := GetBlockedPeer peerID (a_conf a) in
      let '(_, confirmed) := GetPeer peerID (a_conf a) in
      let autoAccept := AutoAcceptAuthRequests (P2pNode (a_conf a)) in
      let a := if negb confirmed && negb isBlocked && negb autoAccept then
                 mkAuth (<[remotePeer := authPeer]> (ingoingAuths a)) (outgoingAuths a) (a_store a)
                   (a_emitted a ++ [(peerID, authPeer)])
               else a in
      (Some (mkAuthPeerResponse confirmed isBlocked),
       if negb confirmed && negb isBlocked && autoAccept then
         match AddPeer now remotePeer (ap_Name authPeer) (GenUniqPeerAlias (ap_Name authPeer) "" (a_conf a)) true "" a with
         | Ok a => Ok a
         | Fail _ => Ok a
         | Panic => Panic
         end
       else Ok a)
  end.

(** [ExchangeStatusInfoWithAllKnownPeers]: [peers] is the order of the loop over the
    known peers, [ex] what the network does for each. *)
Fixpoint ExchangeStatusInfoWithAllKnownPeers (now : time) (peers : list string) (ex : string → Exchange PeerStatusInfo)
    (mid : Store → Store) (a : Auth) : Auth :=
  match peers with
  | [] => a
  | peerID :: peers =>
      let '(knownPeer, exists_) := GetPeer peerID (a_conf a) in
      let a := if exists_ then (ExchangeNewStatusInfo now (PeerId knownPeer) knownPeer (ex peerID) mid a).2 else a in
      ExchangeStatusInfoWithAllKnownPeers now peers ex mid a
  end.

(** A tick of [BackgroundRetryAuthRequests]: [pending] is the copy of the outgoing
    requests, in the order of the loop. *)
Fixpoint retry_auth_requests (pending : list (string * AuthPeer)) (ex : string → Exchange AuthPeerResponse) (a : Auth)
    : Auth :=
  match pending with
  | [] => a
  | (peerID, auth) :: pending => retry_auth_requests pending ex (SendAuthRequest peerID auth (ex peerID) a).2
  end.

(** [GetIngoingAuthRequests], for the order of the loop. *)
Definition GetIngoingAuthRequests (es : list (string * AuthPeer)) : gmap string AuthPeer :=
  foldl (λ result e, <[peer_String e.1 := e.2]> result) ∅ es.

(** [restoreOutgoingAuths], for the order of the loop. *)
Definition restoreOutgoingAuths (known : list KnownPeer) (c : Config) : gmap string AuthPeer :=
  foldl (λ m knownPeer, if negb (kp_Confirmed knownPeer) && negb (kp_Declined knownPeer)
                        then <[PeerId knownPeer := mkAuthPeer (Name (P2pNode c))]> m else m) ∅ known.

(** [NewAuthStatus]. *)
Definition NewAuthStatus (known : list KnownPeer) (s : Store) : Auth :=
  mkAuth ∅ (restoreOutgoingAuths known (conf s)) s [].

(** [onPeerConnected] with its goroutine. *)
Definition onPeerConnected (now : time) (peerID : string) (exAuth : Exchange AuthPeerResponse)
    (ex : Exchange PeerStatusInfo) (mid : Store → Store) (a : Auth) : Auth :=
  let outgoing := outgoingAuths a !! peerID in
  let '(knownPeer, known) := GetPeer (peer_String peerID) (a_conf a) in
  if negb known && negb (bool_decide (is_Some outgoing)) then a
  else
    let a := with_store a (UpdatePeerLastSeen now (peer_String peerID) (a_store a)) in
    let a := match outgoing with Some authPeer => (SendAuthRequest peerID authPeer exAuth a).2 | None => a end in
    if known then (ExchangeNewStatusInfo now peerID knownPeer ex mid a).2 else a.

(** [onPeerDisconnected]. *)
Definition onPeerDisconnected (now : time) (peerID : string) (a : Auth) : Auth :=
  let '(_, known) := GetPeer (peer_String peerID) (a_conf a) in
  if negb known then a else with_store a (UpdatePeerLastSeen now (peer_String peerID) (a_store a)).

(** [GetAuthRequestCounts]. *)
Definition GetAuthRequestCounts (a : Auth) : nat * nat := (size (ingoingAuths a), size (outgoingAuths a)).
End service.

(** ** What the network can do to the configuration *)

(** What the owner of the node decides is not changed: which peers are known or blocked,
    what identifies them, their addresses, since when they are known, the alias and the
    domain name once they are set, whom we allow to use us as an exit node, and every other
    field of the configuration but the choice of the exit node. A confirmed peer stays
    confirmed. The name a peer gives itself, when it was seen, whether it declined us and
    what it allows may change. *)
Record peer_kept (p p' : KnownPeer) : Prop := {
  pk_id : kp_PeerID p' = kp_PeerID p;
  pk_ip : kp_IPAddr p' = kp_IPAddr p;
  pk_created : kp_CreatedAt p' = kp_CreatedAt p;
  pk_allow : kp_WeAllowUsingAsExitNode p' = kp_WeAllowUsingAsExitNode p;
  pk_alias : kp_Alias p ≠ "" → kp_Alias p' = kp_Alias p;
  pk_domain : kp_DomainName p ≠ "" → kp_DomainName p' = kp_DomainName p;
  pk_confirmed : kp_Confirmed p = true → kp_Confirmed p' = true;
}.

Record kept (c c' : Config) : Prop := {
  kept_dom : dom (KnownPeers c') = dom (KnownPeers c);
  kept_rest : ∃ id, c' = with_SOCKS5 (with_KnownPeers c (KnownPeers c')) (with_UsingPeerID (SOCKS5 c) id);
  kept_peers : ∀ k p, KnownPeers c !! k = Some p → ∃ p', KnownPeers c' !! k = Some p' ∧ peer_kept p p';
}.

Global Instance peer_kept_refl : Reflexive peer_kept.
Proof. by intros p. Qed.

Global Instance peer_kept_trans : Transitive peer_kept.
Proof. intros p1 p2 p3 [? ? ? ? A1 D1 C1] [? ? ? ? A2 D2 C2]. constructor; intuition congruence. Qed.

Lemma kept_blocked c c' : kept c c' → BlockedPeers c' = BlockedPeers c.
Proof. by intros [_ [id ->] _]. Qed.

Lemma kept_node c c' : kept c c' → P2pNode c' = P2pNode c.
Proof. by intros [_ [id ->] _]. Qed.

Global Instance kept_refl : Reflexive kept.
Proof.
  intros c. constructor; [done| |intros k p Hp; by exists p]. exists (UsingPeerID (SOCKS5 c)). by destruct c as [? ? ? ? ? ? ? ? [] ? ? ? ?].
Qed.

Global Instance kept_trans : Transitive kept.
Proof.
  intros c1 c2 c3 [D1 [i1 E1] H1] [D2 [i2 E2] H2]. constructor; [congruence| |].
  - exists i2. rewrite E2, E1. done.
  - intros k p Hp. destruct (H1 k p Hp) as (p2 & Hp2 & K1). destruct (H2 k p2 Hp2) as (p3 & Hp3 & K2).
    exists p3. split; [done|by etrans].
Qed.

Lemma kept_replace c k p p' :
  KnownPeers c !! k = Some p → peer_kept p p' → kept c (with_KnownPeers c (<[k := p']> (KnownPeers c))).
Proof.
  intros Hp Hk. constructor; simpl.
  - rewrite dom_insert_L. apply elem_of_dom_2 in Hp. set_solver.
  - exists (UsingPeerID (SOCKS5 c)). by destruct c as [? ? ? ? ? ? ? ? [] ? ? ? ?].
  - intros k0 p0 Hp0. rewrite lookup_insert. case_decide; [subst; simplify_eq|]; by eexists.
Qed.

Lemma kept_SOCKS5 c id : kept c (with_SOCKS5 c (with_UsingPeerID (SOCKS5 c) id)).
Proof. constructor; [done| |intros k p Hp; by exists p]. exists id. by destruct c. Qed.

(** The identifiers in the configuration are the texts the library prints. *)
Definition canonical `{PeerCodec} (c : Config) : Prop :=
  ∀ k p, KnownPeers c !! k = Some p → kp_PeerID p = k ∧ peer_String (PeerId p) = k.

Lemma kept_canonical `{PeerCodec} c c' : kept c c' → canonical c → canonical c'.
Proof.
  intros [Hd _ Hk] Hc k p' Hp'.
  assert (is_Some (KnownPeers c !! k)) as [p Hp].
  { apply elem_of_dom. rewrite <- Hd. by apply elem_of_dom_2 in Hp'. }
  destruct (Hk k p Hp) as (p2 & Hp2 & [Hid _ _ _ _ _ _]). simplify_eq. destruct (Hc k p Hp) as [Hkey Hs].
  unfold PeerId in *. rewrite Hid. done.
Qed.

Section network.
Context `{PeerCodec} `{Unicode}.

Lemma process_kept now peer info s k :
  KnownPeers (conf s) !! k = Some peer → kp_PeerID peer = k →
  kept (conf s) (conf (processPeerStatusInfo now peer info s)).
Proof.
  intros Hp <-. unfold processPeerStatusInfo. destruct (psi_Declined info); cbn [conf].
  - etrans; [by apply (kept_replace (conf s) (kp_PeerID peer) peer (declined_peer now peer))|].
    case_decide; [exact (kept_SOCKS5 (conf (UpsertPeer (declined_peer now peer) s)) "")|reflexivity].
  - set (peer' := accepted_peer now peer info (conf s)).
    etrans; [apply (kept_replace (conf s) (kp_PeerID peer) peer peer'); [done|]|].
    { constructor; try done; intros Hn; unfold peer', accepted_peer; simpl; by rewrite decide_False. }
    set (s1 := UpsertPeer peer' s).
    change (kept (conf s1) (conf (let s2 := if kp_AllowedUsingAsExitNode peer' && bool_decide (UsingPeerID (SOCKS5 (conf s1)) = "")
      then set_UsingPeerID (kp_PeerID peer') s1 else s1 in
      if negb (kp_AllowedUsingAsExitNode peer') && bool_decide (UsingPeerID (SOCKS5 (conf s2)) = kp_PeerID peer')
      then set_UsingPeerID "" s2 else s2))).
    assert (Hset : ∀ id s0, kept (conf s0) (conf (set_UsingPeerID id s0))) by (intros id s0; apply kept_SOCKS5).
    cbv zeta. destruct (_ && _); destruct (_ && _); first [reflexivity|apply Hset|etrans; apply Hset].
Qed.

Lemma get_peer_kept peerID c p b : GetPeer peerID c = (p, b) →
  (b = true ∧ KnownPeers c !! peerID = Some p) ∨ (b = false ∧ KnownPeers c !! peerID = None).
Proof. unfold GetPeer. destruct (KnownPeers c !! peerID); intros [= <- <-]; auto. Qed.

(** What other goroutines do in the gaps of a handler, as far as they too only carry out
    what comes from the network. *)
Definition mid_kept (mid : Store → Store) : Prop := ∀ s, canonical (conf s) → kept (conf s) (conf (mid s)).

Lemma mid_kept_id : mid_kept (λ s, s).
Proof. by intros s _. Qed.

(** The second part of both directions of the exchange: the peer is read again. *)
Lemma process_again_kept now peerID info mid s : canonical (conf s) → mid_kept mid → is_Some (KnownPeers (conf s) !! peerID) →
  kept (conf s) (conf (processPeerStatusInfo now (GetPeer peerID (conf (mid s))).1 info (mid s))).
Proof.
  intros Hc Hm [p Hp]. pose proof (Hm s Hc) as Hk. destruct (kept_peers _ _ Hk _ _ Hp) as (p' & Hp' & _).
  etrans; [exact Hk|]. unfold GetPeer. rewrite Hp'. cbn [fst]. eapply process_kept; [done|].
  by destruct (kept_canonical _ _ Hk Hc _ _ Hp').
Qed.

Lemma StatusStreamHandler_kept now remote received mid a : canonical (a_conf a) → mid_kept mid →
  kept (a_conf a) (a_conf (StatusStreamHandler now remote received mid a).2).
Proof.
  intros Hc Hm. unfold StatusStreamHandler.
  destruct (GetPeer (peer_String remote) (a_conf a)) as [p known] eqn:Eg.
  destruct (GetBlockedPeer (peer_String remote) (a_conf a)) as [bp blocked].
  destruct (negb known && negb blocked) eqn:E; [reflexivity|]. destruct received as [info|]; [|reflexivity].
  destruct blocked; [reflexivity|]. destruct known; [|done].
  destruct (get_peer_kept _ _ _ _ Eg) as [[_ Hp]|[[=] _]]. apply process_again_kept; [done|done|by eexists].
Qed.

Lemma ExchangeNewStatusInfo_kept now remote p0 ex mid a : canonical (a_conf a) → mid_kept mid →
  is_Some (KnownPeers (a_conf a) !! peer_String remote) →
  kept (a_conf a) (a_conf (ExchangeNewStatusInfo now remote p0 ex mid a).2).
Proof.
  intros Hc Hm Hp. unfold ExchangeNewStatusInfo.
  destruct (ex_connect ex); [|reflexivity]. destruct (ex_stream ex); [|reflexivity]. simpl.
  destruct (GetBlockedPeer _ _) as [bp blocked]. destruct (ex_send ex); [|reflexivity]. simpl.
  destruct (ex_answer ex) as [info|]; [|reflexivity]. destruct blocked; [reflexivity|].
  by apply process_again_kept.
Qed.

Lemma SendAuthRequest_kept peerID req ex a : canonical (a_conf a) →
  kept (a_conf a) (a_conf (SendAuthRequest peerID req ex a).2).
Proof.
  intros Hc. unfold SendAuthRequest. destruct (negb _); [reflexivity|].
  destruct (ex_answer ex) as [resp|]; [|reflexivity].
  set (a1 := if apr_Confirmed resp || apr_Declined resp then _ else _).
  assert (a_conf a1 = a_conf a) as Ea by (unfold a1; by destruct (_ || _)).
  destruct (apr_Declined resp); simpl; [|by rewrite Ea].
  destruct (GetPeer (peer_String peerID) (a_conf a1)) as [p []] eqn:Eg; simpl; [|by rewrite Ea].
  destruct (get_peer_kept _ _ _ _ Eg) as [[_ Hp]|[[=] _]]. rewrite Ea in Hp.
  destruct (Hc _ _ Hp) as [Hk _]. unfold a_conf in *. simpl. rewrite Ea.
  rewrite Hk. by eapply kept_replace.
Qed.

Lemma UpdatePeerLastSeen_kept now k s : kept (conf s) (conf (UpdatePeerLastSeen now k s)).
Proof.
  unfold UpdatePeerLastSeen. destruct (GetPeer k (conf s)) as [p []] eqn:Eg; [|reflexivity].
  destruct (get_peer_kept _ _ _ _ Eg) as [[_ Hp]|[[=] _]]. simpl. by eapply kept_replace.
Qed.

(** The events of the network, and of the timers that react to it. *)
Inductive net_event :=
  | EvStatus (now : time) (remote : string) (received : option PeerStatusInfo)
  | EvAuth (now : time) (remote : string) (received : option AuthPeer)
  | EvConnected (now : time) (peerID : string) (exAuth : Exchange AuthPeerResponse) (ex : Exchange PeerStatusInfo)
  | EvDisconnected (now : time) (peerID : string)
  | EvExchangeTimer (now : time) (peers : list string) (ex : string → Exchange PeerStatusInfo)
  | EvRetryTimer (pending : list (string * AuthPeer)) (ex : string → Exchange AuthPeerResponse).

(** An event; [mid] is what other goroutines do in its gaps. *)
Definition run_event (mid : Store → Store) (e : net_event) (a : Auth) : outcome Auth :=
  match e with
  | EvStatus now remote received => Ok (StatusStreamHandler now remote received mid a).2
  | EvAuth now remote received => (AuthStreamHandler now remote received a).2
  | EvConnected now peerID exAuth ex => Ok (onPeerConnected now peerID exAuth ex mid a)
  | EvDisconnected now peerID => Ok (onPeerDisconnected now peerID a)
  | EvExchangeTimer now peers ex => Ok (ExchangeStatusInfoWithAllKnownPeers now peers ex mid a)
  | EvRetryTimer pending ex => Ok (retry_auth_requests pending ex a)
  end.

Fixpoint run_events (es : list ((Store → Store) * net_event)) (a : Auth) : outcome Auth :=
  match es with
  | [] => Ok a
  | (mid, e) :: es => a ← run_event mid e a; run_events es a
  end.

Lemma exchange_all_kept now peers ex mid (Hm : mid_kept mid) : ∀ a, canonical (a_conf a) →
  kept (a_conf a) (a_conf (ExchangeStatusInfoWithAllKnownPeers now peers ex mid a)).
Proof.
  induction peers as [|k peers IH]; intros a Hc; cbn [ExchangeStatusInfoWithAllKnownPeers]; [reflexivity|].
  destruct (GetPeer k (a_conf a)) as [p []] eqn:Eg; [|by apply IH].
  destruct (get_peer_kept _ _ _ _ Eg) as [[_ Hp]|[[=] _]].
  assert (kept (a_conf a) (a_conf (ExchangeNewStatusInfo now (PeerId p) p (ex k) mid a).2)) as Hk.
  { apply ExchangeNewStatusInfo_kept; [done|done|]. destruct (Hc _ _ Hp) as [_ ->]. by eexists. }
  etrans; [exact Hk|]. apply IH. by eapply kept_canonical.
Qed.

Lemma retry_kept pending ex : ∀ a, canonical (a_conf a) → kept (a_conf a) (a_conf (retry_auth_requests pending ex a)).
Proof.
  induction pending as [|[id auth] pending IH]; intros a Hc; cbn [retry_auth_requests]; [reflexivity|].
  pose proof (SendAuthRequest_kept id auth (ex id) a Hc) as Hk. etrans; [exact Hk|]. apply IH.
  by eapply kept_canonical.
Qed.

Lemma onPeerConnected_kept now peerID exAuth ex mid a : canonical (a_conf a) → mid_kept mid →
  kept (a_conf a) (a_conf (onPeerConnected now peerID exAuth ex mid a)).
Proof.
  intros Hc Hm. unfold onPeerConnected.
  destruct (GetPeer (peer_String peerID) (a_conf a)) as [p known] eqn:Eg.
  destruct (negb known && _) eqn:En; [reflexivity|].
  set (a1 := with_store a _).
  assert (kept (a_conf a) (a_conf a1)) as H1 by apply UpdatePeerLastSeen_kept.
  set (a2 := match outgoingAuths a !! peerID with Some authPeer => _ | None => a1 end).
  assert (kept (a_conf a) (a_conf a2)) as H2.
  { unfold a2. destruct (outgoingAuths a !! peerID) as [req|]; [|done].
    etrans; [exact H1|]. apply SendAuthRequest_kept. by eapply kept_canonical. }
  destruct known; [|done]. etrans; [exact H2|]. apply ExchangeNewStatusInfo_kept; [by eapply kept_canonical|done|].
  destruct (get_peer_kept _ _ _ _ Eg) as [[_ Hp]|[[=] _]].
  destruct (kept_peers _ _ H2 _ _ Hp) as (p' & Hp' & _). by eexists.
Qed.

Lemma run_event_kept mid e a : canonical (a_conf a) → AutoAcceptAuthRequests (P2pNode (a_conf a)) = false → mid_kept mid →
  ∃ a', run_event mid e a = Ok a' ∧ kept (a_conf a) (a_conf a').
Proof.
  intros Hc Hauto Hm. destruct e; simpl; try (eexists; split; [reflexivity|]).
  - by apply StatusStreamHandler_kept.
  - unfold AuthStreamHandler. destruct received as [req|]; [|by exists a].
    destruct (GetBlockedPeer _ _) as [bp blocked], (GetPeer _ _) as [p known]. rewrite Hauto. simpl.
    rewrite andb_false_r. eexists. split; [reflexivity|]. by destruct (_ && _).
  - by apply onPeerConnected_kept.
  - unfold onPeerDisconnected. destruct (GetPeer _ _) as [p []]; simpl; [|reflexivity].
    apply UpdatePeerLastSeen_kept.
  - by apply exchange_all_kept.
  - by apply retry_kept.
Qed.
End network.

(** C9. Unless requests are accepted automatically, nothing that arrives from the
    network, in any order, adds, removes or blocks a peer, changes its identifier, its
    address, when it was added, an alias or a domain name that is set, or whom we allow to
    use us as an exit node, takes back a confirmation, or changes any other setting of the
    configuration than the exit node in use. (The name a peer gives itself, its status and
    what it allows follow its messages.) This also holds when other events of the network
    are handled in the gap before a handler reads the peer again. *)
Theorem network_never_adds_peers `{PeerCodec} `{Unicode} es a :
  canonical (a_conf a) → AutoAcceptAuthRequests (P2pNode (a_conf a)) = false → Forall (λ e, mid_kept e.1) es →
  ∃ a', run_events es a = Ok a' ∧ kept (a_conf a) (a_conf a') ∧ canonical (a_conf a').
Proof.
  revert a. induction es as [|[mid e] es IH]; intros a Hc Hauto Hm; cbn [run_events]; [by exists a|].
  apply list.Forall_cons in Hm as [Hm1 Hm].
  destruct (run_event_kept mid e a Hc Hauto Hm1) as (a1 & -> & Hk). cbn [mbind outcome_bind].
  destruct (IH a1) as (a2 & E & Hk2 & Hc2); [by eapply kept_canonical|by rewrite (kept_node _ _ Hk)|done|].
  exists a2. split_and!; [done|by etrans|done].
Qed.

(** C10. In the status exchange a blocked peer learns only that it is declined, and a peer
    that is neither known nor blocked gets no answer. When a blocked peer starts the
    exchange, its message is answered with the bare refusal (a message that cannot be read
    is not answered); when we start it, what we send to a blocked peer, once the stream is
    open and the sending succeeds, is the same refusal, which carries neither our name nor
    a permission nor our exit node. In all cases the configuration stays as it was,
    whatever the peer sends and whatever other goroutines do meanwhile. *)
Theorem blocked_peer_learns_nothing `{PeerCodec} `{Unicode} now remote received knownPeer ex mid a :
  let peerID := peer_String remote in
  let declined := mkPeerStatusInfo "" true false "" in
  ((GetBlockedPeer peerID (a_conf a)).2 = true →
   let '(reply, a') := StatusStreamHandler now remote received mid a in
   reply = match received with Some _ => Some declined | None => None end ∧ a_store a' = a_store a) ∧
  ((GetBlockedPeer peerID (a_conf a)).2 = false → (GetPeer peerID (a_conf a)).2 = false →
   StatusStreamHandler now remote received mid a = (None, a)) ∧
  ((GetBlockedPeer peerID (a_conf a)).2 = true →
   let '(sent, _, a') := ExchangeNewStatusInfo now remote knownPeer ex mid a in
   sent = (if ex_connect ex && ex_stream ex && ex_send ex then Some declined else None) ∧ a_store a' = a_store a).
Proof.
  cbv zeta. split_and!.
  - unfold StatusStreamHandler. destruct (GetPeer _ _) as [p known], (GetBlockedPeer _ _) as [bp blocked]. simpl.
    intros ->. rewrite andb_false_r. by destruct received.
  - unfold StatusStreamHandler. destruct (GetPeer _ _) as [p known], (GetBlockedPeer _ _) as [bp blocked]. simpl. by intros -> ->.
  - unfold ExchangeNewStatusInfo. change (a_conf (with_ingoing a _)) with (a_conf a).
    destruct (GetBlockedPeer _ _) as [bp blocked]. simpl. intros ->.
    by destruct (ex_connect ex), (ex_stream ex), (ex_send ex), (ex_answer ex).
Qed.

(** ** Adding a peer *)

Definition aliases_unique (c : Config) : Prop :=
  ∀ k1 p1 k2 p2, KnownPeers c !! k1 = Some p1 → KnownPeers c !! k2 = Some p2 → kp_Alias p1 = kp_Alias p2 → k1 = k2.

Lemma IsUniqPeerAlias_false_iff alias c : (∀ k p, KnownPeers c !! k = Some p → kp_PeerID p ≠ "") →
  IsUniqPeerAlias "" alias c = true → ∀ k p, KnownPeers c !! k = Some p → kp_Alias p ≠ alias.
Proof.
  intros Hid Hu k p Hp E. unfold IsUniqPeerAlias in Hu. rewrite forallb_forall in Hu.
  specialize (Hu p ltac:(apply list_elem_of_In, known_list_elem; eauto)).
  rewrite orb_true_iff, bool_decide_eq_true, negb_true_iff, bool_decide_eq_false in Hu.
  destruct Hu as [Hu|Hu]; [by eapply Hid|done].
Qed.

(** C16. When [AddPeer] succeeds it files the new peer under its identifier, which
    was not known, takes it off the blocked list and saves: the other peers stay as they are,
    the alias is the given one without surrounding space and no other peer has it, and
    an address chosen by the caller is one of the network that no peer has. *)
Theorem add_peer_correct `{PeerCodec} `{Unicode} now peerID name alias confirmed ipAddr a a' :
  (∀ k p, KnownPeers (a_conf a) !! k = Some p → kp_PeerID p ≠ "") →
  AddPeer now peerID name alias confirmed ipAddr a = Ok a' →
  ∃ p, KnownPeers (a_conf a) !! peer_String peerID = None ∧
    KnownPeers (a_conf a') = <[peer_String peerID := p]> (KnownPeers (a_conf a)) ∧
    BlockedPeers (a_conf a') = delete (peer_String peerID) (BlockedPeers (a_conf a)) ∧
    disk (a_store a') = Some (a_conf a') ∧
    kp_PeerID p = peer_String peerID ∧ kp_Alias p = TrimSpace alias ∧ kp_Confirmed p = confirmed ∧
    kp_Declined p = false ∧ kp_WeAllowUsingAsExitNode p = false ∧
    (aliases_unique (a_conf a) → aliases_unique (a_conf a')) ∧
    (ipAddr = "" → GenerateNextIpAddr (a_conf a) = Ok (kp_IPAddr p)) ∧
    (ipAddr ≠ "" → kp_IPAddr p = ipAddr ∧ CheckIPUnique ipAddr (peer_String peerID) (a_conf a) = Ok tt).
Proof.
  intros Hid. unfold AddPeer.
  destruct (GetPeer (peer_String peerID) (a_conf a)) as [p0 []] eqn:Eg; [done|].
  destruct (get_peer_kept _ _ _ _ Eg) as [[[=] _]|[_ Hnone]].
  destruct (IsUniqPeerAlias "" (TrimSpace alias) (a_conf a)) eqn:Eu; [|done]. cbn [negb].
  intros (ip & Eip & [= <-])%outcome_bind_Ok.
  exists (new_peer now (peer_String peerID) name (TrimSpace alias) ip confirmed).
  assert (conf (RemoveBlockedPeer (peer_String peerID) (a_store a))
          = with_BlockedPeers (a_conf a) (delete (peer_String peerID) (BlockedPeers (a_conf a)))) as Erm.
  { unfold RemoveBlockedPeer, GetBlockedPeer. fold (a_conf a).
    destruct (BlockedPeers (a_conf a) !! peer_String peerID) eqn:Eb; simpl; [done|].
    rewrite delete_id by done. unfold a_conf. by destruct (conf (a_store a)). }
  set (np := new_peer now (peer_String peerID) name (TrimSpace alias) ip confirmed).
  set (a' := with_store a _).
  assert (disk (a_store a') = Some (a_conf a')) as Hdisk by done.
  assert (a_conf a' = with_KnownPeers (with_BlockedPeers (a_conf a) (delete (peer_String peerID) (BlockedPeers (a_conf a))))
            (<[peer_String peerID := np]> (KnownPeers (a_conf a)))) as Ea'.
  { unfold a', a_conf at 1. simpl. by rewrite Erm. }
  rewrite Ea' in *. split_and!; try done.
  - unfold aliases_unique. simpl.
    pose proof (IsUniqPeerAlias_false_iff _ _ Hid Eu) as Hfree.
    intros Hu k1 p1 k2 p2. rewrite !lookup_insert.
    destruct (decide (peer_String peerID = k1)) as [<-|N1], (decide (peer_String peerID = k2)) as [<-|N2];
      intros H1 H2 E; simplify_eq/=; [done|..|by eapply Hu].
    + by destruct (Hfree k2 p2 H2).
    + by destruct (Hfree k1 p1 H1).
  - intros ->. rewrite decide_False in Eip by naive_solver. done.
  - intros Hne. rewrite decide_True in Eip by done. apply outcome_bind_Ok in Eip as ([] & Ec & [= <-]). done.
Qed.

(** Undisturbed, it is [AddPeer]. *)
Lemma AddPeer_undisturbed `{PeerCodec} `{Unicode} now peerID name alias confirmed ipAddr a :
  AddPeer_interleaved now peerID name alias confirmed ipAddr (λ s, s) (λ s, s) (λ s, s) (λ s, s) a
  = AddPeer now peerID name alias confirmed ipAddr a.
Proof. reflexivity. Qed.

(** The state after another [AddPeer] ran, for the gaps of this one. *)
Definition after_AddPeer `{PeerCodec} `{Unicode} (now : time) (peerID name alias : string) (confirmed : bool) (ipAddr : string)
    (a : Auth) (s : Store) : Store :=
  match AddPeer now peerID name alias confirmed ipAddr (with_store a s) with Ok a => a_store a | _ => s end.

Lemma AddPeer_Ok `{PeerCodec} `{Unicode} now peerID name alias confirmed ipAddr a a' :
  AddPeer now peerID name alias confirmed ipAddr a = Ok a' →
  KnownPeers (a_conf a) !! peer_String peerID = None ∧ IsUniqPeerAlias "" (TrimSpace alias) (a_conf a) = true ∧
  ∃ ip, (if decide (ipAddr ≠ "") then _ ← CheckIPUnique ipAddr (peer_String peerID) (a_conf a); Ok ipAddr
         else GenerateNextIpAddr (a_conf a)) = Ok ip ∧
    a' = with_store a (UpsertPeer (new_peer now (peer_String peerID) name (TrimSpace alias) ip confirmed)
           (RemoveBlockedPeer (peer_String peerID) (a_store a))).
Proof.
  unfold AddPeer. destruct (GetPeer (peer_String peerID) (a_conf a)) as [p []] eqn:Eg; [done|].
  destruct (get_peer_kept _ _ _ _ Eg) as [[[=] _]|[_ Hp]].
  destruct (IsUniqPeerAlias _ _ _); [|done]. cbn [negb]. intros (ip & Eip & [= <-])%outcome_bind_Ok. naive_solver.
Qed.

Lemma RemoveBlockedPeer_known k s : KnownPeers (conf (RemoveBlockedPeer k s)) = KnownPeers (conf s).
Proof. unfold RemoveBlockedPeer. by destruct (GetBlockedPeer k (conf s)) as [b []]. Qed.

(** Two peers that are added at the same time under the same alias, the second between the
    checks and the update of the first, are both added with that alias; and when both
    addresses are generated, with the same address. *)
Theorem concurrent_adds_share_alias `{PeerCodec} `{Unicode} now id1 id2 name1 name2 alias confirmed1 confirmed2 a a1 a2 :
  peer_String id1 ≠ peer_String id2 →
  AddPeer now id1 name1 alias confirmed1 "" a = Ok a1 → AddPeer now id2 name2 alias confirmed2 "" a = Ok a2 →
  ∃ a' p1 p2,
    AddPeer_interleaved now id1 name1 alias confirmed1 "" (λ s, s) (λ s, s)
      (after_AddPeer now id2 name2 alias confirmed2 "" a) (λ s, s) a = Ok a' ∧
    KnownPeers (a_conf a') !! peer_String id1 = Some p1 ∧ KnownPeers (a_conf a') !! peer_String id2 = Some p2 ∧
    kp_Alias p1 = kp_Alias p2 ∧ kp_IPAddr p1 = kp_IPAddr p2.
Proof.
  intros Hne E1 E2. pose proof E2 as E2'. apply AddPeer_Ok in E1 as (Hp1 & Hu1 & ip & Eip1 & ->), E2 as (_ & _ & ip2 & Eip2 & ->).
  rewrite decide_False in Eip1, Eip2 by naive_solver. rewrite Eip1 in Eip2. injection Eip2 as <-.
  unfold AddPeer_interleaved, GetPeer. rewrite Hp1. cbv zeta. fold (a_conf a). rewrite Hu1. cbn [negb].
  rewrite decide_False by naive_solver. rewrite Eip1. cbn [mbind outcome_bind].
  unfold after_AddPeer. assert (with_store a (a_store a) = a) as -> by by destruct a. rewrite E2'.
  eexists _, _, _. split; [reflexivity|]. unfold a_conf. cbn [a_store with_store conf UpsertPeer update_conf].
  split; [apply lookup_insert_eq|]. split; [|split; [|]].
  - cbn. rewrite lookup_insert_ne by done. rewrite RemoveBlockedPeer_known. cbn. apply lookup_insert_eq.
  - reflexivity.
  - reflexivity.
Qed.

(** ** The exit node *)

(** The peer used as the exit node is a known peer that allowed it. *)
Definition exit_node_ok (c : Config) : Prop :=
  UsingPeerID (SOCKS5 c) = "" ∨
  ∃ p, KnownPeers c !! UsingPeerID (SOCKS5 c) = Some p ∧ kp_AllowedUsingAsExitNode p = true.

(** C28. Processing the status of a peer keeps the exit node one that allows it: a peer
    that withdraws the permission or declines us is dropped, and a peer that grants it
    becomes the exit node only when there is none. *)
Theorem exit_node_stays_allowed `{Unicode} now peer info s k :
  keys_wf (conf s) → KnownPeers (conf s) !! k = Some peer → exit_node_ok (conf s) →
  let s' := processPeerStatusInfo now peer info s in
  exit_node_ok (conf s') ∧
  (psi_Declined info = true ∨ psi_AllowUsingAsExitNode info = false → k ≠ "" → UsingPeerID (SOCKS5 (conf s')) ≠ k) ∧
  (UsingPeerID (SOCKS5 (conf s)) ≠ "" → UsingPeerID (SOCKS5 (conf s)) ≠ k →
   UsingPeerID (SOCKS5 (conf s')) = UsingPeerID (SOCKS5 (conf s))).
Proof.
  intros [Hk _] Hp Hok. pose proof (Hk k peer Hp) as <-. cbv zeta.
  set (u := UsingPeerID (SOCKS5 (conf s))) in *.
  assert (Hother : ∀ p', u ≠ kp_PeerID peer → u = "" ∨ ∃ q, <[kp_PeerID peer := p']> (KnownPeers (conf s)) !! u = Some q ∧
            kp_AllowedUsingAsExitNode q = true).
  { intros p' Hne. destruct Hok as [Hu|(q & Hq & ?)]; [by left|right]. exists q. rewrite lookup_insert_ne; done. }
  unfold processPeerStatusInfo. destruct (psi_Declined info).
  - cbn -[declined_peer decide]. change (kp_PeerID (declined_peer now peer)) with (kp_PeerID peer). fold u.
    case_decide as Hu; cbn.
    + split; [by left|]. split; [naive_solver|]. done.
    + fold u. split; [|split; [|done]]; [|by intros].
      unfold exit_node_ok. cbn. fold u. by apply Hother.
  - set (p' := accepted_peer now peer info (conf s)).
    assert (kp_PeerID p' = kp_PeerID peer) as Eid by done.
    assert (kp_AllowedUsingAsExitNode p' = psi_AllowUsingAsExitNode info) as Eal by done.
    clearbody p'. rewrite Eal, Eid. change (UsingPeerID (SOCKS5 (conf (UpsertPeer p' s)))) with u.
    destruct (psi_AllowUsingAsExitNode info) eqn:Ea; cbn [andb negb].
    + case_bool_decide as Hu; unfold exit_node_ok; cbn; rewrite ?Eid.
      * split; [|split; [naive_solver|done]]. right. exists p'. rewrite lookup_insert_eq. by rewrite Eal.
      * fold u. split; [|split; [naive_solver|done]]. destruct (decide (u = kp_PeerID peer)) as [Hup|Hup]; [|by apply Hother].
        right. exists p'. rewrite Hup, lookup_insert_eq. by rewrite Eal.
    + change (UsingPeerID (SOCKS5 (conf (UpsertPeer p' s)))) with u.
      case_bool_decide as Hu; unfold exit_node_ok; cbn; rewrite ?Eid.
      * split; [by left|]. split; [|done]. intros _ Hne. naive_solver.
      * fold u. split; [by apply Hother|]. split; [|done]. by intros.
Qed.

(** A peer that is removed while its status message is handled comes back as an
    entry without an identifier: the lookup after the removal returns the zero value,
    which is confirmed, given an alias and stored under the empty key. *)
Theorem removed_peer_leaves_empty_entry `{PeerCodec} `{Unicode} now remote info a p :
  KnownPeers (a_conf a) !! peer_String remote = Some p → BlockedPeers (a_conf a) !! peer_String remote = None →
  psi_Declined info = false →
  let a' := (StatusStreamHandler now remote (Some info) (λ s, (RemovePeer (peer_String remote) s).2) a).2 in
  ∃ q, KnownPeers (a_conf a') !! "" = Some q ∧ kp_PeerID q = "" ∧ kp_Confirmed q = true ∧ kp_Alias q ≠ "" ∧
    (peer_String remote ≠ "" → KnownPeers (a_conf a') !! peer_String remote = None).
Proof.
  intros Hp Hb Hd a'. set (s1 := (RemovePeer (peer_String remote) (a_store a)).2).
  assert (KnownPeers (conf s1) = delete (peer_String remote) (KnownPeers (a_conf a))) as Ek.
  { unfold s1, RemovePeer, GetPeer. fold (a_conf a). by rewrite Hp. }
  assert (a_store a' = processPeerStatusInfo now zeroKnownPeer info s1) as Es.
  { unfold a', StatusStreamHandler, GetPeer at 1, GetBlockedPeer. rewrite Hp, Hb. cbn [negb andb snd a_store with_store].
    unfold GetPeer, a_conf. cbn [a_store with_store with_outgoing]. fold s1. by rewrite Ek, lookup_delete_eq. }
  unfold a_conf at 1 2. rewrite Es. unfold processPeerStatusInfo. rewrite Hd.
  set (q := accepted_peer now zeroKnownPeer info (conf s1)).
  exists q.
  assert (Hkeep : ∀ s2, KnownPeers (conf s2) = <[kp_PeerID q := q]> (KnownPeers (conf s1)) →
    KnownPeers (conf s2) !! "" = Some q ∧ (peer_String remote ≠ "" → KnownPeers (conf s2) !! peer_String remote = None)).
  { intros s2 ->. change (kp_PeerID q) with "". rewrite lookup_insert_eq. split; [done|]. intros Hne.
    by rewrite lookup_insert_ne, Ek, lookup_delete_eq. }
  assert (kp_Alias q ≠ "") as Ha.
  { unfold q, accepted_peer. simpl. unfold GenUniqPeerAlias.
    destruct (genUniqPeerAlias (psi_Name info) "" None (conf s1)) as [al u] eqn:Eg.
    pose proof (genUniqPeerAlias_spec (psi_Name info) "" None (conf s1)) as Hs. cbv zeta in Hs. rewrite Eg in Hs.
    naive_solver. }
  match goal with |- KnownPeers (conf ?s) !! _ = _ ∧ _ => destruct (Hkeep s) as [H1 H2] end.
  { cbv zeta. repeat case_match; done. }
  split; [exact H1|]. split; [reflexivity|]. split; [reflexivity|]. split; [exact Ha|exact H2].
Qed.

(** ** Samples *)

Definition auth_one : Auth :=
  mkAuth ∅ ∅ (mkStore (conf_with {[ "b" := sample_peer "b" "" "b" "10.66.0.3" "" ]}) None 0) [].

Lemma auth_one_lookup k p : KnownPeers (a_conf auth_one) !! k = Some p → "b" = k ∧ sample_peer "b" "" "b" "10.66.0.3" "" = p.
Proof. intros Hk. apply (lookup_singleton_Some "b" k (sample_peer "b" "" "b" "10.66.0.3" "") p). exact Hk. Defined.

Lemma network_never_adds_peers_witness :
  ∃ a', run_events (H := toy_codec) (H0 := toy_unicode)
    [(λ s, s, EvAuth 5 "x" (Some (mkAuthPeer "stranger")));
     (UpdatePeerLastSeen 6 "b", EvStatus 6 "b" (Some (mkPeerStatusInfo "bob" false true "")))] auth_one = Ok a' ∧
    dom (KnownPeers (a_conf a')) = {[ "b" ]}.
Proof.
  destruct (network_never_adds_peers (H := toy_codec) (H0 := toy_unicode)
    [(λ s, s, EvAuth 5 "x" (Some (mkAuthPeer "stranger")));
     (UpdatePeerLastSeen 6 "b", EvStatus 6 "b" (Some (mkPeerStatusInfo "bob" false true "")))] auth_one)
    as (a' & E & Hk & _).
  - intros k p [<- <-]%auth_one_lookup. split; reflexivity.
  - reflexivity.
  - constructor; [apply mid_kept_id|]. constructor; [intros s _; apply UpdatePeerLastSeen_kept|constructor].
  - exists a'. split; [exact E|]. rewrite (kept_dom _ _ Hk). vm_compute. reflexivity.
Defined.

Lemma blocked_peer_learns_nothing_witness :
  let a := mkAuth ∅ ∅ (mkStore (with_BlockedPeers (conf_with ∅) {[ "x" := mkBlockedPeer "x" "" 0 ]}) None 0) [] in
  (StatusStreamHandler (H := toy_codec) (H0 := toy_unicode) 1 "x" (Some (mkPeerStatusInfo "eve" false true "")) (λ s, s) a).1
  = Some (mkPeerStatusInfo "" true false "").
Proof.
  intros a.
  destruct (blocked_peer_learns_nothing (H := toy_codec) (H0 := toy_unicode) 1 "x"
    (Some (mkPeerStatusInfo "eve" false true "")) zeroKnownPeer (mkExchange true true true None) (λ s, s) a) as [H _].
  exact (proj1 (H eq_refl)).
Defined.

Lemma add_peer_correct_witness :
  ∃ a' p, AddPeer (H := toy_codec) (H0 := toy_unicode) 9 "c" "carol" " carol" false "" auth_one = Ok a' ∧
    KnownPeers (a_conf a') = <["c" := p]> (KnownPeers (a_conf auth_one)) ∧ kp_Alias p = "carol".
Proof.
  destruct (AddPeer (H := toy_codec) (H0 := toy_unicode) 9 "c" "carol" " carol" false "" auth_one) as [a'|e|] eqn:E;
    [|vm_compute in E; discriminate..].
  destruct (add_peer_correct (H := toy_codec) (H0 := toy_unicode) 9 "c" "carol" " carol" false "" auth_one a')
    as (p & _ & Hk & _ & _ & _ & Ha & _); [intros k p [_ <-]%auth_one_lookup; discriminate|exact E|].
  exists a', p. split; [reflexivity|]. split; [exact Hk|]. rewrite Ha. vm_compute. reflexivity.
Defined.

Lemma exit_node_stays_allowed_witness :
  exit_node_ok (conf (processPeerStatusInfo (H := toy_unicode) 1 (sample_peer "b" "" "b" "10.66.0.3" "")
    (mkPeerStatusInfo "bob" false true "") (a_store auth_one))).
Proof.
  apply (exit_node_stays_allowed (H := toy_unicode) 1 (sample_peer "b" "" "b" "10.66.0.3" "")
    (mkPeerStatusInfo "bob" false true "") (a_store auth_one) "b").
  - split; [|apply map_Forall_empty]. intros k p [<- <-]%auth_one_lookup. reflexivity.
  - reflexivity.
  - left. reflexivity.
Defined.

Lemma removed_peer_leaves_empty_entry_witness :
  ∃ q, KnownPeers (a_conf (StatusStreamHandler (H := toy_codec) (H0 := toy_unicode) 1 "b"
    (Some (mkPeerStatusInfo "bob" false true "")) (λ s, (RemovePeer "b" s).2) auth_one).2) !! "" = Some q.
Proof.
  destruct (removed_peer_leaves_empty_entry (H := toy_codec) (H0 := toy_unicode) 1 "b"
    (mkPeerStatusInfo "bob" false true "") auth_one (sample_peer "b" "" "b" "10.66.0.3" "")) as (q & Hq & _);
    [reflexivity|reflexivity|reflexivity|]. exists q. exact Hq.
Defined.

Lemma concurrent_adds_share_alias_witness :
  ∃ a' p1 p2,
    AddPeer_interleaved (H := toy_codec) (H0 := toy_unicode) 9 "c" "carol" "eve" false "" (λ s, s) (λ s, s)
      (after_AddPeer (H := toy_codec) (H0 := toy_unicode) 9 "d" "dave" "eve" false "" auth_one) (λ s, s) auth_one = Ok a' ∧
    KnownPeers (a_conf a') !! "c" = Some p1 ∧ KnownPeers (a_conf a') !! "d" = Some p2 ∧ kp_Alias p1 = kp_Alias p2.
Proof.
  destruct (AddPeer (H := toy_codec) (H0 := toy_unicode) 9 "c" "carol" "eve" false "" auth_one) as [a1|e|] eqn:E1;
    [|vm_compute in E1; discriminate..].
  destruct (AddPeer (H := toy_codec) (H0 := toy_unicode) 9 "d" "dave" "eve" false "" auth_one) as [a2|e|] eqn:E2;
    [|vm_compute in E2; discriminate..].
  destruct (concurrent_adds_share_alias (H := toy_codec) (H0 := toy_unicode) 9 "c" "d" "carol" "dave" "eve" false false auth_one a1 a2)
    as (a' & p1 & p2 & E & H1 & H2 & H3 & _); [discriminate|exact E1|exact E2|].
  exists a', p1, p2. split; [exact E|]. split; [exact H1|]. split; [exact H2|exact H3].
Defined.
