(* ===== verification/Socks5.v ===== *)
(** * The SOCKS5 proxy (src/service/socks5.go, src/socks5)

    Who may use this node as an exit node, which peer our own connections leave
    through, the destinations that are refused, and the bytes of the SOCKS5 dialogue
    the daemon speaks itself. The proxying proper is done by the library. *)

From S2P Require Import Prelude GoStrings GoNet GoIO Externals Config NetworkAddr Protocol.
From Stdlib Require String.
Local Open Scope Z_scope.

Definition socks5Version : Z := 5.

(** The names of haxii/socks5 the sources use: its constants, the reader of the offered
    authentication methods and the parser of a request. *)
Class Socks5Lib := {
  AuthMethodNoAuth : Z;
  AuthMethodNoAcceptable : Z;
  ReplyServerFailure : Z;
  AddressIPv4 : Z;
  AddressDomainName : Z;
  AddressIPv6 : Z;
  ReadMethods : Reader → option (bytes * Reader);
  NewRequest : Reader → option Reader;
}.

(** The values of RFC 1928, and that [ReadMethods] reads a count and as many bytes. *)
Class Socks5LibLaws `{Socks5Lib} := {
  no_auth_value : AuthMethodNoAuth = 0;
  no_acceptable_value : AuthMethodNoAcceptable = 255;
  address_values : AddressIPv4 = 1 ∧ AddressDomainName = 3 ∧ AddressIPv6 = 4;
  ReadMethods_spec : ∀ r methods rest, remaining r = Z.of_nat (length methods) :: methods ++ rest →
    (length methods < 256)%nat → ∃ r', ReadMethods r = Some (methods, r') ∧ remaining r' = rest;
}.

(** ** The dialogue (src/socks5/server.go, src/socks5/client.go) *)

(** A connection: what can be read and what was written. *)
Record Conn := mkConn { c_in : Reader; c_out : bytes }.

(** [AddrSpec]. *)
Record AddrSpec := mkAddrSpec { FQDN : bytes; addr_IP : IP; addr_Port : Z }.

Section dialogue.
Context `{Socks5Lib}.

(** The message [sendReply] builds: type, body and port of the address. *)
Definition reply_address (addr : option AddrSpec) : outcome (Z * bytes * Z) :=
  match addr with
  | None => Ok (AddressIPv4, [0; 0; 0; 0], 0)
  | Some a =>
      if decide (FQDN a ≠ []) then Ok (AddressDomainName, u8 (Z.of_nat (length (FQDN a))) :: FQDN a, u16 (addr_Port a))
      else if decide (To4 (addr_IP a) ≠ []) then Ok (AddressIPv4, To4 (addr_IP a), u16 (addr_Port a))
      else if decide (To16 (addr_IP a) ≠ []) then Ok (AddressIPv6, To16 (addr_IP a), u16 (addr_Port a))
      else Fail "failed to format address"
  end.

(** [sendReply]: the bytes it writes. *)
Definition sendReply (resp : Z) (addr : option AddrSpec) : outcome bytes :=
  '(addrType, addrBody, addrPort) ← reply_address addr;
  Ok ([socks5Version; resp; 0; addrType] ++ addrBody ++ [u8 (Z.shiftr addrPort 8); u8 (Z.land addrPort 0xff)]).

(** [SendServerFailureReply]: the outcome and the connection after it. *)
Definition SendServerFailureReply (conn : Conn) : outcome unit * Conn :=
  match ReadFull (S (reads (c_in conn))) 2 [] (c_in conn) with
  | Some (buf, None, r) =>
      let n := Z.to_nat (nth 1 buf 0) in
      match ReadFull (S (reads r)) n [] r with
      | Some (_, None, r) =>
          let conn := mkConn r (c_out conn ++ [socks5Version; AuthMethodNoAuth]) in
          match NewRequest r with
          | None => (Fail "request", conn)
          | Some r =>
              match sendReply ReplyServerFailure None with
              | Ok msg => (Ok tt, mkConn r (c_out conn ++ msg))
              | _ => (Fail "reply", conn)
              end
          end
      | Some (_, Some _, r) => (Fail "read methods", mkConn r (c_out conn))
      | None => (Panic, conn)
      end
  | Some (_, Some _, r) => (Fail "read", mkConn r (c_out conn))
  | None => (Panic, conn)
  end.

(** [HandleLocalAuth]. *)
Definition HandleLocalAuth (conn : Conn) : outcome unit * Conn :=
  let '(bs, err, r) := Read 1 (c_in conn) in
  match err with
  | Some _ => (Fail "failed to read version", mkConn r (c_out conn))
  | None =>
      let version := nth 0 bs 0 in
      if decide (version ≠ 0x05) then (Fail "unsupported SOCKS version", mkConn r (c_out conn))
      else match ReadMethods r with
           | None => (Fail "failed to read auth methods", mkConn r (c_out conn))
           | Some (methods, r) =>
               if existsb (λ m, bool_decide (m = AuthMethodNoAuth)) methods
               then (Ok tt, mkConn r (c_out conn ++ [0x05; AuthMethodNoAuth]))
               else (Fail "client does not support NoAuth method", mkConn r (c_out conn ++ [0x05; AuthMethodNoAcceptable]))
           end
  end.
End dialogue.

(** ** Rules on destinations *)

(** [NewRuleDenyLocalhost]: the network it refuses, and its panic if the text were wrong. *)
Definition NewRuleDenyLocalhost : outcome IPNet :=
  match ParseCIDR "127.0.0.1/8" with Some (_, ipNet) => Ok ipNet | None => Panic end.

(** [RuleDenyLocalhost.Allow]; [None] is a request without a destination. *)
Definition RuleDenyLocalhost_Allow (ipNet : IPNet) (destAddr : option AddrSpec) : bool :=
  match destAddr with
  | None => true
  | Some addr => negb (Contains ipNet (addr_IP addr))
  end.

(** The rule of the server: [UpdatableRule] holds one of the two. *)
Inductive Rule := PermitAll | DenyLocalhost (ipNet : IPNet).

Definition Rule_Allow (rule : Rule) (destAddr : option AddrSpec) : bool :=
  match rule with PermitAll => true | DenyLocalhost ipNet => RuleDenyLocalhost_Allow ipNet destAddr end.

(** [SetProxyingLocalhostEnabled]. *)
Definition SetProxyingLocalhostEnabled (enabled : bool) : outcome Rule :=
  if enabled then Ok PermitAll else ipNet ← NewRuleDenyLocalhost; Ok (DenyLocalhost ipNet).

(** ** The service (src/service/socks5.go) *)

(** What [ProxyStreamHandler] does with a stream. *)
Inductive proxy_decision :=
  | Denied            (* reset without a word *)
  | FailureReply      (* refused in the SOCKS5 dialogue *)
  | Served (noAuth : bool).

(** [ProxyStreamHandler]. *)
Definition ProxyStreamHandler `{PeerCodec} (remotePeer streamProtocol : string) (c : Config) : proxy_decision :=
  let '(knownPeer, known) := GetPeer (peer_String remotePeer) c in
  if negb known then Denied
  else if negb (kp_WeAllowUsingAsExitNode knownPeer) then Denied
  else if negb (ProxyingEnabled (SOCKS5 c)) then
    if decide (streamProtocol ≠ Socks5NoAuthMethod) then FailureReply else Denied
  else Served (bool_decide (streamProtocol = Socks5NoAuthMethod)).

(** What [proxyConn] asks of the network: connecting to the peer and the protocol of
    the stream it negotiates, if it opens. *)
Record ProxyNet := mkProxyNet { pn_connect : bool; pn_stream : option string }.

(** [proxyConn]: the peer the connection leaves through, or the error. *)
Definition proxyConn `{PeerCodec} `{Socks5Lib} (net : string → ProxyNet) (conn : Conn) (c : Config)
    : outcome string * Conn :=
  let usePeerID := UsingPeerID (SOCKS5 c) in
  if decide (usePeerID = "") then (Fail "no peer is set for proxy", conn)
  else
    let '(peer, exists_) := GetPeer usePeerID c in
    if negb exists_ || negb (kp_AllowedUsingAsExitNode peer) then (Fail "peer does not allow us to proxy traffic", conn)
    else
      let remotePeerID := PeerId peer in
      if negb (pn_connect (net remotePeerID)) then (Fail "connect", conn)
      else match pn_stream (net remotePeerID) with
           | None => (Fail "stream", conn)
           | Some proto =>
               if decide (proto = Socks5NoAuthMethod) then
                 let '(r, conn) := HandleLocalAuth conn in
                 match r with
                 | Ok _ => (Ok remotePeerID, conn)
                 | Fail e => (Fail e, conn)
                 | Panic => (Panic, conn)
                 end
               else (Ok remotePeerID, conn)
           end.

(** A connection served by [ServeConns]: an error is answered in the dialogue. *)
Definition serve_conn `{PeerCodec} `{Socks5Lib} (net : string → ProxyNet) (conn : Conn) (c : Config)
    : outcome string * Conn :=
  let '(r, conn) := proxyConn net conn c in
  match r with
  | Fail e => (Fail e, (SendServerFailureReply conn).2)
  | r => (r, conn)
  end.

(** [AvailableProxy]. *)
Record AvailableProxy := mkAvailableProxy { av_PeerID : string; av_PeerName : string }.

(** [strings.Compare(a.PeerName, b.PeerName)] is not positive. *)
Definition name_le (a b : AvailableProxy) : Prop := String.compare (av_PeerName a) (av_PeerName b) ≠ Gt.

Global Instance name_le_dec : RelDecision name_le.
Proof. intros a b. unfold name_le. apply _. Defined.

Global Instance name_le_total : Total name_le.
Proof.
  intros a b. unfold name_le. rewrite (String.compare_antisym (av_PeerName b)).
  destruct (String.compare _ _); simpl; auto.
Qed.

(** The loop of [ListAvailableProxies], for the order of the known peers. *)
Definition available `{PeerCodec} (connected : string → bool) (known : list KnownPeer) : list AvailableProxy :=
  (λ peer, mkAvailableProxy (kp_PeerID peer) (DisplayName peer)) <$>
    filter (λ peer, kp_AllowedUsingAsExitNode peer = true ∧ connected (PeerId peer) = true) known.

(** [ListAvailableProxies]: the source sorts with [slices.SortFunc], which may order
    peers of the same name in any way. *)
Definition ListAvailableProxies `{PeerCodec} (connected : string → bool) (known : list KnownPeer) : list AvailableProxy :=
  merge_sort name_le (available connected known).

(** [SetProxyPeerID] and [GetProxyPeerID]. *)
Definition SetProxyPeerID (peerID : string) (s : Store) : Store :=
  Save (update_conf (λ c, with_SOCKS5 c (with_UsingPeerID (SOCKS5 c) peerID)) s).
Definition GetProxyPeerID (c : Config) : string := UsingPeerID (SOCKS5 c).

(** [NewSOCKS5]: whether the client listens; [listen_ok] is the success of listening. *)
Definition NewSOCKS5 (listen_ok : string → bool) (c : Config) : outcome (option string) :=
  if ListenerEnabled (SOCKS5 c) then
    if listen_ok (SOCKS5ListenAddress (SOCKS5 c)) then Ok (Some (SOCKS5ListenAddress (SOCKS5 c)))
    else Fail "failed to start socks5 listener"
  else Ok None.

(** ** Properties *)

(** C26. A peer's stream is proxied exactly when the peer is known, we allow it to use
    us as an exit node, and proxying is enabled; every other stream is refused, and
    only a peer with the permission gets an answer at all. *)
Theorem proxy_requires_permission `{PeerCodec} remotePeer streamProtocol c :
  let allowed := ∃ p, KnownPeers c !! peer_String remotePeer = Some p ∧ kp_WeAllowUsingAsExitNode p = true in
  (∀ noAuth, ProxyStreamHandler remotePeer streamProtocol c = Served noAuth ↔
     allowed ∧ ProxyingEnabled (SOCKS5 c) = true ∧ noAuth = bool_decide (streamProtocol = Socks5NoAuthMethod)) ∧
  (ProxyStreamHandler remotePeer streamProtocol c = FailureReply ↔
     allowed ∧ ProxyingEnabled (SOCKS5 c) = false ∧ streamProtocol ≠ Socks5NoAuthMethod).
Proof.
  cbv zeta. unfold ProxyStreamHandler, GetPeer.
  destruct (KnownPeers c !! peer_String remotePeer) as [p|]; simpl; [|split; [intros noAuth|]; naive_solver].
  destruct (kp_WeAllowUsingAsExitNode p) eqn:Ew; simpl; [|split; [intros noAuth|]; naive_solver congruence].
  destruct (ProxyingEnabled (SOCKS5 c)); simpl; [|case_decide]; (split; [intros noAuth|]); naive_solver.
Qed.

(** C27. Our own connections only leave through the configured peer, and only while that
    peer is known and allows it; otherwise nothing is read from the connection before
    the failure is answered. *)
Theorem proxy_conn_through_allowed_peer `{PeerCodec} `{Socks5Lib} net conn c :
  let '(r, conn') := proxyConn net conn c in
  (∀ id, r = Ok id → UsingPeerID (SOCKS5 c) ≠ "" ∧ ∃ p, KnownPeers c !! UsingPeerID (SOCKS5 c) = Some p ∧
     kp_AllowedUsingAsExitNode p = true ∧ id = PeerId p ∧ pn_connect (net id) = true ∧ is_Some (pn_stream (net id))) ∧
  ((∀ p, KnownPeers c !! UsingPeerID (SOCKS5 c) = Some p → kp_AllowedUsingAsExitNode p = false) →
   conn' = conn ∧ ∃ e, r = Fail e).
Proof.
  unfold proxyConn, GetPeer. case_decide as Hu; [split; [done|by eauto]|].
  destruct (KnownPeers c !! UsingPeerID (SOCKS5 c)) as [p|] eqn:Ep; simpl; [|split; [done|by eauto]].
  destruct (kp_AllowedUsingAsExitNode p) eqn:Ea; simpl; [|split; [done|by eauto]].
  destruct (pn_connect (net (PeerId p))) eqn:Ec; simpl;
    [|split; [done|intros Hno; specialize (Hno p eq_refl); congruence]].
  destruct (pn_stream (net (PeerId p))) as [proto|] eqn:Es;
    [|split; [done|intros Hno; specialize (Hno p eq_refl); congruence]].
  assert (∀ id, id = PeerId p → UsingPeerID (SOCKS5 c) ≠ "" ∧ ∃ p0, Some p = Some p0 ∧
     kp_AllowedUsingAsExitNode p0 = true ∧ id = PeerId p0 ∧ pn_connect (net id) = true ∧ is_Some (pn_stream (net id))) as Hok.
  { intros id ->. split; [done|]. exists p. rewrite Es. split_and!; done. }
  case_decide; [destruct (HandleLocalAuth conn) as [[]]|];
    (split; [intros id [= <-]; by apply Hok|intros Hno; specialize (Hno p eq_refl); congruence]).
Qed.

(** [ListAvailableProxies] lists, sorted by name, exactly the connected peers that
    let us use them as an exit node. *)
Theorem available_proxies_correct `{PeerCodec} connected c known :
  known ≡ₚ known_list c →
  let l := ListAvailableProxies connected known in
  Sorted name_le l ∧ length l = length (available connected known) ∧
  ∀ x, x ∈ l ↔ ∃ k p, KnownPeers c !! k = Some p ∧ kp_AllowedUsingAsExitNode p = true ∧
    connected (PeerId p) = true ∧ x = mkAvailableProxy (kp_PeerID p) (DisplayName p).
Proof.
  intros Hk. cbv zeta. unfold ListAvailableProxies. split; [apply Sorted_merge_sort; apply _|].
  rewrite (merge_sort_Permutation name_le). split; [done|]. intros x. rewrite (merge_sort_Permutation name_le).
  unfold available. rewrite list_elem_of_fmap. split.
  - intros (p & -> & [[Ha Hc] Hin]%list_elem_of_filter). rewrite Hk in Hin.
    apply known_list_elem in Hin as [k Hin]. eauto 10.
  - intros (k & p & Hp & Ha & Hc & ->). exists p. split; [done|]. apply list_elem_of_filter. split; [done|].
    rewrite Hk. apply known_list_elem. eauto.
Qed.

(** A reader of replies, as RFC 1928 describes them. *)
Definition parse_reply `{Socks5Lib} (msg : bytes) : option (Z * AddrSpec) :=
  match msg with
  | ver :: resp :: rsv :: ty :: rest =>
      if decide (ver = socks5Version ∧ rsv = 0) then
        if decide (ty = AddressIPv4) then
          if decide (length rest = 6%nat)
          then Some (resp, mkAddrSpec [] (take 4 rest) (be_combine (drop 4 rest))) else None
        else if decide (ty = AddressIPv6) then
          if decide (length rest = 18%nat)
          then Some (resp, mkAddrSpec [] (take 16 rest) (be_combine (drop 16 rest))) else None
        else if decide (ty = AddressDomainName) then
          match rest with
          | n :: rest => let n := Z.to_nat n in
              if decide (length rest = n + 2)%nat
              then Some (resp, mkAddrSpec (take n rest) [] (be_combine (drop n rest))) else None
          | [] => None
          end
        else None
      else None
  | _ => None
  end.

Lemma port_bytes port : 0 ≤ port < 65536 →
  be_combine [u8 (Z.shiftr (u16 port) 8); u8 (Z.land (u16 port) 0xff)] = port.
Proof.
  intros Hp. unfold u16. rewrite (Z.mod_small port) by lia.
  rewrite Z.shiftr_div_pow2 by lia. change 0xff with (Z.ones 8). rewrite Z.land_ones by lia.
  unfold be_combine, u8. simpl. change (2 ^ 8) with 256. rewrite Z.mod_mod by lia.
  rewrite (Z.mod_small (port / 256)) by (split; [apply Z.div_pos; lia|apply Z.div_lt_upper_bound; lia]).
  pose proof (Z.div_mod port 256). lia.
Qed.

(** A reply built by [sendReply] is read back by a client: the code, the address
    (a domain name of up to 255 bytes, an IPv4 address in either form, or an IPv6
    address) and the port; the failure reply of the daemon is the ten bytes of an
    unspecified IPv4 address. *)
Theorem reply_roundtrip `{Socks5LibLaws} resp addr :
  0 ≤ addr_Port addr < 65536 → (length (FQDN addr) < 256)%nat →
  (FQDN addr ≠ [] ∨ length (addr_IP addr) = 4%nat ∨ length (addr_IP addr) = 16%nat) →
  (∃ msg, sendReply resp (Some addr) = Ok msg ∧
     parse_reply msg = Some (resp,
       if decide (FQDN addr ≠ []) then mkAddrSpec (FQDN addr) [] (addr_Port addr)
       else mkAddrSpec [] (if decide (To4 (addr_IP addr) = []) then addr_IP addr else To4 (addr_IP addr)) (addr_Port addr))) ∧
  (∃ msg, sendReply resp None = Ok msg ∧ length msg = 10%nat ∧
     parse_reply msg = Some (resp, mkAddrSpec [] [0; 0; 0; 0] 0)).
Proof.
  intros Hport Hf Hip. destruct address_values as (E1 & E3 & E4). split.
  - unfold sendReply, reply_address. destruct addr as [fqdn ip port]. cbn [FQDN addr_IP addr_Port] in *.
    pose proof (port_bytes port Hport) as Hpb.
    set (pb := [u8 (Z.shiftr (u16 port) 8); u8 (Z.land (u16 port) 0xff)]) in *.
    assert (length pb = 2%nat) as Hpl by done.
    destruct (decide (fqdn ≠ [])) as [Hne|Hnil].
    + cbn [mbind outcome_bind]. fold pb. eexists. split; [reflexivity|]. cbn [app parse_reply].
      rewrite decide_True by done. rewrite E1, E3, E4. rewrite decide_False, decide_False, decide_True by lia.
      assert (u8 (Z.of_nat (length fqdn)) = Z.of_nat (length fqdn)) as -> by (unfold u8; apply Z.mod_small; lia).
      rewrite Nat2Z.id, length_app, Hpl, decide_True by lia.
      by rewrite take_app_length, drop_app_length, Hpb.
    + assert (fqdn = []) as -> by (destruct fqdn; [done|by destruct Hnil]).
      destruct (decide (To4 ip ≠ [])) as [H4|H4].
      * rewrite (decide_False (P := To4 ip = [])) by done.
        assert (length (To4 ip) = 4%nat) as L4.
        { unfold To4 in *. repeat case_decide; try done. rewrite length_drop. lia. }
        cbn [mbind outcome_bind]. fold pb. eexists. split; [reflexivity|]. cbn [app parse_reply].
        rewrite !decide_True by (rewrite ?length_app; done || lia).
        by rewrite <- L4, take_app_length, drop_app_length, Hpb.
      * assert (To4 ip = []) as H4' by (destruct (To4 ip); [done|by destruct H4]).
        rewrite (decide_True (P := To4 ip = [])) by done.
        assert (length ip = 16%nat) as L16.
        { destruct Hip as [?|[Hl|Hl]]; [done| |done]. rewrite To4_id in H4' by done. by subst ip. }
        assert (To16 ip = ip) as E16.
        { unfold To16. rewrite decide_False by lia. by rewrite decide_True. }
        rewrite E16, (decide_True (P := ip ≠ [])) by (by destruct ip).
        cbn [mbind outcome_bind]. fold pb. eexists. split; [reflexivity|]. cbn [app parse_reply].
        rewrite decide_True by done. rewrite E1, E4. rewrite decide_False, decide_True by lia.
        rewrite decide_True by (rewrite length_app; lia).
        by rewrite <- L16, take_app_length, drop_app_length, Hpb.
  - unfold sendReply. cbn [reply_address mbind outcome_bind]. eexists. split; [reflexivity|]. split; [done|].
    cbn [app parse_reply]. by rewrite !decide_True.
Qed.

Lemma contains_loopback ip x a b c : To4 ip = [x; a; b; c] → is_byte x →
  Contains (mkIPNet [127; 0; 0; 0] [255; 0; 0; 0]) ip = bool_decide (x = 127).
Proof.
  intros E [Hx1 Hx2]. unfold Contains. rewrite E.
  change (networkNumberAndMask (mkIPNet [127; 0; 0; 0] [255; 0; 0; 0])) with ([127; 0; 0; 0], [255; 0; 0; 0]).
  rewrite decide_False, decide_True by done. cbn [zip_with]. rewrite !Z.land_0_r.
  assert (Z.land x 255 = x) as ->.
  { change 255 with (Z.ones 8). rewrite Z.land_ones by lia. apply Z.mod_small. simpl. lia. }
  change (Z.land 127 255) with 127. apply bool_decide_ext. naive_solver.
Qed.

(** The rule on destinations refuses every address of 127.0.0.0/8, also when it is
    written as a mapped IPv6 address, but it lets the IPv6 loopback address through. *)
Theorem deny_localhost_v4_only :
  ∃ rule, SetProxyingLocalhostEnabled false = Ok rule ∧
    (∀ a b c port, is_byte a → is_byte b → is_byte c →
       Rule_Allow rule (Some (mkAddrSpec [] [127; a; b; c] port)) = false ∧
       Rule_Allow rule (Some (mkAddrSpec [] (v4InV6Prefix ++ [127; a; b; c]) port)) = false) ∧
    (∀ a b c d port, is_byte a → a ≠ 127 → is_byte b → is_byte c → is_byte d →
       Rule_Allow rule (Some (mkAddrSpec [] [a; b; c; d] port)) = true) ∧
    Rule_Allow rule (Some (mkAddrSpec [] (ParseIP "::1") 80)) = true.
Proof.
  eexists. split; [vm_compute; reflexivity|]. split_and!.
  - intros a b c port _ _ _. unfold Rule_Allow, RuleDenyLocalhost_Allow. cbn [addr_IP].
    rewrite !(contains_loopback _ 127 a b c) by (done || (split; lia)). done.
  - intros a b c d port Ha Hne _ _ _. unfold Rule_Allow, RuleDenyLocalhost_Allow. cbn [addr_IP].
    rewrite (contains_loopback _ a b c d) by done. by rewrite bool_decide_eq_false_2.
  - vm_compute. reflexivity.
Qed.

(** ** The local authentication *)

(** [HandleLocalAuth] on the greeting of a client, however it is cut into reads:
    when the client offers to go without authentication it is told so and exactly the
    greeting is consumed, so that the request that follows reaches the exit node whole;
    otherwise it is told that no method is acceptable. *)
Theorem local_auth_consumes_greeting `{Socks5LibLaws} conn methods rest :
  remaining (c_in conn) = 5 :: Z.of_nat (length methods) :: methods ++ rest → (length methods < 256)%nat →
  hd [] (chunks (c_in conn)) ≠ [] →
  ∃ r, remaining r = rest ∧
    HandleLocalAuth conn =
      if decide (0 ∈ methods) then (Ok tt, mkConn r (c_out conn ++ [5; 0]))
      else (Fail "client does not support NoAuth method", mkConn r (c_out conn ++ [5; 255])).
Proof.
  intros Hr Hlen Hhd. unfold HandleLocalAuth.
  destruct (Read 1 (c_in conn)) as [[bs e] r1] eqn:ER.
  assert (bs = [5] ∧ e = None) as [-> ->].
  { pose proof (Read_spec _ _ _ _ _ ER) as (Hrem & Hl & _ & _ & _ & He).
    unfold Read in ER. destruct (chunks (c_in conn)) as [|[|b [|b' c]] cs] eqn:Ec; [done|done| |].
    - unfold remaining in Hr. rewrite Ec in Hr. simpl in ER, Hr. injection ER as <- <- <-.
      injection Hr as -> Hr. split; [done|]. destruct (fin_with_data _); [|done]. destruct cs; [done|]. done.
    - unfold remaining in Hr. rewrite Ec in Hr. simpl in ER, Hr. injection ER as <- <- <-. by injection Hr as ->. }
  apply Read_spec in ER as (Hrem & _). rewrite Hr in Hrem. injection Hrem as Hrem.
  cbn [nth]. rewrite decide_False by naive_solver.
  destruct (ReadMethods_spec r1 methods rest) as (r2 & -> & Hr2); [done|done|].
  exists r2. split; [done|]. rewrite no_auth_value, no_acceptable_value.
  destruct (existsb _ methods) eqn:Ex.
  - apply existsb_exists in Ex as (m & Hm & Em%bool_decide_eq_true). subst m.
    by rewrite decide_True by (by apply list_elem_of_In).
  - rewrite decide_False; [done|]. intros Hin. apply not_true_iff_false in Ex. apply Ex, existsb_exists.
    exists 0. split; [by apply list_elem_of_In|done].
Qed.

(** ** Samples *)

(** The library on streams that deliver everything in one piece. *)
Definition toy_socks : Socks5Lib := {|
  AuthMethodNoAuth := 0; AuthMethodNoAcceptable := 255; ReplyServerFailure := 1;
  AddressIPv4 := 1; AddressDomainName := 3; AddressIPv6 := 4;
  ReadMethods r := match remaining r with
                   | n :: l => Some (take (Z.to_nat n) l, mkReader [drop (Z.to_nat n) l] (fin r) (fin_with_data r))
                   | [] => None
                   end;
  NewRequest r := Some r |}.

Lemma toy_socks_laws : @Socks5LibLaws toy_socks.
Proof.
  constructor; try done. intros r methods rest Hr _. simpl. rewrite Hr, Nat2Z.id.
  eexists. rewrite take_app_length, drop_app_length. split; [reflexivity|]. cbn. apply app_nil_r.
Defined.

Lemma available_proxies_correct_witness :
  Sorted name_le (ListAvailableProxies (H := toy_codec) (λ _, true) (known_list conf_two)).
Proof. apply (available_proxies_correct (H := toy_codec) (λ _, true) conf_two (known_list conf_two)). reflexivity. Defined.

Lemma reply_roundtrip_witness :
  ∃ msg, sendReply (H := toy_socks) 0 (Some (mkAddrSpec [97; 46; 98] [] 443)) = Ok msg ∧
    parse_reply (H := toy_socks) msg = Some (0, mkAddrSpec [97; 46; 98] [] 443).
Proof.
  destruct (reply_roundtrip (H := toy_socks) (H0 := toy_socks_laws) 0 (mkAddrSpec [97; 46; 98] [] 443)) as [[msg H] _].
  - split; reflexivity || discriminate.
  - simpl. lia.
  - left. discriminate.
  - exists msg. exact H.
Defined.

Lemma local_auth_consumes_greeting_witness :
  ∃ r, remaining r = [5; 1; 0] ∧
    HandleLocalAuth (H := toy_socks) (mkConn (mkReader [[5; 2]; [2; 0; 5; 1; 0]] EOF false) [])
    = (Ok tt, mkConn r [5; 0]).
Proof.
  destruct (local_auth_consumes_greeting (H := toy_socks) (H0 := toy_socks_laws)
    (mkConn (mkReader [[5; 2]; [2; 0; 5; 1; 0]] EOF false) []) [2; 0] [5; 1; 0]) as (r & Hr & E);
    [reflexivity|simpl; lia|discriminate|]. exists r. split; [exact Hr|exact E].
Defined.
