(* ===== verification/ProxyConns.v ===== *)
(** * The connections of the local proxy (src/socks5/client.go, src/service/socks5.go)

    The listener of the SOCKS5 proxy and the goroutines behind it: [serve] accepts a
    connection and offers it for a second on a channel that holds one, [ServeConns] takes
    connections from the channel and starts a goroutine for each, which closes its
    connection at the end. An event is one step of one of them. *)

From S2P Require Import Prelude.

(** [serve]: waiting in [Accept], offering a connection, or returned, with the channel
    closed. *)
Inductive listener := Accepting | Offering (conn : nat) | Returned.

Record Proxy := mkProxy {
  px_listener : listener;
  px_chan : option nat;          (* connsCh *)
  px_ranging : bool;             (* ServeConns has not left its loop *)
  px_serving : list nat;         (* connections with a goroutine *)
  px_closed : list nat;
  px_accepted : list nat;        (* every connection the listener accepted *)
}.

(** The listener, with [serve] and [ServeConns] started. *)
Definition serving_client : Proxy := mkProxy Accepting None true [] [] [].

(** [NewClient]: [listen] is the error of [net.Listen]. *)
Definition NewClient (listen : option string) : outcome Proxy :=
  match listen with
  | Some e => Fail e
  | None => Ok serving_client
  end.

Inductive proxy_event :=
  | Accept (conn : nat)
  | AcceptFails                  (* the listener was closed, or another error *)
  | Offer                        (* the send on the channel *)
  | OfferTimeout                 (* a second passed: the connection is closed *)
  | Take                         (* ServeConns receives and starts a goroutine *)
  | ServeEnds (i : nat)          (* a goroutine returns and closes its connection *)
  | RangeEnds.                   (* the channel is closed and empty *)

Definition proxy_step (e : proxy_event) (s : Proxy) : option Proxy :=
  let '(mkProxy l ch r serving closed accepted) := s in
  match e with
  | Accept conn => match l with Accepting => Some (mkProxy (Offering conn) ch r serving closed (accepted ++ [conn])) | _ => None end
  | AcceptFails => match l with Accepting => Some (mkProxy Returned ch r serving closed accepted) | _ => None end
  | Offer => match l, ch with Offering conn, None => Some (mkProxy Accepting (Some conn) r serving closed accepted) | _, _ => None end
  | OfferTimeout => match l with Offering conn => Some (mkProxy Accepting ch r serving (closed ++ [conn]) accepted) | _ => None end
  | Take => match ch, r with Some conn, true => Some (mkProxy l None r (serving ++ [conn]) closed accepted) | _, _ => None end
  | ServeEnds i =>
      match serving !! i with
      | Some conn => Some (mkProxy l ch r (delete i serving) (closed ++ [conn]) accepted)
      | None => None
      end
  | RangeEnds => match l, ch, r with Returned, None, true => Some (mkProxy l ch false serving closed accepted) | _, _, _ => None end
  end.

Definition proxy_run : list proxy_event → Proxy → option Proxy := run_steps proxy_step.

(** ** Facts *)

Definition offered (l : listener) : list nat := match l with Offering conn => [conn] | _ => [] end.

(** Every connection is in one place, and the loop ends only after the listener. *)
Record proxy_inv (s : Proxy) : Prop := {
  pi_places : offered (px_listener s) ++ option_list (px_chan s) ++ px_serving s ++ px_closed s ≡ₚ px_accepted s;
  pi_range : px_ranging s = false → px_listener s = Returned ∧ px_chan s = None;
}.

Lemma proxy_step_inv e s s' : proxy_inv s → proxy_step e s = Some s' → proxy_inv s'.
Proof.
  destruct s as [l ch r serving closed accepted]. intros [Hp Hr]. simpl in *. destruct e as [conn| | | | |i|]; simpl.
  - destruct l; [|done..]. intros [= <-]. split; simpl in *; [|by intros [? _]%Hr]. rewrite Hp. apply Permutation_cons_append.
  - destruct l; [|done..]. intros [= <-]. split; simpl in *; [done|]. intros Hf. by destruct (Hr Hf).
  - destruct l as [|conn|], ch; try done. intros [= <-]. split; simpl in *; [done|]. by intros [? _]%Hr.
  - destruct l as [|conn|]; try done. intros [= <-]. split; simpl in *; [|by intros [? _]%Hr].
    by rewrite <- Hp, !app_assoc, <- Permutation_cons_append.
  - destruct ch as [conn|], r; try done. intros [= <-]. split; simpl in *; [|done].
    by rewrite <- Hp, <- app_assoc, (Permutation_middle serving).
  - destruct (serving !! i) as [conn|] eqn:Ei; [|done]. intros [= <-]. split; simpl in *; [|done].
    rewrite <- Hp. do 2 apply Permutation_app_head.
    etrans; [|apply Permutation_app_tail; symmetry; exact (delete_Permutation serving i conn Ei)].
    by rewrite app_assoc, <- Permutation_cons_append.
  - destruct l, ch, r; try done. intros [= <-]. by split.
Qed.

Lemma proxy_stuck s : proxy_inv s → (∀ e, proxy_step e s = None) →
  px_listener s = Returned ∧ px_ranging s = false ∧ px_closed s ≡ₚ px_accepted s.
Proof.
  destruct s as [l ch r serving closed accepted]. intros [Hp Hr] Hs. simpl in *.
  pose proof (Hs AcceptFails) as H1. pose proof (Hs OfferTimeout) as H2. pose proof (Hs Take) as H3.
  pose proof (Hs (ServeEnds 0)) as H4. pose proof (Hs RangeEnds) as H5. simpl in *.
  destruct l; [done..|]. destruct serving; [|done]. destruct ch as [conn|].
  - destruct r; [done|]. by destruct (Hr eq_refl).
  - destruct r; [done|]. done.
Qed.

(** ** Properties *)

(** C39. No connection of the local proxy is lost. In every state, however the goroutines are
    interleaved, each accepted connection is offered, in the channel, served, or closed,
    exactly once; the loop that serves them ends only when the listener has ended and the
    channel is empty; and when nothing can happen any more, every connection is closed. *)
Theorem proxy_conns_closed listen s0 es s :
  NewClient listen = Ok s0 → proxy_run es s0 = Some s →
  offered (px_listener s) ++ option_list (px_chan s) ++ px_serving s ++ px_closed s ≡ₚ px_accepted s ∧
  (px_ranging s = false → px_listener s = Returned ∧ px_chan s = None) ∧
  ((∀ e, proxy_step e s = None) → px_listener s = Returned ∧ px_ranging s = false ∧ px_closed s ≡ₚ px_accepted s).
Proof.
  destruct listen; [done|]. intros [= <-] Hr.
  assert (Hs : proxy_inv s) by (apply (run_steps_inv proxy_step proxy_inv es serving_client s); [exact proxy_step_inv|by split|exact Hr]).
  split; [apply Hs|]. split; [apply Hs|]. by apply proxy_stuck.
Qed.

Lemma proxy_conns_closed_witness :
  ∃ s, proxy_run [Accept 1; Offer; Accept 2; OfferTimeout; Take; AcceptFails; ServeEnds 0; RangeEnds] serving_client = Some s ∧
    px_closed s ≡ₚ [1; 2].
Proof.
  eexists. split; [reflexivity|].
  apply (proxy_conns_closed None serving_client [Accept 1; Offer; Accept 2; OfferTimeout; Take; AcceptFails; ServeEnds 0; RangeEnds]); [reflexivity|reflexivity|].
  intros [| | | | |i|]; reflexivity.
Defined.

(** Any error of [Accept] ends the proxy: a connection that comes later is not accepted,
    although the daemon runs on. *)
Theorem accept_error_ends_proxy s conn :
  px_listener s = Accepting → ∃ s', proxy_step AcceptFails s = Some s' ∧ proxy_step (Accept conn) s' = None ∧
    ∀ es s2, proxy_run es s' = Some s2 → px_listener s2 = Returned.
Proof.
  destruct s as [l ch r serving closed accepted]. simpl. intros ->. eexists. split; [reflexivity|]. split; [done|].
  intros es s2. apply (run_steps_inv proxy_step (λ s, px_listener s = Returned)); [|done].
  intros e [l1 ch1 r1 sv1 cl1 ac1] s' Hl E. simpl in Hl. subst l1. destruct e; simpl in E; repeat case_match; by simplify_eq.
Qed.
