(* ===== verification/ExitNode.v ===== *)
(** * The exit node (src/socks5/server.go, src/socks5/conn.go, src/service/socks5.go)

    The SOCKS5 server of this node as a machine: streams of peers arrive at
    [ProxyStreamHandler], the library serves the ones that are let in and asks the rule of
    the server before it dials, the rule and the configuration are replaced meanwhile, and
    the handler resets its stream when it returns. An event is one of these. *)

From S2P Require Import Prelude GoStrings GoNet GoIO Externals Config NetworkAddr Protocol Socks5.
From Stdlib Require String.

(** [UpdatableRule]: the pointer to the rule. *)
Definition SetRule (new old : Rule) : Rule := new.

(** The [Server]: of its fields only the rule changes. *)
Record Server := mkServer { sv_rule : Rule }.

(** [NewServer]; [lib] says whether the library accepts the configuration. *)
Definition NewServer (lib : bool) : outcome Server :=
  ipNet ← NewRuleDenyLocalhost;
  if lib then Ok (mkServer (DenyLocalhost ipNet)) else Panic.

Definition SetRules (rule : Rule) (s : Server) : Server := mkServer (SetRule rule (sv_rule s)).

(** A stream of a peer while the library serves it: the peer and whether the stream
    negotiated the protocol without the greeting. *)
Record served := mkServed { st_peer : string; st_noAuth : bool; st_closed : bool }.

(** [StreamConnWrapper.Close]: the stream stays as it is. *)
Definition StreamConnWrapper_Close (st : served) : served := st.

Record Exit := mkExit {
  en_conf : Config;
  en_server : Server;
  en_open : gmap nat served;            (* streams in ServeStreamConn or ServeStreamConnNoAuth *)
  en_said : list (nat * bytes);         (* failure replies *)
  en_reset : list nat;                  (* streams the handler reset *)
  en_active : Z;                        (* SOCKS5ActiveConnections, label server *)
  en_dials : list (string * AddrSpec);  (* destinations dialled, with the peer *)
}.

Definition exit_node (c : Config) (s : Server) : Exit := mkExit c s ∅ [] [] 0 [].

Inductive exit_event :=
  | StreamOpened (id : nat) (remotePeer streamProtocol : string) (conn : Conn)
  | Requested (id : nat) (dest : AddrSpec)   (* the library puts a destination to the rule *)
  | LibraryCloses (id : nat)
  | Served_returns (id : nat)                (* the library returns, then the handler *)
  | Localhost (enabled : bool)               (* SetProxyingLocalhostEnabled *)
  | Reconfigured (c : Config).               (* anything else of the node *)

Section machine.
Context `{PeerCodec} `{Socks5Lib}.

(** The stream handler up to the library: the stream is reset at once unless the peer is
    let in. *)
Definition open_stream (id : nat) (remotePeer streamProtocol : string) (conn : Conn) (s : Exit) : Exit :=
  let '(mkExit c sv op said reset active dials) := s in
  match ProxyStreamHandler remotePeer streamProtocol c with
  | Denied => mkExit c sv op said (reset ++ [id]) (active + 1 - 1)%Z dials
  | FailureReply => mkExit c sv op (said ++ [(id, c_out (SendServerFailureReply conn).2)]) (reset ++ [id]) (active + 1 - 1)%Z dials
  | Served noAuth => mkExit c sv (<[id := mkServed remotePeer noAuth false]> op) said reset (active + 1)%Z dials
  end.

Definition exit_step (e : exit_event) (s : Exit) : option Exit :=
  let '(mkExit c sv op said reset active dials) := s in
  match e with
  | StreamOpened id remotePeer proto conn =>
      if decide (op !! id = None ∧ id ∉ reset) then Some (open_stream id remotePeer proto conn s) else None
  | Requested id dest =>
      st ← op !! id;
      Some (if Rule_Allow (sv_rule sv) (Some dest) then mkExit c sv op said reset active (dials ++ [(st_peer st, dest)]) else s)
  | LibraryCloses id => st ← op !! id; Some (mkExit c sv (<[id := StreamConnWrapper_Close st]> op) said reset active dials)
  | Served_returns id => _ ← op !! id; Some (mkExit c sv (delete id op) said (reset ++ [id]) (active - 1)%Z dials)
  | Localhost enabled =>
      match SetProxyingLocalhostEnabled enabled with
      | Ok rule => Some (mkExit c (SetRules rule sv) op said reset active dials)
      | _ => None
      end
  | Reconfigured c => Some (mkExit c sv op said reset active dials)
  end.

Definition exit_run : list exit_event → Exit → option Exit := run_steps exit_step.
End machine.

(** ** The life of a stream *)

Record exit_inv (s : Exit) : Prop := {
  inv_reset : NoDup (en_reset s);
  inv_apart : ∀ id, id ∈ en_reset s → en_open s !! id = None;
  inv_active : en_active s = Z.of_nat (size (en_open s));
  inv_unclosed : ∀ id st, en_open s !! id = Some st → st_closed st = false;
}.

Section life.
Context `{PeerCodec} `{Socks5Lib}.

Lemma reset_fresh (op : gmap nat served) (reset : list nat) id : NoDup reset → (∀ j, j ∈ reset → op !! j = None) → op !! id = None →
  id ∉ reset → NoDup (reset ++ [id]) ∧ ∀ j, j ∈ reset ++ [id] → op !! j = None.
Proof.
  intros Hn Ha Ho Hr. split.
  - apply list.NoDup_app. split_and!; [done| |apply NoDup_singleton]. by intros x Hx ->%list_elem_of_singleton.
  - intros j [?| ->%list_elem_of_singleton]%elem_of_app; [by apply Ha|done].
Qed.

Lemma exit_step_inv e s s' : exit_inv s → exit_step e s = Some s' → exit_inv s'.
Proof.
  destruct s as [c sv op said reset active dials]. intros [Hn Ha Hz Hc]. cbn in Hn, Ha, Hz, Hc. destruct e as [id r proto conn|id dest|id|id|b|c']; cbn [exit_step].
  - destruct (decide _) as [[Ho Hr]|]; [intros [= <-]|done]. cbn [open_stream].
    destruct (reset_fresh op reset id Hn Ha Ho Hr) as [Hn' Ha'].
    destruct (ProxyStreamHandler _ _ _); [split; cbn; [done|done|lia|done]..|]. split; cbn; [done| | |].
    + intros j Hj. rewrite lookup_insert_ne by (intros ->; done). by apply Ha.
    + rewrite map_size_insert_None by done. lia.
    + intros j st [[<- <-]|[_ Hj]]%lookup_insert_Some; [done|by eapply Hc].
  - destruct (op !! id) as [st|]; [|done]. intros [= <-]. by destruct (Rule_Allow _ _).
  - destruct (op !! id) as [st|] eqn:E; [|done]. intros [= <-]. unfold StreamConnWrapper_Close.
    by rewrite (insert_id op id st E).
  - destruct (op !! id) as [st|] eqn:E; [|done]. intros [= <-].
    assert (id ∉ reset) as Hr by (intros Hi; by rewrite (Ha id Hi) in E).
    destruct (reset_fresh (delete id op) reset id Hn) as [Hn' Ha'];
      [intros j Hj; rewrite lookup_delete_None; auto|by rewrite lookup_delete_eq|done|]. split; cbn; [done|done| |].
    + assert (op ≠ ∅) by (intros ->; done). assert (size op ≠ 0) by (by apply map_size_non_empty_iff). rewrite map_size_delete, E. simpl. lia.
    + intros j st' [_ Hj]%lookup_delete_Some. by eapply Hc.
  - destruct (SetProxyingLocalhostEnabled b) as [rule| |]; [intros [= <-]; by split|done|done].
  - intros [= <-]. by split.
Qed.

(** A stream that arrived stays known to the handler. *)
Definition handled (id : nat) (s : Exit) : Prop := is_Some (en_open s !! id) ∨ id ∈ en_reset s.

Lemma exit_step_handled id e s s' : handled id s → exit_step e s = Some s' → handled id s'.
Proof.
  unfold handled. destruct s as [c sv op said reset active dials]. intros Hs. cbn in Hs.
  destruct e as [id' r proto conn|id' dest|id'|id'|b|c']; cbn [exit_step].
  - destruct (decide _) as [[Ho Hr]|]; [intros [= <-]|done]. cbn [open_stream].
    destruct (ProxyStreamHandler _ _ _); cbn; rewrite ?elem_of_app; [naive_solver..|].
    destruct Hs as [Hs|Hs]; [left|by right]. destruct (decide (id' = id)) as [->|]; [by rewrite lookup_insert_eq|by rewrite lookup_insert_ne].
  - destruct (op !! id'); [|done]. intros [= <-]. by destruct (Rule_Allow _ _).
  - destruct (op !! id') as [st|] eqn:E; [|done]. intros [= <-]. unfold StreamConnWrapper_Close. by rewrite (insert_id op id' st E).
  - destruct (op !! id') as [st|] eqn:E; [|done]. intros [= <-]. cbn. rewrite elem_of_app, list_elem_of_singleton.
    destruct (decide (id' = id)) as [->|]; [by right; right|rewrite lookup_delete_ne by done; naive_solver].
  - destruct (SetProxyingLocalhostEnabled b) as [rule| |]; [by intros [= <-]|done|done].
  - by intros [= <-].
Qed.

Lemma opened_handled id r proto conn s s' : exit_step (StreamOpened id r proto conn) s = Some s' → handled id s'.
Proof.
  destruct s as [c sv op said reset active dials]. cbn [exit_step]. destruct (decide _) as [_|]; [intros [= <-]|done].
  unfold handled. cbn [open_stream].
  destruct (ProxyStreamHandler _ _ _); cbn; rewrite ?elem_of_app, ?list_elem_of_singleton; [by right; right..|].
  left. by rewrite lookup_insert_eq.
Qed.

(** The streams of the exit node: each one that arrived is being served or was reset, by
    the handler, once; the library cannot close the stream it serves; and the gauge of
    active connections counts the streams being served. *)
Theorem exit_streams_reset_once c sv es s :
  exit_run es (exit_node c sv) = Some s →
  NoDup (en_reset s) ∧ (∀ id, id ∈ en_reset s → en_open s !! id = None) ∧
  en_active s = Z.of_nat (size (en_open s)) ∧
  (∀ id st, en_open s !! id = Some st → st_closed st = false) ∧
  (∀ id r proto conn, StreamOpened id r proto conn ∈ es → handled id s).
Proof.
  intros Hr.
  assert (exit_inv s) as [Hn Ha Hz Hc].
  { apply (run_steps_inv exit_step exit_inv es (exit_node c sv)); [apply exit_step_inv| |exact Hr].
    split; cbn; [apply NoDup_nil_2|by intros id ?%elem_of_nil|done|by intros id st]. }
  split_and!; [done..|].
  intros id r proto conn (es1 & es2 & ->)%list_elem_of_split. unfold exit_run in Hr. rewrite run_steps_app in Hr.
  destruct (run_steps exit_step es1 _) as [s1|]; [|done]. cbn [mbind option_bind] in Hr.
  apply run_steps_cons in Hr as (s2 & E2 & Hr).
  apply (run_steps_inv exit_step (handled id) es2 s2); [apply exit_step_handled|by eapply opened_handled|exact Hr].
Qed.
End life.

(** ** What the exit node dials *)

Definition loopback4 (ip : bytes) : Prop :=
  ∃ a b c, is_byte a ∧ is_byte b ∧ is_byte c ∧ (ip = [127; a; b; c]%Z ∨ ip = v4InV6Prefix ++ [127; a; b; c]%Z).

Section dials.
Context `{PeerCodec} `{Socks5Lib}.

(** The peer is a known peer allowed to use this node, which proxies. *)
Definition may_exit (remotePeer : string) (c : Config) : Prop :=
  ProxyingEnabled (SOCKS5 c) = true ∧ ∃ p, KnownPeers c !! peer_String remotePeer = Some p ∧ kp_WeAllowUsingAsExitNode p = true.

(** A stream of the peer was opened by one of the events, when the peer was allowed. *)
Definition opened_in (es : list exit_event) (s0 : Exit) (remotePeer : string) : Prop :=
  ∃ es1 id proto conn es2 s1, es = es1 ++ StreamOpened id remotePeer proto conn :: es2 ∧ exit_run es1 s0 = Some s1 ∧ may_exit remotePeer (en_conf s1).

Lemma opened_in_app es e s0 r : opened_in es s0 r → opened_in (es ++ [e]) s0 r.
Proof.
  intros (es1 & id & proto & conn & es2 & s1 & -> & ?). exists es1, id, proto, conn, (es2 ++ [e]), s1. by rewrite <- app_assoc.
Qed.

Lemma served_may_exit r proto c noAuth : ProxyStreamHandler r proto c = Served noAuth → may_exit r c.
Proof.
  unfold ProxyStreamHandler, may_exit, GetPeer. destruct (KnownPeers c !! peer_String r) as [p|]; [cbn|done].
  destruct (kp_WeAllowUsingAsExitNode p) eqn:Ew; [cbn|done].
  destruct (ProxyingEnabled _); cbn; [by eauto|]. by destruct (decide _).
Qed.

(** The rule the server starts with and the one that is put back refuse the loopback
    addresses. *)
Definition denies (rule : Rule) : Prop := SetProxyingLocalhostEnabled false = Ok rule.

Lemma denies_loopback rule ip fqdn port : denies rule → loopback4 ip → Rule_Allow rule (Some (mkAddrSpec fqdn ip port)) = false.
Proof.
  intros Hd (a & b & c & Ha & Hb & Hc & Hip). unfold denies in Hd. vm_compute in Hd. injection Hd as <-.
  unfold Rule_Allow, RuleDenyLocalhost_Allow. cbn [addr_IP]. rewrite (contains_loopback ip 127 a b c); [done|by destruct Hip as [-> | ->]|split; lia].
Qed.

Lemma NewServer_denies lib sv : NewServer lib = Ok sv → denies (sv_rule sv).
Proof. unfold NewServer, denies, SetProxyingLocalhostEnabled. destruct NewRuleDenyLocalhost; cbn; [|done|done]. by destruct lib; intros [= <-]. Qed.

Record exit_history (es : list exit_event) (s0 s : Exit) : Prop := {
  hist_rule : denies (sv_rule (en_server s));
  hist_open : ∀ id st, en_open s !! id = Some st → opened_in es s0 (st_peer st);
  hist_dials : ∀ r d, (r, d) ∈ en_dials s → opened_in es s0 r ∧ ¬ loopback4 (addr_IP d);
}.

Lemma exit_step_history es e s0 s s' : e ≠ Localhost true → exit_run es s0 = Some s → exit_history es s0 s →
  exit_step e s = Some s' → exit_history (es ++ [e]) s0 s'.
Proof.
  intros He Hrun [Hr Ho Hd]. pose proof (λ r, opened_in_app es e s0 r) as Hup.
  destruct s as [c sv op said reset active dials]. cbn in Hr, Ho, Hd.
  destruct e as [id r proto conn|id dest|id|id|b|c']; cbn [exit_step].
  - destruct (decide _) as [_|]; [intros [= <-]|done]. cbn [open_stream].
    destruct (ProxyStreamHandler r proto c) as [| |noAuth] eqn:E; [split; cbn; [done|by eauto|naive_solver]..|].
    split; cbn; [done| |naive_solver].
    intros j st [[_ <-]|[_ Hj]]%lookup_insert_Some; [|by eauto]. cbn.
    exists es, id, proto, conn, [], (mkExit c sv op said reset active dials). split_and!; [done|done|]. by eapply served_may_exit.
  - destruct (op !! id) as [st|] eqn:E; [cbn|done]. destruct (Rule_Allow _ _) eqn:Ea; intros [= <-]; [|by split; cbn; naive_solver].
    split; cbn; [done|by eauto|]. intros r d [Hin|[= -> ->]%list_elem_of_singleton]%elem_of_app; [naive_solver|].
    split; [by eauto|]. intros Hl. destruct dest as [fq ip port]. cbn in Hl. by rewrite (denies_loopback _ ip) in Ea.
  - destruct (op !! id) as [st|] eqn:E; [|done]. intros [= <-]. unfold StreamConnWrapper_Close. rewrite (insert_id op id st E). split; cbn; naive_solver.
  - destruct (op !! id) as [st|] eqn:E; [|done]. intros [= <-]. split; cbn; [done| |naive_solver].
    intros j st' [_ Hj]%lookup_delete_Some. by eauto.
  - destruct b; [done|]. destruct (SetProxyingLocalhostEnabled false) as [rule| |] eqn:E; [|done|done]. intros [= <-]. split; cbn; naive_solver.
  - intros [= <-]. split; cbn; naive_solver.
Qed.

Lemma exit_run_history c sv es : ∀ s, denies (sv_rule sv) → Localhost true ∉ es → exit_run es (exit_node c sv) = Some s →
  exit_history es (exit_node c sv) s.
Proof.
  induction es as [|e es IH] using rev_ind; intros s Hsv Hes Hr.
  - injection Hr as <-. split; cbn; [done|by intros id st|by intros r d ?%elem_of_nil].
  - unfold exit_run in Hr. rewrite run_steps_app in Hr. destruct (run_steps exit_step es _) as [s1|] eqn:E1; [|done].
    cbn [mbind option_bind] in Hr. apply run_steps_cons in Hr as (s2 & E2 & [= <-]).
    apply (exit_step_history es e _ s1); [|done| |done].
    + intros ->. apply Hes. apply elem_of_app. right. by apply list_elem_of_singleton.
    + apply IH; [done| |done]. intros Hin. apply Hes. apply elem_of_app. by left.
Qed.
End dials.

(** C14. C0: what leaves through this node, over any sequence of streams, requests, library
    calls and changes of the configuration: a destination is dialled only for a peer one of
    whose streams was opened while the node was proxying and the peer was a known peer
    allowed to use it as an exit node, and it is never an address of 127.0.0.0/8, mapped
    or not, unless the rule on localhost was lifted. *)
Theorem exit_node_dials_permitted `{PeerCodec} `{Socks5Lib} c lib sv es s r d :
  NewServer lib = Ok sv → Localhost true ∉ es → exit_run es (exit_node c sv) = Some s → (r, d) ∈ en_dials s →
  opened_in es (exit_node c sv) r ∧ ¬ loopback4 (addr_IP d).
Proof.
  intros Hsv Hes Hr Hin. by destruct (exit_run_history c sv es s (NewServer_denies _ _ Hsv) Hes Hr) as [_ _ Hd]; apply Hd.
Qed.

(** The other way round, a peer that may exit is served: a request of its stream for an
    IPv4 address outside 127.0.0.0/8 is dialled. *)
Theorem exit_node_serves `{PeerCodec} `{Socks5Lib} lib sv c s id r proto conn fqdn x y z w port :
  NewServer lib = Ok sv → en_server s = sv → en_conf s = c → may_exit r c →
  en_open s !! id = None → id ∉ en_reset s → is_byte x → x ≠ 127%Z → is_byte y → is_byte z → is_byte w →
  ∃ s', exit_run [StreamOpened id r proto conn; Requested id (mkAddrSpec fqdn [x; y; z; w] port)] s = Some s' ∧
    en_dials s' = en_dials s ++ [(r, mkAddrSpec fqdn [x; y; z; w] port)].
Proof.
  destruct s as [c0 sv0 op said reset active dials]. cbn [en_server en_conf en_open en_reset en_dials].
  intros Hsv -> -> [Hp (p & Hk & Hw)] Ho Hr Hx Hne _ _ _.
  assert (ProxyStreamHandler r proto c = Served (bool_decide (proto = Socks5NoAuthMethod))) as E.
  { unfold ProxyStreamHandler, GetPeer. rewrite Hk. cbn. by rewrite Hw, Hp. }
  assert (Rule_Allow (sv_rule sv) (Some (mkAddrSpec fqdn [x; y; z; w] port)) = true) as Ea.
  { pose proof (NewServer_denies lib sv Hsv) as Hd. destruct sv as [rule]. unfold denies in Hd. cbn [sv_rule] in *. vm_compute in Hd. injection Hd as <-.
    unfold Rule_Allow, RuleDenyLocalhost_Allow. cbn [addr_IP]. rewrite (contains_loopback _ x y z w) by done. by rewrite bool_decide_eq_false_2. }
  eexists. split.
  - apply run_steps_cons. eexists. split.
    + cbn [exit_step]. rewrite decide_True by done. cbn [open_stream]. by rewrite E.
    + apply run_steps_cons. eexists. split; [|reflexivity]. cbn [exit_step]. rewrite lookup_insert_eq. cbn. by rewrite Ea.
  - done.
Qed.

Definition exit_conf (allowed : bool) : Config :=
  with_SOCKS5 (conf_with {[ "a" := mkKnownPeer "a" "" "a" "10.66.0.2" "" 0 0 true false allowed false "" ]}) (mkSOCKS5Config true true "" "").

(** A peer that asks for a loopback address and for another host, the permission being
    withdrawn in between, a stream of a stranger, and one after the withdrawal. *)
Definition exit_events : list exit_event :=
  [StreamOpened 0 "a" Socks5NoAuthMethod (mkConn (mkReader [] EOF false) []);
   Requested 0 (mkAddrSpec [] [127; 0; 0; 1]%Z 80); Reconfigured (exit_conf false);
   StreamOpened 1 "a" Socks5NoAuthMethod (mkConn (mkReader [] EOF false) []);
   StreamOpened 2 "b" Socks5PacketMethod (mkConn (mkReader [] EOF false) []);
   Requested 0 (mkAddrSpec [] [9; 9; 9; 9]%Z 80); LibraryCloses 0; Served_returns 0].

Lemma exit_node_dials_permitted_witness :
  opened_in (H := toy_codec) (H0 := toy_socks) exit_events (exit_node (exit_conf true) (mkServer (DenyLocalhost (mkIPNet [127; 0; 0; 0]%Z [255; 0; 0; 0]%Z)))) "a" ∧
  ¬ loopback4 [9; 9; 9; 9]%Z.
Proof.
  eapply (exit_node_dials_permitted (H := toy_codec) (H0 := toy_socks) (exit_conf true) true _ exit_events _ "a" (mkAddrSpec [] [9; 9; 9; 9]%Z 80)).
  - vm_compute. reflexivity.
  - unfold exit_events. by repeat (apply not_elem_of_cons; split; [done|]); apply not_elem_of_nil.
  - vm_compute. reflexivity.
  - cbn. by apply list_elem_of_singleton.
Defined.
