(* ===== verification/P2p.v ===== *)
(** * The peer-to-peer host (src/p2p/p2p.go, src/p2p/metrics.go)

    What the daemon adds to go-libp2p: the choice of relays and the ranking of relay
    addresses, the background connections to the known and the bootstrap peers, the
    addresses it listens on, and what it reports of the connections. The host of the
    library is a record of the answers it gives. *)

From S2P Require Import Prelude GoStrings GoNet GoHostPort Externals.
From Stdlib Require Import Ascii.
From Stdlib Require String.
Local Open Scope Z_scope.

Definition DHTProtocolPrefix : string := "/awl".
Definition protectedBootstrapPeerTag : string := "bootstrap".
Definition protectedPeerTag : string := "known".
Definition defaultP2pPort : nat := 4363.
Definition DesiredRelays : Z := 2.

(** The parts of a multiaddress: go-multiaddr's protocols (code and name) and the value
    of a protocol, and the codes the sources name. *)
Class MaddrParts `{Multiaddrs} := {
  ma_Protocols : maddr → list (Z * string);
  ValueForProtocol : maddr → Z → option string;
  P_TCP : Z; P_QUIC : Z; P_QUIC_V1 : Z; P_CIRCUIT : Z; P_P2P : Z;
}.

Inductive Connectedness := NotConnected | Connected | Limited.
Global Instance Connectedness_eq_dec : EqDecision Connectedness.
Proof. solve_decision. Defined.

Section host.
Context `{Multiaddrs} `{!MaddrParts} `{PeerCodec}.

(** A connection of the library, with the protocol and direction of its streams. *)
Record HostConn := mkHostConn {
  RemoteMultiaddr : maddr;
  conn_Direction : string;
  conn_Opened : Z;
  conn_Limited : bool;
  NumStreams : Z;
  conn_Streams : list (string * string);
}.

(** The answers of the library's host, its peerstore included. *)
Record Host := mkHost {
  h_Connectedness : string → Connectedness;
  LatencyEWMA : string → Z;
  ConnsToPeer : string → list HostConn;
  Conns : list HostConn;
  AgentVersion : string → option string;
}.

(** [peer.AddrInfo]. *)
Record AddrInfo := mkAddrInfo { ai_ID : string; ai_Addrs : list maddr }.

(** [IsConnected]. *)
Definition IsConnected (h : Host) (peerID : string) : bool :=
  bool_decide (h_Connectedness h peerID ≠ NotConnected).

(** [PeerUserAgent]. *)
Definition PeerUserAgent (h : Host) (peerID : string) : string := default "" (AgentVersion h peerID).

(** [ConnectPeer]: [find] and [connect] are the answers of the DHT and of the host. *)
Definition ConnectPeer (h : Host) (peerID : string) (find : option AddrInfo) (connect : AddrInfo → bool) : outcome unit :=
  if IsConnected h peerID then Ok tt
  else match find with
       | None => Fail ("could not find peer " +:+ peer_String peerID)
       | Some info => if connect info then Ok tt else Fail "connect"
       end.

(** [pingPeer]: how many answers of the channel it takes. *)
Definition desiredPings : nat := 5.
Fixpoint ping_loop {A} (pingCount : nat) (ch : list A) : nat :=
  match ch with
  | [] => pingCount
  | _ :: ch => let pingCount := S pingCount in
      if decide (desiredPings ≤ pingCount)%nat then pingCount else ping_loop pingCount ch
  end.
Definition pingPeer {A} (ch : list A) : nat := ping_loop 0 ch.

(** [BootstrapPeersStats]: all and the connected ones. *)
Definition BootstrapPeersStats (h : Host) (bootstrapPeers : list AddrInfo) : nat * nat :=
  (length bootstrapPeers,
   foldl (λ connected peerAddr, if IsConnected h (ai_ID peerAddr) then connected + 1 else connected)%nat 0%nat bootstrapPeers).

(** [peerAddressesString]. *)
Definition peerAddressesString (h : Host) (peerID : string) : list string :=
  (λ conn, maddr_String (RemoteMultiaddr conn)) <$> ConnsToPeer h peerID.

(** ** Listening addresses *)

Definition UnicastListenAddrs : list string :=
  ["/ip4/0.0.0.0/tcp/0"; "/ip6/::/tcp/0"; "/ip4/0.0.0.0/udp/0/quic-v1"; "/ip6/::/udp/0/quic-v1"].

Definition DefaultListenAddrs : list string :=
  ["/ip4/0.0.0.0/tcp/" +:+ Itoa defaultP2pPort; "/ip6/::/tcp/" +:+ Itoa defaultP2pPort;
   "/ip4/0.0.0.0/udp/" +:+ Itoa defaultP2pPort +:+ "/quic-v1"; "/ip6/::/udp/" +:+ Itoa defaultP2pPort +:+ "/quic-v1"].

(** [findListenAddrs]: [tcp_free] and [udp_free] say whether the port can be bound. *)
Definition findListenAddrs (tcp_free udp_free : nat → bool) : list string :=
  if negb (tcp_free defaultP2pPort) then UnicastListenAddrs
  else if negb (udp_free defaultP2pPort) then UnicastListenAddrs
  else DefaultListenAddrs.

(** ** Relays *)

(** A value of type [int] on a platform with [bits]-bit integers. *)
Definition int_of (bits : Z) (z : Z) : Z := (z + 2 ^ (bits - 1)) `mod` 2 ^ bits - 2 ^ (bits - 1).

(** The comparison the candidates are sorted with is not positive. *)
Definition closer (bits : Z) (h : Host) (a b : AddrInfo) : Prop :=
  int_of bits (i64 (LatencyEWMA h (ai_ID a) - LatencyEWMA h (ai_ID b))) ≤ 0.
Global Instance closer_dec bits h : RelDecision (closer bits h).
Proof. intros a b. unfold closer. apply _. Defined.

Definition relay_usable (h : Host) (info : AddrInfo) : Prop :=
  IsConnected h (ai_ID info) = true ∧ LatencyEWMA h (ai_ID info) ≠ 0.

(** [getAllCandidates]; the host is nil until it is built. The source sorts with
    [slices.SortFunc], which may order equal latencies in any way. *)
Definition getAllCandidates (bits : Z) (host : option Host) (bootstrapPeers : list AddrInfo) : list AddrInfo :=
  match host with
  | None => bootstrapPeers
  | Some h => merge_sort (closer bits h) (filter (relay_usable h) bootstrapPeers)
  end.

(** The function [getAutoRelayPeerSource] returns: one call, from the candidates left
    to what it sends and the candidates left after it. *)
Definition autoRelayPeerSource (candidates lastAddrInfos : list AddrInfo) (numPeers : Z)
    : outcome (list AddrInfo * list AddrInfo) :=
  let lastAddrInfos := match lastAddrInfos with [] => candidates | _ => lastAddrInfos end in
  let numPeers := if decide (Z.of_nat (length lastAddrInfos) < numPeers) then Z.of_nat (length lastAddrInfos) else numPeers in
  if decide (numPeers < 0) then Panic
  else Ok (take (Z.to_nat numPeers) lastAddrInfos, drop (Z.to_nat numPeers) lastAddrInfos).

(** Successive calls, each with the candidates of its moment. *)
Fixpoint relay_calls (calls : list (list AddrInfo * Z)) (last : list AddrInfo) : outcome (list (list AddrInfo) * list AddrInfo) :=
  match calls with
  | [] => Ok ([], last)
  | (candidates, n) :: calls =>
      '(sent, last) ← autoRelayPeerSource candidates last n;
      '(rest, last) ← relay_calls calls last;
      Ok (sent :: rest, last)
  end.

(** ** Dialling *)

Record AddrDelay := mkAddrDelay { ad_Addr : maddr; ad_Delay : Z }.

(** The relay of a circuit address, as both loops of [getDialRanker] read it. *)
Definition relay_of (addr : maddr) : option string :=
  ValueForProtocol addr P_CIRCUIT ≫= λ _, ValueForProtocol addr P_P2P ≫= peer_Decode.

(** One turn of the first loop: the closest relay so far with its latency. *)
Definition closest_step (latency : string → Z) (closest : option (string * Z)) (addrDelay : AddrDelay) : option (string * Z) :=
  match relay_of (ad_Addr addrDelay) with
  | None => closest
  | Some relayPID =>
      if decide (latency relayPID ≠ 0) then
        match closest with
        | None => Some (relayPID, latency relayPID)
        | Some (_, closestLatency) => if decide (latency relayPID < closestLatency) then Some (relayPID, latency relayPID) else closest
        end
      else closest
  end.

Definition relayPenalty : Z := 500 * 1000000.

(** One turn of the second loop. *)
Definition penalise (closest : option (string * Z)) (addrDelay : AddrDelay) : AddrDelay :=
  match relay_of (ad_Addr addrDelay), closest with
  | Some relayPID, Some (closestRelayID, _) =>
      if decide (relayPID ≠ closestRelayID) then mkAddrDelay (ad_Addr addrDelay) (i64 (ad_Delay addrDelay + relayPenalty))
      else addrDelay
  | _, _ => addrDelay
  end.

(** [getDialRanker], on the delays of the library's default ranker. *)
Definition getDialRanker (latency : string → Z) (DefaultDialRanker : list maddr → list AddrDelay) (addrs : list maddr)
    : list AddrDelay :=
  let defaultDelays := DefaultDialRanker addrs in
  penalise (foldl (closest_step latency) None defaultDelays) <$> defaultDelays.

(** ** Background connections *)

(** [BootstrapPeerDebugInfo]. *)
Record BootstrapPeerDebugInfo := mkBootstrapPeerDebugInfo { bi_Error : string; bi_Connections : list string; bi_Ping : Z }.

(** What the rounds change: the protected peers of the connection manager with their
    tags, the peers whose dial back-off was cleared, and [bootstrapsInfo]. *)
Record P2p := mkP2p {
  protected : gset (string * string);
  backoffCleared : gset string;
  bootstrapsInfo : option (gmap string BootstrapPeerDebugInfo);
}.

(** [ProtectPeer] and [UnprotectPeer]. *)
Definition ProtectPeer (id : string) (p : P2p) : P2p :=
  mkP2p ({[(id, protectedPeerTag)]} ∪ protected p) (backoffCleared p) (bootstrapsInfo p).
Definition UnprotectPeer (id : string) (p : P2p) : P2p :=
  mkP2p (protected p ∖ {[(id, protectedPeerTag)]}) (backoffCleared p) (bootstrapsInfo p).

(** One round as the network sees it: the host before and after it, the error of each
    connection attempt to a bootstrap peer, and the order in which they finish. *)
Record Round := mkRound {
  r_before : Host;
  r_after : Host;
  r_connect : AddrInfo → option string;
  r_finished : list AddrInfo;
}.

(** The goroutine of a bootstrap peer. *)
Definition bootstrap_info (r : Round) (peerAddr : AddrInfo) : BootstrapPeerDebugInfo :=
  mkBootstrapPeerDebugInfo (default "" (r_connect r peerAddr)) (peerAddressesString (r_after r) (ai_ID peerAddr))
    (LatencyEWMA (r_after r) (ai_ID peerAddr)).

(** [connectToKnownPeers]. *)
Definition connectToKnownPeers (r : Round) (bootstrapPeers : list AddrInfo) (peerIds : list string) (p : P2p) : P2p :=
  let p := foldl (λ p peerID, ProtectPeer peerID p) p peerIds in
  let connectedBootstrapPeersCount := (BootstrapPeersStats (r_before r) bootstrapPeers).2 in
  mkP2p
    (foldl (λ s peerAddr, {[(ai_ID peerAddr, protectedBootstrapPeerTag)]} ∪ s) (protected p) bootstrapPeers)
    (if decide (connectedBootstrapPeersCount ≤ 2)%nat
     then foldl (λ s peerAddr, {[ai_ID peerAddr]} ∪ s) (backoffCleared p) bootstrapPeers else backoffCleared p)
    (Some (foldl (λ m peerAddr, <[peer_String (ai_ID peerAddr) := bootstrap_info r peerAddr]> m) ∅ (r_finished r))).

(** [MaintainBackgroundConnections]: the rounds that run before the context ends, each
    with the peers known at its start. *)
Definition MaintainBackgroundConnections (bootstrapPeers : list AddrInfo) (rounds : list (Round * list string)) (p : P2p) : P2p :=
  foldl (λ p '(r, peerIds), connectToKnownPeers r bootstrapPeers peerIds p) p rounds.

(** ** Reports (src/p2p/metrics.go) *)

(** [ConnectionInfo]. *)
Record ConnectionInfo := mkConnectionInfo {
  ci_Multiaddr : string; ThroughRelay : bool; RelayPeerID : string; ci_Address : string;
  ci_Protocol : string; ci_Direction : string; ci_Opened : Z; Transient : bool;
}.

Definition ip_port (addr : maddr) (c0 c1 : Z) : string :=
  JoinHostPort (default "" (ValueForProtocol addr c0)) (default "" (ValueForProtocol addr c1)).

(** [parseMultiaddrToInfo]. *)
Definition parseMultiaddrToInfo (addr : maddr) : ConnectionInfo * bool :=
  let info relay relayID address protocol := mkConnectionInfo (maddr_String addr) relay relayID address protocol "" 0 false in
  let other :=
    match ValueForProtocol addr P_CIRCUIT with
    | Some _ => (info true (default "" (ValueForProtocol addr P_P2P)) "" "", true)
    | None => (info false "" "" "", false)
    end in
  match ma_Protocols addr with
  | [(c0, _); (c1, n1)] => if decide (c1 = P_TCP) then (info false "" (ip_port addr c0 c1) n1, true) else other
  | [(c0, _); (c1, _); (c2, _)] =>
      if decide (c2 = P_QUIC ∨ c2 = P_QUIC_V1) then (info false "" (ip_port addr c0 c1) "quic", true) else other
  | _ => other
  end.

(** [PeerConnectionsInfo]: an address that cannot be parsed is still listed. *)
Definition PeerConnectionsInfo `{Unicode} (h : Host) (peerID : string) : list ConnectionInfo :=
  (λ conn, let info := (parseMultiaddrToInfo (RemoteMultiaddr conn)).1 in
    mkConnectionInfo (ci_Multiaddr info) (ThroughRelay info) (RelayPeerID info) (ci_Address info) (ci_Protocol info)
      (ToLower (conn_Direction conn)) (conn_Opened conn) (conn_Limited conn)) <$> ConnsToPeer h peerID.

(** [OpenStreamsCount]. *)
Definition OpenStreamsCount (h : Host) : Z :=
  foldl (λ count conn, i64 (count + i64 (NumStreams conn))) 0 (Conns h).

(** The body of the inner loop of [OpenStreamStats]: the inner map is shared with the
    outer one, so the increment is seen there. *)
Definition count_stream `{Unicode} (stats : gmap string (gmap string nat)) (stream : string * string) : gmap string (gmap string nat) :=
  let direction := ToLower stream.2 in
  let protocolStats := default ∅ (stats !! stream.1) in
  <[stream.1 := <[direction := S (default 0%nat (protocolStats !! direction))]> protocolStats]> stats.

(** [OpenStreamStats]. *)
Definition OpenStreamStats `{Unicode} (h : Host) : gmap string (gmap string nat) :=
  foldl (λ stats conn, foldl count_stream stats (conn_Streams conn)) ∅ (Conns h).

(** ** Starting the host *)

(** The fields of [HostConfig] that [InitHost] decides on. *)
Record HostConfig := mkHostConfig {
  PrivKeyBytes : option bytes;
  hc_ListenAddrs : list maddr;
  hc_UserAgent : string;
  hc_BootstrapPeers : list AddrInfo;
  AllowEmptyBootstrapPeers : bool;
  EnableAutoRelay : bool;
  LowWater : Z; HighWater : Z;
}.

(** What the library does for [InitHost]: keys, the connection manager, the host. *)
Record HostEnv := mkHostEnv {
  GenerateEd25519Key : option bytes;
  UnmarshalEd25519PrivateKey : bytes → option bytes;
  NewConnManager : Z → Z → bool;
  libp2p_New : bool;
}.

(** What the host is built from. *)
Record HostOptions := mkHostOptions {
  o_Identity : bytes;
  o_ListenAddrs : list maddr;
  o_UserAgent : string;
  o_BootstrapPeers : list AddrInfo;
  o_NumRelays : option Z;
}.

(** [InitHost]: the options the host is started with. [StringCast] on the addresses
    found is the text read as an address. *)
Definition InitHost (env : HostEnv) (StringCast : string → maddr) (tcp_free udp_free : nat → bool) (hc : HostConfig)
    : outcome HostOptions :=
  privKey ← match PrivKeyBytes hc with
            | None => match GenerateEd25519Key env with Some k => Ok k | None => Fail "generate key" end
            | Some raw => match UnmarshalEd25519PrivateKey env raw with Some k => Ok k | None => Fail "unmarshal key" end
            end;
  if negb (AllowEmptyBootstrapPeers hc) && bool_decide (length (hc_BootstrapPeers hc) = 0%nat)
  then Fail "zero bootstrap peers provided"
  else if negb (NewConnManager env (LowWater hc) (HighWater hc)) then Fail "new conn manager"
  else
    let listenAddrs := match hc_ListenAddrs hc with [] => StringCast <$> findListenAddrs tcp_free udp_free | l => l end in
    if negb (libp2p_New env) then Fail "libp2p"
    else Ok (mkHostOptions privKey listenAddrs (hc_UserAgent hc) (hc_BootstrapPeers hc)
               (if EnableAutoRelay hc then Some DesiredRelays else None)).
End host.

(** ** Facts *)

Section facts.
Context `{Multiaddrs} `{!MaddrParts} `{PeerCodec}.

(** A relay among the addresses whose latency was measured. *)
Definition measured (latency : string → Z) (l : list AddrDelay) (relayPID : string) : Prop :=
  latency relayPID ≠ 0 ∧ ∃ ad, ad ∈ l ∧ relay_of (ad_Addr ad) = Some relayPID.

Lemma measured_snoc latency l ad id : measured latency (l ++ [ad]) id ↔
  measured latency l id ∨ latency id ≠ 0 ∧ relay_of (ad_Addr ad) = Some id.
Proof.
  unfold measured. split.
  - intros [Hl (x & [Hx| ->%list_elem_of_singleton]%elem_of_app & Hr)]; eauto 10.
  - intros [[Hl (x & Hx & Hr)]|[Hl Hr]]; (split; [done|]); eexists; (split; [apply elem_of_app|done]); [by left|].
    right. by apply list_elem_of_singleton.
Qed.

(** The first loop finds a measured relay of least latency, if there is any. *)
Lemma closest_spec latency l :
  match foldl (closest_step latency) None l with
  | None => ∀ id, ¬ measured latency l id
  | Some (best, cl) => cl = latency best ∧ measured latency l best ∧ ∀ id, measured latency l id → latency best ≤ latency id
  end.
Proof.
  induction l as [|ad l IH] using rev_ind.
  { simpl. intros id [_ (ad & Hin & _)]. by apply elem_of_nil in Hin. }
  rewrite foldl_app. cbn [foldl]. unfold closest_step at 1.
  destruct (foldl (closest_step latency) None l) as [[best cl]|].
  - destruct IH as (-> & Hm & Hmin).
    assert ((∀ id, latency id ≠ 0 → relay_of (ad_Addr ad) = Some id → latency best ≤ latency id) →
      latency best = latency best ∧ measured latency (l ++ [ad]) best ∧
      ∀ id, measured latency (l ++ [ad]) id → latency best ≤ latency id) as Hold.
    { intros Hnew. split; [done|]. split; [apply measured_snoc; by left|].
      intros id [?|[Hl Hr]]%measured_snoc; [by apply Hmin|by apply Hnew]. }
    destruct (relay_of (ad_Addr ad)) as [id|] eqn:Er; [|by apply Hold].
    case_decide as Hl; [|apply Hold; intros; congruence].
    case_decide as Hlt; [|apply Hold; intros; simplify_eq; lia].
    split; [done|]. split; [apply measured_snoc; by right|].
    intros id' [Hm'|[_ ?]]%measured_snoc; [specialize (Hmin id' Hm'); lia|simplify_eq; lia].
  - destruct (relay_of (ad_Addr ad)) as [id|] eqn:Er.
    + case_decide as Hl.
      * split; [done|]. split; [apply measured_snoc; by right|].
        intros id' [Hm'|[_ ?]]%measured_snoc; [by destruct (IH id')|simplify_eq; lia].
      * intros id' [Hm'|[? ?]]%measured_snoc; [by destruct (IH id')|congruence].
    + intros id' [Hm'|[? ?]]%measured_snoc; [by destruct (IH id')|congruence].
Qed.

(** Latencies are non-negative 64-bit integers. *)
Definition latencies_ok (h : Host) : Prop := ∀ id, 0 ≤ LatencyEWMA h id < 2 ^ 63.

Lemma closer_64 h a b : latencies_ok h → closer 64 h a b ↔ LatencyEWMA h (ai_ID a) ≤ LatencyEWMA h (ai_ID b).
Proof.
  intros Hok. pose proof (Hok (ai_ID a)). pose proof (Hok (ai_ID b)).
  unfold closer. change (int_of 64) with i64. rewrite !(i64_small (_ - _)) by lia. lia.
Qed.

Lemma sum_removelast_nonneg l : Forall (λ n, 0 < n) l → 0 ≤ foldr Z.add 0 (removelast l).
Proof.
  intros Hl. induction Hl as [|y [|z l] Hy Hl IHl]; [done|done|].
  change (0 ≤ y + foldr Z.add 0 (removelast (z :: l))). lia.
Qed.

(** Chunks handed out until nothing is left are the candidates. *)
Lemma relay_round ns : ∀ (cands : list (list AddrInfo)) last,
  length cands = length ns → last ≠ [] →
  Forall (λ n, 0 < n) ns →
  foldr Z.add 0 (removelast ns) < Z.of_nat (length last) ≤ foldr Z.add 0 ns →
  ∃ sent, relay_calls (zip cands ns) last = Ok (sent, []) ∧ concat sent = last.
Proof.
  induction ns as [|n ns IH]; intros cands last Hlen Hne Hpos Hsum.
  { destruct last; [done|]. simpl in Hsum. lia. }
  destruct cands as [|c cands]; [done|]. apply list.Forall_cons in Hpos as [Hn Hpos].
  assert (autoRelayPeerSource c last n = Ok (take (Z.to_nat n) last, drop (Z.to_nat n) last)) as Hcall.
  { unfold autoRelayPeerSource. destruct last as [|x last]; [done|]. set (l := x :: last) in *.
    cbv zeta. destruct (decide (Z.of_nat (length l) < n)) as [Hlt|Hge]; (rewrite decide_False by lia); [|done].
    f_equal. rewrite !Nat2Z.id. rewrite !take_ge, !drop_ge by lia. done. }
  cbn [zip zip_with relay_calls]. rewrite Hcall. cbn [mbind outcome_bind].
  destruct ns as [|n' ns'].
  - destruct cands; [|done]. cbn [zip zip_with relay_calls mbind outcome_bind]. simpl in Hsum.
    rewrite (drop_ge last) by lia. eexists. split; [done|]. simpl. rewrite take_ge by lia. by rewrite app_nil_r.
  - change (removelast (n :: n' :: ns')) with (n :: removelast (n' :: ns')) in Hsum.
    set (ns := n' :: ns') in *. cbn [foldr] in Hsum.
    assert (0 ≤ foldr Z.add 0 (removelast ns)) as Hge.
    { by apply sum_removelast_nonneg. }
    destruct (IH cands (drop (Z.to_nat n) last)) as (sent & Hs & Hc).
    + by simplify_eq/=.
    + intros Hd. apply (f_equal length) in Hd. rewrite length_drop in Hd. simpl in Hd. lia.
    + done.
    + rewrite length_drop. lia.
    + rewrite Hs. cbn [mbind outcome_bind]. eexists. split; [done|]. simpl. rewrite Hc. apply take_drop.
Qed.

(** The number of streams with a protocol and a direction. *)
Definition stream_count `{Unicode} (streams : list (string * string)) (proto direction : string) : nat :=
  length (filter (λ s, s.1 = proto ∧ ToLower s.2 = direction) streams).

Lemma count_stream_lookup `{Unicode} stats s proto direction :
  default 0%nat (default ∅ (count_stream stats s !! proto) !! direction) =
  (default 0%nat (default ∅ (stats !! proto) !! direction) + (if decide (s.1 = proto ∧ ToLower s.2 = direction) then 1 else 0))%nat.
Proof.
  unfold count_stream. destruct (decide (s.1 = proto)) as [<-|Hne].
  - rewrite lookup_insert_eq. simpl. destruct (decide (ToLower s.2 = direction)) as [<-|Hd].
    + rewrite lookup_insert_eq, decide_True by done. simpl. lia.
    + rewrite lookup_insert_ne, decide_False by naive_solver. lia.
  - rewrite lookup_insert_ne, decide_False by naive_solver. lia.
Qed.

Lemma count_streams_lookup `{Unicode} streams proto direction : ∀ stats,
  default 0%nat (default ∅ (foldl count_stream stats streams !! proto) !! direction) =
  (default 0%nat (default ∅ (stats !! proto) !! direction) + stream_count streams proto direction)%nat.
Proof.
  induction streams as [|s streams IH]; intros stats; simpl; [unfold stream_count; simpl; lia|].
  rewrite IH, count_stream_lookup. unfold stream_count. rewrite filter_cons. case_decide; simpl; lia.
Qed.
End facts.

(** ** Properties *)

(** The dial ranker keeps the addresses and their order. If the latency to no relay
    among them is known it changes nothing; otherwise there is a relay of least known
    latency such that exactly the addresses through another relay are dialled half a
    second later, and every other address keeps its delay. *)
Theorem dial_ranker_prefers_closest_relay `{MaddrParts} `{PeerCodec} latency ranker addrs :
  Forall (λ ad, 0 ≤ ad_Delay ad < 2 ^ 62) (ranker addrs) →
  let before := ranker addrs in
  let after := getDialRanker latency ranker addrs in
  ad_Addr <$> after = ad_Addr <$> before ∧
  ((∀ id, ¬ measured latency before id) → after = before) ∧
  (∀ id, measured latency before id → ∃ best, measured latency before best ∧
     (∀ id', measured latency before id' → latency best ≤ latency id') ∧
     ∀ i ad, before !! i = Some ad →
       after !! i = Some (mkAddrDelay (ad_Addr ad)
         (ad_Delay ad + match relay_of (ad_Addr ad) with Some r => if decide (r = best) then 0 else 500 * 1000000 | None => 0 end))).
Proof.
  intros Hb before after. pose proof (closest_spec latency before) as Hc.
  unfold after, getDialRanker. fold before. destruct (foldl _ None before) as [[best cl]|].
  - destruct Hc as (-> & Hm & Hmin). split_and!.
    + rewrite <- list_fmap_compose. apply list_fmap_ext. intros i ad _. unfold penalise, compose.
      destruct (relay_of _); [case_decide|]; done.
    + intros Hno. by destruct (Hno best).
    + intros id _. exists best. split_and!; [done|done|]. intros i ad Hi. rewrite list_lookup_fmap, Hi. cbn [fmap option_fmap option_map].
      f_equal. eapply list.Forall_forall in Hb; [|by eapply list_elem_of_lookup_2]. simpl in Hb.
      unfold penalise. destruct ad as [addr delay]. cbn [ad_Addr ad_Delay] in *.
      destruct (relay_of addr) as [r|] eqn:Er; [destruct (decide (r ≠ best)) as [Hr|Hr]|].
      * rewrite i64_small by (unfold relayPenalty; lia). by rewrite decide_False.
      * apply dec_stable in Hr. by rewrite decide_True, Z.add_0_r.
      * by rewrite Z.add_0_r.
  - assert (penalise None <$> before = before) as Hid.
    { rewrite <- (list_fmap_id before) at 2. apply list_fmap_ext. intros i ad _. unfold penalise. by destruct (relay_of _). }
    rewrite Hid. split_and!; [done|done|]. intros id Hm. by destruct (Hc id).
Qed.

Global Instance closer_total `{MaddrParts} (h : Host) : latencies_ok h → Total (closer 64 h).
Proof. intros Hok a b. rewrite !closer_64 by done. lia. Qed.

(** With 64-bit integers the relay candidates are exactly the connected bootstrap
    peers of known latency, sorted from the closest, and the calls of one round hand
    each of them out once, in that order, whatever numbers are asked for; then the
    list is built anew. *)
Theorem relay_source_offers_each_candidate `{MaddrParts} h bootstrapPeers cands ns :
  latencies_ok h →
  let l := getAllCandidates 64 (Some h) bootstrapPeers in
  length cands = length ns → head cands = Some l → Forall (λ n, 0 < n) ns →
  foldr Z.add 0 (removelast ns) < Z.of_nat (length l) ≤ foldr Z.add 0 ns →
  l ≡ₚ filter (relay_usable h) bootstrapPeers ∧
  Sorted (λ a b, LatencyEWMA h (ai_ID a) ≤ LatencyEWMA h (ai_ID b)) l ∧
  ∃ sent, relay_calls (zip cands ns) [] = Ok (sent, []) ∧ concat sent = l.
Proof.
  intros Hok l Hlen Hhead Hpos Hsum. split; [apply merge_sort_Permutation|]. split.
  - pose proof (closer_total h Hok). eapply (Sorted_ind (λ l, Sorted (λ a b, LatencyEWMA h (ai_ID a) ≤ LatencyEWMA h (ai_ID b)) l));
      [constructor| |apply (Sorted_merge_sort (closer 64 h))].
    intros a k _ IH Hd. constructor; [done|]. destruct Hd as [|b k Hc]; constructor. by apply closer_64.
  - destruct cands as [|c cands]; simplify_eq/=. destruct ns as [|n ns]; [done|].
    destruct (decide (l = [])) as [E|Hne].
    { exfalso. rewrite E in Hsum. simpl in Hsum. inversion_clear Hpos.
      pose proof (sum_removelast_nonneg (n :: ns) ltac:(by constructor)). simpl in *. lia. }
    destruct (relay_round (n :: ns) (l :: cands) l) as (sent & Hs & Hc); [done..|].
    exists sent. split; [|done]. rewrite <- Hs. cbn [zip zip_with relay_calls].
    assert (autoRelayPeerSource l [] n = autoRelayPeerSource l l n) as ->; [|done].
    unfold autoRelayPeerSource. by destruct l.
Qed.

(** [OpenStreamStats] counts, for each protocol and direction, the open streams of
    all connections. *)
Theorem open_stream_stats_counts `{MaddrParts} `{Unicode} h proto direction :
  default 0%nat (default ∅ (OpenStreamStats h !! proto) !! direction) =
  stream_count (Conns h ≫= conn_Streams) proto direction.
Proof.
  unfold OpenStreamStats.
  assert (∀ conns stats, default 0%nat (default ∅ (foldl (λ stats conn, foldl count_stream stats (conn_Streams conn)) stats conns !! proto) !! direction) =
    (default 0%nat (default ∅ (stats !! proto) !! direction) + stream_count (conns ≫= conn_Streams) proto direction)%nat) as Hall.
  { induction conns as [|c conns IH]; intros stats; simpl; [by rewrite Nat.add_0_r|].
    rewrite IH, count_streams_lookup. unfold stream_count. rewrite list.filter_app, length_app. apply eq_sym, Nat.add_assoc. }
  rewrite Hall. rewrite lookup_empty. simpl. by rewrite lookup_empty.
Qed.

(** ** Witnesses *)

(** Addresses given by their relay, for concrete inputs: the text is the relay's ID and
    the empty text is a direct address. *)
Definition toy_maddrs : Multiaddrs := {|
  maddr := string; addr_info := string; NewMultiaddr := Some; maddr_String := id; AddrInfosFromP2pAddrs := Some |}.
Definition toy_parts : @MaddrParts toy_maddrs := @Build_MaddrParts toy_maddrs (λ _, [])
  (λ a _, if decide (a = "") then None else Some a) 6 460 461 290 421.
Definition toy_peers : PeerCodec := {| peer_Decode := Some; peer_String := id |}.
#[local] Existing Instances toy_maddrs toy_parts toy_peers.

(** A host connected to everyone, with the given latencies in milliseconds. *)
Definition toy_host (ms : string → Z) : Host :=
  mkHost (λ _, Connected) (λ id, ms id * 1000000) (λ _, []) [] (λ _, None).
Definition toy_ms (id : string) : Z := if decide (id = "near") then 100 else if decide (id = "far") then 3000 else 0.

(** Where [int] has 32 bits the difference of two latencies is truncated, and a
    relay three seconds away is offered before one a tenth of a second away. *)
Theorem relay_order_wrong_on_32_bits :
  let near := mkAddrInfo "near" [] in let far := mkAddrInfo "far" [] in
  latencies_ok (toy_host toy_ms) ∧
  getAllCandidates 64 (Some (toy_host toy_ms)) [near; far] = [near; far] ∧
  getAllCandidates 32 (Some (toy_host toy_ms)) [near; far] = [far; near].
Proof.
  split_and!; [|by vm_compute..]. intros id. simpl. unfold toy_ms. repeat case_decide; lia.
Qed.

Definition toy_addrs : list maddr := ["far"; ""; "near"].
Definition toy_ranker (l : list maddr) : list AddrDelay := (λ a, mkAddrDelay a 250) <$> l.

Lemma dial_ranker_prefers_closest_relay_witness :
  let after := getDialRanker toy_ms toy_ranker toy_addrs in
  after !! 0%nat = Some (@mkAddrDelay toy_maddrs "far" 500000250) ∧ ad_Addr <$> after = toy_addrs.
Proof.
  destruct (dial_ranker_prefers_closest_relay toy_ms toy_ranker toy_addrs) as (Ha & _ & Hm).
  { repeat constructor; simpl; lia. }
  split; [|exact Ha].
  assert (∀ id, measured toy_ms (toy_ranker toy_addrs) id → id = "far" ∨ id = "near") as Hids.
  { intros id [_ (ad & Hin & Hr)]. unfold toy_ranker, toy_addrs in Hin. cbn [fmap list_fmap] in Hin. repeat (apply elem_of_cons in Hin as [->|Hin]; [cbv in Hr; naive_solver|]). by apply elem_of_nil in Hin. }
  assert (measured toy_ms (toy_ranker toy_addrs) "near") as Hnear.
  { split; [done|]. exists (@mkAddrDelay toy_maddrs "near" 250). split; [|done]. right; right; left. }
  destruct (Hm "near" Hnear) as (best & Hbest & Hmin & Hall).
  assert (best = "near") as ->. { destruct (Hids best Hbest) as [-> | ->]; [|done]. specialize (Hmin "near" Hnear). vm_compute in Hmin. by destruct Hmin. }
  rewrite (Hall 0%nat (@mkAddrDelay toy_maddrs "far" 250) eq_refl). by vm_compute.
Defined.

Lemma relay_source_offers_each_candidate_witness :
  ∃ sent, relay_calls [([mkAddrInfo "near" []; mkAddrInfo "far" []], 1); ([], 5)] [] = Ok (sent, []) ∧
    concat sent = [mkAddrInfo "near" []; mkAddrInfo "far" []].
Proof.
  destruct (relay_source_offers_each_candidate (toy_host toy_ms) [mkAddrInfo "far" []; mkAddrInfo "" []; mkAddrInfo "near" []]
    [[mkAddrInfo "near" []; mkAddrInfo "far" []]; []] [1; 5]) as (_ & _ & Hs).
  - intros id. simpl. unfold toy_ms. repeat case_decide; lia.
  - done.
  - by vm_compute.
  - repeat constructor; lia.
  - by vm_compute.
  - exact Hs.
Defined.
