(* ===== verification/Bootstrap.v ===== *)
(** * Joining the network and opening streams (src/p2p/p2p.go)

    [Bootstrap] as the goroutines it starts: one per bootstrap peer, and one that waits
    for two of them, or for the deadline, before it opens the way for the background
    connections. An event is one step of one goroutine; a step that would block has no
    result. Also the opening of a stream on a connection of its own. *)

From S2P Require Import Prelude GoStrings Externals P2p.

(** ** Bootstrapping *)

(** The goroutine of a bootstrap peer: in [Connect], about to send on the channel, or
    returned with or without a connection. *)
Inductive dial := Dialing | Sending | Returned (ok : bool).

Global Instance dial_eq_dec : EqDecision dial.
Proof. solve_decision. Defined.

(** The goroutine that waits: the turns its loop has left, then waiting for the
    others, then done. *)
Inductive waiter := Waiting (turns : nat) | Joining | Ended.

Record Boot := mkBoot {
  b_dials : list dial;
  b_chan : nat;                 (* what successfulConnectionsCh holds *)
  b_taken : nat;                (* what was received from it *)
  b_ctx : bool;                 (* the context is done *)
  b_waiter : waiter;
  b_finished : bool;            (* dhtBootstrapFinishedChan is closed *)
}.

Definition Bootstrap `{Multiaddrs} (bootstrapPeers : list AddrInfo) : Boot :=
  mkBoot (replicate (length bootstrapPeers) Dialing) 0 0 false (Waiting (Nat.min 2 (length bootstrapPeers))) false.

Inductive boot_event :=
  | ConnectReturns (i : nat) (ok : bool)   (* host.Connect of the goroutine of peer i *)
  | SendSuccess (i : nat)                  (* its send on the channel *)
  | Deadline                               (* three seconds passed, or the daemon stops *)
  | TakeSuccess                            (* the waiter receives *)
  | TakeDone                               (* the waiter sees the context done *)
  | BootstrapDHT                           (* dht.Bootstrap, then the channel is closed *)
  | Join.                                  (* wg.Wait returns; the context is cancelled *)

Definition set_dial (s : Boot) (i : nat) (d : dial) (chan : nat) : Boot :=
  mkBoot (<[i := d]> (b_dials s)) chan (b_taken s) (b_ctx s) (b_waiter s) (b_finished s).

Definition set_waiter (s : Boot) (chan taken : nat) (w : waiter) : Boot :=
  mkBoot (b_dials s) chan taken (b_ctx s) w (b_finished s).

Definition all_returned (l : list dial) : bool := forallb (λ d, match d with Returned _ => true | _ => false end) l.

Definition boot_step (e : boot_event) (s : Boot) : option Boot :=
  match e with
  | ConnectReturns i ok =>
      match b_dials s !! i with
      | Some Dialing => Some (set_dial s i (if ok then Sending else Returned false) (b_chan s))
      | _ => None
      end
  | SendSuccess i =>
      match b_dials s !! i with
      | Some Sending => if decide (b_chan s < length (b_dials s)) then Some (set_dial s i (Returned true) (S (b_chan s))) else None
      | _ => None
      end
  | Deadline => if b_ctx s then None else Some (mkBoot (b_dials s) (b_chan s) (b_taken s) true (b_waiter s) (b_finished s))
  | TakeSuccess =>
      match b_waiter s, b_chan s with
      | Waiting (S n), S m => Some (set_waiter s m (S (b_taken s)) (Waiting n))
      | _, _ => None
      end
  | TakeDone =>
      match b_waiter s, b_ctx s with
      | Waiting (S n), true => Some (set_waiter s (b_chan s) (b_taken s) (Waiting n))
      | _, _ => None
      end
  | BootstrapDHT =>
      match b_waiter s with
      | Waiting 0 => Some (mkBoot (b_dials s) (b_chan s) (b_taken s) (b_ctx s) Joining true)
      | _ => None
      end
  | Join =>
      match b_waiter s with
      | Joining => if all_returned (b_dials s) then Some (mkBoot (b_dials s) (b_chan s) (b_taken s) true Ended (b_finished s)) else None
      | _ => None
      end
  end.

Definition boot_run : list boot_event → Boot → option Boot := run_steps boot_step.

(** The peers connected so far. *)
Definition connected_ok (l : list dial) : nat := length (filter (λ d, d = Returned true) l).

(** ** Opening a stream on a connection of its own *)

(** The connection and the stream that are open afterwards. *)
Record Opened := mkOpened { conn_open : bool; stream_open : bool }.

(** [NewStreamWithDedicatedConn]: [dial], [new_stream] and [set_protocol] are the errors
    of the steps. *)
Definition NewStreamWithDedicatedConn (dial new_stream set_protocol : option string) : outcome unit * Opened :=
  match dial with
  | Some e => (Fail ("failed to dial: " +:+ e), mkOpened false false)
  | None =>
      match new_stream with
      | Some e => (Fail ("failed to create new stream: " +:+ e), mkOpened false false)
      | None =>
          match set_protocol with
          | Some e => (Fail ("failed to set protocol to stream: " +:+ e), mkOpened true true)
          | None => (Ok tt, mkOpened true true)
          end
      end
  end.

(** ** Facts *)

(** What is left to do. *)
Definition dial_work (d : dial) : nat := match d with Dialing => 2 | Sending => 1 | Returned _ => 0 end.
Definition waiter_work (w : waiter) : nat := match w with Waiting n => 2 + n | Joining => 1 | Ended => 0 end.
Definition work (s : Boot) : nat :=
  sum_list (dial_work <$> b_dials s) + (if b_ctx s then 0 else 1) + waiter_work (b_waiter s).

(** [n] bootstrap peers: every success was received or is in the channel; while the
    context lives, a turn of the waiter is a success it received. *)
Record boot_inv (n : nat) (s : Boot) : Prop := {
  bi_length : length (b_dials s) = n;
  bi_chan : b_taken s + b_chan s = connected_ok (b_dials s);
  bi_waiter : match b_waiter s with
              | Waiting k => b_ctx s = false → b_taken s + k = Nat.min 2 n
              | Joining => b_ctx s = false → b_taken s = Nat.min 2 n
              | Ended => all_returned (b_dials s) = true
              end;
  bi_finished : b_finished s = match b_waiter s with Waiting _ => false | _ => true end;
}.

Lemma sum_list_insert l i d d' : l !! i = Some d → dial_work d' < dial_work d →
  sum_list (dial_work <$> <[i := d']> l) < sum_list (dial_work <$> l).
Proof.
  intros Hi Hd. rewrite <- (take_drop_middle l i d Hi) at 2. rewrite insert_take_drop by (apply lookup_lt_is_Some; eauto).
  rewrite !fmap_app, !fmap_cons, !sum_list_with_app. simpl. lia.
Qed.

Lemma connected_ok_insert l i d d' : l !! i = Some d → d ≠ Returned true →
  connected_ok (<[i := d']> l) = connected_ok l + (if decide (d' = Returned true) then 1 else 0).
Proof.
  intros Hi Hd. unfold connected_ok. rewrite <- (take_drop_middle l i d Hi) at 2.
  rewrite insert_take_drop by (apply lookup_lt_is_Some; eauto).
  rewrite !list.filter_app, !filter_cons, (decide_False (P := d = Returned true)) by done. rewrite !length_app.
  case_decide; simpl; lia.
Qed.

Lemma connected_ok_lt l i d : l !! i = Some d → d ≠ Returned true → connected_ok l < length l.
Proof.
  intros Hi Hd. unfold connected_ok. rewrite <- (take_drop_middle l i d Hi). rewrite list.filter_app, filter_cons, decide_False by done.
  rewrite !length_app, length_cons. pose proof (length_filter (λ d, d = Returned true) (take i l)).
  pose proof (length_filter (λ d, d = Returned true) (drop (S i) l)). lia.
Qed.

Lemma all_returned_lookup l i d : all_returned l = true → l !! i = Some d → ∃ ok, d = Returned ok.
Proof.
  intros Ha Hi. apply forallb_forall with (x := d) in Ha; [destruct d; eauto; done|].
  apply list_elem_of_In, list_elem_of_lookup. eauto.
Qed.

Lemma not_all_returned l : all_returned l = false → ∃ i d, l !! i = Some d ∧ (d = Dialing ∨ d = Sending).
Proof.
  induction l as [|d l IH]; [done|]. simpl. destruct d as [| |ok]; simpl; intros Ha; [exists 0; eauto..|].
  destruct (IH Ha) as (i & d & Hi & Hd). by exists (S i), d.
Qed.

(** A step of one dial keeps the invariant and does some of the work. *)
Lemma set_dial_inv n s i d d' chan : boot_inv n s → b_dials s !! i = Some d → dial_work d' < dial_work d →
  chan = b_chan s + (if decide (d' = Returned true) then 1 else 0) →
  boot_inv n (set_dial s i d' chan) ∧ work (set_dial s i d' chan) < work s.
Proof.
  intros [Hlen Hchan Hw Hf] Hi Hd ->. split; [|unfold work; simpl; pose proof (sum_list_insert _ _ _ _ Hi Hd); lia].
  assert (Hn : d ≠ Returned true) by (by destruct d; simpl in Hd; [..|lia]).
  split; simpl; [by rewrite length_insert| | |done].
  - rewrite (connected_ok_insert _ _ d) by done. lia.
  - destruct (b_waiter s); [done..|]. destruct (all_returned_lookup _ _ _ Hw Hi) as [ok ->]. simpl in Hd. lia.
Qed.

Ltac boot_fields := split; cbn [b_dials b_chan b_taken b_ctx b_waiter b_finished set_waiter].

Lemma boot_step_inv n e s s' : boot_inv n s → boot_step e s = Some s' → boot_inv n s' ∧ work s' < work s.
Proof.
  intros Hs. pose proof Hs as [Hlen Hchan Hw Hf]. destruct e as [i ok|i| | | | |]; simpl.
  - destruct (b_dials s !! i) as [[| |]|] eqn:Ei; [|done..]. intros [= <-]. destruct ok;
      (apply set_dial_inv with Dialing; [done|done|simpl; lia|]; rewrite decide_False by done; lia).
  - destruct (b_dials s !! i) as [[| |]|] eqn:Ei; [done| |done..]. case_decide; [|done]. intros [= <-].
    apply set_dial_inv with Sending; [done|done|simpl; lia|]. rewrite decide_True by done. lia.
  - destruct (b_ctx s) eqn:Ec; [done|]. intros [= <-]. split; [|unfold work; simpl; rewrite Ec; lia].
    boot_fields; [done|done| |done]. by destruct (b_waiter s).
  - destruct (b_waiter s) as [[|k]| |] eqn:Ew; [done| |done..]. destruct (b_chan s) as [|m] eqn:Em; [done|]. intros [= <-].
    split; [|unfold work; simpl; rewrite Ew; simpl; lia]. boot_fields; [done|lia| |done]. intros Hc. specialize (Hw Hc). lia.
  - destruct (b_waiter s) as [[|k]| |] eqn:Ew; [done| |done..]. destruct (b_ctx s) eqn:Ec; [|done]. intros [= <-].
    split; [|unfold work; simpl; rewrite Ew, Ec; simpl; lia]. boot_fields; [done|done|congruence|done].
  - destruct (b_waiter s) as [[|k]| |] eqn:Ew; [|done..]. intros [= <-].
    split; [|unfold work; simpl; rewrite Ew; simpl; lia]. boot_fields; [done|done| |done]. intros Hc. specialize (Hw Hc). lia.
  - destruct (b_waiter s) as [|  |] eqn:Ew; [done| |done]. destruct (all_returned _) eqn:Ea; [|done]. intros [= <-].
    split; [|unfold work; simpl; rewrite Ew; simpl; destruct (b_ctx s); lia]. by split.
Qed.

Lemma Bootstrap_inv `{Multiaddrs} peers : boot_inv (length peers) (Bootstrap peers).
Proof.
  split; simpl; [by rewrite length_replicate| |lia|done]. unfold connected_ok.
  induction (length peers) as [|n IH]; [done|]. simpl. by rewrite filter_cons, decide_False.
Qed.

Lemma boot_run_inv n es s s' : boot_inv n s → boot_run es s = Some s' → boot_inv n s' ∧ length es + work s' ≤ work s.
Proof.
  intros Hs Hr. split; [by eapply run_steps_inv; [intros e s1 s2 H1 H2; apply (boot_step_inv n e s1 s2 H1 H2)|..]|].
  eapply (run_steps_measure boot_step (boot_inv n) (λ _, True)); [|done|by apply list.Forall_true|done].
  intros e s1 s2 H1 _ H2. by apply (boot_step_inv n e).
Qed.

(** A goroutine that has connected never blocks on the channel. *)
Lemma send_enabled n s i : boot_inv n s → b_dials s !! i = Some Sending → is_Some (boot_step (SendSuccess i) s).
Proof.
  intros [Hlen Hchan _ _] Hi. simpl. rewrite Hi. pose proof (connected_ok_lt _ i _ Hi ltac:(done)).
  rewrite decide_True by lia. by eexists.
Qed.

Lemma boot_stuck n s : boot_inv n s → (∀ e, boot_step e s = None) →
  b_waiter s = Ended ∧ b_finished s = true ∧ all_returned (b_dials s) = true.
Proof.
  intros Hs Hstuck. pose proof Hs as [Hlen Hchan Hw Hf]. assert (Ha : all_returned (b_dials s) = true).
  { destruct (all_returned (b_dials s)) eqn:Ha; [done|]. apply not_all_returned in Ha as (i & d & Hi & [->| ->]).
    - specialize (Hstuck (ConnectReturns i false)). simpl in Hstuck. by rewrite Hi in Hstuck.
    - apply (send_enabled n s i Hs) in Hi as [s' E]. congruence. }
  pose proof (Hstuck Deadline) as Hd. pose proof (Hstuck TakeDone) as Ht. pose proof (Hstuck BootstrapDHT) as Hb.
  pose proof (Hstuck Join) as Hj. simpl in *. destruct (b_ctx s); [|done].
  destruct (b_waiter s) as [[|k]| |]; try done. by rewrite Ha in Hj.
Qed.

(** ** Properties *)

(** C38. Bootstrapping always comes to its end. However the goroutines are interleaved, a run
    takes at most [2 n + 5] steps for [n] bootstrap peers; it can stop only when the way for
    the background connections is open and every goroutine has returned (as long as
    [Connect] returns and the deadline passes); no goroutine blocks on the channel of
    successes; and the way is opened once, after two connections, or all if there are
    fewer peers, unless the deadline passed before. *)
Theorem bootstrap_finishes `{Multiaddrs} peers es s :
  boot_run es (Bootstrap peers) = Some s →
  length es ≤ 2 * length peers + 5 ∧
  ((∀ e, boot_step e s = None) → b_waiter s = Ended ∧ b_finished s = true ∧ all_returned (b_dials s) = true) ∧
  (∀ i, b_dials s !! i = Some Sending → is_Some (boot_step (SendSuccess i) s)) ∧
  (is_Some (boot_step BootstrapDHT s) →
     b_finished s = false ∧ (b_ctx s = true ∨ Nat.min 2 (length peers) ≤ connected_ok (b_dials s))).
Proof.
  intros Hr. destruct (boot_run_inv _ es _ s (Bootstrap_inv peers) Hr) as [Hs Hw]. split_and!.
  - assert (work (Bootstrap peers) ≤ 2 * length peers + 5); [|lia]. unfold work, Bootstrap. cbn [b_dials b_ctx b_waiter waiter_work].
    rewrite fmap_replicate. assert (∀ n, sum_list (replicate n (dial_work Dialing)) = 2 * n) as -> by (induction n; simpl in *; lia). lia.
  - by apply boot_stuck with (length peers).
  - intros i. by apply send_enabled with (length peers).
  - destruct Hs as [_ Hchan Hwt Hf]. cbn [boot_step]. destruct (b_waiter s) as [[|k]| |]; [|by intros [? ?]..]. intros _. split; [done|].
    destruct (b_ctx s); [by left|]. right. specialize (Hwt eq_refl). lia.
Qed.

Section toy.
#[local] Existing Instances toy_maddrs.

(** Three peers: one connection succeeds, one fails, then the deadline passes. *)
Definition three_peers : list AddrInfo := (λ id, mkAddrInfo id []) <$> ["a"; "b"; "c"].
Definition slow_run : list boot_event :=
  [ConnectReturns 0 true; ConnectReturns 1 false; SendSuccess 0; TakeSuccess; Deadline; TakeDone; BootstrapDHT; ConnectReturns 2 false; Join].

Lemma bootstrap_finishes_witness :
  ∃ s, boot_run slow_run (Bootstrap three_peers) = Some s ∧ (∀ e, boot_step e s = None) ∧ b_finished s = true.
Proof.
  eexists. split; [reflexivity|]. split.
  - intros [[|[|[|i]]] ok|[|[|[|i]]]| | | | |]; reflexivity.
  - eapply (bootstrap_finishes three_peers slow_run); [reflexivity|].
    intros [[|[|[|i]]] ok|[|[|[|i]]]| | | | |]; reflexivity.
Defined.
End toy.

(** A protocol that cannot be set leaves the connection and the stream open although the
    caller gets an error and neither of them. *)
Theorem dedicated_conn_leaks dial new_stream set_protocol err opened :
  NewStreamWithDedicatedConn dial new_stream set_protocol = (Fail err, opened) →
  conn_open opened = true ↔ dial = None ∧ new_stream = None ∧ is_Some set_protocol.
Proof. unfold NewStreamWithDedicatedConn. repeat case_match; intros ?; simplify_eq; simpl; naive_solver. Qed.
