(* ===== verification/ApiDebug.v ===== *)
(** * Debug handlers (src/api/debug.go)

    The text of the log the daemon serves and the rendering of byte counts. *)

From S2P Require Import Prelude GoStrings RingBuffer.
Local Open Scope Z_scope.

(** ** Lines *)

(** [bytes.Split] and [bytes.Join] with a one-byte separator. *)
Fixpoint bytes_Split (sep : Z) (l : bytes) : list bytes :=
  match l with
  | [] => [[]]
  | x :: l =>
      if decide (x = sep) then [] :: bytes_Split sep l
      else match bytes_Split sep l with [] => [[x]] | p :: ps => (x :: p) :: ps end
  end.

Fixpoint bytes_Join (sep : Z) (ps : list bytes) : bytes :=
  match ps with
  | [] => []
  | [p] => p
  | p :: ps => p ++ sep :: bytes_Join sep ps
  end.

Definition DefaultLineEnding : Z := 10.

(** A piece that stands for an invalid byte. *)
Definition invalid_piece (p : piece) : bool := bool_decide (p.1 = runeError ∧ length p.2 = 1%nat).

(** [utf8.Valid]. *)
Definition utf8_Valid (b : bytes) : bool := forallb (λ p, negb (invalid_piece p)) (decode_runes b).

(** [bytes.ToValidUTF8] with an empty replacement. *)
Definition ToValidUTF8 (b : bytes) : bytes :=
  concat (filter (λ p : piece, invalid_piece p = false) (decode_runes b)).*2.

(** [bytes.Trim] with a one-byte cutset. *)
Definition bytes_Trim (c : Z) (b : bytes) : bytes := trim_both (λ x, bool_decide (x = c)) b.

(** [GetLog] on a bound request: the text of the response, or the failure of the
    validation of the number of rows. *)
Definition GetLog (StartFromHead : bool) (LogsRows : Z) (logBuffer : RingBuffer) : outcome bytes :=
  if decide (LogsRows < 0) then Fail "validation"
  else
    b ← or_panic (Bytes logBuffer);
    let b := if negb (utf8_Valid b) then ToValidUTF8 b else b in
    let b := bytes_Trim DefaultLineEnding b in
    let logLines := bytes_Split DefaultLineEnding b in
    if decide (LogsRows = 0 ∨ Z.of_nat (length logLines) <= LogsRows) then Ok b
    else
      logLines ← or_panic (if StartFromHead then go_slice 0 (Z.to_nat LogsRows) logLines
                           else go_slice (length logLines - Z.to_nat LogsRows) (length logLines) logLines);
      Ok (bytes_Join DefaultLineEnding logLines).

(** ** Byte counts *)

Definition unit_IEC : Z := 1024.

(** The loop of [byteCountIEC] on 64-bit integers, with fuel. *)
Fixpoint iec_loop (fuel : nat) (n div : Z) (exp : nat) : option (Z * nat) :=
  match fuel with
  | O => None
  | S fuel => if decide (unit_IEC ≤ n) then iec_loop fuel (n `quot` unit_IEC) (i64 (div * unit_IEC)) (S exp) else Some (div, exp)
  end.

(** How a count is shown: plainly, or as a multiple of [div] with its unit letter. *)
Inductive byte_text := PlainBytes (b : Z) | Scaled (b div : Z) (letter : Ascii.ascii).

(** [byteCountIEC], up to the decimal rendering of the quotient: ten turns of the loop
    are more than a 64-bit count takes. *)
Definition byteCountIEC (b : Z) : outcome byte_text :=
  if decide (b < unit_IEC) then Ok (PlainBytes b)
  else match iec_loop 10 (b `quot` unit_IEC) unit_IEC 0 with
       | None => Fail "out of fuel"
       | Some (div, exp) => letter ← or_panic (String.list_ascii_of_string "KMGTPE" !! exp); Ok (Scaled b div letter)
       end.

(** ** Facts *)

Lemma bytes_Split_nonempty sep l : bytes_Split sep l ≠ [].
Proof. destruct l as [|x l]; simpl; [done|]. case_decide; [done|]. by destruct (bytes_Split sep l). Qed.

Lemma bytes_Split_pieces sep l : Forall (λ p, sep ∉ p) (bytes_Split sep l).
Proof.
  induction l as [|x l IH]; simpl; [repeat constructor; set_solver|].
  case_decide; [constructor; [set_solver|done]|].
  destruct (bytes_Split sep l) as [|p ps]; [repeat constructor; set_solver|].
  apply list.Forall_cons in IH as [Hp Hps]. constructor; [set_solver|done].
Qed.

Lemma bytes_Split_app sep p l : sep ∉ p → bytes_Split sep (p ++ sep :: l) = p :: bytes_Split sep l.
Proof.
  induction p as [|x p IH]; intros Hp; simpl; [by rewrite decide_True|].
  rewrite decide_False by set_solver. rewrite IH by set_solver. done.
Qed.

Lemma bytes_Split_single sep p : sep ∉ p → bytes_Split sep p = [p].
Proof.
  induction p as [|x p IH]; intros Hp; simpl; [done|].
  rewrite decide_False by set_solver. rewrite IH by set_solver. done.
Qed.

Lemma bytes_Split_Join sep ps : ps ≠ [] → Forall (λ p, sep ∉ p) ps → bytes_Split sep (bytes_Join sep ps) = ps.
Proof.
  intros Hne Hps. induction Hps as [|p ps Hp Hps IH]; [done|]. destruct ps as [|q ps].
  - simpl. by apply bytes_Split_single.
  - change (bytes_Join sep (p :: q :: ps)) with (p ++ sep :: bytes_Join sep (q :: ps)).
    rewrite bytes_Split_app by done. by rewrite IH.
Qed.

Lemma iec_loop_spec fuel : ∀ n b exp, (exp + fuel = 10)%nat → 0 ≤ b < 2 ^ 63 → n = b / 1024 ^ Z.of_nat (S exp) → 1 ≤ n →
  ∃ e, iec_loop fuel n (1024 ^ Z.of_nat (S exp)) exp = Some (1024 ^ Z.of_nat (S e), e) ∧
       1024 ^ Z.of_nat (S e) ≤ b < 1024 * 1024 ^ Z.of_nat (S e).
Proof.
  induction fuel as [|fuel IH]; intros n b exp Hf Hb Hn H1.
  { exfalso. assert (exp = 10%nat) as -> by lia. rewrite Z.div_small in Hn; [lia|]. split; [lia|].
    eapply Z.lt_trans; [apply Hb|]. by vm_compute. }
  assert (0 < 1024 ^ Z.of_nat (S exp)) as Hpos by (apply Z.pow_pos_nonneg; lia).
  set (d := 1024 ^ Z.of_nat (S exp)) in *.
  assert (d ≤ b) as Hdb.
  { subst n. destruct (Z.le_gt_cases d b); [done|]. rewrite Z.div_small in H1 by lia. lia. }
  cbn [iec_loop]. unfold unit_IEC at 1. case_decide as Hle.
  - assert (1024 ^ Z.of_nat (S (S exp)) = d * 1024) as Hd2.
    { unfold d. rewrite (Nat2Z.inj_succ (S exp)), Z.pow_succ_r by lia. lia. }
    assert (d * 1024 ≤ b) as Hdb2. { subst n. pose proof (Z.mul_div_le b d Hpos). nia. }
    unfold unit_IEC. rewrite i64_small by lia. rewrite <- Hd2.
    apply (IH (n `quot` 1024) b); [lia|done| |].
    + rewrite Z.quot_div_nonneg by lia. rewrite Hn, Hd2, Z.div_div by lia. done.
    + rewrite Z.quot_div_nonneg by lia. apply Z.div_le_lower_bound; lia.
  - exists exp. split; [done|]. split; [done|]. subst n.
    pose proof (Z.mul_succ_div_gt b d Hpos). nia.
Qed.

(** ** Properties *)

(** The log handler never panics on a buffer whose bytes can be read; it answers
    with the log reduced to valid text, without surrounding line ends, and cut to the
    asked number of lines: all of them for 0, otherwise the first or the last ones. *)
Theorem get_log_rows fromHead rows buf b :
  0 ≤ rows → Bytes buf = Some b →
  let clean := bytes_Trim DefaultLineEnding (if utf8_Valid b then b else ToValidUTF8 b) in
  let lines := bytes_Split DefaultLineEnding clean in
  ∃ out, GetLog fromHead rows buf = Ok out ∧
    bytes_Split DefaultLineEnding out =
      (if decide (rows = 0) then lines else if fromHead then take (Z.to_nat rows) lines else last_n (Z.to_nat rows) lines).
Proof.
  intros Hr Hb. unfold GetLog. rewrite decide_False by lia. rewrite Hb. cbn [or_panic mbind outcome_bind].
  assert ((if negb (utf8_Valid b) then ToValidUTF8 b else b) = (if utf8_Valid b then b else ToValidUTF8 b)) as ->.
  { by destruct (utf8_Valid b). }
  cbv zeta. set (clean := bytes_Trim _ _). set (lines := bytes_Split _ clean).
  case_decide as Hall.
  - eexists. split; [done|]. fold lines. case_decide; [done|]. destruct Hall as [|Hall]; [done|].
    destruct fromHead; [by rewrite take_ge by lia|by rewrite last_n_all by lia].
  - rewrite (decide_False (P := rows = 0)) by lia. pose proof (bytes_Split_pieces DefaultLineEnding clean) as Hp. fold lines in Hp.
    assert (∀ ls, ls ≠ [] → Forall (λ p, DefaultLineEnding ∉ p) ls → bytes_Split DefaultLineEnding (bytes_Join DefaultLineEnding ls) = ls) as Hj
      by (intros; by apply bytes_Split_Join).
    destruct fromHead.
    + rewrite go_slice_Some by lia. cbn [or_panic mbind outcome_bind]. rewrite drop_0, Nat.sub_0_r.
      eexists. split; [done|]. apply Hj; [|by apply Forall_take].
      intros E%(f_equal length). rewrite length_take in E. simpl in E. lia.
    + rewrite go_slice_Some by lia. cbn [or_panic mbind outcome_bind].
      replace (length lines - (length lines - Z.to_nat rows))%nat with (Z.to_nat rows) by lia.
      eexists. split; [done|]. unfold last_n.
      rewrite (take_ge (drop _ _)) by (rewrite length_drop; lia). apply Hj; [|by apply Forall_drop].
      intros E%(f_equal length). rewrite length_drop in E. simpl in E. lia.
Qed.

(** [byteCountIEC] returns for every 64-bit count: it never indexes past the unit
    letters, the divisor never overflows, and a count of a kibibyte or more is shown as
    a number from 1 up to, not including, 1024 of the chosen unit. *)
Theorem byte_count_iec_total b : - 2 ^ 63 ≤ b < 2 ^ 63 →
  (b < 1024 → byteCountIEC b = Ok (PlainBytes b)) ∧
  (1024 ≤ b → ∃ e letter, byteCountIEC b = Ok (Scaled b (1024 ^ Z.of_nat (S e)) letter) ∧
     (e < 6)%nat ∧ String.list_ascii_of_string "KMGTPE" !! e = Some letter ∧
     1024 ^ Z.of_nat (S e) ≤ b < 1024 * 1024 ^ Z.of_nat (S e)).
Proof.
  intros Hb. unfold byteCountIEC. change unit_IEC with 1024. split; intros H; [by rewrite decide_True|].
  rewrite decide_False by lia.
  destruct (iec_loop_spec 10 (b `quot` 1024) b 0) as (e & He & Hr); [done|lia| | |].
  { by rewrite Z.quot_div_nonneg by lia. }
  { rewrite Z.quot_div_nonneg by lia. apply Z.div_le_lower_bound; lia. }
  rewrite Z.pow_1_r in He. rewrite He.
  assert (e < 6)%nat as He6.
  { destruct (decide (e < 6)%nat); [done|]. exfalso.
    assert (1024 ^ 7 ≤ 1024 ^ Z.of_nat (S e)) by (apply Z.pow_le_mono_r; lia).
    assert (2 ^ 63 < 1024 ^ 7) by by vm_compute. lia. }
  destruct (lookup_lt_is_Some_2 (String.list_ascii_of_string "KMGTPE") e) as [letter Hl]; [done|].
  exists e, letter. rewrite Hl. done.
Qed.

(** ** Witnesses *)

Definition sample_log : RingBuffer :=
  default (New 0) (snd <$> Write [10; 97; 10; 98; 255; 10; 99; 10] (New 16)).

Lemma get_log_rows_witness : ∃ out, GetLog false 2 sample_log = Ok out ∧ bytes_Split 10 out = [[98]; [99]].
Proof.
  destruct (get_log_rows false 2 sample_log [10; 97; 10; 98; 255; 10; 99; 10]) as (out & Ho & Hs); [lia|by vm_compute|].
  exists out. split; [exact Ho|]. unfold DefaultLineEnding in Hs. rewrite Hs. by vm_compute.
Defined.

Lemma byte_count_iec_total_witness : ∃ e letter, byteCountIEC (2 ^ 63 - 1) = Ok (Scaled (2 ^ 63 - 1) (1024 ^ Z.of_nat (S e)) letter).
Proof.
  destruct (byte_count_iec_total (2 ^ 63 - 1)) as [_ Hbig]; [lia|].
  destruct Hbig as (e & letter & He & _); [lia|]. exists e, letter. exact He.
Defined.
