(* ===== verification/Logging.v ===== *)
(** * Logging (src/application.go, src/config/config.go)

    The level of each logger and the way of a log entry: to the standard output and to
    the ring buffer the log handler of the API reads. *)

From S2P Require Import Prelude GoStrings Config RingBuffer ApiDebug.
From Stdlib Require String.

(** zap and go-log: levels with their texts, whether an entry of a logger passes the core
    and the level of the logger, and the text of an entry. *)
Class ZapLib := {
  Level : Type;
  DebugLevel : Level;
  InfoLevel : Level;
  WarnLevel : Level;
  Level_Set : string → option Level;
  passes : Level → Level → Level → bool;
  encode_entry : string → Level → string → bytes;
}.

(** The level text that stands for debugging is known. *)
Class ZapLaws `{ZapLib} := { Level_Set_debug : Level_Set "debug" = Some DebugLevel }.

Definition logBufSize : nat := Z.to_nat (Z.shiftl 1 20).
#[local] Opaque logBufSize.

Section logging.
Context `{ZapLib}.

(** [LogLevel]: [Set] leaves the level alone when it does not know the text. *)
Definition LogLevel (c : Config) : Level :=
  let level := if decide (LoggerLevel c = "dev") then "debug" else LoggerLevel c in
  default InfoLevel (Level_Set level).

(** The level of a logger by its name, the function given to [SetupLogging]. *)
Definition logger_level (c : Config) (name : string) : Level :=
  let lvl := LogLevel c in
  if HasPrefix name "awl" then lvl
  else if bool_decide (name = "swarm2" ∨ name = "relay" ∨ name = "connmgr" ∨ name = "autonat") then WarnLevel
  else InfoLevel.

Record Entry := mkEntry { en_name : string; en_level : Level; en_text : string }.

(** Where the entries go: the standard output and [LogBuffer]. *)
Record LogSink := mkLogSink { stdout : bytes; LogBuffer : RingBuffer }.
Definition new_sink : LogSink := mkLogSink [] (New logBufSize).

Definition entry_passes (c : Config) (e : Entry) : bool := passes InfoLevel (logger_level c (en_name e)) (en_level e).
Definition entry_text (e : Entry) : bytes := encode_entry (en_name e) (en_level e) (en_text e).

(** One entry through the core: both writers of the multi syncer get it. *)
Definition log_entry (c : Config) (e : Entry) (s : LogSink) : option LogSink :=
  if entry_passes c e
  then '(_, buf) ← Write (entry_text e) (LogBuffer s); Some (mkLogSink (stdout s ++ entry_text e) buf)
  else Some s.

Definition log_entries (c : Config) : list Entry → LogSink → option LogSink := run_steps (log_entry c).

(** The bytes of the entries that pass. *)
Definition logged (c : Config) (es : list Entry) : bytes := concat (entry_text <$> filter (λ e, entry_passes c e = true) es).

(** ** Facts *)

(** The level of the program's own loggers is the configured one, debugging in the
    development mode and informational when the text is no level; the chatty loggers of
    the network stack only warn, whatever is configured. *)
Theorem logger_levels `{!ZapLaws} c name :
  (HasPrefix name "awl" = true → LoggerLevel c = "dev" → logger_level c name = DebugLevel) ∧
  (HasPrefix name "awl" = true → LoggerLevel c ≠ "dev" → logger_level c name = default InfoLevel (Level_Set (LoggerLevel c))) ∧
  (name ∈ ["swarm2"; "relay"; "connmgr"; "autonat"] → logger_level c name = WarnLevel) ∧
  (HasPrefix name "awl" = false → name ∉ ["swarm2"; "relay"; "connmgr"; "autonat"] → logger_level c name = InfoLevel).
Proof.
  unfold logger_level, LogLevel. split_and!.
  - intros -> ->. by rewrite decide_True, Level_Set_debug.
  - intros -> Hd. by rewrite decide_False.
  - rewrite !elem_of_cons. by intros [->|[->|[->|[->|?%elem_of_nil]]]].
  - rewrite !not_elem_of_cons. intros -> (? & ? & ? & ? & _). rewrite bool_decide_eq_false_2 by naive_solver. done.
Qed.

Lemma rb_size_New n : rb_size (New n) = n.
Proof. done. Qed.

Lemma Write_small log p r : represents log r → (10 * length p ≤ 3 * rb_size r)%nat →
  ∃ r', Write p r = Some (length p, r') ∧ rb_size r' = rb_size r ∧ represents (log ++ p) r'.
Proof.
  intros Hr Hp. destruct (Write_represents log p r Hr) as (n & r' & E & Hs & Hr').
  destruct (ring_write_small_chunk_complete p r) as (r2 & E2 & _); [apply Hr|done|].
  rewrite E in E2. injection E2 as -> ->. exists r2. by rewrite firstn_all in Hr'.
Qed.

Lemma log_entries_represent c es : ∀ s log, represents log (LogBuffer s) → rb_size (LogBuffer s) = logBufSize →
  Forall (λ e, 10 * length (entry_text e) ≤ 3 * logBufSize)%nat es →
  ∃ s', log_entries c es s = Some s' ∧ stdout s' = stdout s ++ logged c es ∧ represents (log ++ logged c es) (LogBuffer s') ∧ rb_size (LogBuffer s') = logBufSize.
Proof.
  unfold logged. induction es as [|e es IH]; intros s log Hr Hs Hsmall; [exists s; by rewrite !app_nil_r|].
  apply list.Forall_cons in Hsmall as [He Hes]. rewrite filter_cons.
  destruct (decide (entry_passes c e = true)) as [Ep|Ep].
  - destruct (Write_small log (entry_text e) (LogBuffer s)) as (r' & E & Hs' & Hr'); [done|by rewrite Hs|].
    destruct (IH (mkLogSink (stdout s ++ entry_text e) r') (log ++ entry_text e)) as (s' & E' & Ho & Hb & Hz); [done|exact (eq_trans Hs' Hs)|done|].
    exists s'. cbn [fmap list_fmap concat]. split_and!; [|rewrite Ho; cbn [stdout]; by rewrite <- app_assoc|by rewrite app_assoc|done].
    apply run_steps_cons. eexists. split; [|exact E']. unfold log_entry. by rewrite Ep, E.
  - destruct (IH s log) as (s' & E' & Ho & Hb & Hz); [done|done|done|]. exists s'. split_and!; [|done|done|done].
    apply run_steps_cons. exists s. split; [|exact E']. unfold log_entry. by destruct (entry_passes c e).
Qed.
End logging.

(** What the log handler serves: after any entries, none of them longer than three tenths
    of the buffer, the buffer holds the last bytes of what also went to the standard
    output, which is every entry that passes, in order; and the handler answers with the
    last lines of that text. *)
Theorem log_reaches_handler `{ZapLib} c es rows :
  Forall (λ e, 10 * length (entry_text e) ≤ 3 * logBufSize)%nat es → (0 ≤ rows)%Z →
  ∃ s out, log_entries c es new_sink = Some s ∧ stdout s = logged c es ∧
    Bytes (LogBuffer s) = Some (last_n logBufSize (logged c es)) ∧
    GetLog false rows (LogBuffer s) = Ok out ∧
    let text := last_n logBufSize (logged c es) in
    let lines := bytes_Split DefaultLineEnding (bytes_Trim DefaultLineEnding (if utf8_Valid text then text else ToValidUTF8 text)) in
    bytes_Split DefaultLineEnding out = if decide (rows = 0%Z) then lines else last_n (Z.to_nat rows) lines.
Proof.
  intros Hsmall Hrows. destruct (log_entries_represent c es new_sink [] (New_represents logBufSize) (rb_size_New logBufSize) Hsmall) as (s & E & Ho & Hr & Hs).
  pose proof (Bytes_represents _ _ Hr) as Hb. rewrite Hs in Hb. cbn [app] in Hb, Ho.
  destruct (get_log_rows false rows (LogBuffer s) _ Hrows Hb) as (out & Eo & El). by exists s, out.
Qed.
