(* ===== verification/Api.v ===== *)
(** * The HTTP handlers (src/api/peers.go, src/api/settings.go, src/entity/api.go)

    Each handler as a function from the bound request and the state of the daemon to
    the response and the new state. Binding a request and rendering a response are the
    web framework's; the goroutines the handlers start are separate definitions of
    [AuthStatus]. *)

From S2P Require Import Prelude GoStrings GoNet Externals Config NetworkAddr AwlDns.
From S2P Require Import Protocol AuthStatus Socks5 P2p.
From Stdlib Require String.
Local Open Scope Z_scope.

(** go-playground/validator: the tag [ipv4] and the text of an error, from the fields
    that fail. *)
Class Validator := {
  ipv4_tag : string → bool;
  validation_text : list string → string;
}.

(** [ipv4] accepts what [net.ParseIP] reads as an IPv4 address. *)
Class ValidatorLaws `{Validator} := {
  ipv4_tag_spec : ∀ s, ipv4_tag s = true → To4 (ParseIP s) ≠ [];
}.

(** ** Requests and responses (src/entity/api.go) *)

Record FriendRequest := mkFriendRequest { fr_PeerID : string; fr_Alias : string; fr_IPAddr : string }.
Record FriendRequestReply := mkFriendRequestReply { frr_PeerID : string; frr_Alias : string; frr_Decline : bool; frr_IPAddr : string }.
Record PeerIDRequest := mkPeerIDRequest { pir_PeerID : string }.
Record UpdatePeerSettingsRequest := mkUpdatePeerSettingsRequest {
  ups_PeerID : string; ups_Alias : string; ups_DomainName : string; ups_IPAddr : string; ups_AllowUsingAsExitNode : bool }.
Record UpdateMySettingsRequest := mkUpdateMySettingsRequest { ums_Name : string }.
Record UpdateProxySettingsRequest := mkUpdateProxySettingsRequest { upr_UsingPeerID : string }.
Record AuthRequest := mkAuthRequest { ar_PeerID : string; ar_AuthPeer : AuthPeer; SuggestedIP : string }.

Inductive Response (A : Type) :=
  | JSONError (status : Z) (message : string)
  | JSON (a : A)
  | NoContent.
Arguments JSONError {A}.
Arguments JSON {A}.
Arguments NoContent {A}.

Definition StatusBadRequest : Z := 400.
Definition StatusNotFound : Z := 404.

(** A response that reports success. *)
Definition ok_response {A} (r : Response A) : bool := match r with JSONError _ _ => false | _ => true end.

(** ** Sorting *)

(** [sort.SliceStable]: every element moves left past the elements it is less than.
    The sorted order that keeps equal elements in place is unique, so the algorithm
    does not matter. *)
Fixpoint insert_back {A} (less : A → A → bool) (x : A) (rev : list A) : list A :=
  match rev with
  | [] => [x]
  | y :: rev' => if less x y then y :: insert_back less x rev' else x :: rev
  end.
Definition SliceStable {A} (less : A → A → bool) (l : list A) : list A :=
  reverse (foldl (λ rev x, insert_back less x rev) [] l).

(** [sort.Strings]. *)
Definition str_le (a b : string) : Prop := String.compare a b ≠ Gt.
Global Instance str_le_dec : RelDecision str_le.
Proof. intros a b. unfold str_le. apply _. Defined.
Definition sort_Strings (l : list string) : list string := merge_sort str_le l.

(** ** Validation (src/api/api.go) *)

Section handlers.
Context `{PeerCodec} `{Unicode} `{Validator} `{DnsLib}.

Definition required (s : string) : bool := bool_decide (s ≠ "").

(** [validateTrimmedStringNotEmpty]. *)
Definition validateTrimmedStringNotEmpty (s : string) : bool := bool_decide (TrimSpace s ≠ "").

Definition name_field (s : string) : bool := required s && validateTrimmedStringNotEmpty s.
Definition optional_ipv4 (s : string) : bool := bool_decide (s = "") || ipv4_tag s.

(** [Validate]: the text of the error, if a field fails. *)
Definition Validate (fields : list (string * bool)) : option string :=
  match filter (λ f, f.2 = false) fields with
  | [] => None
  | failed => Some (validation_text failed.*1)
  end.

Definition FriendRequest_fields (r : FriendRequest) : list (string * bool) :=
  [("PeerID", required (fr_PeerID r)); ("Alias", name_field (fr_Alias r)); ("IPAddr", optional_ipv4 (fr_IPAddr r))].
Definition FriendRequestReply_fields (r : FriendRequestReply) : list (string * bool) :=
  [("PeerID", required (frr_PeerID r)); ("Alias", name_field (frr_Alias r)); ("IPAddr", optional_ipv4 (frr_IPAddr r))].
Definition PeerIDRequest_fields (r : PeerIDRequest) : list (string * bool) := [("PeerID", required (pir_PeerID r))].
Definition UpdatePeerSettingsRequest_fields (r : UpdatePeerSettingsRequest) : list (string * bool) :=
  [("PeerID", required (ups_PeerID r)); ("Alias", name_field (ups_Alias r)); ("DomainName", name_field (ups_DomainName r));
   ("IPAddr", required (ups_IPAddr r) && ipv4_tag (ups_IPAddr r))].

(** The prologue of every handler: a request that cannot be bound ([inl]) or fails
    validation is answered with status 400. *)
Definition bound {R A : Type} (fields : R → list (string * bool)) (bind : string + R) (a : Auth)
    (body : R → outcome (Response A * Auth)) : outcome (Response A * Auth) :=
  match bind with
  | inl err => Ok (JSONError StatusBadRequest err, a)
  | inr req =>
      match Validate (fields req) with
      | Some err => Ok (JSONError StatusBadRequest err, a)
      | None => body req
      end
  end.

Definition invalidPeerID : string := "Invalid hex-encoded multihash representing of a peer ID".
Definition ErrorPeerAliasIsNotUniq : string := "peer name is not unique".

(** ** Peers (src/api/peers.go) *)

(** [GetKnownPeerSettings]. *)
Definition GetKnownPeerSettings (bind : string + PeerIDRequest) (a : Auth) : outcome (Response KnownPeer * Auth) :=
  bound PeerIDRequest_fields bind a (λ req,
    let '(knownPeer, exists_) := GetPeer (pir_PeerID req) (a_conf a) in
    if negb exists_ then Ok (JSONError StatusNotFound "peer not found", a) else Ok (JSON knownPeer, a)).

(** The peer [UpdatePeerSettings] stores. *)
Definition with_settings (p : KnownPeer) (alias domainName ipAddr : string) (allow : bool) : KnownPeer :=
  mkKnownPeer (kp_PeerID p) (kp_Name p) alias ipAddr domainName (kp_CreatedAt p) (kp_LastSeen p) (kp_Confirmed p)
    (kp_Declined p) allow (kp_AllowedUsingAsExitNode p) (kp_ReportedUsingPeerID p).

(** [UpdatePeerSettings]. The peer is read before the configuration is locked: [mid1]
    is what others do to the configuration before the alias is checked, [mid2] what
    they do before the lock is taken. *)
Definition UpdatePeerSettings (mid1 mid2 : Store → Store) (bind : string + UpdatePeerSettingsRequest) (a : Auth)
    : outcome (Response unit * Auth) :=
  bound UpdatePeerSettingsRequest_fields bind a (λ req,
    if negb (IsValidDomainName (ups_DomainName req)) then Ok (JSONError StatusBadRequest "invalid domain name", a)
    else
      let '(knownPeer, exists_) := GetPeer (ups_PeerID req) (a_conf a) in
      if negb exists_ then Ok (JSONError StatusNotFound "peer not found", a)
      else
        let alias := TrimSpace (ups_Alias req) in
        let a := with_store a (mid1 (a_store a)) in
        if negb (IsUniqPeerAlias (ups_PeerID req) alias (a_conf a)) then Ok (JSONError StatusBadRequest ErrorPeerAliasIsNotUniq, a)
        else
          let a := with_store a (mid2 (a_store a)) in
          match CheckIPUnique (ups_IPAddr req) (kp_PeerID knownPeer) (a_conf a) with
          | Panic => Panic
          | Fail err => Ok (JSONError StatusBadRequest err, a)
          | Ok _ =>
              let knownPeer := with_settings knownPeer alias (ups_DomainName req) (ups_IPAddr req) (ups_AllowUsingAsExitNode req) in
              Ok (NoContent, with_store a (UpsertPeerUnlocked knownPeer (a_store a)))
          end).

(** The answer to a call of [AddPeer]. *)
Definition add_response (r : outcome Auth) (a : Auth) : outcome (Response unit * Auth) :=
  match r with
  | Ok a => Ok (NoContent, a)
  | Fail err => Ok (JSONError StatusBadRequest err, a)
  | Panic => Panic
  end.

(** [SendFriendRequest]. *)
Definition SendFriendRequest (now : time) (bind : string + FriendRequest) (a : Auth) : outcome (Response unit * Auth) :=
  bound FriendRequest_fields bind a (λ req,
    match peer_Decode (fr_PeerID req) with
    | None => Ok (JSONError StatusBadRequest invalidPeerID, a)
    | Some peerId =>
        if decide (fr_PeerID req = PeerID (P2pNode (a_conf a))) then Ok (JSONError StatusBadRequest "You can't add yourself", a)
        else add_response (AddPeer now peerId "" (fr_Alias req) false (fr_IPAddr req) a) a
    end).

(** [AcceptFriend]: [es] is the order of the loop over the ingoing requests; [ex] and
    [mid] are those of the exchange [BlockPeer] starts. *)
Definition AcceptFriend (now : time) (es : list (string * AuthPeer)) (ex : Exchange PeerStatusInfo) (mid : Store → Store)
    (bind : string + FriendRequestReply) (a : Auth) : outcome (Response unit * Auth) :=
  bound FriendRequestReply_fields bind a (λ req,
    match peer_Decode (frr_PeerID req) with
    | None => Ok (JSONError StatusBadRequest invalidPeerID, a)
    | Some peerId =>
        if decide (frr_PeerID req = PeerID (P2pNode (a_conf a))) then Ok (JSONError StatusBadRequest "You can't add yourself", a)
        else match GetIngoingAuthRequests es !! frr_PeerID req with
             | None => Ok (JSONError StatusBadRequest "Peer did not send you friend request", a)
             | Some auth =>
                 if frr_Decline req then Ok (NoContent, (BlockPeer now peerId (ap_Name auth) ex mid a).2)
                 else add_response (AddPeer now peerId (ap_Name auth) (frr_Alias req) true (frr_IPAddr req) a) a
             end
    end).

(** The loop of [GetAuthRequests]. *)
Fixpoint suggest (requests : gmap string AuthPeer) (peerIDs generatedIPs : list string) (c : Config) : outcome (list AuthRequest) :=
  match peerIDs with
  | [] => Ok []
  | peerID :: peerIDs =>
      let req := default (mkAuthPeer "") (requests !! peerID) in
      suggestedIP ← GenerateNextIpAddrExcept generatedIPs c;
      rest ← suggest requests peerIDs (generatedIPs ++ [suggestedIP]) c;
      Ok (mkAuthRequest peerID req suggestedIP :: rest)
  end.

(** [GetAuthRequests]: [es] and [ids] are the orders of the loops over the requests and
    over the map they are copied to. *)
Definition GetAuthRequests (es : list (string * AuthPeer)) (ids : list string) (a : Auth) : outcome (list AuthRequest) :=
  suggest (GetIngoingAuthRequests es) (sort_Strings ids) [] (a_conf a).

(** [RemovePeer]: the protection of the connection manager is part of the state. *)
Definition Handler_RemovePeer (now : time) (ex : Exchange PeerStatusInfo) (mid : Store → Store) (bind : string + PeerIDRequest)
    (p : P2p) (a : Auth) : Response unit * P2p * Auth :=
  match bind with
  | inl err => (JSONError StatusBadRequest err, p, a)
  | inr req =>
      match Validate (PeerIDRequest_fields req) with
      | Some err => (JSONError StatusBadRequest err, p, a)
      | None =>
          match peer_Decode (pir_PeerID req) with
          | None => (JSONError StatusBadRequest invalidPeerID, p, a)
          | Some peerId =>
              let '(knownPeer, exists_, s) := RemovePeer (pir_PeerID req) (a_store a) in
              let a := with_store a s in
              if negb exists_ then (JSONError StatusNotFound "peer not found", p, a)
              else (NoContent, UnprotectPeer peerId p, (BlockPeer now peerId (DisplayName knownPeer) ex mid a).2)
          end
      end
  end.

(** [GetBlockedPeers], for the order of the loop: the latest first. *)
Definition GetBlockedPeers (blocked : list BlockedPeer) : list BlockedPeer :=
  SliceStable (λ x y, bool_decide (bp_CreatedAt y < bp_CreatedAt x)) blocked.

(** [KnownPeersResponse], without the network statistics. *)
Record KnownPeersResponse := mkKnownPeersResponse {
  kpr_PeerID : string; kpr_Name : string; kpr_DisplayName : string; kpr_Alias : string; kpr_Version : string;
  kpr_IpAddr : string; kpr_DomainName : string; kpr_Connected : bool; kpr_Confirmed : bool; kpr_Declined : bool;
  kpr_WeAllowUsingAsExitNode : bool; kpr_AllowedUsingAsExitNode : bool; kpr_ReportedUsingPeerID : string;
  kpr_ReportedUsingPeerName : string; kpr_LastSeen : time; kpr_Connections : list ConnectionInfo; kpr_Ping : Z;
}.

(** One peer of [getKnownPeers]. *)
Definition known_peer_response `{MaddrParts} (h : Host) (c : Config) (peerID : string) : KnownPeersResponse :=
  let knownPeer := (GetPeer peerID c).1 in
  let id := PeerId knownPeer in
  let reportedUsingPeerID := kp_ReportedUsingPeerID knownPeer in
  let reportedUsingPeerName :=
    if decide (reportedUsingPeerID ≠ "") then
      let '(p, ok) := GetPeer reportedUsingPeerID c in if ok then DisplayName p else ""
    else "" in
  mkKnownPeersResponse peerID (DisplayName knownPeer) (DisplayName knownPeer) (kp_Alias knownPeer)
    (VersionFromUserAgent (PeerUserAgent h id)) (kp_IPAddr knownPeer) (kp_DomainName knownPeer) (IsConnected h id)
    (kp_Confirmed knownPeer) (kp_Declined knownPeer) (kp_WeAllowUsingAsExitNode knownPeer)
    (kp_AllowedUsingAsExitNode knownPeer) reportedUsingPeerID reportedUsingPeerName (kp_LastSeen knownPeer)
    (PeerConnectionsInfo h id) (LatencyEWMA h id).

(** [getKnownPeers]: [ids] is the order of the loop over the known peers; they are read
    again from [c], the configuration after the lock was released. *)
Definition getKnownPeers `{MaddrParts} (h : Host) (ids : list string) (c : Config) : list KnownPeersResponse :=
  SliceStable (λ x y, kpr_Connected x && negb (kpr_Connected y)) (known_peer_response h c <$> sort_Strings ids).

(** ** Settings (src/api/settings.go) *)

(** [UpdateMySettings]. *)
Definition UpdateMySettings (bind : string + UpdateMySettingsRequest) (a : Auth) : outcome (Response unit * Auth) :=
  bound (λ _, []) bind a (λ req,
    let rename c := let p := P2pNode c in
      with_P2pNode c (mkP2pNodeConfig (PeerID p) (ums_Name req) (Identity p) (BootstrapPeers p)
        (IgnoreDefaultBootstrapPeers p) (ListenAddresses p) (ReconnectionIntervalSec p)
        (AutoAcceptAuthRequests p) (UseDedicatedConnForEachStream p) (ParallelSendingStreamsCount p)) in
    Ok (NoContent, with_store a (Save (update_conf rename (a_store a))))).

(** [UpdateProxySettings]. *)
Definition UpdateProxySettings (bind : string + UpdateProxySettingsRequest) (a : Auth) : outcome (Response unit * Auth) :=
  bound (λ _, []) bind a (λ req,
    let '(peer, ok) := GetPeer (upr_UsingPeerID req) (a_conf a) in
    let set := Ok (NoContent, with_store a (SetProxyPeerID (upr_UsingPeerID req) (a_store a))) in
    if decide (upr_UsingPeerID req = "") then set
    else if negb ok then Ok (JSONError StatusNotFound "peer not found", a)
    else if negb (kp_AllowedUsingAsExitNode peer) then Ok (JSONError StatusBadRequest "peer doesn't allow using as exit node", a)
    else set).
End handlers.

(** ** Facts *)

Lemma Validate_None `{Validator} fields : Validate fields = None ↔ Forall (λ f, f.2 = true) fields.
Proof.
  unfold Validate. induction fields as [|[n []] fields IH]; [by repeat constructor| |].
  - rewrite filter_cons_False by done. rewrite IH, list.Forall_cons. naive_solver.
  - rewrite filter_cons_True by done. rewrite list.Forall_cons. naive_solver.
Qed.

Lemma bound_Ok `{Validator} {R A} (fields : R → list (string * bool)) bind a (body : R → outcome (Response A * Auth)) r a' :
  bound fields bind a body = Ok (r, a') →
  (ok_response r = false ∧ a' = a) ∨
  ∃ req, bind = inr req ∧ Forall (λ f, f.2 = true) (fields req) ∧ body req = Ok (r, a').
Proof.
  unfold bound. destruct bind as [e|req]; [intros [= <- <-]; auto|].
  destruct (Validate (fields req)) eqn:Ev; [intros [= <- <-]; auto|].
  apply Validate_None in Ev. eauto.
Qed.

Lemma add_response_Ok r a r' a' : add_response r a = Ok (r', a') →
  (ok_response r' = false ∧ a' = a) ∨ (r' = NoContent ∧ r = Ok a').
Proof. destruct r; simpl; naive_solver. Qed.

(** No two peers have the same address; no two have the same text as their address. *)
Definition addresses_unique (c : Config) : Prop :=
  ∀ k1 p1 k2 p2, KnownPeers c !! k1 = Some p1 → KnownPeers c !! k2 = Some p2 →
    addr_of (kp_IPAddr p1) = addr_of (kp_IPAddr p2) → k1 = k2.
Definition address_texts_unique (c : Config) : Prop :=
  ∀ k1 p1 k2 p2, KnownPeers c !! k1 = Some p1 → KnownPeers c !! k2 = Some p2 → kp_IPAddr p1 = kp_IPAddr p2 → k1 = k2.
Definition all_dotted (c : Config) : Prop := ∀ k p, KnownPeers c !! k = Some p → dotted (kp_IPAddr p).

(** What [AddPeer] does to the known peers. *)
Lemma AddPeer_known `{PeerCodec} `{Unicode} now peerID name alias confirmed ipAddr a a' :
  AddPeer now peerID name alias confirmed ipAddr a = Ok a' →
  ∃ ip, KnownPeers (a_conf a) !! peer_String peerID = None ∧
    KnownPeers (a_conf a') = <[peer_String peerID := new_peer now (peer_String peerID) name (TrimSpace alias) ip confirmed]>
                               (KnownPeers (a_conf a)).
Proof.
  unfold AddPeer, GetPeer. destruct (KnownPeers (a_conf a) !! peer_String peerID); [done|].
  destruct (IsUniqPeerAlias _ _ _); [|done]. cbn [negb].
  intros (ip & _ & [= <-])%outcome_bind_Ok. exists ip. split; [done|]. unfold a_conf at 1. simpl.
  unfold RemoveBlockedPeer, GetBlockedPeer. fold (a_conf a). by destruct (BlockedPeers (a_conf a) !! peer_String peerID).
Qed.

(** [BlockPeer] only adds the blocked peer and drops its request: it never acts on the
    answer of a peer it just blocked. *)
Lemma BlockPeer_store `{PeerCodec} `{Unicode} now peerID name ex mid a :
  let a' := (BlockPeer now peerID name ex mid a).2 in
  a_conf a' = conf (UpsertBlockedPeer now (peer_String peerID) name (a_store a)) ∧
  ingoingAuths a' = delete peerID (ingoingAuths a).
Proof.
  unfold BlockPeer, ExchangeNewStatusInfo, a_conf.
  assert (∀ s, snd (GetBlockedPeer (peer_String peerID) (conf (UpsertBlockedPeer now (peer_String peerID) name s))) = true) as Hb.
  { intros s. unfold UpsertBlockedPeer. destruct (GetBlockedPeer (peer_String peerID) (conf s)). unfold GetBlockedPeer. simpl.
    by rewrite lookup_insert_eq. }
  destruct (ex_connect ex); [|done]. destruct (ex_stream ex); [|done]. cbn [negb].
  unfold a_conf. cbn [a_store with_ingoing with_store].
  specialize (Hb (a_store a)). destruct (GetBlockedPeer _ _) as [bp b]. simpl in Hb. subst b.
  destruct (ex_send ex); [|done]. cbn [negb]. by destruct (ex_answer ex).
Qed.

Lemma UpsertBlockedPeer_conf now k name s :
  KnownPeers (conf (UpsertBlockedPeer now k name s)) = KnownPeers (conf s) ∧
  SOCKS5 (conf (UpsertBlockedPeer now k name s)) = SOCKS5 (conf s) ∧
  ∃ bp, BlockedPeers (conf (UpsertBlockedPeer now k name s)) = <[k := bp]> (BlockedPeers (conf s)) ∧ bp_PeerID bp = k.
Proof.
  unfold UpsertBlockedPeer. destruct (GetBlockedPeer k (conf s)). simpl. split_and!; [done|done|].
  eexists. by split.
Qed.

(** An entry of the copied requests is a request that came in. *)
Lemma GetIngoingAuthRequests_Some `{PeerCodec} (m : gmap string AuthPeer) es t auth :
  ranges m es → GetIngoingAuthRequests es !! t = Some auth → ∃ id, m !! id = Some auth ∧ peer_String id = t.
Proof.
  intros Hr. unfold GetIngoingAuthRequests.
  assert (∀ l (acc : gmap string AuthPeer), foldl (λ result e, <[peer_String e.1 := e.2]> result) acc l !! t = Some auth →
    acc !! t = Some auth ∨ ∃ id, (id, auth) ∈ l ∧ peer_String id = t) as Hfold.
  { induction l as [|[id x] l IH]; intros acc Hl; simpl in Hl; [by left|].
    apply IH in Hl as [Hl|(id' & Hin & Ht)]; [|right; exists id'; split; [by right|done]].
    destruct (decide (peer_String id = t)) as [<-|Hne].
    - rewrite lookup_insert_eq in Hl. simplify_eq. right. exists id. split; [left|done].
    - rewrite lookup_insert_ne in Hl by done. by left. }
  intros [Hl|(id & Hin & Ht)]%Hfold; [by rewrite lookup_empty in Hl|].
  exists id. split; [|done]. by apply (ranges_elem m es) in Hin.
Qed.

Lemma CheckIPUnique_Ok ip except c : CheckIPUnique ip except c = Ok tt →
  ∀ k p, KnownPeers c !! k = Some p → kp_IPAddr p = ip → kp_PeerID p = except.
Proof.
  unfold CheckIPUnique. destruct (ParseAddr ip); [|done]. intros (i & _ & Hc)%outcome_bind_Ok k p Hp Hip.
  destruct (Contains _ _); [|done]. destruct (existsb _ _) eqn:Ex; [done|].
  destruct (decide (kp_PeerID p = except)) as [|Hne]; [done|].
  exfalso. apply not_true_iff_false in Ex. apply Ex, existsb_exists. exists p.
  split; [apply list_elem_of_In, known_list_elem; eauto|]. unfold ip_taken.
  rewrite bool_decide_eq_true_2 by done. by rewrite bool_decide_eq_false_2 by naive_solver.
Qed.

(** Replacing one peer by one whose field differs from that of all others keeps the
    field unique. *)
Lemma unique_insert {B} (f : KnownPeer → B) (m : gmap string KnownPeer) k p :
  (∀ k' p', m !! k' = Some p' → f p' = f p → k' = k) →
  (∀ k1 p1 k2 p2, m !! k1 = Some p1 → m !! k2 = Some p2 → f p1 = f p2 → k1 = k2) →
  ∀ k1 p1 k2 p2, <[k := p]> m !! k1 = Some p1 → <[k := p]> m !! k2 = Some p2 → f p1 = f p2 → k1 = k2.
Proof.
  intros Hnew Hu k1 p1 k2 p2. rewrite !lookup_insert.
  destruct (decide (k = k1)) as [<-|N1], (decide (k = k2)) as [<-|N2]; intros; simplify_eq; [done|..|by eapply Hu].
  - symmetry. eapply Hnew; [done|]. done.
  - eapply Hnew; [done|]. done.
Qed.

(** The checks a successful [UpdatePeerSettings] passed. *)
Lemma UpdatePeerSettings_ok `{Validator} `{Unicode} `{DnsLib} mid1 mid2 bind a r a' :
  UpdatePeerSettings mid1 mid2 bind a = Ok (r, a') → ok_response r = true →
  ∃ req p, bind = inr req ∧ r = NoContent ∧ KnownPeers (a_conf a) !! ups_PeerID req = Some p ∧
    let s1 := mid1 (a_store a) in let s2 := mid2 s1 in
    IsValidDomainName (ups_DomainName req) = true ∧
    IsUniqPeerAlias (ups_PeerID req) (TrimSpace (ups_Alias req)) (conf s1) = true ∧
    CheckIPUnique (ups_IPAddr req) (kp_PeerID p) (conf s2) = Ok tt ∧ TrimSpace (ups_Alias req) ≠ "" ∧
    a' = with_store a (UpsertPeerUnlocked
           (with_settings p (TrimSpace (ups_Alias req)) (ups_DomainName req) (ups_IPAddr req) (ups_AllowUsingAsExitNode req)) s2).
Proof.
  intros [[Hr _]|(req & -> & Hf & Hbody)]%bound_Ok Hok; [congruence|].
  unfold GetPeer in Hbody. exists req.
  destruct (IsValidDomainName (ups_DomainName req)); [|by simplify_eq/=]. cbn [negb] in Hbody.
  destruct (KnownPeers (a_conf a) !! ups_PeerID req) as [p|]; [|by simplify_eq/=]. cbn [negb] in Hbody. cbv zeta in Hbody.
  exists p. cbv zeta. split; [done|].
  change (a_conf (with_store a (mid1 (a_store a)))) with (conf (mid1 (a_store a))) in Hbody.
  destruct (IsUniqPeerAlias _ _ _); [|by simplify_eq/=]. cbn [negb] in Hbody.
  change (a_conf (with_store (with_store a (mid1 (a_store a))) (mid2 (a_store (with_store a (mid1 (a_store a)))))))
    with (conf (mid2 (mid1 (a_store a)))) in Hbody.
  destruct (CheckIPUnique _ _ _) as [[]|e|]; [|by simplify_eq/=|done].
  injection Hbody as <- <-. split_and!; try done.
  apply list.Forall_cons in Hf as [_ Hf]. apply list.Forall_cons in Hf as [Hf _]. simpl in Hf. unfold name_field, validateTrimmedStringNotEmpty in Hf.
  apply andb_true_iff in Hf as [_ Hf]. by apply bool_decide_eq_true in Hf.
Qed.

Lemma UpdatePeerSettings_fails `{Validator} `{Unicode} `{DnsLib} bind a r a' :
  UpdatePeerSettings id id bind a = Ok (r, a') → ok_response r = false → a' = a.
Proof.
  intros [[_ ->]|(req & -> & _ & Hbody)]%bound_Ok Hok; [done|].
  destruct (negb _); [by simplify_eq|]. destruct (GetPeer _ _) as [p ex]. destruct (negb ex); [by simplify_eq|].
  assert (with_store a (id (a_store a)) = a) as Hid by (by destruct a). cbv zeta in Hbody. rewrite !Hid in Hbody.
  destruct (negb _); [by simplify_eq|]. by destruct (CheckIPUnique _ _ _); simplify_eq/=.
Qed.

(** What [UpdatePeerSettings] does to the state. *)
Lemma update_settings `{Validator} `{Unicode} `{DnsLib} bind a r a' :
  keys_wf (a_conf a) →
  UpdatePeerSettings id id bind a = Ok (r, a') →
  (ok_response r = false ∧ a' = a) ∨
  ∃ req p, bind = inr req ∧ r = NoContent ∧ KnownPeers (a_conf a) !! ups_PeerID req = Some p ∧
    KnownPeers (a_conf a') = <[ups_PeerID req := with_settings p (TrimSpace (ups_Alias req)) (ups_DomainName req)
                                 (ups_IPAddr req) (ups_AllowUsingAsExitNode req)]> (KnownPeers (a_conf a)) ∧
    BlockedPeers (a_conf a') = BlockedPeers (a_conf a) ∧ disk (a_store a') = Some (a_conf a') ∧
    TrimSpace (ups_Alias req) ≠ "" ∧ IsValidDomainName (ups_DomainName req) = true ∧
    CheckIPUnique (ups_IPAddr req) (ups_PeerID req) (a_conf a) = Ok tt ∧
    (aliases_unique (a_conf a) → aliases_unique (a_conf a')) ∧
    (address_texts_unique (a_conf a) → address_texts_unique (a_conf a')) ∧
    (all_dotted (a_conf a) → dotted (ups_IPAddr req) → addresses_unique (a_conf a) →
     all_dotted (a_conf a') ∧ addresses_unique (a_conf a')).
Proof.
  intros [Hk _] Hrun. destruct (ok_response r) eqn:Er; [right|left; split; [done|by eapply UpdatePeerSettings_fails]].
  destruct (UpdatePeerSettings_ok _ _ _ _ _ _ Hrun Er) as (req & p & -> & -> & Hp & Hd & Hu & Hc & Ha & Ea').
  assert (kp_PeerID p = ups_PeerID req) as Eid by by eapply Hk. unfold id in *. fold (a_conf a) in *. rewrite Eid in Hc.
  exists req, p. subst a'. unfold UpsertPeerUnlocked, a_conf. simpl. rewrite Eid. split_and!; try done.
  - unfold aliases_unique. simpl. apply (unique_insert kp_Alias). simpl. intros k' p' Hk' Hal.
    rewrite <- (Hk k' p' Hk'). apply dec_stable. intros Hne. by eapply (proj1 (IsUniqPeerAlias_spec _ _ _) Hu k' p').
  - unfold address_texts_unique. simpl. apply (unique_insert kp_IPAddr). simpl. intros k' p' Hk' Hip.
    rewrite <- (Hk k' p' Hk'). by eapply CheckIPUnique_Ok.
  - intros Hall Hdot Huniq. split.
    + intros k' p'. simpl. intros [[_ <-]|[_ Hk']]%lookup_insert_Some; [done|by eapply Hall].
    + unfold addresses_unique. simpl. apply (unique_insert (λ p, addr_of (kp_IPAddr p))); [|exact Huniq]. simpl. intros k' p' Hk' Hip.
      rewrite <- (Hk k' p' Hk'). by apply (CheckIPUnique_free _ _ _ k' p' Hc Hdot (Hall k' p' Hk') Hk' Hip).
Qed.

(** ** Properties *)

(** C23. Updating a peer's settings either answers with an error and changes nothing, or
    replaces exactly the alias, the domain name, the address and the exit-node
    permission of that peer and saves the result; the new alias is not blank, the domain
    name is valid and the address is one of the network. It keeps the aliases of the known
    peers and the texts of their addresses unique, and their addresses too when they and
    the new one are in dotted notation (in another notation a peer can be given the address
    of another one: [embedded_address_is_shared]). No other goroutine changes the
    configuration in the middle of the request. *)
Theorem update_settings_correct `{Validator} `{Unicode} `{DnsLib} bind a r a' :
  keys_wf (a_conf a) →
  UpdatePeerSettings id id bind a = Ok (r, a') →
  (ok_response r = false ∧ a' = a) ∨
  ∃ req p, bind = inr req ∧ r = NoContent ∧ KnownPeers (a_conf a) !! ups_PeerID req = Some p ∧
    KnownPeers (a_conf a') = <[ups_PeerID req := with_settings p (TrimSpace (ups_Alias req)) (ups_DomainName req)
                                 (ups_IPAddr req) (ups_AllowUsingAsExitNode req)]> (KnownPeers (a_conf a)) ∧
    BlockedPeers (a_conf a') = BlockedPeers (a_conf a) ∧ disk (a_store a') = Some (a_conf a') ∧
    TrimSpace (ups_Alias req) ≠ "" ∧ IsValidDomainName (ups_DomainName req) = true ∧
    CheckIPUnique (ups_IPAddr req) (ups_PeerID req) (a_conf a) = Ok tt ∧
    (aliases_unique (a_conf a) → aliases_unique (a_conf a')) ∧
    (address_texts_unique (a_conf a) → address_texts_unique (a_conf a')) ∧
    (all_dotted (a_conf a) → dotted (ups_IPAddr req) → addresses_unique (a_conf a) →
     all_dotted (a_conf a') ∧ addresses_unique (a_conf a')).
Proof. apply update_settings. Qed.

(** C24. Accepting or declining a request works only for a peer that sent one: a success
    means that the request was pending; declining blocks the peer, adds nothing and
    drops the request, accepting adds exactly that peer, confirmed and with the name it
    sent. Every error leaves the state as it was. *)
Theorem accept_friend_needs_request `{PeerCodecLaws} `{Validator} `{Unicode} now es ex mid bind a r a' :
  ranges (ingoingAuths a) es → map_Forall (λ id _, valid_peer id) (ingoingAuths a) →
  AcceptFriend now es ex mid bind a = Ok (r, a') →
  (ok_response r = false ∧ a' = a) ∨
  ∃ req id auth, bind = inr req ∧ ingoingAuths a !! id = Some auth ∧ frr_PeerID req = peer_String id ∧
    peer_String id ≠ PeerID (P2pNode (a_conf a)) ∧
    (if frr_Decline req
     then KnownPeers (a_conf a') = KnownPeers (a_conf a) ∧ is_Some (BlockedPeers (a_conf a') !! peer_String id) ∧
          ingoingAuths a' = delete id (ingoingAuths a)
     else ∃ p, KnownPeers (a_conf a') = <[peer_String id := p]> (KnownPeers (a_conf a)) ∧
          KnownPeers (a_conf a) !! peer_String id = None ∧ kp_Confirmed p = true ∧ kp_Name p = ap_Name auth).
Proof.
  intros Hes Hval [[Hr ->]|(req & -> & _ & Hbody)]%bound_Ok; [by left|].
  destruct (peer_Decode (frr_PeerID req)) as [peerId|] eqn:Ed; [|left; by simplify_eq].
  case_decide as Hself; [left; by simplify_eq|].
  destruct (GetIngoingAuthRequests es !! frr_PeerID req) as [auth|] eqn:Eg; [|left; by simplify_eq].
  destruct (GetIngoingAuthRequests_Some _ _ _ _ Hes Eg) as (id & Hid & Ht).
  pose proof (Hval id auth Hid) as Hv. simpl in Hv.
  assert (peerId = id) as ->. { rewrite <- Ht, peer_Decode_String in Ed by done. by simplify_eq. }
  assert (peer_String id ≠ PeerID (P2pNode (a_conf a))) as Hself' by by rewrite Ht.
  destruct (frr_Decline req) eqn:Edec.
  - right. exists req, id, auth. rewrite Edec. injection Hbody as <- <-.
    destruct (BlockPeer_store now id (ap_Name auth) ex mid a) as [-> Hi].
    destruct (UpsertBlockedPeer_conf now (peer_String id) (ap_Name auth) (a_store a)) as (Hk & _ & bp & Hb & _).
    rewrite Hk, Hb, lookup_insert_eq. split_and!; eauto.
  - apply add_response_Ok in Hbody as [?|[-> Hadd]]; [by left|]. right. exists req, id, auth. rewrite Edec.
    apply AddPeer_known in Hadd as (ip & Hnone & Hk). split_and!; [done..|]. eexists. split_and!; [done|done|done|done].
Qed.

(** C25. A successful removal of a peer forgets it, blocks it, drops its protection and
    its pending request, and touches no other peer; an error changes nothing. But the
    choice of the exit node is kept: if the peer was the exit node, the configuration
    names a peer that is not known any more. *)
Theorem remove_peer_correct `{PeerCodec} `{Validator} `{Unicode} now ex mid bind p a r p' a' :
  Handler_RemovePeer now ex mid bind p a = (r, p', a') →
  (ok_response r = false ∧ p' = p ∧ a' = a) ∨
  ∃ req id, bind = inr req ∧ peer_Decode (pir_PeerID req) = Some id ∧
    is_Some (KnownPeers (a_conf a) !! pir_PeerID req) ∧
    KnownPeers (a_conf a') = delete (pir_PeerID req) (KnownPeers (a_conf a)) ∧
    (∃ bp, BlockedPeers (a_conf a') = <[peer_String id := bp]> (BlockedPeers (a_conf a))) ∧
    ((id, protectedPeerTag) ∉ protected p') ∧ ingoingAuths a' = delete id (ingoingAuths a) ∧
    (UsingPeerID (SOCKS5 (a_conf a)) = pir_PeerID req → ¬ exit_node_ok (a_conf a')).
Proof.
  unfold Handler_RemovePeer. destruct bind as [e|req]; [intros [= <- <- <-]; by left|].
  destruct (Validate _) eqn:Ev; [intros [= <- <- <-]; by left|].
  apply Validate_None, list.Forall_cons in Ev as [Hreq _]. apply bool_decide_eq_true in Hreq.
  destruct (peer_Decode (pir_PeerID req)) as [id|] eqn:Ed; [|intros [= <- <- <-]; by left].
  unfold RemovePeer, GetPeer. fold (a_conf a).
  destruct (KnownPeers (a_conf a) !! pir_PeerID req) as [kp|] eqn:Ek; cbn [negb].
  2:{ intros [= <- <- <-]. left. by destruct a. }
  intros [= <- <- <-]. right. exists req, id. set (a1 := with_store a _).
  destruct (BlockPeer_store now id (DisplayName kp) ex mid a1) as [Hs Hi].
  destruct (UpsertBlockedPeer_conf now (peer_String id) (DisplayName kp) (a_store a1)) as (Hk & Hso & bp & Hb & _).
  unfold exit_node_ok. rewrite Hs, Hk, Hso, Hb.
  split_and!; [done|done|by rewrite Ek|done|by exists bp|set_solver|by rewrite Hi|].
  intros Hu [Hu'|(q & Hq & _)]; simpl in *; [unfold a_conf in Hu; congruence|].
  unfold a_conf in Hu. rewrite Hu, lookup_delete_eq in Hq. done.
Qed.

(** Choosing the exit node through the handler keeps it unset or a known peer that
    allows it. *)
Theorem proxy_settings_keep_exit_node `{Validator} bind a r a' :
  exit_node_ok (a_conf a) → UpdateProxySettings bind a = Ok (r, a') →
  exit_node_ok (a_conf a') ∧ KnownPeers (a_conf a') = KnownPeers (a_conf a) ∧
  (ok_response r = true → ∃ req, bind = inr req ∧ UsingPeerID (SOCKS5 (a_conf a')) = upr_UsingPeerID req ∧
     disk (a_store a') = Some (a_conf a')) ∧
  (ok_response r = false → a' = a).
Proof.
  intros Hok [[Hr ->]|(req & -> & _ & Hbody)]%bound_Ok; [split_and!; [done..|congruence|done]|].
  unfold GetPeer in Hbody. destruct (KnownPeers (a_conf a) !! upr_UsingPeerID req) as [p|] eqn:Ep;
    case_decide as Hempty; simpl in Hbody.
  - injection Hbody as <- <-. split_and!; [by left|done|by eauto|done].
  - destruct (kp_AllowedUsingAsExitNode p) eqn:Ea; simpl in Hbody; injection Hbody as <- <-; [|by split_and!].
    split_and!; [right; exists p; by split|done|by eauto|done].
  - injection Hbody as <- <-. split_and!; [by left|done|by eauto|done].
  - injection Hbody as <- <-. by split_and!.
Qed.

(** ** Listings *)

Lemma suggest_spec requests c ids : vpn_valid c → ∀ gen, Z.of_nat (length gen + length ids) < 2 ^ 32 - 1 →
  ∃ l, suggest requests ids gen c = Ok l ∧ ar_PeerID <$> l = ids ∧
    NoDup (SuggestedIP <$> l) ∧ Forall (λ x, SuggestedIP x ∉ gen) l ∧
    Forall (λ x, ar_AuthPeer x = default (mkAuthPeer "") (requests !! ar_PeerID x)) l.
Proof.
  intros Hv. induction ids as [|id ids IH]; intros gen Hlen.
  { exists []. split_and!; try done; constructor. }
  cbn [suggest]. cbn [length] in Hlen.
  destruct (generate_next_spec c gen Hv ltac:(lia)) as (m & n & _ & _ & _ & _ & _ & -> & Hfree).
  cbn [mbind outcome_bind]. set (ip := ip4_string (nth_ip m n)) in *.
  destruct (IH (gen ++ [ip])) as (l & -> & Hids & Hnd & Hgen & Hreq); [rewrite length_app; simpl; lia|].
  cbn [mbind outcome_bind]. eexists. split; [done|]. cbn [fmap list_fmap SuggestedIP ar_PeerID]. rewrite Hids.
  rewrite list.Forall_forall in Hgen. split_and!; [done| | |by constructor].
  - apply list.NoDup_cons. split; [|done]. intros (x & Ex & Hx)%list_elem_of_fmap.
    apply (Hgen x Hx). rewrite <- Ex. apply elem_of_app. right. by apply list_elem_of_singleton.
  - constructor; [done|]. apply list.Forall_forall. intros x Hx Hin. apply (Hgen x Hx), elem_of_app. by left.
Qed.

Global Instance str_le_total : Total str_le.
Proof. intros a b. unfold str_le. rewrite (String.compare_antisym b). destruct (String.compare _ _); simpl; auto. Qed.

(** A stable sort that only separates two classes keeps the order inside each. *)
Lemma SliceStable_partition {A} (f : A → bool) l :
  SliceStable (λ x y, f x && negb (f y)) l = filter (λ x, f x = true) l ++ filter (λ x, f x = false) l.
Proof.
  unfold SliceStable.
  assert (foldl (λ rev x, insert_back (λ x y, f x && negb (f y)) x rev) [] l =
          reverse (filter (λ x, f x = false) l) ++ reverse (filter (λ x, f x = true) l)) as ->;
    [|by rewrite reverse_app, !reverse_involutive].
  induction l as [|x l IH] using rev_ind; [done|].
  rewrite foldl_app, IH, !list.filter_app. cbn [foldl]. rewrite !filter_cons, !filter_nil.
  destruct (f x) eqn:Ef.
  - rewrite decide_False, decide_True by done. rewrite app_nil_r, (reverse_app (filter (λ x, f x = true) l)). cbn [reverse rev_append app].
    assert (∀ F T, Forall (λ y, f y = false) F → Forall (λ y, f y = true) T →
      insert_back (λ x y, f x && negb (f y)) x (F ++ T) = F ++ x :: T) as Hins.
    { intros F T HF HT. induction HF as [|y F Hy HF IHF]; simpl.
      - destruct T as [|y T]; [done|]. apply list.Forall_cons in HT as [Hy _]. simpl. by rewrite Ef, Hy.
      - rewrite Ef, Hy. simpl. by rewrite IHF. }
    apply Hins; apply Forall_reverse, list.Forall_forall; intros y [Hy _]%list_elem_of_filter; done.
  - rewrite decide_True, decide_False by done. rewrite app_nil_r, (reverse_app (filter (λ x, f x = false) l)). cbn [reverse rev_append app].
    destruct (reverse _ ++ reverse _) as [|y k] eqn:E; simpl; [done|]. by rewrite Ef.
Qed.

(** The pending requests are listed once each, in the order of their peer IDs, with
    suggested addresses that all differ: accepting several of them in turn does not
    offer the same address twice. *)
Theorem suggested_ips_distinct `{PeerCodec} es ids a :
  vpn_valid (a_conf a) → ids ≡ₚ (map_to_list (GetIngoingAuthRequests es)).*1 →
  Z.of_nat (length ids) < 2 ^ 32 - 1 →
  ∃ l, GetAuthRequests es ids a = Ok l ∧ Sorted str_le (ar_PeerID <$> l) ∧ ar_PeerID <$> l ≡ₚ ids ∧
    NoDup (ar_PeerID <$> l) ∧ NoDup (SuggestedIP <$> l) ∧
    ∀ x, x ∈ l → GetIngoingAuthRequests es !! ar_PeerID x = Some (ar_AuthPeer x).
Proof.
  intros Hv Hr Hlen. unfold GetAuthRequests.
  assert (sort_Strings ids ≡ₚ ids) as Hp by apply merge_sort_Permutation.
  destruct (suggest_spec (GetIngoingAuthRequests es) (a_conf a) (sort_Strings ids) Hv []) as (l & -> & Hids & Hnd & _ & Hreq).
  { rewrite (Permutation_length Hp). simpl. lia. }
  exists l. rewrite Hids. split_and!; [done|apply Sorted_merge_sort; apply _|done| |done|].
  - rewrite Hp, Hr. apply NoDup_fst_map_to_list.
  - intros x Hx. rewrite list.Forall_forall in Hreq. rewrite (Hreq x Hx).
    assert (ar_PeerID x ∈ ids) as Hin. { rewrite <- Hp, <- Hids. apply list_elem_of_fmap. eauto. }
    rewrite Hr in Hin. apply list_elem_of_fmap in Hin as ([k v] & Ek & Hkv%elem_of_map_to_list). simpl in Ek. by rewrite Ek, Hkv.
Qed.

(** The known peers are listed connected ones first, each group in the order of the
    peer IDs, every peer once. *)
Theorem known_peers_connected_first `{MaddrParts} `{PeerCodec} `{Unicode} h ids c :
  let on id := IsConnected h (PeerId (GetPeer id c).1) in
  kpr_PeerID <$> getKnownPeers h ids c =
    filter (λ id, on id = true) (sort_Strings ids) ++ filter (λ id, on id = false) (sort_Strings ids) ∧
  Sorted str_le (sort_Strings ids) ∧ kpr_PeerID <$> getKnownPeers h ids c ≡ₚ ids.
Proof.
  intros on. unfold getKnownPeers. rewrite SliceStable_partition.
  assert (∀ b (l : list string), kpr_PeerID <$> filter (λ x, kpr_Connected x = b) (known_peer_response h c <$> l) = filter (λ id, on id = b) l) as Hf.
  { intros b l. induction l as [|x l IH]; [done|]. cbn [fmap list_fmap]. rewrite !filter_cons.
    change (kpr_Connected (known_peer_response h c x)) with (on x). case_decide; [|done].
    cbn [fmap list_fmap]. by f_equal. }
  rewrite fmap_app, !Hf. split; [done|]. split; [apply Sorted_merge_sort; apply _|].
  transitivity (sort_Strings ids); [|apply merge_sort_Permutation].
  generalize (sort_Strings ids) as l. induction l as [|x l IH]; [done|]. rewrite !filter_cons. fold (on x).
  destruct (on x); [rewrite decide_True, decide_False by done|rewrite decide_False, decide_True by done]; simpl.
  - by rewrite IH.
  - rewrite <- Permutation_middle. by rewrite IH.
Qed.

(** ** Panics and races *)

Lemma CheckIPUnique_ipv4 ip except c : To4 (ParseIP ip) ≠ [] → CheckIPUnique ip except c ≠ Panic.
Proof.
  unfold CheckIPUnique, ParseIP. destruct (ParseAddr ip) as [addr|] eqn:Ea; [|done]. intros H4.
  apply ParseAddr_valid in Ea.
  assert (∃ b, As4 addr = Ok b) as [b ->]; [|simpl; by repeat case_match].
  unfold As4. destruct addr as [b|b [|]]; [eauto| |done]. destruct Ea as [Hlen _].
  case_decide as Ht; [eauto|]. exfalso. apply H4. unfold To4.
  rewrite decide_False by lia. rewrite decide_False; [done|]. by intros [_ ?].
Qed.

Lemma AddPeer_no_panic `{PeerCodec} `{ValidatorLaws} `{Unicode} now id name alias confirmed ip a :
  vpn_valid (a_conf a) → optional_ipv4 ip = true → AddPeer now id name alias confirmed ip a ≠ Panic.
Proof.
  intros Hv Hip. unfold AddPeer. destruct (GetPeer _ _) as [? []]; [done|]. destruct (negb _); [done|].
  case_decide as Hne.
  - pose proof (CheckIPUnique_ipv4 ip (peer_String id) (a_conf a)) as Hc. unfold optional_ipv4 in Hip.
    rewrite bool_decide_eq_false_2 in Hip by done. simpl in Hip. specialize (Hc (ipv4_tag_spec _ Hip)).
    by destruct (CheckIPUnique _ _ _).
  - destruct (generate_next_spec (a_conf a) [] Hv) as (m & n & _ & _ & _ & _ & _ & Hg & _); [simpl; lia|].
    unfold GenerateNextIpAddr. by rewrite Hg.
Qed.

Lemma fields_ipv4 (fields : list (string * bool)) name b : Forall (λ f, f.2 = true) fields → (name, b) ∈ fields → b = true.
Proof. rewrite list.Forall_forall. intros Hf Hin. exact (Hf _ Hin). Qed.

(** With a valid network the three handlers that take an address from the user
    always answer: what the validator accepts as IPv4 never makes the uniqueness check
    panic. *)
Theorem handlers_never_panic `{PeerCodec} `{ValidatorLaws} `{Unicode} `{DnsLib} now es ex mid update invite reply a :
  vpn_valid (a_conf a) →
  UpdatePeerSettings id id update a ≠ Panic ∧ SendFriendRequest now invite a ≠ Panic ∧
  AcceptFriend now es ex mid reply a ≠ Panic.
Proof.
  intros Hv. unfold UpdatePeerSettings, SendFriendRequest, AcceptFriend, bound. split_and!.
  - destruct update as [|req]; [done|]. destruct (Validate _) eqn:Ev; [done|]. apply Validate_None in Ev.
    destruct (negb _); [done|]. destruct (GetPeer _ _) as [p e]. destruct (negb e); [done|]. cbv zeta.
    destruct (negb _); [done|].
    assert (ipv4_tag (ups_IPAddr req) = true) as Hip.
    { apply (andb_true_iff (required (ups_IPAddr req))). eapply fields_ipv4; [exact Ev|]. do 3 right. left. }
    pose proof (CheckIPUnique_ipv4 (ups_IPAddr req) (kp_PeerID p)
      (a_conf (with_store (with_store a (id (a_store a))) (id (a_store (with_store a (id (a_store a))))))) (ipv4_tag_spec _ Hip)).
    by destruct (CheckIPUnique _ _ _).
  - destruct invite as [|req]; [done|]. destruct (Validate _) eqn:Ev; [done|]. apply Validate_None in Ev.
    destruct (peer_Decode _) as [pid|]; [|done]. case_decide; [done|].
    pose proof (AddPeer_no_panic now pid "" (fr_Alias req) false (fr_IPAddr req) a Hv
      ltac:(eapply fields_ipv4; [exact Ev|do 2 right; left])). by destruct (AddPeer _ _ _ _ _ _ _).
  - destruct reply as [|req]; [done|]. destruct (Validate _) eqn:Ev; [done|]. apply Validate_None in Ev.
    destruct (peer_Decode _) as [pid|]; [|done]. case_decide; [done|].
    destruct (GetIngoingAuthRequests es !! _) as [auth|]; [|done]. destruct (frr_Decline req); [done|].
    pose proof (AddPeer_no_panic now pid (ap_Name auth) (frr_Alias req) true (frr_IPAddr req) a Hv
      ltac:(eapply fields_ipv4; [exact Ev|do 2 right; left])). by destruct (AddPeer _ _ _ _ _ _ _).
Qed.

(** ** Samples *)

Definition toy_validator : Validator := {|
  ipv4_tag s := bool_decide (To4 (ParseIP s) ≠ []); validation_text l := Join l ", " |}.

Lemma toy_validator_laws : @ValidatorLaws toy_validator.
Proof. constructor. intros s Hs. by apply bool_decide_eq_true in Hs. Qed.

(** Peer IDs with a second textual form: go-libp2p reads a peer ID both as a base58
    multihash and as a CID. *)
Definition two_forms : PeerCodec := {|
  peer_Decode s := if decide (s = "me" ∨ s = "cid-me") then Some "me" else if decide (s = "b") then Some "b" else None;
  peer_String := id |}.

Lemma two_forms_laws : @PeerCodecLaws two_forms.
Proof.
  apply (Build_PeerCodecLaws two_forms (λ id, id = "me" ∨ id = "b")); simpl.
  - intros id [-> | ->]; vm_compute; reflexivity.
  - intros s id. repeat case_decide; naive_solver.
  - vm_compute. reflexivity.
Defined.

Definition my_conf (known : gmap string KnownPeer) : Config :=
  with_P2pNode (conf_with known) (mkP2pNodeConfig "me" "" "" [] None [] 0 false false 0).
Definition my_auth (known : gmap string KnownPeer) : Auth := mkAuth {[ "b" := mkAuthPeer "bob" ]} ∅ (mkStore (my_conf known) None 0) [].

#[local] Existing Instances toy_validator two_forms toy_unicode toy_dns.

(** The check against adding oneself compares texts: our own ID in its other form
    passes, and we become a known peer of ourselves. *)
Theorem own_id_in_other_form_is_added :
  ∃ a', SendFriendRequest 1 (inr (mkFriendRequest "cid-me" "myself" "")) (my_auth ∅) = Ok (NoContent, a') ∧
    is_Some (KnownPeers (a_conf a') !! PeerID (P2pNode (a_conf a'))) ∧
    SendFriendRequest 1 (inr (mkFriendRequest "me" "myself" "")) (my_auth ∅)
      = Ok (JSONError StatusBadRequest "You can't add yourself", my_auth ∅).
Proof. eexists. split; [vm_compute; reflexivity|]. split; [vm_compute; eauto|vm_compute; reflexivity]. Qed.

Definition known_b : gmap string KnownPeer := {[ "b" := sample_peer "b" "" "b" "10.66.0.3" "b" ]}.
Lemma known_b_lookup k p : known_b !! k = Some p → k = "b".
Proof. intros Hk. symmetry. apply (lookup_singleton_Some "b" k (sample_peer "b" "" "b" "10.66.0.3" "b") p). exact Hk. Qed.
Definition update_b : UpdatePeerSettingsRequest := mkUpdatePeerSettingsRequest "b" " bob " "bob" "10.66.0.9" true.

(** [UpdatePeerSettings] reads the peer before it takes the lock: a peer that is
    removed meanwhile is known again after the update. *)
Theorem update_settings_revives_removed_peer :
  ∃ a', UpdatePeerSettings id (λ s, (RemovePeer "b" s).2) (inr update_b) (my_auth known_b) = Ok (NoContent, a') ∧
    is_Some (KnownPeers (a_conf a') !! "b").
Proof. eexists. split; [vm_compute; reflexivity|]. vm_compute. eauto. Qed.

(** Two peers can be given one address: written as an embedded IPv4 address it passes the
    validation and the comparison of texts. *)
Theorem embedded_address_is_shared :
  let known := <["me" := sample_peer "me" "" "m" "10.66.0.9" "m"]> known_b in
  ∃ a', UpdatePeerSettings id id (inr (mkUpdatePeerSettingsRequest "b" "bob" "bob" "::ffff:10.66.0.9" true)) (my_auth known)
      = Ok (NoContent, a') ∧
    (λ p, addr_of (kp_IPAddr p)) <$> KnownPeers (a_conf a') !! "me" = Some [10; 66; 0; 9]%Z ∧
    (λ p, addr_of (kp_IPAddr p)) <$> KnownPeers (a_conf a') !! "b" = Some [10; 66; 0; 9]%Z.
Proof. eexists. split; [vm_compute; reflexivity|]. split; vm_compute; reflexivity. Qed.

(** ** Witnesses *)

Lemma update_settings_correct_witness :
  ∃ a', UpdatePeerSettings id id (inr update_b) (my_auth known_b) = Ok (NoContent, a') ∧ addresses_unique (a_conf a').
Proof.
  eexists. split; [vm_compute; reflexivity|].
  match goal with |- addresses_unique (a_conf ?a') =>
    destruct (update_settings_correct (inr update_b) (my_auth known_b) NoContent a') as [[? _]|(req & p & Hreq & _ & _ & _ & _ & _ & _ & _ & _ & _ & _ & Hu)]
  end.
  - split; apply (bool_decide_unpack _); vm_compute; exact I.
  - vm_compute. reflexivity.
  - discriminate.
  - injection Hreq as <-. apply Hu.
    + intros k q Hq. apply (lookup_singleton_Some "b" k (sample_peer "b" "" "b" "10.66.0.3" "b") q) in Hq as [_ <-].
      exists [10; 66; 0; 3]%Z. split; [split; [reflexivity|apply (bool_decide_unpack _); vm_compute; exact I]|vm_compute; reflexivity].
    + exists [10; 66; 0; 9]%Z. split; [split; [reflexivity|apply (bool_decide_unpack _); vm_compute; exact I]|vm_compute; reflexivity].
    + intros k1 p1 k2 p2 H1 H2 _. rewrite (known_b_lookup k1 p1 H1), (known_b_lookup k2 p2 H2). reflexivity.
Defined.

Definition accept_b (decline : bool) : FriendRequestReply := mkFriendRequestReply "b" "bob" decline "".

Lemma accept_friend_needs_request_witness :
  ∃ a', AcceptFriend 1 [("b", mkAuthPeer "bob")] (mkExchange false false false None) id (inr (accept_b false)) (my_auth ∅)
          = Ok (NoContent, a') ∧ is_Some (KnownPeers (a_conf a') !! "b").
Proof.
  eexists. split; [vm_compute; reflexivity|].
  match goal with |- is_Some (KnownPeers (a_conf ?a') !! _) =>
    destruct (accept_friend_needs_request (H0 := two_forms_laws) 1 [("b", mkAuthPeer "bob")] (mkExchange false false false None) id
      (inr (accept_b false)) (my_auth ∅) NoContent a') as [[? _]|(req & i & auth & Hreq & _ & Hi & _ & Hif)]
  end.
  - vm_compute. reflexivity.
  - apply map_Forall_singleton. right. reflexivity.
  - vm_compute. reflexivity.
  - discriminate.
  - injection Hreq as <-. cbn [frr_Decline accept_b] in Hif. destruct Hif as (p & -> & _).
    rewrite <- Hi. rewrite lookup_insert_eq. eauto.
Defined.

Lemma remove_peer_correct_witness :
  let a := with_store (my_auth known_b) (mkStore (with_SOCKS5 (my_conf known_b) (mkSOCKS5Config false false "" "b")) None 0) in
  let p := mkP2p {[ ("b", "known") ]} ∅ None in
  ∃ r p' a', Handler_RemovePeer 1 (mkExchange false false false None) id (inr (mkPeerIDRequest "b")) p a = (r, p', a') ∧
    ok_response r = true ∧ ¬ exit_node_ok (a_conf a').
Proof.
  intros a p. destruct (Handler_RemovePeer 1 (mkExchange false false false None) id (inr (mkPeerIDRequest "b")) p a) as [[r p'] a'] eqn:E.
  assert (ok_response r = true) as Hr by (vm_compute in E; injection E as <- _ _; reflexivity).
  exists r, p', a'. split; [reflexivity|]. split; [exact Hr|].
  destruct (remove_peer_correct 1 (mkExchange false false false None) id (inr (mkPeerIDRequest "b")) p a r p' a' E)
    as [[Hf _]|(req & i & Hreq & _ & _ & _ & _ & _ & _ & Hx)]; [congruence|].
  injection Hreq as <-. apply Hx. reflexivity.
Defined.

Lemma proxy_settings_keep_exit_node_witness :
  ∃ a', UpdateProxySettings (inr (mkUpdateProxySettingsRequest "")) (my_auth known_b) = Ok (NoContent, a') ∧ exit_node_ok (a_conf a').
Proof.
  eexists. split; [vm_compute; reflexivity|].
  eapply (proxy_settings_keep_exit_node (inr (mkUpdateProxySettingsRequest "")) (my_auth known_b) NoContent); [left; reflexivity|].
  vm_compute. reflexivity.
Defined.

Lemma suggested_ips_distinct_witness :
  ∃ l, GetAuthRequests [("b", mkAuthPeer "bob"); ("me", mkAuthPeer "x")] ["me"; "b"] (my_auth ∅) = Ok l ∧ NoDup (SuggestedIP <$> l).
Proof.
  destruct (suggested_ips_distinct [("b", mkAuthPeer "bob"); ("me", mkAuthPeer "x")] ["me"; "b"] (my_auth ∅))
    as (l & El & _ & _ & _ & Hn & _).
  - split; [split; [reflexivity|]|discriminate]. apply (bool_decide_unpack _). vm_compute. exact I.
  - apply (bool_decide_unpack _). vm_compute. exact I.
  - vm_compute. reflexivity.
  - exists l. split; [exact El|exact Hn].
Defined.

Lemma handlers_never_panic_witness :
  UpdatePeerSettings id id (inr update_b) (my_auth known_b) ≠ Panic ∧
  SendFriendRequest 1 (inr (mkFriendRequest "b" "bob" "::ffff:10.66.0.4")) (my_auth ∅) ≠ Panic.
Proof.
  assert (vpn_valid (my_conf ∅) ∧ vpn_valid (my_conf known_b)) as [H0 H1].
  { split; (split; [split; [reflexivity|]|discriminate]); apply (bool_decide_unpack _); vm_compute; exact I. }
  split.
  - apply (handlers_never_panic (H1 := toy_validator_laws) 1 [] (mkExchange false false false None) id (inr update_b) (inl "") (inl "") (my_auth known_b) H1).
  - apply (handlers_never_panic (H1 := toy_validator_laws) 1 [] (mkExchange false false false None) id (inl "") (inr (mkFriendRequest "b" "bob" "::ffff:10.66.0.4")) (inl "") (my_auth ∅) H0).
Defined.
