(* ===== verification/Daemon.v ===== *)
(** * The daemon as a machine over its configuration

    Everything that changes the configuration of a running daemon, as one machine: the
    handlers of the HTTP interface (src/api/peers.go, src/api/settings.go) and the messages,
    connections and timers of the friend protocol (src/service/auth_status.go), each as one
    action. In the gaps a handler leaves (between its reading of a peer and its update),
    others may handle messages of the network: [mid] is what they do. The configuration
    stays well formed under every sequence of actions. *)

From S2P Require Import Prelude GoStrings GoNet Externals Config NetworkAddr AwlDns ConfigDefaults.
From S2P Require Import Protocol AuthStatus Socks5 P2p ApiDebug Api.

Section daemon.
Context `{Multiaddrs} `{!MaddrParts} `{PeerCodec} `{Unicode} `{Validator} `{DnsLib}.

(** What can happen to a running daemon: something from the network, the goroutine of
    [AddPeer], or a request. *)
Inductive action :=
  | FromNetwork (e : net_event)
  | AfterAdding (now : time) (id : string) (confirmed : bool) (exAuth : Exchange AuthPeerResponse) (ex : Exchange PeerStatusInfo)
  | UpdatePeer (bind : string + UpdatePeerSettingsRequest)
  | Invite (now : time) (bind : string + FriendRequest)
  | Answer (now : time) (es : list (string * AuthPeer)) (ex : Exchange PeerStatusInfo) (bind : string + FriendRequestReply)
  | Forget (now : time) (ex : Exchange PeerStatusInfo) (bind : string + PeerIDRequest)
  | RenameMe (bind : string + UpdateMySettingsRequest)
  | ChooseProxy (bind : string + UpdateProxySettingsRequest).

Definition Daemon : Type := P2p * Auth.

Definition run_action (mid : Store → Store) (x : action) (d : Daemon) : outcome Daemon :=
  let '(p, a) := d in
  match x with
  | FromNetwork e => a ← run_event mid e a; Ok (p, a)
  | AfterAdding now id confirmed exAuth ex => Ok (p, AddPeer_background now id confirmed exAuth ex mid a)
  | UpdatePeer bind => '(_, a) ← UpdatePeerSettings mid mid bind a; Ok (p, a)
  | Invite now bind => '(_, a) ← SendFriendRequest now bind a; Ok (p, a)
  | Answer now es ex bind => '(_, a) ← AcceptFriend now es ex mid bind a; Ok (p, a)
  | Forget now ex bind => let '(_, p, a) := Handler_RemovePeer now ex mid bind p a in Ok (p, a)
  | RenameMe bind => '(_, a) ← UpdateMySettings bind a; Ok (p, a)
  | ChooseProxy bind => '(_, a) ← UpdateProxySettings bind a; Ok (p, a)
  end.

Fixpoint run_actions (xs : list ((Store → Store) * action)) (d : Daemon) : outcome Daemon :=
  match xs with
  | [] => Ok d
  | (mid, x) :: xs => d ← run_action mid x d; run_actions xs d
  end.

(** The goroutine of [AddPeer] runs while its peer is still known. *)
Definition possible (x : action) (d : Daemon) : Prop :=
  match x with
  | AfterAdding _ id _ _ _ => is_Some (KnownPeers (a_conf d.2) !! peer_String id)
  | _ => True
  end.

Fixpoint all_possible (xs : list ((Store → Store) * action)) (d : Daemon) : Prop :=
  match xs with
  | [] => True
  | (mid, x) :: xs => possible x d ∧ ∀ d', run_action mid x d = Ok d' → all_possible xs d'
  end.
End daemon.

(** ** Well-formed configurations *)

Section wf.
Context `{PeerCodecLaws} `{Unicode}.

(** A peer filed under the text of an identifier, with an alias. *)
Definition peer_wf (k : string) (p : KnownPeer) : Prop :=
  kp_PeerID p = k ∧ (∃ id, valid_peer id ∧ peer_String id = k) ∧ kp_Alias p ≠ "".

(** Peers are filed under their identifiers, have aliases, and no two the same; blocked
    peers are filed under theirs; requests are not accepted automatically. *)
Record conf_wf (c : Config) : Prop := {
  wf_peers : map_Forall peer_wf (KnownPeers c);
  wf_aliases : aliases_unique c;
  wf_blocked : map_Forall (λ k b, bp_PeerID b = k) (BlockedPeers c);
  wf_auto : AutoAcceptAuthRequests (P2pNode c) = false;
}.

Lemma valid_text_nonempty id : valid_peer id → peer_String id ≠ "".
Proof. intros Hv E. pose proof (peer_Decode_String id Hv) as Hd. rewrite E, peer_Decode_empty in Hd. done. Qed.

Lemma conf_wf_canonical c : conf_wf c → canonical c.
Proof.
  intros Hc k p Hp. destruct (wf_peers _ Hc k p Hp) as (Hk & (id & Hv & Hs) & _). split; [done|].
  unfold PeerId. by rewrite Hk, <- Hs, peer_Decode_String.
Qed.

Lemma conf_wf_ids c k p : conf_wf c → KnownPeers c !! k = Some p → kp_PeerID p ≠ "".
Proof. intros Hc Hp. destruct (wf_peers _ Hc k p Hp) as (-> & (id & Hv & <-) & _). by apply valid_text_nonempty. Qed.

(** In a well-formed configuration the identifiers decode: no mode of the logger makes
    [PeerId] panic. *)
Lemma conf_wf_PeerId dev c k p : conf_wf c → KnownPeers c !! k = Some p → PeerId_logged dev p = Ok (PeerId p).
Proof.
  intros Hc Hp. apply PeerId_decodes. destruct (wf_peers _ Hc k p Hp) as (-> & (id & Hv & <-) & _).
  rewrite peer_Decode_String by done. by eexists.
Qed.

(** What the network can do keeps a configuration well formed. *)
Lemma kept_wf c c' : kept c c' → conf_wf c → conf_wf c'.
Proof.
  intros Hkept Hc. pose proof (kept_blocked _ _ Hkept) as Hb. pose proof (kept_node _ _ Hkept) as Hn. destruct Hkept as [Hdom _ Hk].
  assert (Hback : ∀ k p', KnownPeers c' !! k = Some p' → ∃ p, KnownPeers c !! k = Some p ∧ kp_PeerID p' = kp_PeerID p ∧ kp_Alias p' = kp_Alias p).
  { intros k p' Hp'. assert (is_Some (KnownPeers c !! k)) as [p Hp] by (apply elem_of_dom; rewrite <- Hdom; by apply elem_of_dom_2 in Hp').
    destruct (Hk k p Hp) as (p2 & Hp2 & [Hid _ _ _ Ha _ _]). simplify_eq. exists p. split_and!; [done|done|].
    apply Ha. by destruct (wf_peers _ Hc k p Hp) as (_ & _ & ?). }
  split.
  - intros k p' Hp'. destruct (Hback k p' Hp') as (p & Hp & Hid & Ha). unfold peer_wf. rewrite Hid, Ha. by apply (wf_peers _ Hc).
  - intros k1 p1 k2 p2 Hp1 Hp2 Ha. destruct (Hback k1 p1 Hp1) as (q1 & Hq1 & _ & E1), (Hback k2 p2 Hp2) as (q2 & Hq2 & _ & E2).
    eapply (wf_aliases _ Hc); [exact Hq1|exact Hq2|congruence].
  - rewrite Hb. apply Hc.
  - rewrite Hn. apply Hc.
Qed.

Lemma insert_wf c k p : conf_wf c → peer_wf k p → (∀ k' p', KnownPeers c !! k' = Some p' → k' ≠ k → kp_Alias p' ≠ kp_Alias p) →
  conf_wf (with_KnownPeers c (<[k := p]> (KnownPeers c))).
Proof.
  intros Hc Hp Hfree. split; simpl; [|..|apply Hc|apply Hc].
  - apply map_Forall_insert_2; [done|apply Hc].
  - unfold aliases_unique. simpl. apply (unique_insert kp_Alias); [|apply Hc]. intros k' p' Hk' E.
    apply dec_stable. intros Hne. by destruct (Hfree k' p' Hk' Hne).
Qed.

Lemma delete_wf c k : conf_wf c → conf_wf (with_KnownPeers c (delete k (KnownPeers c))).
Proof.
  intros Hc. split; simpl; [by apply map_Forall_delete, Hc| |apply Hc|apply Hc].
  unfold aliases_unique. simpl. intros k1 p1 k2 p2 [_ Hp1]%lookup_delete_Some [_ Hp2]%lookup_delete_Some. by apply (wf_aliases _ Hc).
Qed.

Lemma blocked_wf c m : conf_wf c → map_Forall (λ k b, bp_PeerID b = k) m → conf_wf (with_BlockedPeers c m).
Proof. intros Hc Hm. split; simpl; [apply Hc|apply (wf_aliases _ Hc)|done|apply Hc]. Qed.

Lemma RemoveBlockedPeer_wf k s : conf_wf (conf s) →
  conf_wf (conf (RemoveBlockedPeer k s)) ∧ KnownPeers (conf (RemoveBlockedPeer k s)) = KnownPeers (conf s).
Proof.
  intros Hc. unfold RemoveBlockedPeer. destruct (GetBlockedPeer k (conf s)) as [b []]; [|done]. split; [|done].
  apply blocked_wf; [done|]. by apply map_Forall_delete, Hc.
Qed.

Lemma UpsertBlockedPeer_wf now k name s : conf_wf (conf s) → conf_wf (conf (UpsertBlockedPeer now k name s)).
Proof.
  intros Hc. unfold UpsertBlockedPeer. destruct (GetBlockedPeer k (conf s)) as [b e]. apply blocked_wf; [done|].
  apply map_Forall_insert_2; [done|apply Hc].
Qed.

Lemma RemovePeer_wf k s : conf_wf (conf s) → conf_wf (conf (RemovePeer k s).2).
Proof. intros Hc. unfold RemovePeer. destruct (GetPeer k (conf s)) as [p []]; [by apply delete_wf|done]. Qed.

Lemma AddPeer_wf now id name alias confirmed ip a a' : valid_peer id → TrimSpace alias ≠ "" →
  AddPeer now id name alias confirmed ip a = Ok a' → conf_wf (a_conf a) → conf_wf (a_conf a').
Proof.
  intros Hv Ht. unfold AddPeer. destruct (GetPeer (peer_String id) (a_conf a)) as [p0 []]; [done|].
  destruct (IsUniqPeerAlias "" (TrimSpace alias) (a_conf a)) eqn:Eu; [|done]. cbn [negb].
  intros (ip' & _ & [= <-])%outcome_bind_Ok Hc. destruct (RemoveBlockedPeer_wf (peer_String id) (a_store a) Hc) as [Hr Ek].
  unfold a_conf. simpl. apply insert_wf; [done| |].
  - split_and!; simpl; eauto.
  - intros k' p' Hk' _. rewrite Ek in Hk'. simpl. exact (IsUniqPeerAlias_false_iff _ _ (λ k p Hk, conf_wf_ids _ k p Hc Hk) Eu k' p' Hk').
Qed.

Lemma BlockPeer_wf now id name ex mid a : conf_wf (a_conf a) → conf_wf (a_conf (BlockPeer now id name ex mid a).2).
Proof.
  intros Hc. destruct (BlockPeer_store now id name ex mid a) as [-> _]. by apply UpsertBlockedPeer_wf.
Qed.
End wf.

Section actions.
Context `{Multiaddrs} `{!MaddrParts} `{PeerCodecLaws} `{Unicode} `{Validator} `{DnsLib}.

Lemma conf_wf_same c c' : KnownPeers c' = KnownPeers c → BlockedPeers c' = BlockedPeers c →
  AutoAcceptAuthRequests (P2pNode c') = AutoAcceptAuthRequests (P2pNode c) → conf_wf c → conf_wf c'.
Proof. intros Ek Eb Ea [Hp Hu Hb Ha]. split; unfold aliases_unique in *; rewrite ?Ek, ?Eb, ?Ea; done. Qed.

Lemma name_field_trim (fields : list (string * bool)) s n : Forall (λ f, f.2 = true) fields → (n, name_field s) ∈ fields → TrimSpace s ≠ "".
Proof.
  intros Hf Hin. rewrite list.Forall_forall in Hf. apply Hf in Hin. simpl in Hin. unfold name_field, validateTrimmedStringNotEmpty in Hin.
  apply andb_true_iff in Hin as [_ Hin]. by apply bool_decide_eq_true in Hin.
Qed.

Lemma event_wf mid e a a' : mid_kept mid → run_event mid e a = Ok a' → conf_wf (a_conf a) → conf_wf (a_conf a').
Proof.
  intros Hm Hr Hc. destruct (run_event_kept mid e a (conf_wf_canonical _ Hc) (wf_auto _ Hc) Hm) as (a1 & E & Hk).
  rewrite E in Hr. injection Hr as <-. by eapply kept_wf.
Qed.

Lemma background_wf now id confirmed exAuth ex mid a : mid_kept mid → is_Some (KnownPeers (a_conf a) !! peer_String id) →
  conf_wf (a_conf a) → conf_wf (a_conf (AddPeer_background now id confirmed exAuth ex mid a)).
Proof.
  intros Hm Hid Hc. unfold AddPeer_background. set (a1 := if confirmed then a else _).
  assert (Hk : kept (a_conf a) (a_conf a1)).
  { unfold a1. destruct confirmed; [reflexivity|]. by apply SendAuthRequest_kept, conf_wf_canonical. }
  apply (kept_wf (a_conf a1)); [|by eapply kept_wf]. apply ExchangeNewStatusInfo_kept; [by eapply conf_wf_canonical, kept_wf|done|].
  apply elem_of_dom. rewrite (kept_dom _ _ Hk). by apply elem_of_dom.
Qed.

Lemma mid_wf mid s : mid_kept mid → conf_wf (conf s) → conf_wf (conf (mid s)).
Proof. intros Hm Hc. eapply kept_wf; [|done]. by apply Hm, conf_wf_canonical. Qed.

(** A request that fails, while others handle messages of the network. *)
Lemma update_fails_kept mid bind a r a' : mid_kept mid → UpdatePeerSettings mid mid bind a = Ok (r, a') → ok_response r = false →
  conf_wf (a_conf a) → conf_wf (a_conf a').
Proof.
  intros Hm [[_ ->]|(req & -> & _ & Hbody)]%bound_Ok Hok Hc; [done|]. pose proof (mid_wf mid (a_store a) Hm Hc) as Hw1.
  pose proof (mid_wf mid _ Hm Hw1) as Hw2. destruct (negb _); [by simplify_eq|]. destruct (GetPeer _ _) as [p ex].
  destruct (negb ex); [by simplify_eq|]. cbv zeta in Hbody. destruct (negb _); [by simplify_eq|].
  by destruct (CheckIPUnique _ _ _); simplify_eq/=.
Qed.

Lemma update_wf mid bind a r a' : mid_kept mid → UpdatePeerSettings mid mid bind a = Ok (r, a') → conf_wf (a_conf a) → conf_wf (a_conf a').
Proof.
  intros Hm Hr Hc. destruct (ok_response r) eqn:Er; [|by eapply update_fails_kept].
  destruct (UpdatePeerSettings_ok _ _ _ _ _ _ Hr Er) as (req & p & -> & -> & Hp & _ & Hu & _ & Ha & ->).
  destruct (wf_peers _ Hc _ p Hp) as (Hk & Hid & _). pose proof (mid_wf mid (a_store a) Hm Hc) as Hw1.
  pose proof (Hm (mid (a_store a)) (conf_wf_canonical _ Hw1)) as Hk2.
  unfold a_conf, UpsertPeerUnlocked. simpl. rewrite Hk. apply insert_wf; [by eapply kept_wf|done|].
  intros k' p' Hk' Hne. simpl. assert (is_Some (KnownPeers (conf (mid (a_store a))) !! k')) as [q Hq].
  { apply elem_of_dom. rewrite <- (kept_dom _ _ Hk2). by eapply elem_of_dom_2. }
  destruct (kept_peers _ _ Hk2 _ _ Hq) as (q' & Hq' & [_ _ _ _ Hal _ _]). rewrite Hk' in Hq'. injection Hq' as <-.
  destruct (wf_peers _ Hw1 k' q Hq) as (Eid & _ & Hne'). rewrite Hal by done.
  apply (proj1 (IsUniqPeerAlias_spec _ _ _) Hu k' q Hq). by rewrite Eid.
Qed.

Lemma add_response_wf now id name alias confirmed ip a r a' : valid_peer id → TrimSpace alias ≠ "" →
  add_response (AddPeer now id name alias confirmed ip a) a = Ok (r, a') → conf_wf (a_conf a) → conf_wf (a_conf a').
Proof. intros Hv Ht [[_ ->]|[_ E]]%add_response_Ok Hc; [done|]. by eapply AddPeer_wf. Qed.

Lemma invite_wf now bind a r a' : SendFriendRequest now bind a = Ok (r, a') → conf_wf (a_conf a) → conf_wf (a_conf a').
Proof.
  intros [[_ ->]|(req & -> & Hf & Hb)]%bound_Ok Hc; [done|]. destruct (peer_Decode (fr_PeerID req)) as [id|] eqn:Ed; [|by simplify_eq].
  case_decide; [by simplify_eq|]. eapply add_response_wf; [by eapply peer_Decode_valid| |exact Hb|done].
  eapply name_field_trim; [exact Hf|]. right. by left.
Qed.

Lemma answer_wf now es ex mid bind a r a' : AcceptFriend now es ex mid bind a = Ok (r, a') → conf_wf (a_conf a) → conf_wf (a_conf a').
Proof.
  intros [[_ ->]|(req & -> & Hf & Hb)]%bound_Ok Hc; [done|]. destruct (peer_Decode (frr_PeerID req)) as [id|] eqn:Ed; [|by simplify_eq].
  case_decide; [by simplify_eq|]. destruct (GetIngoingAuthRequests es !! frr_PeerID req) as [auth|]; [|by simplify_eq].
  destruct (frr_Decline req); [simplify_eq; by apply BlockPeer_wf|].
  eapply add_response_wf; [by eapply peer_Decode_valid| |exact Hb|done]. eapply name_field_trim; [exact Hf|]. right. by left.
Qed.

Lemma forget_wf now ex mid bind p a r p' a' : Handler_RemovePeer now ex mid bind p a = (r, p', a') → conf_wf (a_conf a) → conf_wf (a_conf a').
Proof.
  intros Hr Hc. unfold Handler_RemovePeer in Hr. destruct bind as [e|req]; [by simplify_eq|]. destruct (Validate _); [by simplify_eq|].
  destruct (peer_Decode _) as [id|]; [|by simplify_eq]. pose proof (RemovePeer_wf (pir_PeerID req) (a_store a) Hc) as Hw.
  destruct (RemovePeer (pir_PeerID req) (a_store a)) as [[kp []] s]; simplify_eq/=; [|done]. by apply BlockPeer_wf.
Qed.

Lemma run_action_wf mid x d d' : mid_kept mid → conf_wf (a_conf d.2) → possible x d → run_action mid x d = Ok d' → conf_wf (a_conf d'.2).
Proof.
  destruct d as [p a], x; simpl; intros Hm Hc Hpos.
  - intros (a1 & E & [= <-])%outcome_bind_Ok. by eapply event_wf.
  - intros [= <-]. by apply background_wf.
  - intros ([r a1] & E & [= <-])%outcome_bind_Ok. by eapply update_wf.
  - intros ([r a1] & E & [= <-])%outcome_bind_Ok. by eapply invite_wf.
  - intros ([r a1] & E & [= <-])%outcome_bind_Ok. by eapply answer_wf.
  - destruct (Handler_RemovePeer _ _ _ _ _ _) as [[r p1] a1] eqn:E. intros [= <-]. by eapply forget_wf.
  - intros ([r a1] & [[_ ->]|(req & _ & _ & [= <- <-])]%bound_Ok & [= <-])%outcome_bind_Ok; [done|]. by apply (conf_wf_same (a_conf a)).
  - intros ([r a1] & [[_ ->]|(req & _ & _ & Hb)]%bound_Ok & [= <-])%outcome_bind_Ok; [done|].
    destruct (GetPeer _ _) as [kp ok]. destruct (negb ok), (negb (kp_AllowedUsingAsExitNode kp));
      case_decide; simplify_eq/=; first [done|by apply (conf_wf_same (a_conf a))].
Qed.
End actions.

(** ** Properties *)

(** C17. The configuration of a running daemon stays well formed. Over any sequence of
    requests, messages, connections and timers, with any contents, every known peer stays
    filed under the text of a valid identifier, which is the one it carries, has an alias,
    and no two have the same; blocked peers are filed under theirs. Each action is one
    step, but in the gap it leaves before its update other goroutines may handle any
    messages of the network ([mid_kept]). It is assumed that requests are not accepted
    automatically, which no action changes, that the background part of adding a peer runs
    while the peer is known, and that no peer is removed or added by another request in
    the middle of an action; without these assumptions it does not hold
    ([blank_name_accepted_without_alias], [removed_peer_leaves_empty_entry],
    [update_settings_revives_removed_peer], [concurrent_adds_share_alias]). *)
Theorem configuration_stays_wf `{Multiaddrs} `{!MaddrParts} `{PeerCodecLaws} `{Unicode} `{Validator} `{DnsLib} xs d d' :
  conf_wf (a_conf d.2) → Forall (λ x, mid_kept x.1) xs → all_possible xs d → run_actions xs d = Ok d' → conf_wf (a_conf d'.2).
Proof.
  revert d. induction xs as [|[mid x] xs IH]; intros d Hc Hm Hp; cbn [run_actions]; [by intros [= <-]|]. destruct Hp as [Hx Hxs].
  apply list.Forall_cons in Hm as [Hm1 Hm].
  intros (d1 & E & Hr)%outcome_bind_Ok. apply (IH d1); [by eapply run_action_wf|done|by apply Hxs|done].
Qed.

#[local] Existing Instances toy_maddrs toy_parts toy_validator two_forms two_forms_laws toy_unicode toy_dns.

Definition no_exchange {A} : Exchange A := mkExchange false false false None.
Definition sample_actions : list ((Store → Store) * action) :=
  [(λ s, s, FromNetwork (EvAuth 1 "b" (Some (mkAuthPeer "bob"))));
   (λ s, s, Answer 2 [("b", mkAuthPeer "bob")] no_exchange (inr (mkFriendRequestReply "b" " bob " false "")));
   (λ s, s, AfterAdding 3 "b" true no_exchange no_exchange); (λ s, s, RenameMe (inr (mkUpdateMySettingsRequest "me")));
   (UpdatePeerLastSeen 7 "b", UpdatePeer (inr (mkUpdatePeerSettingsRequest "b" "rob" "rob" "10.66.0.9" true)))].
Definition sample_daemon : Daemon := (mkP2p ∅ ∅ None, mkAuth ∅ ∅ (mkStore (my_conf ∅) None 0) []).

Lemma sample_possible : all_possible sample_actions sample_daemon.
Proof. repeat (split; [vm_compute; eauto|]; intros ? [= <-]). done. Qed.

Lemma configuration_stays_wf_witness :
  ∃ d, run_actions sample_actions sample_daemon = Ok d ∧ conf_wf (a_conf d.2) ∧ kp_Alias <$> KnownPeers (a_conf d.2) !! "b" = Some "rob".
Proof.
  eexists. split; [vm_compute; reflexivity|]. split; [|vm_compute; reflexivity].
  apply (configuration_stays_wf sample_actions sample_daemon); [| |exact sample_possible|vm_compute; reflexivity].
  2: { repeat (constructor; [first [apply mid_kept_id|intros s _; apply UpdatePeerLastSeen_kept]|]). constructor. }
  split; [by intros ? ?|by intros ? ?|by intros ? ?|done].
Defined.

(** With automatic acceptance the alias can be missing: a stranger whose name is blank is
    added with an empty alias, because the generated alias is trimmed after it was chosen. *)
Definition accepting_conf : Config :=
  with_P2pNode (conf_with ∅) (mkP2pNodeConfig "me" "" "" [] None [] 0 true false 0).

Theorem blank_name_accepted_without_alias :
  ∃ a, (AuthStreamHandler 1 "b" (Some (mkAuthPeer " ")) (mkAuth ∅ ∅ (mkStore accepting_conf None 0) [])).2 = Ok a ∧
    kp_Alias <$> KnownPeers (a_conf a) !! "b" = Some "".
Proof. eexists. split; vm_compute; reflexivity. Qed.
