(* ===== verification/Friends.v ===== *)
(** * Two nodes become friends (src/service/auth_status.go, src/api/peers.go, src/protocol)

    The friend protocol with a node on each side: what one side sends is encoded, carried
    over a connection that may fail at any point, decoded and handled by the other, and the
    answer comes back the same way. Every step of one node towards the other is a rule of
    a step relation; the theorems are about what two nodes reach together. *)

From S2P Require Import Prelude GoStrings GoNet Externals Config NetworkAddr AwlDns ConfigDefaults.
From S2P Require Import Protocol AuthStatus Socks5 P2p ApiDebug Api Daemon.

(** How far an exchange gets: connecting, opening the stream, sending, whether the request
    arrives whole and whether the answer does. *)
Record link := mkLink { l_connect : bool; l_stream : bool; l_send : bool; l_request : bool; l_reply : bool }.
Definition good_link : link := mkLink true true true true true.
Definition no_link : link := mkLink false false false false false.
Definition reaches (l : link) : bool := l_connect l && l_stream l && l_send l.
Definition exchange_over {A} (l : link) (answer : option A) : Exchange A :=
  mkExchange (l_connect l) (l_stream l) (l_send l) (if l_reply l then answer else None).

Section friends.
Context `{PeerCodec} `{Unicode} `{Validator}.
Context `{Json PeerStatusInfo} `{Json AuthPeer} `{Json AuthPeerResponse}.

(** A message written to a stream and read on the other side. *)
Definition carry_status (m : PeerStatusInfo) : option PeerStatusInfo :=
  match ReceiveStatus (SendStatus [] m) with Ok (m, _) => Some m | _ => None end.
Definition carry_auth (m : AuthPeer) : option AuthPeer :=
  match ReceiveAuth (SendAuth [] m) with Ok (m, _) => Some m | _ => None end.
Definition carry_response (m : AuthPeerResponse) : option AuthPeerResponse :=
  match ReceiveAuthResponse (SendAuthResponse [] m) with Ok (m, _) => Some m | _ => None end.

(** [ExchangeNewStatusInfo] of the node [me] in state [a], answered by
    [StatusStreamHandler] of the node [other] in state [b]. *)
Definition status_exchange (l : link) (now : time) (me other : string) (knownPeer : KnownPeer) (a b : Auth) : Auth * Auth :=
  let sent := (ExchangeNewStatusInfo now other knownPeer (exchange_over l None) (λ s, s) a).1.1 in
  let '(reply, b) := if reaches l then StatusStreamHandler now me (if l_request l then sent ≫= carry_status else None) (λ s, s) b
                     else (None, b) in
  ((ExchangeNewStatusInfo now other knownPeer (exchange_over l (reply ≫= carry_status)) (λ s, s) a).2, b).

(** [SendAuthRequest] of [me], answered by [AuthStreamHandler] of [other]. *)
Definition auth_exchange (l : link) (now : time) (me other : string) (req : AuthPeer) (a b : Auth) : outcome (Auth * Auth) :=
  let '(reply, handled) := if reaches l then AuthStreamHandler now me (if l_request l then carry_auth req else None) b
                           else (None, Ok b) in
  b ← handled;
  Ok ((SendAuthRequest other req (exchange_over l (reply ≫= carry_response)) a).2, b).

(** The goroutine of [AddPeer]. *)
Definition background (l1 l2 : link) (now : time) (me other : string) (confirmed : bool) (a b : Auth) : outcome (Auth * Auth) :=
  '(a, b) ← (if confirmed then Ok (a, b) else auth_exchange l1 now me other (mkAuthPeer (Name (P2pNode (a_conf a)))) a b);
  Ok (status_exchange l2 now me other (GetPeer (peer_String other) (a_conf a)).1 a b).

(** [onPeerConnected] with its goroutine. *)
Definition connected (l1 l2 : link) (now : time) (me other : string) (a b : Auth) : outcome (Auth * Auth) :=
  let outgoing := outgoingAuths a !! other in
  let '(knownPeer, known) := GetPeer (peer_String other) (a_conf a) in
  if negb known && negb (bool_decide (is_Some outgoing)) then Ok (a, b)
  else
    let a := with_store a (UpdatePeerLastSeen now (peer_String other) (a_store a)) in
    '(a, b) ← (match outgoing with Some authPeer => auth_exchange l1 now me other authPeer a b | None => Ok (a, b) end);
    if known then Ok (status_exchange l2 now me other knownPeer a b) else Ok (a, b).
End friends.

(** ** The steps of one node towards another *)

Section steps.
Context `{Multiaddrs} `{!MaddrParts} `{PeerCodecLaws} `{Unicode} `{Validator} `{DnsLib}.
Context `{Json PeerStatusInfo} `{Json AuthPeer} `{Json AuthPeerResponse}.

(** The node in state [a] knows the peer [id]. *)
Definition knows (a : Auth) (id : string) : Prop := is_Some (KnownPeers (a_conf a) !! peer_String id).
Definition confirmed_at (a : Auth) (id : string) : Prop :=
  ∃ p, KnownPeers (a_conf a) !! peer_String id = Some p ∧ kp_Confirmed p = true.

(** Actions of the daemon that do not involve the peer [other]. *)
Definition elsewhere (other : string) (x : action) : Prop :=
  match x with
  | FromNetwork (EvStatus _ remote _) | FromNetwork (EvConnected _ remote _ _) | AfterAdding _ remote _ _ _ =>
      peer_String remote ≠ peer_String other
  | FromNetwork (EvAuth _ remote _) => valid_peer remote ∧ remote ≠ other
  | FromNetwork (EvDisconnected _ _) => True
  | FromNetwork (EvExchangeTimer _ peers _) => peer_String other ∉ peers
  | FromNetwork (EvRetryTimer pending _) => Forall (λ e, peer_String e.1 ≠ peer_String other) pending
  | UpdatePeer _ | RenameMe _ | ChooseProxy _ => True
  | Invite _ _ | Answer _ _ _ _ | Forget _ _ _ => False
  end.

(** What the node [me] can do, with what it does to [other]. The goroutines that handlers
    start are steps of their own; the one of [AddPeer] runs while the peer is known. *)
Inductive node_step (me other : string) : Auth * Auth → Auth * Auth → Prop :=
  | Step_invite now bind r a a' b :
      SendFriendRequest now bind a = Ok (r, a') →
      node_step me other (a, b) (a', b)
  | Step_answer now es bind r a a' b :
      ranges (ingoingAuths a) es →
      AcceptFriend now es (exchange_over no_link None) (λ s, s) bind a = Ok (r, a') →
      node_step me other (a, b) (a', b)
  | Step_forget now bind p p' r a a' b :
      Handler_RemovePeer now (exchange_over no_link None) (λ s, s) bind p a = (r, p', a') →
      node_step me other (a, b) (a', b)
  | Step_added now l1 l2 confirmed a a' b b' :
      knows a other → background l1 l2 now me other confirmed a b = Ok (a', b') →
      node_step me other (a, b) (a', b')
  | Step_blocked now l a a' b b' :
      is_Some (BlockedPeers (a_conf a) !! peer_String other) →
      status_exchange l now me other zeroKnownPeer a b = (a', b') →
      node_step me other (a, b) (a', b')
  | Step_connected now l1 l2 a a' b b' :
      connected l1 l2 now me other a b = Ok (a', b') →
      node_step me other (a, b) (a', b')
  | Step_exchange now l p a a' b b' :
      KnownPeers (a_conf a) !! peer_String other = Some p →
      status_exchange l now me other p a b = (a', b') →
      node_step me other (a, b) (a', b')
  | Step_retry now l req a a' b b' :
      outgoingAuths a !! other = Some req → auth_exchange l now me other req a b = Ok (a', b') →
      node_step me other (a, b) (a', b')
  | Step_elsewhere x p p' a a' b :
      elsewhere other x → possible x (p, a) → run_action (λ s, s) x (p, a) = Ok (p', a') →
      node_step me other (a, b) (a', b).

(** The states two nodes go through, the last one first. *)
Inductive friends_run (ida idb : string) (s0 : Auth * Auth) : list (Auth * Auth) → Prop :=
  | Run_start : friends_run ida idb s0 [s0]
  | Run_a h a b a' b' :
      friends_run ida idb s0 ((a, b) :: h) → node_step ida idb (a, b) (a', b') →
      friends_run ida idb s0 ((a', b') :: (a, b) :: h)
  | Run_b h a b a' b' :
      friends_run ida idb s0 ((a, b) :: h) → node_step idb ida (b, a) (b', a') →
      friends_run ida idb s0 ((a', b') :: (a, b) :: h).
End steps.

(** ** Facts *)

(** One side of a composed step is the service's own function, with what the network
    delivered as its argument. *)
Section sides.
Context `{PeerCodec} `{Unicode} `{Json PeerStatusInfo} `{Json AuthPeer} `{Json AuthPeerResponse}.

Lemma status_exchange_side l now me other p0 a b :
  ∃ ex, (status_exchange l now me other p0 a b).1 = (ExchangeNewStatusInfo now other p0 ex (λ s, s) a).2.
Proof. unfold status_exchange. destruct (if reaches l then _ else _) as [reply b']. by eexists. Qed.

Lemma auth_exchange_side l now me other req a b a' b' : auth_exchange l now me other req a b = Ok (a', b') →
  ∃ ex, a' = (SendAuthRequest other req ex a).2.
Proof. unfold auth_exchange. destruct (if reaches l then _ else _) as [reply h]. intros (b1 & _ & [= <- _])%outcome_bind_Ok. by eexists. Qed.

Lemma background_side l1 l2 now me other confirmed a b a' b' : background l1 l2 now me other confirmed a b = Ok (a', b') →
  ∃ exAuth ex, a' = AddPeer_background now other confirmed exAuth ex (λ s, s) a.
Proof.
  unfold background. intros ([a1 b1] & E1 & E2)%outcome_bind_Ok. injection E2 as E2.
  destruct (status_exchange_side l2 now me other (GetPeer (peer_String other) (a_conf a1)).1 a1 b1) as [ex Hex]. rewrite E2 in Hex. simpl in Hex.
  destruct confirmed.
  - injection E1 as <- <-. by exists (mkExchange false false false None), ex.
  - destruct (auth_exchange_side _ _ _ _ _ _ _ _ _ E1) as [exAuth ->]. by exists exAuth, ex.
Qed.

Lemma connected_side l1 l2 now me other a b a' b' : connected l1 l2 now me other a b = Ok (a', b') →
  ∃ exAuth ex, a' = onPeerConnected now other exAuth ex (λ s, s) a.
Proof.
  unfold connected, onPeerConnected. destruct (GetPeer (peer_String other) (a_conf a)) as [p known].
  destruct (negb known && _); [intros [= <- _]; by exists (mkExchange false false false None), (mkExchange false false false None)|].
  set (a1 := with_store a _). intros ([a2 b2] & E1 & E2)%outcome_bind_Ok.
  assert (∃ exAuth, a2 = match outgoingAuths a !! other with Some authPeer => (SendAuthRequest other authPeer exAuth a1).2 | None => a1 end)
    as [exAuth ->].
  { destruct (outgoingAuths a !! other) as [req|]; [by eapply auth_exchange_side|]. injection E1 as <- _. by exists (mkExchange false false false None). }
  exists exAuth. destruct known; [|injection E2 as <- _; by exists (mkExchange false false false None)]. injection E2 as E2.
  match type of E2 with status_exchange _ _ _ _ _ ?a2 _ = _ => destruct (status_exchange_side l2 now me other p a2 b2) as [ex Hex] end.
  rewrite E2 in Hex. by exists ex.
Qed.
End sides.

(** The flag that declines survives the encoding, whatever the texts are. *)
Class StatusLaws `{Json PeerStatusInfo} := {
  status_Declined : ∀ m m' rest, json_Decode (json_Encode m) = Some (m', rest) → psi_Declined m' = psi_Declined m;
}.

(** At most one entry of the known peers changed, in the way [P]. *)
Definition peer_change (k : string) (P : KnownPeer → KnownPeer → Prop) (m m' : gmap string KnownPeer) : Prop :=
  m' = m ∨ ∃ p q, m !! k = Some p ∧ m' = <[k := q]> m ∧ P p q.

Definition same_confirmed (p q : KnownPeer) : Prop := kp_Confirmed q = kp_Confirmed p.
Definition confirmed_if (P : Prop) (p q : KnownPeer) : Prop := kp_Confirmed q = true → kp_Confirmed p = true ∨ P.

Section changes.
Context `{PeerCodecLaws} `{Unicode}.

Lemma change_weaken k (P Q : KnownPeer → KnownPeer → Prop) m m' : (∀ p q, P p q → Q p q) → peer_change k P m m' → peer_change k Q m m'.
Proof. intros HPQ [->|(p & q & Hp & -> & HP)]; [by left|right; eauto 6]. Qed.

Lemma change_knows k P a a' id : peer_change k P (KnownPeers (a_conf a)) (KnownPeers (a_conf a')) → knows a' id ↔ knows a id.
Proof.
  unfold knows. intros [->|(p & q & Hp & -> & _)]; [done|]. rewrite lookup_insert.
  case_decide; [subst; rewrite Hp; by split; eexists|done].
Qed.

Lemma change_confirmed k P a a' id : peer_change k (confirmed_if P) (KnownPeers (a_conf a)) (KnownPeers (a_conf a')) →
  confirmed_at a' id → confirmed_at a id ∨ (k = peer_String id ∧ P).
Proof.
  intros Hch (p' & Hp' & Hc). destruct Hch as [E|(p & q & Hp & E & Hq)]; rewrite E in Hp'; [by left; exists p'|].
  rewrite lookup_insert in Hp'. case_decide; [|by left; exists p']. simplify_eq. destruct (Hq Hc) as [?|?]; [left; by exists p|by right].
Qed.

(** A status changes at most the entry of its sender, and confirms it only if it does not
    decline. *)
Lemma process_change now peer info s k : KnownPeers (conf s) !! k = Some peer → kp_PeerID peer = k →
  peer_change k (confirmed_if (psi_Declined info = false)) (KnownPeers (conf s))
    (KnownPeers (conf (processPeerStatusInfo now peer info s))).
Proof.
  intros Hp <-. right. unfold processPeerStatusInfo. destruct (psi_Declined info).
  - exists peer, (declined_peer now peer). split; [done|]. split; [by case_decide|]. by left.
  - exists peer, (accepted_peer now peer info (conf s)). split; [done|]. split; [by repeat case_match|]. by right.
Qed.

Lemma StatusStreamHandler_change now remote received a reply a' : canonical (a_conf a) →
  StatusStreamHandler now remote received (λ s, s) a = (reply, a') →
  ingoingAuths a' = ingoingAuths a ∧ (∀ id, is_Some (outgoingAuths a' !! id) → is_Some (outgoingAuths a !! id)) ∧
  peer_change (peer_String remote) (confirmed_if (∃ info, received = Some info ∧ psi_Declined info = false))
    (KnownPeers (a_conf a)) (KnownPeers (a_conf a')) ∧
  (∀ m, reply = Some m → psi_Declined m = false → knows a remote).
Proof.
  intros Hc. unfold StatusStreamHandler, knows. destruct (GetPeer (peer_String remote) (a_conf a)) as [p known] eqn:Eg.
  destruct (GetBlockedPeer (peer_String remote) (a_conf a)) as [bp blocked].
  destruct (negb known && negb blocked) eqn:En; [intros [= <- <-]; split_and!; try done; by left|].
  destruct received as [info|]; [|intros [= <- <-]; split_and!; try done; by left].
  assert (Hout : ∀ id, is_Some (delete remote (outgoingAuths a) !! id) → is_Some (outgoingAuths a !! id))
    by (intros id [v [_ Hv]%lookup_delete_Some]; by exists v).
  destruct blocked; [intros [= <- <-]; split_and!; [done|done|by left|by intros m [= <-]]|]. destruct known; [|done].
  destruct (get_peer_kept _ _ _ _ Eg) as [[_ Hp]|[[=] _]]. destruct (Hc _ _ Hp) as [Hk _].
  unfold a_conf. cbn [a_store with_store with_outgoing]. fold (a_conf a). rewrite Eg. intros [= <- <-]. split_and!; [done|done| |by rewrite Hp].
  eapply change_weaken; [|by apply process_change]. intros p1 q Hq Hq1. destruct (Hq Hq1); [by left|right; eauto].
Qed.

Lemma Exchange_change now remote p0 ex a sent err a' : canonical (a_conf a) →
  knows a remote ∨ is_Some (BlockedPeers (a_conf a) !! peer_String remote) →
  ExchangeNewStatusInfo now remote p0 ex (λ s, s) a = (sent, err, a') →
  (∀ id, is_Some (ingoingAuths a' !! id) → is_Some (ingoingAuths a !! id)) ∧ outgoingAuths a' = outgoingAuths a ∧
  peer_change (peer_String remote) (confirmed_if (∃ info, ex_answer ex = Some info ∧ psi_Declined info = false))
    (KnownPeers (a_conf a)) (KnownPeers (a_conf a')) ∧
  (∀ m, sent = Some m → psi_Declined m = false → knows a remote).
Proof.
  intros Hc Hor. unfold ExchangeNewStatusInfo.
  assert (Hin : ∀ id, is_Some (delete remote (ingoingAuths a) !! id) → is_Some (ingoingAuths a !! id))
    by (intros id [v [_ Hv]%lookup_delete_Some]; by exists v).
  destruct (ex_connect ex); [|intros [= <- <- <-]; split_and!; try done; by left].
  destruct (ex_stream ex); [|intros [= <- <- <-]; split_and!; try done; by left]. cbn [negb].
  change (a_conf (with_ingoing a _)) with (a_conf a). unfold GetBlockedPeer.
  destruct (BlockedPeers (a_conf a) !! peer_String remote) as [bp|] eqn:Eb.
  - destruct (ex_send ex); [|intros [= <- <- <-]; split_and!; try done; by left].
    destruct (ex_answer ex); intros [= <- <- <-]; (split_and!; [done|done|by left|by intros m [= <-]]).
  - destruct Hor as [Hk|[? ?]]; [|done].
    destruct (ex_send ex); [|intros [= <- <- <-]; split_and!; try done; by left]. cbn [negb].
    destruct (ex_answer ex) as [info|] eqn:Ea; [|intros [= <- <- <-]; split_and!; try done; by left].
    unfold knows in Hk. destruct Hk as [p Hp]. destruct (Hc _ _ Hp) as [Hkey _].
    unfold a_conf, GetPeer. cbn [a_store with_store with_ingoing]. fold (a_conf a). rewrite Hp. intros [= <- <- <-].
    split_and!; [done|done| |by intros ? _ _; exists p]. eapply change_weaken; [|by apply process_change].
    intros p1 q Hq Hq1. destruct (Hq Hq1); [by left|right; eauto].
Qed.

Lemma SendAuthRequest_change id req ex a : canonical (a_conf a) →
  let a' := (SendAuthRequest id req ex a).2 in
  ingoingAuths a' = ingoingAuths a ∧ (∀ id', id' ≠ id → is_Some (outgoingAuths a' !! id') → is_Some (outgoingAuths a !! id')) ∧
  peer_change (peer_String id) same_confirmed (KnownPeers (a_conf a)) (KnownPeers (a_conf a')).
Proof.
  intros Hc. cbv zeta. unfold SendAuthRequest.
  assert (Hout : ∀ id', id' ≠ id → is_Some (<[id := req]> (outgoingAuths a) !! id') → is_Some (outgoingAuths a !! id'))
    by (intros id' Hne; by rewrite lookup_insert_ne).
  destruct (negb _); [split_and!; [done|done|by left]|]. destruct (ex_answer ex) as [resp|]; [|split_and!; [done|done|by left]].
  set (a1 := if apr_Confirmed resp || apr_Declined resp then _ else _).
  assert (ingoingAuths a1 = ingoingAuths a ∧ a_store a1 = a_store a ∧
    ∀ id', id' ≠ id → is_Some (outgoingAuths a1 !! id') → is_Some (outgoingAuths a !! id')) as (Ei & Es & Ho).
  { unfold a1. destruct (_ || _); split_and!; try done. intros id' Hne. simpl. by rewrite lookup_delete_ne, lookup_insert_ne. }
  unfold a_conf in *. clearbody a1. destruct (apr_Declined resp); cbn [snd]; [|rewrite Es; split_and!; [done|done|by left]]. rewrite Es.
  destruct (GetPeer (peer_String id) (conf (a_store a))) as [p []] eqn:Eg; [|cbn [snd]; rewrite Es; split_and!; [done|done|by left]].
  destruct (get_peer_kept _ _ _ _ Eg) as [[_ Hp]|[[=] _]]. destruct (Hc _ _ Hp) as [Hk _].
  split_and!; [done|done|]. right. exists p. eexists. split; [done|]. simpl. rewrite Hk. by split.
Qed.

Lemma AuthStreamHandler_change now remote received a reply a' : AutoAcceptAuthRequests (P2pNode (a_conf a)) = false →
  AuthStreamHandler now remote received a = (reply, Ok a') →
  (∀ id, is_Some (ingoingAuths a' !! id) → id = remote ∨ is_Some (ingoingAuths a !! id)) ∧
  outgoingAuths a' = outgoingAuths a ∧ a_store a' = a_store a.
Proof.
  intros Hauto. unfold AuthStreamHandler. destruct received as [req|]; [|intros [= <- <-]; auto].
  destruct (GetBlockedPeer _ _) as [bp blocked], (GetPeer _ _) as [p known]. rewrite Hauto, andb_false_r, andb_true_r.
  intros [= <- <-]. destruct (_ && _); [|auto]. split_and!; [|done|done]. intros id. simpl. rewrite lookup_insert.
  case_decide; [auto|]. by right.
Qed.
End changes.

(** ** Trust towards the other node *)

Section trust.
Context `{Multiaddrs} `{!MaddrParts} `{PeerCodecLaws} `{Unicode} `{Validator} `{DnsLib}.
Context `{StatusLaws} `{Json AuthPeer} `{Json AuthPeerResponse}.

(** The node in state [a] has a request out only if it added [other] at some time, holds a
    request of [other], or counts it as confirmed, only if [other] added it. *)
Record trust (a : Auth) (other : string) (mine theirs : Prop) : Prop := {
  tr_wf : conf_wf (a_conf a);
  tr_out : is_Some (outgoingAuths a !! other) → mine;
  tr_in : is_Some (ingoingAuths a !! other) → theirs;
  tr_valid : ∀ id, is_Some (ingoingAuths a !! id) → valid_peer id;
  tr_confirmed : confirmed_at a other → theirs;
}.

Lemma trust_mono a other (A B A' B' : Prop) : (A → A') → (B → B') → trust a other A B → trust a other A' B'.
Proof. intros HA HB [Hw Ho Hi Hv Hc]. split; auto. Qed.

Lemma carry_declined m m' : carry_status m = Some m' → psi_Declined m' = psi_Declined m.
Proof.
  unfold carry_status, ReceiveStatus, SendStatus. destruct (json_Decode ([] ++ json_Encode m)) as [[m1 rest]|] eqn:E; [|done].
  intros [= <-]. by eapply status_Declined.
Qed.

(** An exchange with a blocked peer changes nothing but the pending requests. *)
Lemma blocked_exchange_store now remote p0 ex mid a : is_Some (BlockedPeers (a_conf a) !! peer_String remote) →
  a_store (ExchangeNewStatusInfo now remote p0 ex mid a).2 = a_store a.
Proof.
  intros [bp Hb]. unfold ExchangeNewStatusInfo, GetBlockedPeer. change (a_conf (with_ingoing a _)) with (a_conf a). rewrite Hb.
  by destruct (ex_connect ex), (ex_stream ex), (ex_send ex), (ex_answer ex).
Qed.

Lemma Exchange_wf now remote p0 ex a : conf_wf (a_conf a) →
  knows a remote ∨ is_Some (BlockedPeers (a_conf a) !! peer_String remote) →
  conf_wf (a_conf (ExchangeNewStatusInfo now remote p0 ex (λ s, s) a).2).
Proof.
  intros Hw Hor. destruct (decide (is_Some (BlockedPeers (a_conf a) !! peer_String remote))) as [Hb|Hn].
  - unfold a_conf. by rewrite blocked_exchange_store.
  - destruct Hor as [Hk|?]; [|done]. eapply kept_wf; [|done]. by apply ExchangeNewStatusInfo_kept; [apply conf_wf_canonical|apply mid_kept_id|].
Qed.

(** A status exchange between the nodes creates no trust that the other side did not give. *)
Lemma status_exchange_trust l now me other p0 a b a' b' (A B : Prop) :
  trust a other A B → trust b me B A → (knows a other → A) → (knows b me → B) →
  knows a other ∨ is_Some (BlockedPeers (a_conf a) !! peer_String other) →
  status_exchange l now me other p0 a b = (a', b') →
  trust a' other A B ∧ trust b' me B A ∧ (knows a' other ↔ knows a other) ∧ (knows b' me ↔ knows b me).
Proof.
  intros [Hwa Hoa Hia Hva Hca] [Hwb Hob Hib Hvb Hcb] HA HB Hor. unfold status_exchange.
  destruct (ExchangeNewStatusInfo now other p0 (exchange_over l None) (λ s, s) a) as [[sent err0] a0] eqn:E0. cbn [fst].
  destruct (Exchange_change _ _ _ _ _ _ _ _ (conf_wf_canonical _ Hwa) Hor E0) as (_ & _ & _ & Hsent).
  set (received := if l_request l then sent ≫= carry_status else None).
  assert (Hrec : ∀ info, received = Some info → psi_Declined info = false → A).
  { intros info Hi Hd. apply HA. unfold received in Hi. destruct (l_request l); [|done].
    apply bind_Some in Hi as (m & Hm & Hcar). apply (Hsent m Hm). by rewrite <- (carry_declined _ _ Hcar). }
  destruct (if reaches l then _ else _) as [reply b1] eqn:Eb.
  assert (Hb : trust b1 me B A ∧ (knows b1 me ↔ knows b me) ∧ ∀ m, reply = Some m → psi_Declined m = false → B).
  { destruct (reaches l); [|simplify_eq; by split_and!].
    destruct (StatusStreamHandler_change _ _ _ _ _ _ (conf_wf_canonical _ Hwb) Eb) as (Ei & Ho & Hch & Hrep).
    split_and!; [split|by eapply change_knows|eauto].
    - apply (event_wf (λ s, s) (EvStatus now me received) b); [apply mid_kept_id|simpl; by rewrite Eb|done].
    - eauto.
    - by rewrite Ei.
    - by rewrite Ei.
    - intros Hc1. destruct (change_confirmed _ _ _ _ _ Hch Hc1) as [?|[_ (info & Hi & Hd)]]; eauto. }
  destruct Hb as (Htb & Hkb & Hreply). intros [= <- <-].
  destruct (ExchangeNewStatusInfo now other p0 (exchange_over l (reply ≫= carry_status)) (λ s, s) a) as [[sent1 err1] a1] eqn:E1.
  destruct (Exchange_change _ _ _ _ _ _ _ _ (conf_wf_canonical _ Hwa) Hor E1) as (Hi & Eo & Hch & _). cbn [snd].
  split_and!; [split|done|by eapply change_knows|done].
  - pose proof (Exchange_wf now other p0 (exchange_over l (reply ≫= carry_status)) a Hwa Hor) as Hw. by rewrite E1 in Hw.
  - by rewrite Eo.
  - eauto.
  - eauto.
  - intros Hc1. destruct (change_confirmed _ _ _ _ _ Hch Hc1) as [?|[_ (info & Hinfo & Hd)]]; [by apply Hca|].
    simpl in Hinfo. destruct (l_reply l); [|done]. apply bind_Some in Hinfo as (m & Hm & Hcar). apply (Hreply m Hm).
    by rewrite <- (carry_declined _ _ Hcar).
Qed.

(** A request reaches the other node only if this one added it. *)
Lemma auth_exchange_trust l now me other req a b a' b' (A B : Prop) :
  valid_peer me → trust a other A B → trust b me B A → A →
  auth_exchange l now me other req a b = Ok (a', b') →
  trust a' other A B ∧ trust b' me B A ∧ (knows a' other ↔ knows a other) ∧ (knows b' me ↔ knows b me).
Proof.
  intros Hme [Hwa Hoa Hia Hva Hca] [Hwb Hob Hib Hvb Hcb] HA. unfold auth_exchange.
  destruct (if reaches l then _ else _) as [reply handled] eqn:Eb. intros (b1 & -> & [= <- <-])%outcome_bind_Ok.
  assert (Hb : trust b1 me B A ∧ a_store b1 = a_store b).
  { destruct (reaches l); [|simplify_eq; by split].
    destruct (AuthStreamHandler_change _ _ _ _ _ _ (wf_auto _ Hwb) Eb) as (Hi & Eo & Es). split; [|done]. split.
    - unfold a_conf. by rewrite Es.
    - by rewrite Eo.
    - done.
    - intros id Hid. destruct (Hi id Hid) as [->|?]; [done|by apply Hvb].
    - unfold confirmed_at, a_conf. by rewrite Es. }
  destruct Hb as [Htb Esb].
  destruct (SendAuthRequest_change other req (exchange_over l (reply ≫= carry_response)) a (conf_wf_canonical _ Hwa)) as (Ei & Ho & Hch).
  set (a1 := (SendAuthRequest _ _ _ a).2) in *. split_and!; [split|done|by eapply change_knows|unfold knows, a_conf; by rewrite Esb].
  - eapply kept_wf; [|exact Hwa]. by apply SendAuthRequest_kept, conf_wf_canonical.
  - done.
  - by rewrite Ei.
  - by rewrite Ei.
  - intros Hc1. destruct (change_confirmed (peer_String other) False a a1 other) as [?|[_ []]]; [|done|by apply Hca].
    eapply change_weaken; [|exact Hch]. intros p q Hq. unfold confirmed_if. rewrite Hq. by left.
Qed.

(** *** Actions that do not involve the other node *)

(** Nothing is gained that concerns [other]. *)
Record untouched (other : string) (a a' : Auth) : Prop := {
  un_out : is_Some (outgoingAuths a' !! other) → is_Some (outgoingAuths a !! other);
  un_in : ∀ id, is_Some (ingoingAuths a' !! id) → is_Some (ingoingAuths a !! id) ∨ (valid_peer id ∧ id ≠ other);
  un_confirmed : confirmed_at a' other → confirmed_at a other;
}.

#[local] Instance untouched_refl other : Reflexive (untouched other).
Proof. intros a. split; auto. Qed.

#[local] Instance untouched_trans other : Transitive (untouched other).
Proof. intros a1 a2 a3 [Ho1 Hi1 Hc1] [Ho2 Hi2 Hc2]. split; [auto| |auto]. intros id Hid. destruct (Hi2 id Hid); auto. Qed.

Lemma untouched_trust other a a' (A B : Prop) : untouched other a a' → conf_wf (a_conf a') → trust a other A B → trust a' other A B.
Proof.
  intros [Ho Hi Hc] Hw [_ Hoa Hia Hva Hca]. split; [done|auto| |by intros id [|[]]%Hi; auto|auto].
  intros Hin. destruct (Hi other Hin) as [|[_ []]]; auto.
Qed.

(** Only the entry under another key changed, or not the confirmation. *)
Lemma untouched_change other k P a a' :
  outgoingAuths a' = outgoingAuths a → ingoingAuths a' = ingoingAuths a →
  peer_change k P (KnownPeers (a_conf a)) (KnownPeers (a_conf a')) →
  (k ≠ peer_String other ∨ ∀ p q, P p q → same_confirmed p q) → untouched other a a'.
Proof.
  intros Eo Ei Hch Hk. split; [by rewrite Eo|intros id; rewrite Ei; by left|].
  intros Hc. destruct (change_confirmed k (k ≠ peer_String other) a a' other) as [?|[-> []]]; [|done|done|done].
  eapply change_weaken; [|exact Hch]. intros p q Hq Hq1. destruct Hk as [Hk|Hk]; [by right|]. left. by rewrite <- (Hk p q Hq).
Qed.

Lemma untouched_seen other now k a : untouched other a (with_store a (UpdatePeerLastSeen now k (a_store a))).
Proof.
  apply (untouched_change other k same_confirmed); [done|done| |by right]. unfold a_conf, UpdatePeerLastSeen. simpl.
  destruct (GetPeer k (conf (a_store a))) as [p []] eqn:Eg; [|by left]. destruct (get_peer_kept _ _ _ _ Eg) as [[_ Hp]|[[=] _]].
  right. exists p. eexists. by split_and!.
Qed.

Lemma untouched_status other now remote received a : canonical (a_conf a) → peer_String remote ≠ peer_String other →
  untouched other a (StatusStreamHandler now remote received (λ s, s) a).2.
Proof.
  intros Hc Hne. destruct (StatusStreamHandler _ _ _ _ a) as [reply a'] eqn:E.
  destruct (StatusStreamHandler_change _ _ _ _ _ _ Hc E) as (Ei & Ho & Hch & _).
  split; [auto|intros id; simpl; rewrite Ei; by left|]. intros Hc1. by destruct (change_confirmed _ _ _ _ _ Hch Hc1) as [?|[? _]].
Qed.

Lemma untouched_exchange other now remote p0 ex a : canonical (a_conf a) → knows a remote → peer_String remote ≠ peer_String other →
  untouched other a (ExchangeNewStatusInfo now remote p0 ex (λ s, s) a).2.
Proof.
  intros Hc Hk Hne. destruct (ExchangeNewStatusInfo _ _ _ _ _ a) as [[sent err] a'] eqn:E.
  destruct (Exchange_change _ _ _ _ _ _ _ _ Hc (or_introl Hk) E) as (Hi & Eo & Hch & _).
  split; [simpl; by rewrite Eo|intros id Hid; left; auto|]. intros Hc1. by destruct (change_confirmed _ _ _ _ _ Hch Hc1) as [?|[? _]].
Qed.

Lemma untouched_send other id req ex a : canonical (a_conf a) → peer_String id ≠ peer_String other →
  untouched other a (SendAuthRequest id req ex a).2.
Proof.
  intros Hc Hne. destruct (SendAuthRequest_change id req ex a Hc) as (Ei & Ho & Hch).
  split; [apply Ho; congruence|intros id'; rewrite Ei; by left|]. intros Hc1.
  destruct (change_confirmed (peer_String id) False a (SendAuthRequest id req ex a).2 other) as [?|[_ []]]; [|done..].
  eapply change_weaken; [|exact Hch]. intros p q Hq Hq1. left. by rewrite <- Hq.
Qed.

Lemma untouched_timer other now ex peers : ∀ a, canonical (a_conf a) → peer_String other ∉ peers →
  untouched other a (ExchangeStatusInfoWithAllKnownPeers now peers ex (λ s, s) a).
Proof.
  induction peers as [|k peers IH]; intros a Hc Hn; cbn [ExchangeStatusInfoWithAllKnownPeers]; [reflexivity|].
  apply not_elem_of_cons in Hn as [Hk Hn]. destruct (GetPeer k (a_conf a)) as [p []] eqn:Eg; [|by apply IH].
  destruct (get_peer_kept _ _ _ _ Eg) as [[_ Hp]|[[=] _]]. destruct (Hc _ _ Hp) as [_ Hs].
  assert (knows a (PeerId p)) by (unfold knows; rewrite Hs, Hp; by eexists).
  etrans; [apply untouched_exchange; [done|done|congruence]|]. apply IH; [|done].
  eapply kept_canonical; [by apply ExchangeNewStatusInfo_kept; [|apply mid_kept_id|]|done].
Qed.

Lemma untouched_retry other ex pending : ∀ a, canonical (a_conf a) → Forall (λ e, peer_String e.1 ≠ peer_String other) pending →
  untouched other a (retry_auth_requests pending ex a).
Proof.
  induction pending as [|[id auth] pending IH]; intros a Hc Hn; cbn [retry_auth_requests]; [reflexivity|].
  apply list.Forall_cons in Hn as [Hne Hn]. etrans; [by apply untouched_send|]. apply IH; [|done].
  eapply kept_canonical; [by apply SendAuthRequest_kept|done].
Qed.

Lemma untouched_connected other now id exAuth ex a : canonical (a_conf a) → peer_String id ≠ peer_String other →
  untouched other a (onPeerConnected now id exAuth ex (λ s, s) a).
Proof.
  intros Hc Hne. unfold onPeerConnected. destruct (GetPeer (peer_String id) (a_conf a)) as [p known] eqn:Eg.
  destruct (negb known && _); [reflexivity|]. set (a1 := with_store a _).
  assert (untouched other a a1 ∧ kept (a_conf a) (a_conf a1)) as [U1 K1] by (split; [apply untouched_seen|apply UpdatePeerLastSeen_kept]).
  set (a2 := match outgoingAuths a !! id with Some authPeer => _ | None => a1 end).
  assert (untouched other a a2 ∧ kept (a_conf a) (a_conf a2)) as [U2 K2].
  { unfold a2. destruct (outgoingAuths a !! id); [|done].
    split; (etrans; [eassumption|]); [apply untouched_send|apply SendAuthRequest_kept]; first [done|by eapply kept_canonical]. }
  destruct known; [|done]. etrans; [exact U2|]. apply untouched_exchange; [by eapply kept_canonical| |done].
  destruct (get_peer_kept _ _ _ _ Eg) as [[_ Hp]|[[=] _]]. destruct (kept_peers _ _ K2 _ _ Hp) as (p' & Hp' & _). by eexists.
Qed.

Lemma untouched_background other now id confirmed exAuth ex a : canonical (a_conf a) → knows a id → peer_String id ≠ peer_String other →
  untouched other a (AddPeer_background now id confirmed exAuth ex (λ s, s) a).
Proof.
  intros Hc [p Hp] Hne. unfold AddPeer_background. set (a1 := if confirmed then a else _).
  assert (untouched other a a1 ∧ kept (a_conf a) (a_conf a1)) as [U1 K1].
  { unfold a1. destruct confirmed; [split; reflexivity|]. split; [by apply untouched_send|by apply SendAuthRequest_kept]. }
  etrans; [exact U1|]. apply untouched_exchange; [by eapply kept_canonical| |done].
  destruct (kept_peers _ _ K1 _ _ Hp) as (p' & Hp' & _). by eexists.
Qed.

(** The same peers and requests. *)
Lemma untouched_same other a a' : KnownPeers (a_conf a') = KnownPeers (a_conf a) → outgoingAuths a' = outgoingAuths a →
  ingoingAuths a' = ingoingAuths a → untouched other a a'.
Proof. intros Ek Eo Ei. apply (untouched_change other "" same_confirmed); [done|done|by left|by right]. Qed.

Lemma untouched_update other bind a r a' : conf_wf (a_conf a) →
  UpdatePeerSettings (λ s, s) (λ s, s) bind a = Ok (r, a') → untouched other a a'.
Proof.
  intros Hw Hr. destruct (ok_response r) eqn:Er; [|by rewrite (UpdatePeerSettings_fails _ _ _ _ Hr Er)].
  destruct (UpdatePeerSettings_ok _ _ _ _ _ _ Hr Er) as (req & p & -> & -> & Hp & _ & _ & _ & _ & ->).
  destruct (wf_peers _ Hw _ p Hp) as (Hk & _). apply (untouched_change other (ups_PeerID req) same_confirmed); [done|done| |by right].
  right. exists p. eexists. split; [done|]. simpl. rewrite Hk. by split.
Qed.

Lemma untouched_elsewhere other x p p' a a' : conf_wf (a_conf a) → elsewhere other x → possible x (p, a) →
  run_action (λ s, s) x (p, a) = Ok (p', a') → untouched other a a'.
Proof.
  intros Hw He Hpos. pose proof (conf_wf_canonical _ Hw) as Hc. destruct x as [e|now id cf exA ex|bind|now bind|now es ex bind|now ex bind|bind|bind]; try done; simpl.
  - intros (a1 & E & [= _ <-])%outcome_bind_Ok.
    destruct e as [now remote rc|now remote rc|now id exA ex|now id|now ps ex|pn ex]; simpl in E, He; try injection E as <-.
    + by apply untouched_status.
    + destruct (AuthStreamHandler now remote rc a) as [reply h] eqn:Eh. simpl in E. subst h.
      destruct (AuthStreamHandler_change _ _ _ _ _ _ (wf_auto _ Hw) Eh) as (Hi & Eo & Es). destruct He as [Hv Hne].
      split; [by rewrite Eo| |unfold confirmed_at, a_conf; by rewrite Es]. intros id [->|?]%Hi; [right|left]; done.
    + by apply untouched_connected.
    + unfold onPeerDisconnected. destruct (GetPeer _ _) as [q []]; simpl; [apply untouched_seen|reflexivity].
    + by apply untouched_timer.
    + by apply untouched_retry.
  - intros [= _ <-]. by apply untouched_background.
  - intros ([r a1] & E & [= _ <-])%outcome_bind_Ok. by eapply untouched_update.
  - intros ([r a1] & [[_ ->]|(req & _ & _ & [= _ <-])]%bound_Ok & [= _ <-])%outcome_bind_Ok; [reflexivity|]. by apply untouched_same.
  - intros ([r a1] & [[_ ->]|(req & _ & _ & Hb)]%bound_Ok & [= _ <-])%outcome_bind_Ok; [reflexivity|].
    apply untouched_same; destruct (GetPeer _ _) as [kp ok]; destruct (negb ok), (negb (kp_AllowedUsingAsExitNode kp));
      case_decide; by simplify_eq/=.
Qed.

(** *** Handlers *)

Lemma AddPeer_untouched other now id name alias confirmed ip a a' :
  AddPeer now id name alias confirmed ip a = Ok a' → (confirmed = true → peer_String id ≠ peer_String other) → untouched other a a'.
Proof.
  intros E Hne. destruct (AddPeer_known _ _ _ _ _ _ _ _ E) as (ip' & _ & Hk).
  assert (ingoingAuths a' = ingoingAuths a ∧ outgoingAuths a' = outgoingAuths a) as [Ei Eo].
  { unfold AddPeer in E. destruct (GetPeer _ _) as [? []]; [done|]. destruct (negb _); [done|].
    by apply outcome_bind_Ok in E as (? & _ & [= <-]). }
  split; [by rewrite Eo|intros id'; rewrite Ei; by left|]. intros (p & Hp & Hcf). rewrite Hk, lookup_insert in Hp.
  case_decide as Heq; [|by exists p]. simplify_eq. simpl in Hcf. by destruct (Hne Hcf).
Qed.

Lemma BlockPeer_untouched other now id name a :
  untouched other a (BlockPeer now id name (exchange_over no_link None) (λ s, s) a).2.
Proof.
  destruct (BlockPeer_store now id name (exchange_over no_link None) (λ s, s) a) as [Ec Ei].
  destruct (UpsertBlockedPeer_conf now (peer_String id) name (a_store a)) as [Ek _].
  split; [done| |unfold confirmed_at; by rewrite Ec, Ek]. intros id' [v Hv]. rewrite Ei in Hv. apply lookup_delete_Some in Hv as [_ ?]. left. by exists v.
Qed.

Lemma invite_untouched other now bind a r a' : SendFriendRequest now bind a = Ok (r, a') → untouched other a a'.
Proof.
  intros [[_ ->]|(req & -> & _ & Hb)]%bound_Ok; [reflexivity|]. destruct (peer_Decode _) as [id|]; [|by simplify_eq].
  case_decide; [by simplify_eq|]. destruct (add_response_Ok _ _ _ _ Hb) as [[_ ->]|[_ E]]; [reflexivity|]. by eapply AddPeer_untouched.
Qed.

Lemma forget_untouched other now bind p a r p' a' :
  Handler_RemovePeer now (exchange_over no_link None) (λ s, s) bind p a = (r, p', a') → untouched other a a'.
Proof.
  intros Hr. unfold Handler_RemovePeer in Hr. destruct bind as [e|req]; [by simplify_eq|]. destruct (Validate _); [by simplify_eq|].
  destruct (peer_Decode _) as [id|]; [|by simplify_eq]. unfold RemovePeer in Hr.
  destruct (GetPeer (pir_PeerID req) (conf (a_store a))) as [kp []] eqn:Eg; cbn [negb] in Hr; apply (f_equal snd) in Hr; cbn [snd] in Hr; subst a'; [|by apply untouched_same].
  etrans; [|apply BlockPeer_untouched]. split; [done|by left|]. intros (q & Hq & Hcf). exists q. split; [|done].
  simpl in Hq. by apply lookup_delete_Some in Hq as [_ ?].
Qed.

(** Accepting a request counts as its sender's consent. *)
Lemma answer_trust other now es bind a r a' (A B : Prop) : valid_peer other → trust a other A B → ranges (ingoingAuths a) es →
  AcceptFriend now es (exchange_over no_link None) (λ s, s) bind a = Ok (r, a') → trust a' other A B.
Proof.
  intros Hvo Ht Hes Hr. pose proof (answer_wf _ _ _ _ _ _ _ _ Hr (tr_wf _ _ _ _ Ht)) as Hw.
  destruct (bound_Ok _ _ _ _ _ _ Hr) as [[_ ->]|(req & -> & _ & Hb)]; [done|].
  destruct (peer_Decode (frr_PeerID req)) as [id|] eqn:Ed; [|by simplify_eq]. case_decide; [by simplify_eq|].
  destruct (GetIngoingAuthRequests es !! frr_PeerID req) as [auth|] eqn:Eg; [|by simplify_eq].
  destruct (frr_Decline req); [injection Hb as _ <-; eapply untouched_trust; [apply BlockPeer_untouched|done|done]|].
  destruct (add_response_Ok _ _ _ _ Hb) as [[_ ->]|[_ E]]; [done|].
  destruct (decide (peer_String id = peer_String other)) as [Hid|Hne]; [|by eapply untouched_trust; [eapply AddPeer_untouched|..]].
  apply peer_String_inj in Hid as ->; [|by eapply peer_Decode_valid|done].
  destruct (GetIngoingAuthRequests_Some _ _ _ _ Hes Eg) as (id & Hin & Hs). destruct Ht as [_ Ho Hi Hv Hc].
  assert (B) as HB.
  { apply Hi. assert (id = other) as <-; [|by eexists]. rewrite <- Hs, peer_Decode_String in Ed by (apply Hv; by eexists). congruence. }
  assert (ingoingAuths a' = ingoingAuths a ∧ outgoingAuths a' = outgoingAuths a) as [Ei Eo].
  { unfold AddPeer in E. destruct (GetPeer _ _) as [? []]; [done|]. destruct (negb _); [done|].
    by apply outcome_bind_Ok in E as (? & _ & [= <-]). }
  split; [done|by rewrite Eo|done|by rewrite Ei|done].
Qed.

(** *** Every step *)

Definition both (me other : string) (a b : Auth) (A B : Prop) : Prop :=
  trust a other A B ∧ trust b me B A ∧ (knows a other → A) ∧ (knows b me → B).

Lemma connected_both l1 l2 now me other a b a' b' (A B : Prop) : valid_peer me → both me other a b A B →
  connected l1 l2 now me other a b = Ok (a', b') → both me other a' b' A B.
Proof.
  intros Hme (Hta & Htb & HA & HB). unfold connected.
  destruct (GetPeer (peer_String other) (a_conf a)) as [p known] eqn:Eg. destruct (negb known && _) eqn:En; [by intros [= <- <-]|].
  set (a1 := with_store a _).
  assert (trust a1 other A B ∧ (knows a1 other ↔ knows a other)) as [Hta1 Hk1].
  { assert (kept (a_conf a) (a_conf a1)) as Hkept by apply UpdatePeerLastSeen_kept.
    split; [eapply untouched_trust; [apply untouched_seen| |done]; eapply kept_wf; [done|apply Hta]|].
    unfold knows. by rewrite <- !elem_of_dom, (kept_dom _ _ Hkept). }
  intros ([a2 b2] & Hmid & Hend)%outcome_bind_Ok.
  assert (trust a2 other A B ∧ trust b2 me B A ∧ (knows a2 other ↔ knows a other) ∧ (knows b2 me ↔ knows b me)) as (Hta2 & Htb2 & Hk2 & Hkb2).
  { destruct (outgoingAuths a !! other) as [req|] eqn:Eo; [|by simplify_eq; split_and!].
    destruct (auth_exchange_trust _ _ _ _ _ _ _ _ _ A B Hme Hta1 Htb (tr_out _ _ _ _ Hta ltac:(by eexists)) Hmid) as (? & ? & Hk & ?).
    split_and!; [done|done|by rewrite Hk|done]. }
  destruct known; [|simplify_eq; split_and!; [done|done|by rewrite Hk2|by rewrite Hkb2]].
  injection Hend as Hend. destruct (get_peer_kept _ _ _ _ Eg) as [[_ Hp]|[[=] _]].
  destruct (status_exchange_trust _ _ _ _ _ _ _ _ _ A B Hta2 Htb2 ltac:(by rewrite Hk2) ltac:(by rewrite Hkb2)
              ltac:(left; rewrite Hk2; by eexists) Hend) as (? & ? & Hk & Hkb).
  split_and!; [done|done|by rewrite Hk, Hk2|by rewrite Hkb, Hkb2].
Qed.

Lemma background_both l1 l2 now me other confirmed a b a' b' (A B : Prop) : valid_peer me → both me other a b A B → knows a other →
  background l1 l2 now me other confirmed a b = Ok (a', b') → both me other a' b' A B.
Proof.
  intros Hme (Hta & Htb & HA & HB) Hk. unfold background. intros ([a2 b2] & Hmid & Hend)%outcome_bind_Ok. injection Hend as Hend.
  assert (trust a2 other A B ∧ trust b2 me B A ∧ (knows a2 other ↔ knows a other) ∧ (knows b2 me ↔ knows b me)) as (Hta2 & Htb2 & Hk2 & Hkb2).
  { destruct confirmed; [by simplify_eq; split_and!|]. by eapply auth_exchange_trust; eauto. }
  destruct (status_exchange_trust _ _ _ _ _ _ _ _ _ A B Hta2 Htb2 ltac:(by rewrite Hk2) ltac:(by rewrite Hkb2)
              ltac:(left; by rewrite Hk2) Hend) as (? & ? & Hk' & Hkb').
  split_and!; [done|done|by rewrite Hk', Hk2|by rewrite Hkb', Hkb2].
Qed.

Lemma node_step_both me other a b a' b' (A B : Prop) : valid_peer me → valid_peer other → both me other a b A B →
  node_step me other (a, b) (a', b') → both me other a' b' (A ∨ knows a' other) (B ∨ knows b' me).
Proof.
  intros Hme Hother Hboth Hstep. assert (both me other a' b' (A ∨ knows a' other) B) as (Ht1 & Ht2 & Hk1 & Hk2);
    [|split_and!; [by eapply trust_mono; [..|exact Ht1]; auto|by eapply trust_mono; [..|exact Ht2]; auto|auto|auto]].
  assert (Hsame : b' = b → trust a' other A B → both me other a' b' (A ∨ knows a' other) B).
  { intros -> Ht. destruct Hboth as (_ & Htb & _ & HB). split_and!; [by eapply trust_mono; [..|exact Ht]; auto
      |by eapply trust_mono; [..|exact Htb]; auto|auto|auto]. }
  assert (Hmono : both me other a' b' A B → both me other a' b' (A ∨ knows a' other) B).
  { intros (Hta & Htb & _ & HB). split_and!; [by eapply trust_mono; [..|exact Hta]; auto
      |by eapply trust_mono; [..|exact Htb]; auto|auto|auto]. }
  pose proof Hboth as (Hta & Htb & HA & HB). pose proof (tr_wf _ _ _ _ Hta) as Hw.
  inversion Hstep; subst; clear Hstep; [apply Hsame; [done|]..|apply Hmono|apply Hmono|apply Hmono|apply Hmono|apply Hmono|apply Hsame; [done|]].
  - eapply untouched_trust; [by eapply invite_untouched|by eapply invite_wf|done].
  - by eapply answer_trust.
  - eapply untouched_trust; [by eapply forget_untouched|by eapply forget_wf|done].
  - by eapply background_both.
  - match goal with H : status_exchange _ _ _ _ _ _ _ = _ |- _ =>
      destruct (status_exchange_trust _ _ _ _ _ _ _ _ _ A B Hta Htb HA HB ltac:(by right) H) as (? & ? & Hk & Hkb) end.
    split_and!; [done|done|by rewrite Hk|by rewrite Hkb].
  - by eapply connected_both.
  - match goal with H : status_exchange _ _ _ _ _ _ _ = _ |- _ =>
      destruct (status_exchange_trust _ _ _ _ _ _ _ _ _ A B Hta Htb HA HB ltac:(left; by eexists) H) as (? & ? & Hk & Hkb) end.
    split_and!; [done|done|by rewrite Hk|by rewrite Hkb].
  - match goal with H : auth_exchange _ _ _ _ _ _ _ = _ |- _ =>
      destruct (auth_exchange_trust _ _ _ _ _ _ _ _ _ A B Hme Hta Htb (tr_out _ _ _ _ Hta ltac:(by eexists)) H) as (? & ? & Hk & Hkb) end.
    split_and!; [done|done|by rewrite Hk|by rewrite Hkb].
  - match goal with H : run_action _ ?x (?p, _) = _ |- _ => pose proof (run_action_wf (λ s, s) x (p, a) _ mid_kept_id Hw ltac:(done) H) as Hw' end.
    eapply untouched_trust; [|done|done]. eapply untouched_elsewhere; try eassumption.
Qed.
End trust.

(** Two well-formed nodes that have nothing to do with each other. *)
Record strangers `{PeerCodecLaws} `{Unicode} (ida idb : string) (a b : Auth) : Prop := {
  st_ids : valid_peer ida ∧ valid_peer idb;
  st_wf : conf_wf (a_conf a) ∧ conf_wf (a_conf b);
  st_valid : (∀ id, is_Some (ingoingAuths a !! id) → valid_peer id) ∧ (∀ id, is_Some (ingoingAuths b !! id) → valid_peer id);
  st_known : ¬ knows a idb ∧ ¬ knows b ida;
  st_requests_a : outgoingAuths a !! idb = None ∧ ingoingAuths a !! idb = None;
  st_requests_b : outgoingAuths b !! ida = None ∧ ingoingAuths b !! ida = None;
}.

(** The first, or the second node had the other among its peers. *)
Definition a_added `{PeerCodec} (idb : string) (h : list (Auth * Auth)) : Prop := ∃ s, s ∈ h ∧ knows s.1 idb.
Definition b_added `{PeerCodec} (ida : string) (h : list (Auth * Auth)) : Prop := ∃ s, s ∈ h ∧ knows s.2 ida.

Lemma added_grow `{PeerCodec} ida idb s h :
  (a_added idb h ∨ knows s.1 idb → a_added idb (s :: h)) ∧ (b_added ida h ∨ knows s.2 ida → b_added ida (s :: h)).
Proof. split; (intros [(s1 & Hs & Hk)|Hk]; [exists s1; split; [by right|done]|exists s; split; [by left|done]]). Qed.

Lemma friends_run_both `{Multiaddrs} `{!MaddrParts} `{PeerCodecLaws} `{Unicode} `{Validator} `{DnsLib}
    `{StatusLaws} `{Json AuthPeer} `{Json AuthPeerResponse} ida idb a0 b0 h :
  strangers ida idb a0 b0 → friends_run ida idb (a0, b0) h →
  ∃ a b h', h = (a, b) :: h' ∧ both ida idb a b (a_added idb h) (b_added ida h).
Proof.
  intros [[Hva Hvb] [Hwa Hwb] [Hia Hib] [Hka Hkb] [Eoa Eia] [Eob Eib]].
  induction 1 as [|l a1 b1 a2 b2 _ (? & ? & ? & [= <- <- <-] & Hb) Hstep|l a1 b1 a2 b2 _ (? & ? & ? & [= <- <- <-] & Hb) Hstep].
  - exists a0, b0, []. split; [done|]. split_and!; [split; [done| | |done|]|split; [done| | |done|]|by intros ?%Hka|by intros ?%Hkb];
      rewrite ?Eoa, ?Eia, ?Eob, ?Eib; try (by intros [? ?]); intros (p & Hp & _); exfalso; [apply Hka|apply Hkb]; by exists p.
  - exists a2, b2, ((a1, b1) :: l). split; [done|]. destruct (added_grow ida idb (a2, b2) ((a1, b1) :: l)) as [HgA HgB].
    apply (node_step_both ida idb _ _ _ _ (a_added idb ((a1, b1) :: l)) (b_added ida ((a1, b1) :: l))) in Hstep as (H1' & H2' & H3' & H4'); [|done..].
    split_and!; [..|eauto|eauto]; (eapply trust_mono; [..|eassumption]; done).
  - exists a2, b2, ((a1, b1) :: l). split; [done|]. destruct Hb as (Hb1 & Hb2 & Hb3 & Hb4).
    destruct (added_grow ida idb (a2, b2) ((a1, b1) :: l)) as [HgA HgB].
    apply (node_step_both idb ida _ _ _ _ (b_added ida ((a1, b1) :: l)) (a_added idb ((a1, b1) :: l))) in Hstep as (H1' & H2' & H3' & H4');
      [|done|done|by split_and!].
    split_and!; [..|eauto|eauto]; (eapply trust_mono; [..|eassumption]; done).
Qed.

(** ** Properties *)

(** C11. No friendship without both. Two nodes that begin as strangers, on whose requests and
    exchanges the network may lose any part, with any requests to either daemon, any
    traffic with other peers and any order of all this: when one of them counts the other
    as confirmed, the other had added it at some time before. *)
Theorem confirmation_needs_consent `{Multiaddrs} `{!MaddrParts} `{PeerCodecLaws} `{Unicode} `{Validator} `{DnsLib}
    `{StatusLaws} `{Json AuthPeer} `{Json AuthPeerResponse} ida idb a0 b0 h a b :
  strangers ida idb a0 b0 → friends_run ida idb (a0, b0) ((a, b) :: h) →
  (confirmed_at a idb → b_added ida ((a, b) :: h)) ∧ (confirmed_at b ida → a_added idb ((a, b) :: h)).
Proof.
  intros Hs Hrun. destruct (friends_run_both _ _ _ _ _ Hs Hrun) as (a1 & b1 & h' & [= <- <- <-] & Ht1 & Ht2 & _ & _).
  split; [apply Ht1|apply Ht2].
Qed.

Section delivered.
Context `{PeerCodecLaws} `{Unicode} `{Validator}.
Context `{Json PeerStatusInfo} `{!JsonLaws PeerStatusInfo} `{Json AuthPeer} `{!JsonLaws AuthPeer}
  `{Json AuthPeerResponse} `{!JsonLaws AuthPeerResponse}.

Lemma carry_status_valid m : json_valid m → carry_status m = Some m.
Proof. intros Hm. unfold carry_status, ReceiveStatus, SendStatus. rewrite <- (app_nil_r ([] ++ _)). simpl. by rewrite json_roundtrip. Qed.
Lemma carry_auth_valid m : json_valid m → carry_auth m = Some m.
Proof. intros Hm. unfold carry_auth, ReceiveAuth, SendAuth. rewrite <- (app_nil_r ([] ++ _)). simpl. by rewrite json_roundtrip. Qed.
Lemma carry_response_valid m : json_valid m → carry_response m = Some m.
Proof.
  intros Hm. unfold carry_response, ReceiveAuthResponse, SendAuthResponse. rewrite <- (app_nil_r ([] ++ _)). simpl. by rewrite json_roundtrip.
Qed.

Lemma process_lookup now peer info s :
  KnownPeers (conf (processPeerStatusInfo now peer info s)) !! kp_PeerID peer =
    Some (if psi_Declined info then declined_peer now peer else accepted_peer now peer info (conf s)) ∧
  P2pNode (conf (processPeerStatusInfo now peer info s)) = P2pNode (conf s).
Proof.
  unfold processPeerStatusInfo. destruct (psi_Declined info).
  - case_decide; simpl; (split; [by rewrite lookup_insert_eq|done]).
  - repeat case_match; simpl; (split; [by rewrite lookup_insert_eq|done]).
Qed.

(** A status exchange that is delivered between nodes that know each other: both take over
    what the other said. *)
Lemma status_delivered now me other p0 a b p q :
  canonical (a_conf a) → canonical (a_conf b) →
  KnownPeers (a_conf a) !! peer_String other = Some p → BlockedPeers (a_conf a) !! peer_String other = None →
  KnownPeers (a_conf b) !! peer_String me = Some q → BlockedPeers (a_conf b) !! peer_String me = None →
  let to_b := createPeerInfo (a_conf a) p0 (Name (P2pNode (a_conf a))) false in
  let to_a := createPeerInfo (a_conf b) q (Name (P2pNode (a_conf b))) false in
  json_valid to_b → json_valid to_a →
  let '(a', b') := status_exchange good_link now me other p0 a b in
  KnownPeers (a_conf a') !! peer_String other = Some (accepted_peer now p to_a (a_conf a)) ∧
  KnownPeers (a_conf b') !! peer_String me = Some (accepted_peer now q to_b (a_conf b)) ∧
  ingoingAuths a' = delete other (ingoingAuths a) ∧ outgoingAuths b' = delete me (outgoingAuths b).
Proof.
  intros Hca Hcb Hp Hba Hq Hbb to_b to_a Hvb Hva. destruct (Hca _ _ Hp) as [Hkp _], (Hcb _ _ Hq) as [Hkq _].
  unfold status_exchange, ExchangeNewStatusInfo at 1, StatusStreamHandler, GetPeer, GetBlockedPeer. cbn -[createPeerInfo processPeerStatusInfo].
  unfold a_conf in *. cbn -[createPeerInfo processPeerStatusInfo]. rewrite Hba, Hq, Hbb. cbn -[createPeerInfo processPeerStatusInfo].
  fold to_b. rewrite (carry_status_valid to_b) by done. cbn -[createPeerInfo processPeerStatusInfo]. fold to_a.
  unfold ExchangeNewStatusInfo, GetPeer, GetBlockedPeer, a_conf. cbn -[createPeerInfo processPeerStatusInfo].
  rewrite Hba. cbn -[createPeerInfo processPeerStatusInfo]. rewrite (carry_status_valid to_a) by done.
  cbn -[createPeerInfo processPeerStatusInfo]. rewrite Hp. cbn -[createPeerInfo processPeerStatusInfo].
  destruct (process_lookup now p to_a (a_store a)) as [E1 _], (process_lookup now q to_b (a_store b)) as [E2 _].
  rewrite Hkp in E1. rewrite Hkq in E2. split_and!; [exact E1|exact E2|done|done].
Qed.

(** To a stranger nothing is answered. *)
Lemma status_to_stranger now me other p0 a b :
  KnownPeers (a_conf b) !! peer_String me = None → BlockedPeers (a_conf b) !! peer_String me = None →
  status_exchange good_link now me other p0 a b = (with_ingoing a (delete other (ingoingAuths a)), b).
Proof.
  intros Hk Hb. unfold status_exchange, StatusStreamHandler, GetPeer, GetBlockedPeer. rewrite Hk, Hb. cbn [negb andb fst snd].
  unfold ExchangeNewStatusInfo, GetBlockedPeer. cbn. by case_match.
Qed.

(** A request that is delivered to a stranger waits there for an answer. *)
Lemma auth_to_stranger now me other req a b :
  KnownPeers (a_conf b) !! peer_String me = None → BlockedPeers (a_conf b) !! peer_String me = None →
  AutoAcceptAuthRequests (P2pNode (a_conf b)) = false → json_valid req → json_valid (mkAuthPeerResponse false false) →
  auth_exchange good_link now me other req a b =
    Ok (with_outgoing a (<[other := req]> (outgoingAuths a)),
        mkAuth (<[me := req]> (ingoingAuths b)) (outgoingAuths b) (a_store b) (a_emitted b ++ [(peer_String me, req)])).
Proof.
  intros Hk Hb Hauto Hv Hr. unfold auth_exchange, AuthStreamHandler, GetPeer, GetBlockedPeer. cbn. rewrite carry_auth_valid by done.
  rewrite Hk, Hb, Hauto. cbn. unfold SendAuthRequest. cbn. by rewrite carry_response_valid.
Qed.
End delivered.

(** What two nodes that become friends know of each other: confirmed, not declined, with
    the name the other goes by and the alias the owner chose. *)
Definition friend_entry `{PeerCodec} (a : Auth) (id name alias : string) : Prop :=
  ∃ p, KnownPeers (a_conf a) !! peer_String id = Some p ∧
    kp_Confirmed p = true ∧ kp_Declined p = false ∧ kp_Name p = name ∧ kp_Alias p = alias.

(** What [AddPeer] changes. *)
Lemma AddPeer_conf `{PeerCodec} `{Unicode} now id name alias confirmed ip a a' :
  AddPeer now id name alias confirmed ip a = Ok a' →
  ∃ ip', a_conf a' = with_KnownPeers (with_BlockedPeers (a_conf a) (delete (peer_String id) (BlockedPeers (a_conf a))))
                       (<[peer_String id := new_peer now (peer_String id) name (TrimSpace alias) ip' confirmed]> (KnownPeers (a_conf a))) ∧
    ingoingAuths a' = ingoingAuths a ∧ outgoingAuths a' = outgoingAuths a.
Proof.
  unfold AddPeer. destruct (GetPeer _ _) as [? []]; [done|]. destruct (negb _); [done|]. intros (ip' & _ & [= <-])%outcome_bind_Ok.
  exists ip'. split; [|done]. unfold a_conf. cbn -[new_peer]. unfold RemoveBlockedPeer, GetBlockedPeer.
  destruct (BlockedPeers (conf (a_store a)) !! peer_String id) eqn:Eb; [done|]. rewrite delete_id by done. by destruct (conf (a_store a)).
Qed.

(** A status names its sender and the exit node it uses. *)
Definition status_texts (name exit_node : string) (m : PeerStatusInfo) : Prop := psi_Name m = name ∧ psi_UsingPeerID m = exit_node.

(** Accepting a request of a node that has us among its peers, delivered to it, makes
    friends. *)
Lemma answer_makes_friends `{PeerCodecLaws} `{Unicode} `{Validator}
    `{Json PeerStatusInfo} `{!JsonLaws PeerStatusInfo} `{Json AuthPeer} `{!JsonLaws AuthPeer}
    `{Json AuthPeerResponse} `{!JsonLaws AuthPeerResponse} now ida idb a b es rep b' p :
  valid_peer ida → conf_wf (a_conf a) → conf_wf (a_conf b) →
  KnownPeers (a_conf a) !! peer_String idb = Some p → BlockedPeers (a_conf a) !! peer_String idb = None →
  (∀ m, status_texts (Name (P2pNode (a_conf a))) (UsingPeerID (SOCKS5 (a_conf a))) m → json_valid m) →
  (∀ m, status_texts (Name (P2pNode (a_conf b))) (UsingPeerID (SOCKS5 (a_conf b))) m → json_valid m) →
  frr_PeerID rep = peer_String ida → frr_Decline rep = false →
  AcceptFriend now es (exchange_over no_link None) (λ s, s) (inr rep) b = Ok (NoContent, b') →
  ∃ a2 b2, background good_link good_link now idb ida true b' a = Ok (b2, a2) ∧
    friend_entry a2 idb (Name (P2pNode (a_conf b))) (kp_Alias p) ∧
    friend_entry b2 ida (Name (P2pNode (a_conf a))) (TrimSpace (frr_Alias rep)) ∧
    outgoingAuths a2 !! idb = None ∧ ingoingAuths b2 !! ida = None.
Proof.
  intros Hva Hwa Hwb Hp Hblk Hja Hjb Hid Hdec Hacc. pose proof (answer_wf _ _ _ _ _ _ _ _ Hacc Hwb) as Hwb'.
  destruct (wf_peers _ Hwa _ _ Hp) as (_ & _ & Ha).
  destruct (bound_Ok _ _ _ _ _ _ Hacc) as [[[=] _]|(rep' & [= <-] & Hf & Hbody)]. rewrite Hid, peer_Decode_String in Hbody by done.
  assert (TrimSpace (frr_Alias rep) ≠ "") as Ha' by (eapply name_field_trim; [exact Hf|right; by left]).
  case_decide; [done|]. destruct (GetIngoingAuthRequests es !! peer_String ida) as [auth|]; [|done]. rewrite Hdec in Hbody.
  apply add_response_Ok in Hbody as [[[=] _]|[_ Hadd]].
  destruct (AddPeer_conf _ _ _ _ _ _ _ _ Hadd) as (ip & Ec & _ & _). set (q := new_peer now _ _ _ ip true) in Ec.
  assert (Hq : KnownPeers (a_conf b') !! peer_String ida = Some q) by (rewrite Ec; simpl; by rewrite lookup_insert_eq).
  unfold background. cbn [mbind outcome_bind]. unfold GetPeer. rewrite Hq. cbn [fst].
  pose proof (status_delivered now idb ida q b' a q p (conf_wf_canonical _ Hwb') (conf_wf_canonical _ Hwa) Hq) as Hst.
  destruct (status_exchange good_link now idb ida q b' a) as [b2 a2].
  destruct Hst as (Hb2 & Ha2 & Eib & Eoa); [rewrite Ec; simpl; by rewrite lookup_delete_eq|done|done|apply Hjb; by rewrite Ec|by apply Hja|].
  exists a2, b2. split; [done|]. split_and!.
  - eexists. split; [exact Ha2|]. unfold accepted_peer. simpl. rewrite decide_False by done. split_and!; try done. by rewrite Ec.
  - eexists. split; [exact Hb2|]. unfold accepted_peer. simpl. by rewrite decide_False.
  - rewrite Eoa. apply lookup_delete_eq.
  - rewrite Eib. apply lookup_delete_eq.
Qed.

(** C12. A friend request that is delivered and accepted makes friends. The node that asked has
    the other unconfirmed and the request waits on the other side; after it is accepted
    there, each side has the other as a confirmed peer under the name it goes by and the
    alias its owner chose, and no request is pending any more. *)
Theorem friendship_established `{PeerCodecLaws} `{Unicode} `{Validator}
    `{Json PeerStatusInfo} `{!JsonLaws PeerStatusInfo} `{Json AuthPeer} `{!JsonLaws AuthPeer}
    `{Json AuthPeerResponse} `{!JsonLaws AuthPeerResponse} now ida idb a b req a1 :
  let name_a := Name (P2pNode (a_conf a)) in
  let name_b := Name (P2pNode (a_conf b)) in
  valid_peer ida → valid_peer idb → conf_wf (a_conf a) → conf_wf (a_conf b) →
  KnownPeers (a_conf b) !! peer_String ida = None → BlockedPeers (a_conf b) !! peer_String ida = None →
  (∀ m, status_texts name_a (UsingPeerID (SOCKS5 (a_conf a))) m → json_valid m) →
  (∀ m, status_texts name_b (UsingPeerID (SOCKS5 (a_conf b))) m → json_valid m) →
  json_valid (mkAuthPeer name_a) → (∀ m : AuthPeerResponse, json_valid m) →
  peer_Decode (fr_PeerID req) = Some idb → SendFriendRequest now (inr req) a = Ok (NoContent, a1) →
  ∃ a2 b2, background good_link good_link now ida idb false a1 b = Ok (a2, b2) ∧
    ingoingAuths b2 !! ida = Some (mkAuthPeer name_a) ∧
    (∃ p, KnownPeers (a_conf a2) !! peer_String idb = Some p ∧ kp_Confirmed p = false) ∧
    ∀ now' es rep b3, ranges (ingoingAuths b2) es → frr_PeerID rep = peer_String ida → frr_Decline rep = false →
      AcceptFriend now' es (exchange_over no_link None) (λ s, s) (inr rep) b2 = Ok (NoContent, b3) →
      ∃ a4 b4, background good_link good_link now' idb ida true b3 a2 = Ok (b4, a4) ∧
        friend_entry a4 idb name_b (TrimSpace (fr_Alias req)) ∧ friend_entry b4 ida name_a (TrimSpace (frr_Alias rep)) ∧
        outgoingAuths a4 !! idb = None ∧ ingoingAuths b4 !! ida = None.
Proof.
  intros name_a name_b Hva Hvb Hwa Hwb Hkb Hbb Hja Hjb Hjauth Hjr Hd Hreq.
  pose proof (invite_wf _ _ _ _ _ Hreq Hwa) as Hwa1.
  destruct (bound_Ok _ _ _ _ _ _ Hreq) as [[[=] _]|(req' & [= <-] & Hf & Hbody)]. rewrite Hd in Hbody.
  assert (TrimSpace (fr_Alias req) ≠ "") as Ha by (eapply name_field_trim; [exact Hf|right; by left]).
  case_decide; [done|]. apply add_response_Ok in Hbody as [[[=] _]|[_ Hadd]].
  destruct (AddPeer_conf _ _ _ _ _ _ _ _ Hadd) as (ip & Ec & Ei & Eo). set (p := new_peer now _ _ _ ip false) in Ec.
  set (a2 := with_ingoing (with_outgoing a1 (<[idb := mkAuthPeer name_a]> (outgoingAuths a1))) (delete idb (ingoingAuths a1))).
  set (b2 := mkAuth (<[ida := mkAuthPeer name_a]> (ingoingAuths b)) (outgoingAuths b) (a_store b)
               (a_emitted b ++ [(peer_String ida, mkAuthPeer name_a)])).
  assert (Hpa : KnownPeers (a_conf a2) !! peer_String idb = Some p).
  { change (a_conf a2) with (a_conf a1). rewrite Ec. simpl. by rewrite lookup_insert_eq. }
  exists a2, b2. split_and!.
  - unfold background. replace (Name (P2pNode (a_conf a1))) with name_a by (by rewrite Ec).
    rewrite auth_to_stranger by (done || apply Hwb). cbn [mbind outcome_bind]. by rewrite status_to_stranger.
  - simpl. by rewrite lookup_insert_eq.
  - by exists p.
  - intros now' es rep b3 _ Hid Hdec Hacc. change (a_conf b) with (a_conf b2) in Hjb, Hwb.
    apply (answer_makes_friends now' ida idb a2 b2 es rep b3 p) in Hacc as (a4 & b4 & Hbg & Hfa & Hfb & Ho & Hi); try done.
    + exists a4, b4. replace name_a with (Name (P2pNode (a_conf a2))) by (change (a_conf a2) with (a_conf a1); by rewrite Ec). done.
    + change (a_conf a2) with (a_conf a1). rewrite Ec. simpl. by rewrite lookup_delete_eq.
    + change (a_conf a2) with (a_conf a1). by rewrite Ec.
Qed.

(** A node that blocks a peer tells it so, and that is all the peer learns. *)
Lemma status_declines `{PeerCodecLaws} `{Unicode} `{Json PeerStatusInfo} `{!JsonLaws PeerStatusInfo} now me other p0 a b q :
  canonical (a_conf b) → json_valid (mkPeerStatusInfo "" true false "") →
  is_Some (BlockedPeers (a_conf a) !! peer_String other) →
  KnownPeers (a_conf b) !! peer_String me = Some q → BlockedPeers (a_conf b) !! peer_String me = None →
  let '(a', b') := status_exchange good_link now me other p0 a b in
  a_store a' = a_store a ∧ a_store b' = processPeerStatusInfo now q (mkPeerStatusInfo "" true false "") (a_store b).
Proof.
  intros Hc Hj Hblk Hq Hb. unfold status_exchange.
  assert (Hs : (ExchangeNewStatusInfo now other p0 (exchange_over good_link None) (λ s, s) a).1.1 = Some (mkPeerStatusInfo "" true false "")).
  { destruct Hblk as [bp Hblk]. unfold ExchangeNewStatusInfo, GetBlockedPeer. change (a_conf (with_ingoing a _)) with (a_conf a). by rewrite Hblk. }
  rewrite Hs. cbn [reaches l_connect l_stream l_send l_request good_link andb mbind option_bind]. rewrite carry_status_valid by done.
  unfold StatusStreamHandler, GetPeer at 1, GetBlockedPeer. rewrite Hq, Hb. cbn [negb andb].
  split; [by apply blocked_exchange_store|]. unfold GetPeer, a_conf in *. cbn -[processPeerStatusInfo]. by rewrite Hq.
Qed.

(** C13. Being removed is learned. When a node removes a peer and its message about it arrives,
    the peer counts the node as one that declines it and does not go through it to the
    internet any more; the node itself has forgotten and blocked the peer. *)
Theorem removal_is_learned `{Multiaddrs} `{!MaddrParts} `{PeerCodecLaws} `{Unicode} `{Validator}
    `{Json PeerStatusInfo} `{!JsonLaws PeerStatusInfo} now ida idb a b req p p' r b1 q :
  valid_peer ida → conf_wf (a_conf a) → conf_wf (a_conf b) → (∀ m, status_texts "" "" m → json_valid m) →
  KnownPeers (a_conf a) !! peer_String idb = Some q → BlockedPeers (a_conf a) !! peer_String idb = None →
  pir_PeerID req = peer_String ida →
  Handler_RemovePeer now (exchange_over no_link None) (λ s, s) (inr req) p b = (r, p', b1) → ok_response r = true →
  let '(b2, a2) := status_exchange good_link now idb ida zeroKnownPeer b1 a in
  KnownPeers (a_conf b2) !! peer_String ida = None ∧ is_Some (BlockedPeers (a_conf b2) !! peer_String ida) ∧
  KnownPeers (a_conf a2) !! peer_String idb = Some (declined_peer now q) ∧
  UsingPeerID (SOCKS5 (a_conf a2)) ≠ peer_String idb.
Proof.
  intros Hva Hwa Hwb Hj Hq Hblk Hid Hr Hok. unfold Handler_RemovePeer in Hr. destruct (Validate _); [by simplify_eq|].
  rewrite Hid, peer_Decode_String in Hr by done. unfold RemovePeer in Hr.
  destruct (GetPeer (peer_String ida) (conf (a_store b))) as [kp []]; cbn [negb] in Hr; [|by simplify_eq].
  apply (f_equal snd) in Hr. cbn [snd] in Hr. set (b0 := with_store b _) in Hr.
  destruct (BlockPeer_store now ida (DisplayName kp) (exchange_over no_link None) (λ s, s) b0) as [Ec _]. rewrite Hr in Ec.
  destruct (UpsertBlockedPeer_conf now (peer_String ida) (DisplayName kp) (a_store b0)) as (Ek & _ & bp & Eb & _).
  assert (Hnone : KnownPeers (a_conf b1) !! peer_String ida = None) by (rewrite Ec, Ek; simpl; apply lookup_delete_eq).
  assert (Hblkb : is_Some (BlockedPeers (a_conf b1) !! peer_String ida)) by (rewrite Ec, Eb, lookup_insert_eq; by eexists).
  pose proof (status_declines now idb ida zeroKnownPeer b1 a q (conf_wf_canonical _ Hwa) ltac:(by apply Hj) Hblkb Hq Hblk) as Hst.
  destruct (status_exchange good_link now idb ida zeroKnownPeer b1 a) as [b2 a2]. destruct Hst as [E1 E2].
  destruct (conf_wf_canonical _ Hwa _ _ Hq) as [Hkq _]. pose proof (conf_wf_ids _ _ _ Hwa Hq) as Hne.
  unfold a_conf in *. rewrite E1, E2. destruct (process_lookup now q (mkPeerStatusInfo "" true false "") (a_store a)) as [El _].
  rewrite Hkq in El. split_and!; [done|done|exact El|]. unfold processPeerStatusInfo. cbn -[decide declined_peer].
  change (kp_PeerID (declined_peer now q)) with (kp_PeerID q). case_decide; simpl; congruence.
Qed.

(** ** Samples *)

(** A codec for the messages: texts with their length in front. *)
Definition put_str (s : string) : bytes := Z.of_nat (length (str_bytes s)) :: str_bytes s.
Definition get_str (l : bytes) : option (string * bytes) :=
  match l with [] => None | n :: l => Some (bytes_str (take (Z.to_nat n) l), drop (Z.to_nat n) l) end.
Definition put_bool (b : bool) : bytes := [if b then 1 else 0]%Z.
Definition get_bool (l : bytes) : option (bool * bytes) := match l with [] => None | n :: l => Some (bool_decide (n = 1%Z), l) end.

Lemma get_put_str s l : get_str (put_str s ++ l) = Some (s, l).
Proof. simpl. by rewrite Nat2Z.id, take_app_length, drop_app_length, bytes_str_bytes. Qed.
Lemma get_put_bool b l : get_bool (put_bool b ++ l) = Some (b, l).
Proof. by destruct b. Qed.

Definition toy_status : Json PeerStatusInfo := {|
  json_Encode m := put_str (psi_Name m) ++ put_bool (psi_Declined m) ++ put_bool (psi_AllowUsingAsExitNode m) ++ put_str (psi_UsingPeerID m);
  json_Decode l := '(name, l) ← get_str l; '(declined, l) ← get_bool l; '(allow, l) ← get_bool l; '(exit_node, l) ← get_str l;
                   Some (mkPeerStatusInfo name declined allow exit_node, l) |}.
Definition toy_auth : Json AuthPeer := {|
  json_Encode m := put_str (ap_Name m);
  json_Decode l := '(name, l) ← get_str l; Some (mkAuthPeer name, l) |}.
Definition toy_response : Json AuthPeerResponse := {|
  json_Encode m := put_bool (apr_Confirmed m) ++ put_bool (apr_Declined m);
  json_Decode l := '(confirmed, l) ← get_bool l; '(declined, l) ← get_bool l; Some (mkAuthPeerResponse confirmed declined, l) |}.

Lemma toy_status_laws : @JsonLaws PeerStatusInfo toy_status.
Proof.
  refine (@Build_JsonLaws _ toy_status (λ _, True) _). intros m rest _. unfold toy_status. cbn [json_Encode json_Decode].
  rewrite <- !app_assoc, get_put_str. cbn [mbind option_bind]. rewrite get_put_bool. cbn [mbind option_bind].
  rewrite get_put_bool. cbn [mbind option_bind]. rewrite get_put_str. by destruct m.
Defined.
Lemma toy_auth_laws : @JsonLaws AuthPeer toy_auth.
Proof.
  refine (@Build_JsonLaws _ toy_auth (λ _, True) _). intros m rest _. unfold toy_auth. cbn [json_Encode json_Decode].
  rewrite get_put_str. by destruct m.
Defined.
Lemma toy_response_laws : @JsonLaws AuthPeerResponse toy_response.
Proof.
  refine (@Build_JsonLaws _ toy_response (λ _, True) _). intros m rest _. unfold toy_response. cbn [json_Encode json_Decode].
  rewrite <- !app_assoc, get_put_bool. cbn [mbind option_bind]. rewrite get_put_bool. by destruct m.
Defined.
Lemma toy_status_flag : @StatusLaws toy_status.
Proof.
  constructor. intros m m' rest Hm. pose proof (@json_roundtrip _ toy_status toy_status_laws m [] I) as Hr.
  rewrite app_nil_r in Hr. congruence.
Defined.

#[local] Existing Instances toy_maddrs toy_parts toy_validator two_forms two_forms_laws toy_unicode toy_dns
  toy_status toy_auth toy_response toy_status_laws toy_auth_laws toy_response_laws toy_status_flag.

Definition stranger (id name : string) : Auth :=
  mkAuth ∅ ∅ (mkStore (with_P2pNode (conf_with ∅) (mkP2pNodeConfig id name "" [] None [] 0 false false 0)) None 0) [].
Definition result {A} (d : A) (o : outcome A) : A := match o with Ok x => x | _ => d end.

Definition friends_0 : Auth * Auth := Eval vm_compute in
  (stranger "me" "alice", stranger "b" "bob").
Definition friends_1 : Auth * Auth := Eval vm_compute in
  ((result (NoContent, friends_0.1) (SendFriendRequest 1 (inr (mkFriendRequest "b" "bobby" "")) friends_0.1)).2, friends_0.2).
Definition friends_2 : Auth * Auth := Eval vm_compute in
  result friends_1 (background good_link good_link 2 "me" "b" false friends_1.1 friends_1.2).
Definition friends_3 : Auth * Auth := Eval vm_compute in
  (friends_2.1, (result (NoContent, friends_2.2) (AcceptFriend 3 (map_to_list (ingoingAuths friends_2.2)) (exchange_over no_link None) (λ s, s)
     (inr (mkFriendRequestReply "me" "ally" false "")) friends_2.2)).2).
Definition friends_4 : Auth * Auth := Eval vm_compute in
  let '(b, a) := result (friends_3.2, friends_3.1) (background good_link good_link 4 "b" "me" true friends_3.2 friends_3.1) in (a, b).

Lemma stranger_wf id name : conf_wf (a_conf (stranger id name)).
Proof. split; [by intros ? ?|by intros ? ?|by intros ? ?|done]. Qed.

Lemma friends_4_run : friends_run "me" "b" friends_0 [friends_4; friends_3; friends_2; friends_1; friends_0].
Proof.
  apply (Run_b "me" "b" friends_0 [friends_2; friends_1; friends_0] friends_3.1 friends_3.2 friends_4.1 friends_4.2).
  - apply (Run_b "me" "b" friends_0 [friends_1; friends_0] friends_2.1 friends_2.2 friends_3.1 friends_3.2).
    + apply (Run_a "me" "b" friends_0 [friends_0] friends_1.1 friends_1.2 friends_2.1 friends_2.2).
      * apply (Run_a "me" "b" friends_0 [] friends_0.1 friends_0.2 friends_1.1 friends_1.2); [apply Run_start|].
        by apply (Step_invite "me" "b" 1 (inr (mkFriendRequest "b" "bobby" "")) NoContent); vm_compute.
      * apply (Step_added "me" "b" 2 good_link good_link false); [by eexists; vm_compute|by vm_compute].
    + apply (Step_answer "b" "me" 3 (map_to_list (ingoingAuths friends_2.2)) (inr (mkFriendRequestReply "me" "ally" false "")) NoContent);
        [apply ranges_self|by vm_compute].
  - apply (Step_added "b" "me" 4 good_link good_link true); [by eexists; vm_compute|by vm_compute].
Qed.

Lemma friends_0_strangers : strangers "me" "b" friends_0.1 friends_0.2.
Proof.
  split; [split; [by left|by right]|split; apply stranger_wf|split; by intros ? [? ?]|split; by intros [? ?]|done|done].
Qed.

Lemma confirmation_needs_consent_witness :
  confirmed_at friends_4.1 "b" ∧ b_added "me" [friends_4; friends_3; friends_2; friends_1; friends_0].
Proof.
  assert (confirmed_at friends_4.1 "b") as Hc by (eexists; split; vm_compute; reflexivity). split; [exact Hc|].
  apply (confirmation_needs_consent "me" "b" friends_0.1 friends_0.2 [friends_3; friends_2; friends_1; friends_0] friends_4.1 friends_4.2);
    [exact friends_0_strangers|exact friends_4_run|exact Hc].
Defined.

Lemma friendship_established_witness :
  ∃ a2 b2, background good_link good_link 2 "me" "b" false friends_1.1 friends_1.2 = Ok (a2, b2) ∧
    ingoingAuths b2 !! "me" = Some (mkAuthPeer "alice").
Proof.
  destruct (friendship_established 2 "me" "b" friends_0.1 friends_0.2 (mkFriendRequest "b" "bobby" "")
    (result (NoContent, friends_0.1) (SendFriendRequest 2 (inr (mkFriendRequest "b" "bobby" "")) friends_0.1)).2) as (a2 & b2 & Hb & Hi & _);
    [by left|by right|apply stranger_wf|apply stranger_wf|reflexivity|reflexivity|done|done|done|done|reflexivity|vm_compute; reflexivity|].
  exists friends_2.1, friends_2.2. split; vm_compute; reflexivity.
Defined.

Lemma friends_4_wf : conf_wf (a_conf friends_4.1) ∧ conf_wf (a_conf friends_4.2).
Proof.
  destruct (friends_run_both _ _ _ _ _ friends_0_strangers friends_4_run) as (a & b & h & [= <- <- _] & Ht1 & Ht2 & _).
  split; [apply Ht1|apply Ht2].
Qed.

Lemma removal_is_learned_witness :
  let b1 := (Handler_RemovePeer 5 (exchange_over no_link None) (λ s, s) (inr (mkPeerIDRequest "me")) (mkP2p ∅ ∅ None) friends_4.2).2 in
  kp_Declined <$> KnownPeers (a_conf (status_exchange good_link 5 "b" "me" zeroKnownPeer b1 friends_4.1).2) !! "b" = Some true.
Proof.
  set (removed := Handler_RemovePeer 5 (exchange_over no_link None) (λ s, s) (inr (mkPeerIDRequest "me")) (mkP2p ∅ ∅ None) friends_4.2). intros b1.
  destruct (KnownPeers (a_conf friends_4.1) !! "b") as [q|] eqn:Eq; [|vm_compute in Eq; discriminate].
  pose proof (removal_is_learned 5 "me" "b" friends_4.1 friends_4.2 (mkPeerIDRequest "me") (mkP2p ∅ ∅ None) removed.1.2 removed.1.1 removed.2 q
    (or_introl eq_refl) (proj1 friends_4_wf) (proj2 friends_4_wf) (λ _ _, I) Eq ltac:(vm_compute; reflexivity) eq_refl
    ltac:(vm_compute; reflexivity) ltac:(vm_compute; reflexivity)) as Hl.
  destruct (status_exchange good_link 5 "b" "me" zeroKnownPeer removed.2 friends_4.1) as [b2 a2] eqn:Es.
  destruct Hl as (_ & _ & Hd & _). unfold b1. rewrite Es. cbn [snd]. change (peer_String "b") with "b" in Hd. rewrite Hd. reflexivity.
Defined.
