(* ===== verification/DebugInfo.v ===== *)
(** * The debug page (src/api/debug.go, src/entity/api.go, src/p2p/metrics.go)

    [GetP2pDebugInfo]: what the page of debug information is made of. Values of go-libp2p
    that are only passed on are fields of [DebugEnv]; durations are texts. *)

From S2P Require Import Prelude GoStrings GoNet Externals Config NetworkAddr AwlDns ConfigDefaults.
From S2P Require Import Protocol AuthStatus Socks5 P2p ApiDebug Api.
Local Open Scope Z_scope.

(** [metrics.Stats]: the rates are shown as integers. *)
Record Stats := mkStats { st_TotalIn : Z; st_TotalOut : Z; st_RateIn : Z; st_RateOut : Z }.

Record BandwidthInfo := mkBandwidthInfo { bw_TotalIn : byte_text; bw_TotalOut : byte_text; bw_RateIn : byte_text; bw_RateOut : byte_text }.
Record BandwidthDebugInfo := mkBandwidthDebugInfo { bd_Total : BandwidthInfo; bd_ByProtocol : gmap string BandwidthInfo }.
Record ConnectionsDebugInfo := mkConnectionsDebugInfo {
  cd_ConnectedPeersCount : Z; cd_OpenConnectionsCount : Z; cd_OpenStreamsCount : Z; cd_LastTrimAgo : string }.
Record GeneralDebugInfo := mkGeneralDebugInfo { gd_Version : string; gd_Uptime : string }.

Section debug.
Context `{Multiaddrs} `{!MaddrParts} `{PeerCodec} `{Unicode}.

Record DhtDebugInfo := mkDhtDebugInfo {
  dh_RoutingTableSize : Z; dh_Reachability : string; dh_ListenAddress : list string; dh_PeersWithAddrsCount : Z;
  dh_ReachableAddrs : list string; dh_UnreachableAddrs : list string; dh_UnknownAddrs : list string;
  dh_BootstrapPeers : gmap string BootstrapPeerDebugInfo;
}.

Record P2pDebugInfo := mkP2pDebugInfo {
  di_General : GeneralDebugInfo; di_DHT : DhtDebugInfo; di_Connections : ConnectionsDebugInfo; di_Bandwidth : BandwidthDebugInfo;
  di_KnownPeers : list KnownPeersResponse;
}.

(** What the library reports. *)
Record DebugEnv := mkDebugEnv {
  de_Version : string; de_Uptime : string; de_host : Host;
  de_ByProtocol : list (string * Stats);     (* in the order of the loop *)
  de_Total : Stats;
  de_addrs : list maddr;                     (* announced *)
  de_reachable : list maddr; de_unreachable : list maddr; de_unknown : list maddr;
  de_RoutingTableSize : Z; de_Reachability : string; de_PeersWithAddrs : Z;
  de_ConnectedPeers : Z; de_ConnCount : Z; de_LastTrimAgo : string;
}.

(** [maToStrings]. *)
Definition maToStrings (addrs : list maddr) : list string := sort_Strings (maddr_String <$> addrs).

(** [makeBandwidthInfo]. *)
Definition makeBandwidthInfo (stats : Stats) : outcome BandwidthInfo :=
  i ← byteCountIEC (st_TotalIn stats); o ← byteCountIEC (st_TotalOut stats);
  ri ← byteCountIEC (st_RateIn stats); ro ← byteCountIEC (st_RateOut stats);
  Ok (mkBandwidthInfo i o ri ro).

(** The loop over the protocols. *)
Fixpoint bandwidth_by_protocol (l : list (string * Stats)) (m : gmap string BandwidthInfo) : outcome (gmap string BandwidthInfo) :=
  match l with
  | [] => Ok m
  | (key, val) :: l => b ← makeBandwidthInfo val; bandwidth_by_protocol l (<[key := b]> m)
  end.

(** [BootstrapPeersStatsDetailed]: nothing before the first round. *)
Definition BootstrapPeersStatsDetailed (p : P2p) : gmap string BootstrapPeerDebugInfo := default ∅ (bootstrapsInfo p).

(** [GetP2pDebugInfo]; [ids] is the order of the loop over the known peers. *)
Definition GetP2pDebugInfo (env : DebugEnv) (ids : list string) (p : P2p) (c : Config) : outcome P2pDebugInfo :=
  bandwidthByProtocol ← bandwidth_by_protocol (de_ByProtocol env) ∅;
  total ← makeBandwidthInfo (de_Total env);
  Ok (mkP2pDebugInfo
        (mkGeneralDebugInfo (de_Version env) (de_Uptime env))
        (mkDhtDebugInfo (de_RoutingTableSize env) (de_Reachability env) (maToStrings (de_addrs env)) (de_PeersWithAddrs env)
           (maToStrings (de_reachable env)) (maToStrings (de_unreachable env)) (maToStrings (de_unknown env)) (BootstrapPeersStatsDetailed p))
        (mkConnectionsDebugInfo (de_ConnectedPeers env) (de_ConnCount env) (OpenStreamsCount (de_host env)) (de_LastTrimAgo env))
        (mkBandwidthDebugInfo total bandwidthByProtocol)
        (getKnownPeers (de_host env) ids c)).

(** Counts of 64 bits. *)
Definition stats_ok (s : Stats) : Prop :=
  Forall (λ b, - 2 ^ 63 ≤ b < 2 ^ 63) [st_TotalIn s; st_TotalOut s; st_RateIn s; st_RateOut s].

Lemma byteCountIEC_Ok b : - 2 ^ 63 ≤ b < 2 ^ 63 → ∃ t, byteCountIEC b = Ok t.
Proof.
  intros Hb. destruct (byte_count_iec_total b Hb) as [Hs Hl]. destruct (decide (b < 1024)) as [H'|H'].
  - rewrite (Hs H'). eauto.
  - destruct Hl as (e & letter & -> & _); [lia|eauto].
Qed.

Lemma makeBandwidthInfo_Ok s : stats_ok s → ∃ b, makeBandwidthInfo s = Ok b.
Proof.
  intros Hs. unfold stats_ok in Hs. rewrite !list.Forall_cons in Hs. destruct Hs as (Hi & Ho & Hri & Hro & _). unfold makeBandwidthInfo.
  destruct (byteCountIEC_Ok _ Hi) as [? ->], (byteCountIEC_Ok _ Ho) as [? ->], (byteCountIEC_Ok _ Hri) as [? ->], (byteCountIEC_Ok _ Hro) as [? ->].
  simpl. eauto.
Qed.

Lemma bandwidth_Ok l : ∀ m, Forall (λ e, stats_ok e.2) l →
  ∃ m', bandwidth_by_protocol l m = Ok m' ∧ dom m' = dom m ∪ list_to_set l.*1.
Proof.
  induction l as [|[k s] l IH]; intros m; cbn [bandwidth_by_protocol]; [exists m; split; [done|set_solver]|].
  intros [Hs Hl]%list.Forall_cons. destruct (makeBandwidthInfo_Ok s Hs) as [b ->]. cbn [mbind outcome_bind].
  destruct (IH (<[k := b]> m) Hl) as (m' & -> & Hd). exists m'. split; [done|]. rewrite Hd, dom_insert_L. set_solver.
Qed.
End debug.

(** The debug page can always be made: with counts of 64 bits no unit letter is out of
    range, every protocol with traffic is listed, and the lists of addresses are sorted and
    hold every address. *)
Theorem debug_info_total `{Multiaddrs} `{!MaddrParts} `{PeerCodec} `{Unicode} env ids p c :
  stats_ok (de_Total env) → Forall (λ e, stats_ok e.2) (de_ByProtocol env) →
  ∃ info, GetP2pDebugInfo env ids p c = Ok info ∧
    dom (bd_ByProtocol (di_Bandwidth info)) = list_to_set (de_ByProtocol env).*1 ∧
    Sorted str_le (dh_ListenAddress (di_DHT info)) ∧ dh_ListenAddress (di_DHT info) ≡ₚ maddr_String <$> de_addrs env ∧
    di_KnownPeers info = getKnownPeers (de_host env) ids c.
Proof.
  intros Ht Hp. unfold GetP2pDebugInfo. destruct (bandwidth_Ok (de_ByProtocol env) ∅ Hp) as (m & -> & Hd).
  destruct (makeBandwidthInfo_Ok _ Ht) as [b ->]. cbn [mbind outcome_bind]. eexists. split; [reflexivity|]. simpl.
  split; [by rewrite Hd, dom_empty_L, union_empty_l_L|]. split; [apply Sorted_merge_sort; apply _|]. split; [apply merge_sort_Permutation|done].
Qed.
