(* ===== verification/Release.v ===== *)
(** * The description of a release (src/tools/generate_release_info.go)

    The tool that sorts the built files into the sections of the release description and
    reads the tag of the release off the name of the Android package. The directory
    listing is an argument; the rendering of the template is a library. *)

From S2P Require Import Prelude GoStrings Config AwlDns Api.

Record Release := mkRelease {
  awlAndroid : string;
  awlLinux : list string;
  awlWindows : list string;
  awlWindows7 : list string;
  awlTrayLinux : list string;
  awlTrayWindows : list string;
  awlTrayWindows7 : list string;
  awlTrayMacos : list string;
}.

(** The file is put into the first section whose prefix it has. *)
Definition classify (r : Release) (filename : string) : Release :=
  let '(mkRelease android l w w7 tl tw tw7 tm) := r in
  if HasPrefix filename "awl-android" then mkRelease filename l w w7 tl tw tw7 tm
  else if HasPrefix filename "awl-linux" then mkRelease android (l ++ [filename]) w w7 tl tw tw7 tm
  else if HasPrefix filename "awl-windows7" then mkRelease android l w (w7 ++ [filename]) tl tw tw7 tm
  else if HasPrefix filename "awl-windows" then mkRelease android l (w ++ [filename]) w7 tl tw tw7 tm
  else if HasPrefix filename "awl-tray-linux" then mkRelease android l w w7 (tl ++ [filename]) tw tw7 tm
  else if HasPrefix filename "awl-tray-windows7" then mkRelease android l w w7 tl tw (tw7 ++ [filename]) tm
  else if HasPrefix filename "awl-tray-windows" then mkRelease android l w w7 tl (tw ++ [filename]) tw7 tm
  else if HasPrefix filename "awl-tray-macos" then mkRelease android l w w7 tl tw tw7 (tm ++ [filename])
  else r.

(** The listing: names, and whether they are directories. *)
Definition classify_files (files : list (string * bool)) : Release :=
  foldl (λ r '(filename, isDir), if isDir : bool then r else classify r filename) (mkRelease "" [] [] [] [] [] [] []) files.

Definition release_data (files : list (string * bool)) : string * Release :=
  let r := classify_files files in
  let releaseTag := TrimSuffix (TrimPrefix (awlAndroid r) "awl-android-") ".apk" in
  (releaseTag,
   mkRelease (awlAndroid r) (sort_Strings (awlLinux r)) (sort_Strings (awlWindows r)) (sort_Strings (awlWindows7 r))
     (sort_Strings (awlTrayLinux r)) (sort_Strings (awlTrayWindows r)) (sort_Strings (awlTrayWindows7 r)) (sort_Strings (awlTrayMacos r))).

(** ** Facts *)

(** The files of the listing that are shown somewhere. *)
Definition shown (r : Release) : list string :=
  awlLinux r ++ awlWindows r ++ awlWindows7 r ++ awlTrayLinux r ++ awlTrayWindows r ++ awlTrayWindows7 r ++ awlTrayMacos r.
Definition prefixes : list string :=
  ["awl-linux"; "awl-windows7"; "awl-windows"; "awl-tray-linux"; "awl-tray-windows7"; "awl-tray-windows"; "awl-tray-macos"].
Definition released (filename : string) : bool :=
  negb (HasPrefix filename "awl-android") && existsb (HasPrefix filename) prefixes.

Lemma classify_shown r filename : shown (classify r filename) ≡ₚ shown r ++ (if released filename then [filename] else []).
Proof.
  destruct r as [android l w w7 tl tw tw7 tm]. unfold classify, released, prefixes. cbn [existsb].
  destruct (HasPrefix filename "awl-android"); [by rewrite app_nil_r|]. unfold shown.
  repeat (case_match; cbn [negb andb orb awlLinux awlWindows awlWindows7 awlTrayLinux awlTrayWindows awlTrayWindows7 awlTrayMacos];
    [solve_Permutation|]). by rewrite app_nil_r.
Qed.

Lemma classify_files_shown files :
  shown (classify_files files) ≡ₚ filter (λ f, released f = true) (filter (λ e, e.2 = false) files).*1.
Proof.
  unfold classify_files. induction files as [|[f isDir] files IH] using rev_ind; [done|].
  rewrite foldl_app, list.filter_app, filter_cons, filter_nil. cbn [foldl snd]. destruct isDir.
  - by rewrite decide_False, app_nil_r.
  - rewrite decide_True, fmap_app, list.filter_app, classify_shown, IH by done. apply Permutation_app_head.
    cbn [fmap list_fmap fst]. rewrite filter_cons, filter_nil. by destruct (released f).
Qed.

(** The description lists every built file that belongs to a section exactly once, each
    section in order, whatever else is in the directory. *)
Theorem release_complete files :
  let r := (release_data files).2 in
  shown r ≡ₚ filter (λ f, released f = true) (filter (λ e, e.2 = false) files).*1 ∧
  Forall (Sorted str_le) [awlLinux r; awlWindows r; awlWindows7 r; awlTrayLinux r; awlTrayWindows r; awlTrayWindows7 r; awlTrayMacos r].
Proof.
  cbn [release_data]. split.
  - rewrite <- classify_files_shown. unfold shown. simpl. by repeat apply Permutation_app; apply merge_sort_Permutation.
  - repeat constructor; apply (Sorted_merge_sort str_le).
Qed.

(** The tag is what the name of the Android package carries. *)
Theorem release_tag_read files tag :
  awlAndroid (classify_files files) = "awl-android-" +:+ tag +:+ ".apk" → (release_data files).1 = tag.
Proof. intros E. unfold release_data. simpl. rewrite E. unfold TrimPrefix. rewrite strip_prefix_app. simpl. apply TrimSuffix_app. Qed.
