(* ===== verification/ApiServer.v ===== *)
(** * The web server (src/api/api.go, src/api/const.go, src/api/settings.go)

    The set-up of the two servers, their routes and middlewares, and what a request
    runs: the endpoints are the handlers of [Api] and [ApiDebug] behind the framework.
    The framework itself (labstack/echo) is a class: its middlewares, its router, the
    binding of a body and its error responses. *)

From S2P Require Import Prelude GoStrings GoNet GoHostPort Externals RingBuffer Config NetworkAddr AwlDns.
From S2P Require Import Protocol AuthStatus Socks5 P2p ApiDebug Api DebugInfo.
From Stdlib Require Import Ascii.
Local Open Scope Z_scope.

(** ** Paths (src/api/const.go) *)

Definition V0Prefix : string := "/api/v0/".
Definition GetKnownPeersPath : string := V0Prefix +:+ "peers/get_known".
Definition GetKnownPeerSettingsPath : string := V0Prefix +:+ "peers/get_known_peer_settings".
Definition UpdatePeerSettingsPath : string := V0Prefix +:+ "peers/update_settings".
Definition RemovePeerSettingsPath : string := V0Prefix +:+ "peers/remove".
Definition GetBlockedPeersPath : string := V0Prefix +:+ "peers/get_blocked".
Definition SendFriendRequestPath : string := V0Prefix +:+ "peers/invite_peer".
Definition AcceptPeerInvitationPath : string := V0Prefix +:+ "peers/accept_peer".
Definition GetAuthRequestsPath : string := V0Prefix +:+ "peers/auth_requests".
Definition GetMyPeerInfoPath : string := V0Prefix +:+ "settings/peer_info".
Definition UpdateMyInfoPath : string := V0Prefix +:+ "settings/update".
Definition ListAvailableProxiesPath : string := V0Prefix +:+ "settings/list_proxies".
Definition UpdateProxySettingsPath : string := V0Prefix +:+ "settings/set_proxy".
Definition ExportServerConfigPath : string := V0Prefix +:+ "settings/export_server_config".
Definition GetP2pDebugInfoPath : string := V0Prefix +:+ "debug/p2p_info".
Definition GetDebugLogPath : string := V0Prefix +:+ "debug/log".

Definition AdminHttpServerListenAddress : string := "127.0.0.66:80".

(** ** Requests and responses *)

(** The Authorization header: none of the Basic scheme, one whose base64 does not decode,
    or the decoded text, which is cut at its first colon. *)
Inductive authorization := NoAuthorization | MalformedAuthorization | BasicCredentials (decoded : string).

Global Instance authorization_eq_dec : EqDecision authorization.
Proof. solve_decision. Defined.

Fixpoint cut_colon (s : string) : option (string * string) :=
  match s with
  | EmptyString => None
  | String.String ch s => if decide (ch = ":"%char) then Some ("", s) else '(u, p) ← cut_colon s; Some (String.String ch u, p)
  end.

Definition parsed (a : authorization) : option (string * string) :=
  match a with BasicCredentials decoded => cut_colon decoded | _ => None end.

Record HttpRequest := mkHttpRequest {
  rq_method : string;
  rq_path : string;
  rq_query : string;
  rq_auth : authorization;
  rq_content : string;                     (* the Content-Type header *)
  rq_body : string;
}.

Record HttpResponse := mkHttpResponse { rs_status : Z; rs_body : string }.

Definition StatusOK : Z := 200.
Definition StatusUnauthorized : Z := 401.
Definition StatusInternalServerError : Z := 500.

(** encoding/json for one type, and the values it reads back: texts that are not valid
    UTF-8 do not survive. *)
Class JsonCodec (A : Type) := {
  json_encode : A → string;
  json_decode : string → string + A;
}.
Class JsonLaws (A : Type) `{JsonCodec A} := {
  json_valid : A → Prop;
  json_decode_encode : ∀ a, json_valid a → json_decode (json_encode a) = inr a;
  json_encode_nonempty : ∀ a, json_encode a ≠ "";
}.

(** [Error] with its two fields, [Error.Error] and [ErrorMessage]. *)
Record ApiError := mkApiError { err_Message : string; err_AuthMessage : string }.

Definition Error_Error (e : ApiError) : string :=
  if decide (err_Message e ≠ "" ∧ err_AuthMessage e ≠ "")
  then "error: " +:+ err_Message e +:+ "; message: " +:+ err_AuthMessage e
  else err_Message e +:+ err_AuthMessage e.
Definition ErrorMessage (message : string) : ApiError := mkApiError message "".

(** ** The router as the source builds it *)

(** The handlers that routes name. *)
Inductive endpoint :=
  | E_metrics
  | E_GetKnownPeers | E_GetKnownPeerSettings | E_SendFriendRequest | E_AcceptFriend | E_UpdatePeerSettings
  | E_RemovePeer | E_GetAuthRequests | E_GetBlockedPeers
  | E_GetMyPeerInfo | E_UpdateMySettings | E_ListAvailableProxies | E_UpdateProxySettings | E_ExportServerConfiguration
  | E_GetP2pDebugInfo | E_GetLog
  | E_pprof (name : string)
  | E_frontend.

(** A route; without a method it answers every method ([Any]). *)
Record Route := mkRoute { rt_method : option string; rt_path : string; rt_handler : endpoint }.
Definition GET (path : string) (e : endpoint) : Route := mkRoute (Some "GET") path e.
Definition POST (path : string) (e : endpoint) : Route := mkRoute (Some "POST") path e.
Definition Any (path : string) (e : endpoint) : Route := mkRoute None path e.

Inductive middleware := M_Recover | M_BasicAuth (username password : string) | M_metrics.

(** [echo.Echo]: middlewares in the order of [Use], routes, and the address of the
    listener. *)
Record Echo := mkEcho { e_middleware : list middleware; e_routes : list Route; e_listener : string }.

(** The routes of [setupRouter]; [profiles] are the names of [pprof.Profiles]. *)
Definition api_routes (profiles : list string) : list Route :=
  [ GET "/metrics" E_metrics;
    GET GetKnownPeersPath E_GetKnownPeers;
    POST GetKnownPeerSettingsPath E_GetKnownPeerSettings;
    POST SendFriendRequestPath E_SendFriendRequest;
    POST AcceptPeerInvitationPath E_AcceptFriend;
    POST UpdatePeerSettingsPath E_UpdatePeerSettings;
    POST RemovePeerSettingsPath E_RemovePeer;
    GET GetAuthRequestsPath E_GetAuthRequests;
    GET GetBlockedPeersPath E_GetBlockedPeers;
    GET GetMyPeerInfoPath E_GetMyPeerInfo;
    POST UpdateMyInfoPath E_UpdateMySettings;
    GET ListAvailableProxiesPath E_ListAvailableProxies;
    POST UpdateProxySettingsPath E_UpdateProxySettings;
    GET ExportServerConfigPath E_ExportServerConfiguration;
    GET GetP2pDebugInfoPath E_GetP2pDebugInfo;
    GET GetDebugLogPath E_GetLog;
    Any (V0Prefix +:+ "debug/pprof/") (E_pprof "");
    Any (V0Prefix +:+ "debug/pprof/profile") (E_pprof "profile");
    Any (V0Prefix +:+ "debug/pprof/trace") (E_pprof "trace");
    Any (V0Prefix +:+ "debug/pprof/cmdline") (E_pprof "cmdline");
    Any (V0Prefix +:+ "debug/pprof/symbol") (E_pprof "symbol") ] ++
  ((λ name, Any (V0Prefix +:+ "debug/pprof/" +:+ name) (E_pprof name)) <$> profiles).

(** The middlewares of [setupRouter]. *)
Definition api_middleware (c : Config) : list middleware :=
  (if negb (DevMode c) then [M_Recover] else []) ++
  (if decide (Password (HttpBasicAuth c) ≠ "")
   then [M_BasicAuth (Username (HttpBasicAuth c)) (Password (HttpBasicAuth c))] else []) ++
  [M_metrics].

(** What the set-up meets: whether the validator takes the new tag, the profiles, and
    the address a listener gets. *)
Record SetupEnv := mkSetupEnv {
  RegisterValidation : string → bool;
  pprof_Profiles : list string;
  Listen : string → option string;
}.

(** [setupRouter]. *)
Definition setupRouter (env : SetupEnv) (c : Config) (address : string) : outcome Echo :=
  if negb (RegisterValidation env "trimmed_str_not_empty") then Fail "RegisterValidation"
  else match Listen env address with
       | None => Fail ("unable to bind address " +:+ address)
       | Some listener => Ok (mkEcho (api_middleware c) (api_routes (pprof_Profiles env)) listener)
       end.

(** [Handler]: the two servers. *)
Record Handler := mkHandler { h_echo : option Echo; h_echoAdmin : option Echo }.
Definition NewHandler : Handler := mkHandler None None.

(** [SetupAPI]: only the main server has to start. *)
Definition SetupAPI (env : SetupEnv) (c : Config) (h : Handler) : outcome unit * Handler :=
  match setupRouter env c (HttpListenAddress c) with
  | Ok e1 =>
      let h := mkHandler (Some e1) (h_echoAdmin h) in
      if HttpListenOnAdminHost c then
        match setupRouter env c AdminHttpServerListenAddress with
        | Ok e2 => (Ok tt, mkHandler (h_echo h) (Some e2))
        | Fail _ => (Ok tt, h)
        | Panic => (Panic, h)
        end
      else (Ok tt, h)
  | Fail err => (Fail err, h)
  | Panic => (Panic, h)
  end.

Definition add_route (r : Route) (e : Echo) : Echo := mkEcho (e_middleware e) (e_routes e ++ [r]) (e_listener e).

(** [SetupFrontend]: [h.echo] is dereferenced. *)
Definition SetupFrontend (h : Handler) : outcome Handler :=
  e ← or_panic (h_echo h);
  Ok (mkHandler (Some (add_route (GET "/*" E_frontend) e)) (add_route (GET "/*" E_frontend) <$> h_echoAdmin h)).

(** [Shutdown], up to the errors of closing, which the caller logs. *)
Definition Shutdown (h : Handler) : outcome unit := _ ← or_panic (h_echo h); Ok tt.

(** ** The address for clients *)

(** [IP.IsUnspecified] and [IP.String]. *)
Definition IsUnspecified (ip : IP) : bool := IP_Equal ip (v4InV6Prefix ++ [0; 0; 0; 0]) || IP_Equal ip (replicate 16 0).
Definition IP_String (ip : IP) : string :=
  if decide (To4 ip ≠ []) then ip4_string (To4 ip) else Addr_String (Addr6 ip []).

(** [Address]. *)
Definition Address (h : Handler) : outcome string :=
  e ← or_panic (h_echo h);
  let address := e_listener e in
  match SplitHostPort address with
  | Ok (host, port) =>
      let ip := ParseIP host in
      if decide (ip = []) then Ok address
      else if IsUnspecified ip then Ok (JoinHostPort "127.0.0.1" port)
      else Ok (JoinHostPort (IP_String ip) port)
  | _ => Panic
  end.

(** ** Settings (src/api/settings.go) *)

(** [PeerInfo] with its parts, without the network statistics. *)
Record VPNInfo := mkVPNInfo { VPNInterfaceEnabled : bool; vi_InterfaceName : string; vi_IPNet : string }.
Record SOCKS5Info := mkSOCKS5Info {
  si_ListenAddress : string; si_ProxyingEnabled : bool; si_ListenerEnabled : bool; si_UsingPeerID : string; si_UsingPeerName : string }.
Record PeerInfo := mkPeerInfo {
  pi_PeerID : string; pi_Name : string; pi_Uptime : Z; pi_ServerVersion : string;
  pi_TotalBootstrapPeers : nat; pi_ConnectedBootstrapPeers : nat; pi_Reachability : string;
  pi_AwlDNSAddress : string; pi_IsAwlDNSSetAsSystem : bool; pi_VPN : VPNInfo; pi_SOCKS5 : SOCKS5Info }.

(** The interface [DNSService] the handler is given. *)
Class DNSInfo := { di_AwlDNSAddress : string; di_IsAwlDNSSetAsSystem : bool }.

Section server.
Context `{Multiaddrs} `{!MaddrParts} `{PeerCodec} `{Unicode} `{Validator} `{DnsLib}.

(** What the handlers see besides the state: the time, the network, the other services,
    what others do between two locks, and the orders in which loops visit the maps. *)
Record ServerEnv := mkServerEnv {
  se_now : time;
  se_exchange : Exchange PeerStatusInfo;
  se_mid : Store → Store;
  se_mid1 : Store → Store;
  se_mid2 : Store → Store;
  se_host : Host;
  se_bootstrap : list AddrInfo;
  se_uptime : Z;
  se_reachability : string;
  se_version : string;
  se_dns : DNSInfo;
  se_tunnel : bool;
  se_logBuffer : RingBuffer;
  se_auths : gmap string AuthPeer → list (string * AuthPeer);
  se_ids : gmap string AuthPeer → list string;
  se_known : gmap string KnownPeer → list (string * KnownPeer);
  se_blocked : gmap string BlockedPeer → list (string * BlockedPeer);
  se_debug : DebugEnv;
  se_other : endpoint → HttpRequest → HttpResponse;   (* pages other code renders *)
}.

(** [GetMyPeerInfo]. *)
Definition GetMyPeerInfo (env : ServerEnv) (c : Config) : PeerInfo :=
  let '(totalBootstraps, connectedBootstraps) := BootstrapPeersStats (se_host env) (se_bootstrap env) in
  mkPeerInfo (PeerID (P2pNode c)) (Name (P2pNode c)) (se_uptime env) (se_version env)
    totalBootstraps connectedBootstraps (se_reachability env)
    (@di_AwlDNSAddress (se_dns env)) (@di_IsAwlDNSSetAsSystem (se_dns env))
    (mkVPNInfo (se_tunnel env) (InterfaceName (cVPN c)) (IPNetText (cVPN c)))
    (mkSOCKS5Info (SOCKS5ListenAddress (SOCKS5 c)) (ProxyingEnabled (SOCKS5 c)) (ListenerEnabled (SOCKS5 c))
       (UsingPeerID (SOCKS5 c)) (DisplayName (GetPeer (UsingPeerID (SOCKS5 c)) c).1)).

(** [Handler.ListAvailableProxies]. *)
Definition Handler_ListAvailableProxies (env : ServerEnv) (c : Config) : list AvailableProxy :=
  ListAvailableProxies (IsConnected (se_host env)) (se_known env (KnownPeers c)).*2.

(** ** Serving *)

(** The state the handlers change. *)
Record Server := mkServer { sv_auth : Auth; sv_p2p : P2p }.
Definition HandlerFunc : Type := HttpRequest → Server → outcome (HttpResponse * Server).

(** labstack/echo and its middlewares. *)
Class EchoLib := {
  Recover : HandlerFunc → HandlerFunc;
  BasicAuth : (string → string → bool) → HandlerFunc → HandlerFunc;
  metricsMiddleware : HandlerFunc → HandlerFunc;
  find_route : list Route → string → string → option endpoint;
  RouteError : list Route → string → string → HttpResponse;   (* no route: 404, or 405 *)
  any_methods : list string;                                  (* those of [Any] *)
  HTTPError : Z → string → HttpResponse;
  Bind : ∀ {R : Type}, (string → string + R) → HttpRequest → string + R;
  BindQuery : HttpRequest → string + (bool * Z);      (* [LogRequest] from the query *)
}.

Definition StatusText_500 : string := "Internal Server Error".

(** A route answers a method. *)
Definition route_method `{EchoLib} (r : Route) (method : string) : Prop :=
  match rt_method r with Some m => m = method | None => method ∈ any_methods end.

(** A path without parameters and wildcards. *)
Definition fixed_path (path : string) : Prop :=
  ("*"%char ∉ String.list_ascii_of_string path) ∧ (":"%char ∉ String.list_ascii_of_string path).

(** What the framework documents. A route for a fixed path is found, and a wildcard
    where no other path fits; a JSON body is decoded; missing or wrong credentials are
    answered with 401, an undecodable header with 400, and valid ones passed on; a
    recovered panic is answered with 500, and what the handler had changed by then stays. *)
Class EchoLaws `{EchoLib} `{JsonCodec ApiError} := {
  Recover_next : ∀ next req s, next req s ≠ Panic → Recover next req s = next req s;
  Recover_Panic : ∀ next req s, next req s = Panic →
    ∃ s', Recover next req s = Ok (HTTPError StatusInternalServerError StatusText_500, s');
  BasicAuth_valid : ∀ check next req s u p, parsed (rq_auth req) = Some (u, p) → check u p = true → BasicAuth check next req s = next req s;
  BasicAuth_invalid : ∀ check next req s, rq_auth req ≠ MalformedAuthorization →
    (∀ u p, parsed (rq_auth req) = Some (u, p) → check u p = false) →
    BasicAuth check next req s = Ok (HTTPError StatusUnauthorized "Unauthorized", s);
  BasicAuth_malformed : ∀ check next req s, rq_auth req = MalformedAuthorization →
    BasicAuth check next req s = Ok (HTTPError StatusBadRequest "Bad Request", s);
  metricsMiddleware_next : ∀ next req s, metricsMiddleware next req s = next req s;
  find_route_fixed : ∀ routes method r, fixed_path (rt_path r) → r ∈ routes → route_method r method →
    (∀ r', r' ∈ routes → rt_path r' = rt_path r → r' = r) → find_route routes method (rt_path r) = Some (rt_handler r);
  find_route_wildcard : ∀ routes method path e, mkRoute (Some method) "/*" e ∈ routes → strip_prefix "/" path ≠ None →
    (∀ r, r ∈ routes → r = mkRoute (Some method) "/*" e ∨ fixed_path (rt_path r) ∧ rt_path r ≠ path) →
    find_route routes method path = Some e;
  any_methods_common : "GET" ∈ any_methods ∧ "POST" ∈ any_methods;
  HTTPError_status : ∀ status message, rs_status (HTTPError status message) = status;
  HTTPError_body : ∀ status message, rs_body (HTTPError status message) = json_encode (mkApiError "" message);
  Bind_json : ∀ R (decode : string → string + R) req, rq_method req = "POST" → rq_content req = "application/json" → rq_body req ≠ "" →
    Bind decode req = decode (rq_body req);
}.

Context `{EchoLib} `{JsonCodec ApiError} `{JsonCodec Config} `{JsonCodec KnownPeer} `{JsonCodec (list KnownPeersResponse)}
  `{JsonCodec (list BlockedPeer)} `{JsonCodec (list AuthRequest)} `{JsonCodec (list AvailableProxy)} `{JsonCodec PeerInfo} `{JsonCodec unit}
  `{JsonCodec FriendRequest} `{JsonCodec FriendRequestReply} `{JsonCodec PeerIDRequest} `{JsonCodec UpdatePeerSettingsRequest}
  `{JsonCodec UpdateMySettingsRequest} `{JsonCodec UpdateProxySettingsRequest} `{JsonCodec P2pDebugInfo}.

(** The response of a handler as the client gets it. *)
Definition respond {A} `{JsonCodec A} (r : Response A) : HttpResponse :=
  match r with
  | JSONError status message => mkHttpResponse status (json_encode (ErrorMessage message))
  | JSON a => mkHttpResponse StatusOK (json_encode a)
  | NoContent => mkHttpResponse StatusOK ""
  end.

(** A handler that works on the configuration and the requests. *)
Definition on_auth {A} `{JsonCodec A} (handler : Auth → outcome (Response A * Auth)) (s : Server) : outcome (HttpResponse * Server) :=
  '(r, a) ← handler (sv_auth s); Ok (respond r, mkServer a (sv_p2p s)).

(** The handler of an endpoint. *)
Definition run_endpoint (env : ServerEnv) (e : endpoint) : HandlerFunc := λ req s,
  let c := a_conf (sv_auth s) in
  match e with
  | E_GetKnownPeers => Ok (respond (JSON (getKnownPeers (se_host env) (se_known env (KnownPeers c)).*1 c)), s)
  | E_GetKnownPeerSettings => on_auth (GetKnownPeerSettings (Bind json_decode req)) s
  | E_SendFriendRequest => on_auth (SendFriendRequest (se_now env) (Bind json_decode req)) s
  | E_AcceptFriend =>
      on_auth (λ a, AcceptFriend (se_now env) (se_auths env (ingoingAuths a)) (se_exchange env) (se_mid env) (Bind json_decode req) a) s
  | E_UpdatePeerSettings => on_auth (UpdatePeerSettings (se_mid1 env) (se_mid2 env) (Bind json_decode req)) s
  | E_RemovePeer =>
      let '(r, p, a) := Handler_RemovePeer (se_now env) (se_exchange env) (se_mid env) (Bind json_decode req) (sv_p2p s) (sv_auth s) in
      Ok (respond r, mkServer a p)
  | E_GetAuthRequests =>
      on_auth (λ a, let es := se_auths env (ingoingAuths a) in
        l ← GetAuthRequests es (se_ids env (GetIngoingAuthRequests es)) a; Ok (JSON l, a)) s
  | E_GetBlockedPeers => Ok (respond (JSON (GetBlockedPeers (se_blocked env (BlockedPeers c)).*2)), s)
  | E_GetMyPeerInfo => Ok (respond (JSON (GetMyPeerInfo env c)), s)
  | E_UpdateMySettings => on_auth (UpdateMySettings (Bind json_decode req)) s
  | E_ListAvailableProxies => Ok (respond (JSON (Handler_ListAvailableProxies env c)), s)
  | E_UpdateProxySettings => on_auth (UpdateProxySettings (Bind json_decode req)) s
  | E_ExportServerConfiguration => Ok (respond (JSON c), s)
  | E_GetLog =>
      match BindQuery req with
      | inl err => Ok (respond (@JSONError unit StatusBadRequest err), s)
      | inr (fromHead, rows) =>
          match GetLog fromHead rows (se_logBuffer env) with
          | Ok text => Ok (mkHttpResponse StatusOK (bytes_str text), s)
          | Fail err => Ok (respond (@JSONError unit StatusBadRequest err), s)
          | Panic => Panic
          end
      end
  | E_GetP2pDebugInfo => info ← GetP2pDebugInfo (se_debug env) (se_known env (KnownPeers c)).*1 (sv_p2p s) c; Ok (respond (JSON info), s)
  | E_metrics | E_pprof _ | E_frontend => Ok (se_other env e req, s)
  end.

(** The framework: the route is looked up, and its handler runs behind the middlewares,
    the first one used outermost; an error a handler returns is answered with 500 (the
    handlers return none after a change: they answer their errors themselves). *)
Definition routed (env : ServerEnv) (e : Echo) : HandlerFunc := λ req s,
  match find_route (e_routes e) (rq_method req) (rq_path req) with
  | Some ep => run_endpoint env ep req s
  | None => Ok (RouteError (e_routes e) (rq_method req) (rq_path req), s)
  end.

Definition apply_middleware (m : middleware) (next : HandlerFunc) : HandlerFunc :=
  match m with
  | M_Recover => Recover next
  | M_BasicAuth username password => BasicAuth (λ u p, bool_decide (u = username) && bool_decide (p = password)) next
  | M_metrics => metricsMiddleware next
  end.

Definition serve (env : ServerEnv) (e : Echo) : HandlerFunc := λ req s,
  match foldr apply_middleware (routed env e) (e_middleware e) req s with
  | Fail _ => Ok (HTTPError StatusInternalServerError StatusText_500, s)
  | r => r
  end.
End server.

(** ** Facts *)

Global Instance endpoint_eq_dec : EqDecision endpoint.
Proof. solve_decision. Defined.
Global Instance Route_eq_dec : EqDecision Route.
Proof. solve_decision. Defined.

(** The servers a successful set-up leaves, with or without the frontend: middlewares
    and routes are those of [setupRouter]. *)
Definition api_server (c : Config) (profiles : list string) (e : Echo) : Prop :=
  e_middleware e = api_middleware c ∧
  (e_routes e = api_routes profiles ∨ e_routes e = api_routes profiles ++ [GET "/*" E_frontend]).

(** The handler after [SetupAPI], before or after [SetupFrontend]. *)
Definition served (setup : SetupEnv) (c : Config) (h : Handler) : Prop :=
  let r := SetupAPI setup c NewHandler in r.1 = Ok tt ∧ (h = r.2 ∨ SetupFrontend r.2 = Ok h).

Lemma setupRouter_server setup c address e :
  setupRouter setup c address = Ok e → e_middleware e = api_middleware c ∧ e_routes e = api_routes (pprof_Profiles setup).
Proof. unfold setupRouter. destruct (negb _); [done|]. destruct (Listen setup address); naive_solver. Qed.

(** The set-up succeeds with a main server, or fails and leaves none. *)
Lemma SetupAPI_cases setup c r h : SetupAPI setup c NewHandler = (r, h) →
  (r = Ok tt ∧ is_Some (h_echo h)) ∨ (∃ err, r = Fail err ∧ h = NewHandler).
Proof.
  unfold SetupAPI, setupRouter. destruct (negb _); [intros [= <- <-]; eauto|].
  destruct (Listen setup (HttpListenAddress c)); [|intros [= <- <-]; eauto].
  destruct (HttpListenOnAdminHost c); [destruct (Listen setup AdminHttpServerListenAddress)|]; intros [= <- <-]; eauto.
Qed.

Lemma SetupAPI_listener setup c h : SetupAPI setup c NewHandler = (Ok tt, h) →
  ∃ e address, h_echo h = Some e ∧ Listen setup address = Some (e_listener e).
Proof.
  unfold SetupAPI, setupRouter. destruct (negb _); [done|].
  destruct (Listen setup (HttpListenAddress c)) as [l|] eqn:El; [|done].
  destruct (HttpListenOnAdminHost c); [destruct (Listen setup AdminHttpServerListenAddress)|]; intros [= <-];
    (eexists _, _; split; [reflexivity|exact El]).
Qed.

(** After a successful set-up the main server exists, and every server is as [setupRouter]
    builds it. *)
Lemma served_servers setup c h : served setup c h →
  is_Some (h_echo h) ∧
  ∀ e, h_echo h = Some e ∨ h_echoAdmin h = Some e → api_server c (pprof_Profiles setup) e.
Proof.
  unfold served, SetupAPI. pose proof (setupRouter_server setup c (HttpListenAddress c)) as H1.
  pose proof (setupRouter_server setup c AdminHttpServerListenAddress) as H2. unfold api_server.
  destruct (setupRouter setup c (HttpListenAddress c)) as [e1|err|]; [|intros [[=] _]..].
  destruct (H1 e1 eq_refl) as [Hm1 Hr1].
  destruct (HttpListenOnAdminHost c); [destruct (setupRouter setup c AdminHttpServerListenAddress) as [e2|err|]|];
    simpl; try (by intros [[=] _]); try destruct (H2 e2 eq_refl) as [Hm2 Hr2];
    (intros [_ [->|[= <-]]]; simpl; (split; [by eexists|]); intros e [[= <-]|He]; simplify_eq/=; rewrite ?Hr1, ?Hr2; auto).
Qed.

(** The profiles of the runtime have names of their own. *)
Definition pprof_prefix : string := V0Prefix +:+ "debug/pprof/".
Definition pprof_pages : list string := [""; "profile"; "trace"; "cmdline"; "symbol"].
Definition profiles_ok (profiles : list string) : Prop := Forall (λ name, (name ∉ pprof_pages) ∧ fixed_path name) profiles.

Lemma fixed_path_app a b : fixed_path a → fixed_path b → fixed_path (a +:+ b).
Proof. unfold fixed_path. rewrite list_ascii_app. set_solver. Qed.

(** The routes written out in [setupRouter]. *)
Lemma written_routes_fixed : Forall (λ r, fixed_path (rt_path r)) (api_routes []).
Proof. apply (bool_decide_unpack _). vm_compute. exact I. Qed.

Lemma written_routes_unique r r' : r ∈ api_routes [] → r' ∈ api_routes [] → rt_path r' = rt_path r → r' = r.
Proof.
  assert (Forall (λ r, Forall (λ r', rt_path r' = rt_path r → r' = r) (api_routes [])) (api_routes [])) as Huniq.
  { apply (bool_decide_unpack _). vm_compute. exact I. }
  rewrite list.Forall_forall in Huniq. intros Hr. specialize (Huniq r Hr). rewrite list.Forall_forall in Huniq. apply Huniq.
Qed.

Lemma written_routes_pprof r name : r ∈ api_routes [] → rt_path r = (pprof_prefix +:+ name) → name ∈ pprof_pages ∧ rt_method r = None.
Proof.
  assert (Forall (λ r, match strip_prefix pprof_prefix (rt_path r) with Some n => n ∈ pprof_pages ∧ rt_method r = None | None => True end) (api_routes [])) as Hp.
  { unfold api_routes. rewrite app_nil_r. repeat (constructor; [first [exact I|apply (bool_decide_unpack _); vm_compute; exact I]|]). constructor. }
  rewrite list.Forall_forall in Hp. intros Hr E. specialize (Hp r Hr). rewrite E, strip_prefix_append in Hp. exact Hp.
Qed.

Lemma api_routes_elem profiles r : r ∈ api_routes profiles ↔
  r ∈ api_routes [] ∨ ∃ name, name ∈ profiles ∧ r = Any (pprof_prefix +:+ name) (E_pprof name).
Proof.
  unfold api_routes. rewrite !elem_of_app. split.
  - intros [?|(name & -> & ?)%list_elem_of_fmap]; [left; by left|right; by exists name].
  - intros [[?|Hn%elem_of_nil]|(name & Hn & ->)]; [by left|done|right]. apply list_elem_of_fmap. by exists name.
Qed.

(** The routes of a server have different paths: a path leads to one handler. *)
Lemma api_routes_unique profiles r r' : r ∈ api_routes profiles → r' ∈ api_routes profiles →
  profiles_ok profiles ∨ is_Some (rt_method r) → rt_path r' = rt_path r → r' = r.
Proof.
  intros [Hr|(n & Hn & ->)]%api_routes_elem [Hr'|(n' & Hn' & ->)]%api_routes_elem Hor E.
  - by apply written_routes_unique.
  - exfalso. simpl in E. destruct (written_routes_pprof r n' Hr (eq_sym E)) as [Hin Hm].
    destruct Hor as [Hok|[m Hm']]; [|congruence]. unfold profiles_ok in Hok. rewrite list.Forall_forall in Hok. by destruct (Hok n' Hn').
  - exfalso. simpl in E. destruct (written_routes_pprof r' n Hr' E) as [Hin Hm].
    destruct Hor as [Hok|[m [=]]]. unfold profiles_ok in Hok. rewrite list.Forall_forall in Hok. by destruct (Hok n Hn).
  - simpl in E. assert (Some n = Some n') as [= ->]; [|done].
    rewrite <- (strip_prefix_append pprof_prefix n), <- (strip_prefix_append pprof_prefix n'). by rewrite E.
Qed.

Lemma api_routes_fixed profiles r : profiles_ok profiles ∨ is_Some (rt_method r) → r ∈ api_routes profiles → fixed_path (rt_path r).
Proof.
  intros Hor [Hr|(n & Hn & ->)]%api_routes_elem.
  - pose proof written_routes_fixed as Hf. rewrite list.Forall_forall in Hf. by apply Hf.
  - destruct Hor as [Hok|[m [=]]]. unfold profiles_ok in Hok. rewrite list.Forall_forall in Hok. destruct (Hok n Hn) as [_ Hf].
    simpl. apply fixed_path_app; [|done]. apply (bool_decide_unpack _). vm_compute. exact I.
Qed.

(** A route of the table is found; one with a method whatever the profiles are called. *)
Lemma api_route_found `{EchoLaws} c profiles e r method :
  api_server c profiles e → profiles_ok profiles ∨ is_Some (rt_method r) → r ∈ api_routes profiles → route_method r method →
  find_route (e_routes e) method (rt_path r) = Some (rt_handler r).
Proof.
  intros [_ Hr] Hok Hin Hm. pose proof (api_routes_fixed profiles r Hok Hin) as Hf. apply find_route_fixed; [done| |done|].
  - destruct Hr as [->| ->]; [done|]. apply elem_of_app. by left.
  - intros r' Hr' Hpath. destruct Hr as [Hr|Hr]; rewrite Hr in Hr'; [by apply (api_routes_unique profiles)|].
    apply elem_of_app in Hr' as [Hr'|Hr'%list_elem_of_singleton]; [by apply (api_routes_unique profiles)|]. subst r'. simpl in Hpath.
    exfalso. destruct Hf as [Hs _]. apply Hs. rewrite <- Hpath. simpl. set_solver.
Qed.

(** With the frontend, every other path is a page of it. *)
Lemma frontend_found `{EchoLaws} c profiles e path :
  api_server c profiles e → profiles_ok profiles → GET "/*" E_frontend ∈ e_routes e → strip_prefix "/" path ≠ None →
  (∀ r, r ∈ api_routes profiles → rt_path r ≠ path) →
  find_route (e_routes e) "GET" path = Some E_frontend.
Proof.
  intros [_ Hr] Hok Hin Hs Hno. apply find_route_wildcard; [done|done|]. intros r Hr'.
  assert (r ∈ api_routes profiles ∨ r = GET "/*" E_frontend) as [Hin'| ->]; [|right|by left].
  - destruct Hr as [Hr|Hr]; rewrite Hr in Hr'; [by left|]. apply elem_of_app in Hr' as [?|Hr'%list_elem_of_singleton]; auto.
  - split; [by apply (api_routes_fixed profiles); [left|]|by apply Hno].
Qed.

Section serving.
Context `{EchoLaws} `{MaddrParts} `{PeerCodec} `{Unicode} `{Validator} `{DnsLib}.
Context `{JsonCodec Config} `{JsonCodec KnownPeer} `{JsonCodec (list KnownPeersResponse)}
  `{JsonCodec (list BlockedPeer)} `{JsonCodec (list AuthRequest)} `{JsonCodec (list AvailableProxy)} `{JsonCodec PeerInfo} `{JsonCodec unit}
  `{JsonCodec FriendRequest} `{JsonCodec FriendRequestReply} `{JsonCodec PeerIDRequest} `{JsonCodec UpdatePeerSettingsRequest}
  `{JsonCodec UpdateMySettingsRequest} `{JsonCodec UpdateProxySettingsRequest} `{JsonCodec P2pDebugInfo}.

(** The credentials of the configuration. *)
Definition credentials (c : Config) : string * string := (Username (HttpBasicAuth c), Password (HttpBasicAuth c)).

(** A request whose credentials the server accepts. *)
Definition accepted (c : Config) (req : HttpRequest) : Prop :=
  Password (HttpBasicAuth c) = "" ∨ parsed (rq_auth req) = Some (credentials c).

(** What the server answers to others. *)
Definition refusal (req : HttpRequest) : HttpResponse :=
  match rq_auth req with
  | MalformedAuthorization => HTTPError StatusBadRequest "Bad Request"
  | _ => HTTPError StatusUnauthorized "Unauthorized"
  end.

(** What the server makes of the outcome [x] of a handler. *)
Definition answers (c : Config) (x res : outcome (HttpResponse * Server)) (s : Server) : Prop :=
  match x with
  | Ok r => res = Ok r
  | Fail _ => res = Ok (HTTPError StatusInternalServerError StatusText_500, s)
  | Panic => if DevMode c then res = Panic else ∃ s', res = Ok (HTTPError StatusInternalServerError StatusText_500, s')
  end.

Lemma recover_next c next req s : next req s ≠ Panic →
  foldr apply_middleware next (if negb (DevMode c) then [M_Recover] else []) req s = next req s.
Proof. intros Hn. destruct (negb (DevMode c)); [|done]. simpl. by apply Recover_next. Qed.

(** Without the credentials no handler runs. *)
Lemma serve_denied env c profiles e req s :
  api_server c profiles e → ¬ accepted c req → serve env e req s = Ok (refusal req, s).
Proof.
  intros [Hm _] Hacc. unfold serve. rewrite Hm. unfold api_middleware. rewrite foldr_app. unfold accepted in Hacc.
  destruct (decide (Password (HttpBasicAuth c) ≠ "")) as [Hp|Hp]; [|destruct Hacc; left; by apply dec_stable].
  assert (parsed (rq_auth req) ≠ Some (credentials c)) as Ha by (intros E; by apply Hacc; right).
  set (next := foldr _ _ (_ ++ _)). assert (next req s = Ok (refusal req, s)) as En.
  { unfold next, refusal. simpl. destruct (decide (rq_auth req = MalformedAuthorization)) as [Em|Em].
    - rewrite Em. by apply BasicAuth_malformed.
    - rewrite BasicAuth_invalid; [by destruct (rq_auth req)|done|]. intros u p Eu. rewrite Eu in Ha.
      destruct (bool_decide (u = _)) eqn:E1; [|done]. destruct (bool_decide (p = _)) eqn:E2; [|done].
      apply bool_decide_eq_true in E1 as ->. apply bool_decide_eq_true in E2 as ->. done. }
  rewrite recover_next by (by rewrite En). by rewrite En.
Qed.

(** With them the handler of the route runs; a panic is answered with 500 unless the
    daemon runs in development mode. *)
Lemma serve_accepted env c profiles e req s :
  api_server c profiles e → accepted c req → answers c (routed env e req s) (serve env e req s) s.
Proof.
  intros [Hm _] Hacc. unfold serve, answers. rewrite Hm. unfold api_middleware. rewrite foldr_app. set (next := foldr _ _ (_ ++ _)).
  assert (next req s = routed env e req s) as En.
  { unfold next. case_decide as Hp; simpl; [|apply metricsMiddleware_next]. destruct Hacc as [?|Hacc]; [done|].
    erewrite BasicAuth_valid; [apply metricsMiddleware_next|exact Hacc|]. by rewrite !bool_decide_eq_true_2. }
  destruct (routed env e req s) as [r|err|] eqn:Er.
  - rewrite recover_next by (by rewrite En). by rewrite En.
  - rewrite recover_next by (by rewrite En). by rewrite En.
  - destruct (DevMode c) eqn:Ed; simpl; [by rewrite En|]. destruct (Recover_Panic next req s En) as [s' ->]. by exists s'.
Qed.

(** ** Properties *)

(** C29. The HTTP interface is closed by its password. Once the servers are set up, with or
    without the frontend, both of them answer a request without exactly the configured
    credentials with 401 (400 when its header cannot be decoded), whatever its path and
    method, and change nothing, if there is a password. With the credentials, or without a
    password, a request for any route of the table (the profiling pages among them, which
    answer every method) runs the handler of that route, and one for any other path gets
    the page of the frontend, if that is served. A panic of the handler does not reach the
    server: it is answered with 500, except in development mode. The names of the profiles
    must not be those of the other profiling pages nor hold the router's special
    characters. *)
Theorem api_requires_credentials setup c h e env req s :
  served setup c h → h_echo h = Some e ∨ h_echoAdmin h = Some e → profiles_ok (pprof_Profiles setup) →
  (Password (HttpBasicAuth c) ≠ "" → parsed (rq_auth req) ≠ Some (credentials c) → serve env e req s = Ok (refusal req, s)) ∧
  (Password (HttpBasicAuth c) = "" ∨ parsed (rq_auth req) = Some (credentials c) →
   (∀ r, r ∈ api_routes (pprof_Profiles setup) → route_method r (rq_method req) → rt_path r = rq_path req →
      answers c (run_endpoint env (rt_handler r) req s) (serve env e req s) s) ∧
   (GET "/*" E_frontend ∈ e_routes e → rq_method req = "GET" → strip_prefix "/" (rq_path req) ≠ None →
      (∀ r, r ∈ api_routes (pprof_Profiles setup) → rt_path r ≠ rq_path req) →
      answers c (run_endpoint env E_frontend req s) (serve env e req s) s)).
Proof.
  intros Hs He Hok. apply served_servers in Hs as [_ Hs]. specialize (Hs e He). split; [|intros Hacc; split].
  - intros Hp Ha. apply (serve_denied env c (pprof_Profiles setup)); [done|]. by intros [?|?].
  - intros r Hr Hm Hpath. pose proof (serve_accepted env c (pprof_Profiles setup) e req s Hs Hacc) as Hserve.
    unfold routed in Hserve. rewrite <- Hpath in Hserve.
    by rewrite (api_route_found c (pprof_Profiles setup) e r (rq_method req) Hs (or_introl Hok) Hr Hm) in Hserve.
  - intros Hf Hget Hslash Hno. pose proof (serve_accepted env c (pprof_Profiles setup) e req s Hs Hacc) as Hserve.
    unfold routed in Hserve. rewrite Hget in Hserve.
    by rewrite (frontend_found c (pprof_Profiles setup) e (rq_path req) Hs Hok Hf Hslash Hno) in Hserve.
Qed.
End serving.

(** The servers are shut down only if the main one was started: [Shutdown] and [Address]
    of a handler whose set-up failed panic. *)
Theorem failed_setup_leaves_no_server setup c err h :
  SetupAPI setup c NewHandler = (Fail err, h) → Shutdown h = Panic ∧ Address h = Panic ∧ SetupFrontend h = Panic.
Proof. by intros [[? _]|(? & _ & ->)]%SetupAPI_cases. Qed.

Lemma Address_Ok h e hp : h_echo h = Some e → SplitHostPort (e_listener e) = Ok hp → ∃ address, Address h = Ok address.
Proof.
  intros He Hs. unfold Address. rewrite He. cbn [or_panic mbind outcome_bind]. rewrite Hs. destruct hp.
  repeat case_decide; try case_match; eauto.
Qed.

(** The address for clients of a server that listens on all addresses is the loopback
    address with the port of the listener. *)
Theorem address_of_any_is_loopback e h port host :
  h_echo h = Some e → SplitHostPort (e_listener e) = Ok (host, port) →
  IsUnspecified (ParseIP host) = true → Address h = Ok (JoinHostPort "127.0.0.1" port).
Proof.
  intros He Hs Hu. unfold Address. rewrite He. cbn [or_panic mbind outcome_bind]. rewrite Hs.
  rewrite decide_False; [by rewrite Hu|]. intros E. rewrite E in Hu. by vm_compute in Hu.
Qed.

Example addresses :
  let h l := mkHandler (Some (mkEcho [] [] l)) None in
  Address (h "[::]:8639") = Ok "127.0.0.1:8639" ∧ Address (h "0.0.0.0:8639") = Ok "127.0.0.1:8639" ∧
  Address (h "127.0.0.1:8639") = Ok "127.0.0.1:8639" ∧ Address (h "[::1]:80") = Ok "[::1]:80" ∧
  Address (h "localhost:80") = Ok "localhost:80" ∧ Address (h "unix.sock") = Panic.
Proof. split_and!; vm_compute; reflexivity. Qed.

(** ** Samples *)

(** A codec that reads back one value. *)
Definition sample_codec {A} (x : A) : JsonCodec A := {| json_encode _ := "{}"; json_decode _ := inr x |}.

Lemma sample_codec_laws {A} (x : A) : @JsonLaws A (sample_codec x).
Proof. refine (@Build_JsonLaws A (sample_codec x) (λ a, a = x) _ _); [by intros a ->|done]. Defined.

(** A query string that stands for a number, and back. *)
Fixpoint digits (p : positive) : string :=
  match p with xH => "" | xO p => String.String "0" (digits p) | xI p => String.String "1" (digits p) end.
Fixpoint undigits (s : string) : positive :=
  match s with String.String "0" s => xO (undigits s) | String.String _ s => xI (undigits s) | _ => xH end.
Lemma undigits_digits p : undigits (digits p) = p.
Proof. induction p; simpl; congruence. Qed.

Section toy.
Context `{Multiaddrs} `{JsonCodec ApiError}.

Definition toy_any : list string := ["GET"; "POST"; "PUT"; "DELETE"].
Definition toy_answers (r : Route) (method : string) : bool :=
  match rt_method r with Some m => bool_decide (m = method) | None => bool_decide (method ∈ toy_any) end.
Definition toy_find_route (routes : list Route) (method path : string) : option endpoint :=
  match head (filter (λ r, rt_path r = path ∧ toy_answers r method = true) routes) with
  | Some r => Some (rt_handler r)
  | None => rt_handler <$> head (filter (λ r, rt_path r = "/*" ∧ rt_method r = Some method) routes)
  end.

(** A framework that does what the laws say and no more. *)
Definition toy_echo : EchoLib := {|
  Recover next := λ req s, match next req s with
    | Panic => Ok (mkHttpResponse StatusInternalServerError (json_encode (mkApiError "" StatusText_500)), s)
    | r => r
    end;
  BasicAuth check next := λ req s,
    let refuse status text := Ok (mkHttpResponse status (json_encode (mkApiError "" text)), s) in
    match rq_auth req, parsed (rq_auth req) with
    | MalformedAuthorization, _ => refuse StatusBadRequest "Bad Request"
    | _, Some (u, p) => if check u p then next req s else refuse StatusUnauthorized "Unauthorized"
    | _, None => refuse StatusUnauthorized "Unauthorized"
    end;
  metricsMiddleware next := next;
  find_route := toy_find_route;
  RouteError _ _ _ := mkHttpResponse StatusNotFound (json_encode (mkApiError "" "Not Found"));
  any_methods := toy_any;
  HTTPError status message := mkHttpResponse status (json_encode (mkApiError "" message));
  Bind R decode req := decode (rq_body req);
  BindQuery req := inr (default (false, 0) (decode (undigits (rq_query req))));
|}.

#[local] Existing Instance toy_echo.

(** The only element a filter leaves is its head. *)
Lemma head_filter_unique {A} (P : A → Prop) `{!∀ x, Decision (P x)} (l : list A) x :
  x ∈ l → P x → (∀ y, y ∈ l → P y → y = x) → head (filter P l) = Some x.
Proof.
  intros Hx HP Hu. destruct (filter P l) as [|y k] eqn:E; simpl.
  - assert (x ∈ filter P l) as Hf by by apply list_elem_of_filter. rewrite E in Hf. by apply elem_of_nil in Hf.
  - assert (y ∈ filter P l) as Hf by (rewrite E; set_solver). apply list_elem_of_filter in Hf as [HPy Hy]. by rewrite (Hu y Hy HPy).
Qed.

Lemma toy_echo_laws : EchoLaws.
Proof.
  constructor; try done; simpl.
  - intros next req s. by destruct (next req s).
  - intros next req s ->. by exists s.
  - intros check next req s u p Hp Hc. destruct (rq_auth req); [done|done|]. by rewrite Hp, Hc.
  - intros check next req s Hm Hc. destruct (rq_auth req) as [| |t]; [done|done|].
    destruct (parsed _) as [[u p]|]; [|done]. by rewrite (Hc u p).
  - by intros check next req s ->.
  - intros routes method r _ Hin Hm Hu. unfold toy_find_route. rewrite (head_filter_unique _ routes r); [done|done| |naive_solver].
    split; [done|]. unfold toy_answers, route_method in *. destruct (rt_method r); by apply bool_decide_eq_true.
  - intros routes method path e Hin Hs Hall. unfold toy_find_route.
    destruct (head (filter (λ r, rt_path r = path ∧ _) routes)) as [r|] eqn:E.
    + destruct (filter _ routes) as [|y k] eqn:Ef; [done|]. injection E as ->.
      assert (r ∈ filter (λ r, rt_path r = path ∧ toy_answers r method = true) routes) as Hf
        by (rewrite Ef; set_solver). apply list_elem_of_filter in Hf as [[Hp _] Hr].
      destruct (Hall r Hr) as [->|[_ ?]]; done.
    + rewrite (head_filter_unique _ routes (mkRoute (Some method) "/*" e)); [done|done|done|].
      intros y Hy [Hp _]. destruct (Hall y Hy) as [?|[[Hs' _] _]]; [done|]. exfalso. apply Hs'. rewrite Hp. simpl. set_solver.
  - unfold any_methods. set_solver.
Qed.
End toy.

(** A daemon with a password and one known peer, served with the frontend. *)
Definition secret_conf : Config :=
  mkConfig "" "" "" "127.0.0.1:8639" true (mkHttpBasicAuthConfig "me" "secret") (P2pNode zeroConfig) (cVPN (my_conf ∅))
    (SOCKS5 zeroConfig) (DNS zeroConfig) known_b ∅ (Update zeroConfig).
Definition any_setup : SetupEnv := mkSetupEnv (λ _, true) ["heap"] Some.
Definition secret_handler : Handler :=
  match SetupFrontend (SetupAPI any_setup secret_conf NewHandler).2 with Ok h => h | _ => NewHandler end.
Definition settings_request (auth : authorization) : HttpRequest :=
  mkHttpRequest "POST" GetKnownPeerSettingsPath "" auth "application/json" "{}".

Lemma secret_served : served any_setup secret_conf secret_handler.
Proof. vm_compute. split; [reflexivity|right; reflexivity]. Qed.

(** The codecs of the samples read back one value of each type. *)
Definition error_codec : JsonCodec ApiError := sample_codec (mkApiError "" "").
Definition unit_codec : JsonCodec unit := sample_codec tt.
Definition known_codec : JsonCodec KnownPeer := sample_codec (sample_peer "b" "" "b" "10.66.0.3" "b").
Definition conf_codec : JsonCodec Config := sample_codec zeroConfig.
Definition list_codec A : JsonCodec (list A) := sample_codec [].
Definition pid_codec : JsonCodec PeerIDRequest := sample_codec (mkPeerIDRequest "b").
Definition friend_codec : JsonCodec FriendRequest := sample_codec (mkFriendRequest "c" "carl" "").
Definition reply_codec : JsonCodec FriendRequestReply := sample_codec (mkFriendRequestReply "b" "bob" false "").
Definition update_codec : JsonCodec UpdatePeerSettingsRequest := sample_codec update_b.
Definition name_codec : JsonCodec UpdateMySettingsRequest := sample_codec (mkUpdateMySettingsRequest "me").
Definition proxy_codec : JsonCodec UpdateProxySettingsRequest := sample_codec (mkUpdateProxySettingsRequest "").
Definition info_codec : JsonCodec PeerInfo :=
  sample_codec (mkPeerInfo "" "" 0 "" 0 0 "" "" false (mkVPNInfo false "" "") (mkSOCKS5Info "" false false "" "")).

Definition no_traffic : BandwidthInfo := mkBandwidthInfo (PlainBytes 0) (PlainBytes 0) (PlainBytes 0) (PlainBytes 0).
Definition debug_codec : JsonCodec P2pDebugInfo :=
  sample_codec (mkP2pDebugInfo (mkGeneralDebugInfo "" "") (mkDhtDebugInfo 0 "" [] 0 [] [] [] ∅) (mkConnectionsDebugInfo 0 0 0 "")
    (mkBandwidthDebugInfo no_traffic ∅) []).

#[local] Existing Instances toy_maddrs toy_parts toy_peers toy_unicode toy_validator toy_dns toy_echo toy_echo_laws.
#[local] Existing Instances error_codec unit_codec known_codec conf_codec list_codec pid_codec friend_codec reply_codec.
#[local] Existing Instances update_codec name_codec proxy_codec info_codec debug_codec.

Definition sample_debug : DebugEnv :=
  mkDebugEnv "v1" "1m0s" (toy_host (λ _, 0)) [] (mkStats 0 0 0 0) [] [] [] [] 0 "Unknown" 0 0 0 "".

Definition sample_env : ServerEnv :=
  mkServerEnv 7 (mkExchange false false false None) id id id (toy_host (λ _, 0)) [] 0 "Unknown" "v1"
    {| di_AwlDNSAddress := ""; di_IsAwlDNSSetAsSystem := false |} true (New 4)
    map_to_list (λ m, (map_to_list m).*1) map_to_list map_to_list sample_debug (λ _ _, mkHttpResponse StatusOK "").
Definition sample_server : Server := mkServer (mkAuth ∅ ∅ (mkStore secret_conf None 0) []) (mkP2p ∅ ∅ None).
Definition sample_of (h : option Echo) : Echo := default (mkEcho [] [] "") h.

Lemma any_profiles_ok : profiles_ok (pprof_Profiles any_setup).
Proof. constructor; [|constructor]. split; [|split]; apply (bool_decide_unpack _); vm_compute; exact I. Qed.

(** Without credentials the request is refused; with them the settings of the peer come
    back, a profile answers a PUT, and any other path is a page of the frontend. *)
Lemma api_requires_credentials_witness :
  let ask e req := serve sample_env (sample_of e) req sample_server in
  let given := BasicCredentials "me:secret" in
  (∃ r, ask (h_echoAdmin secret_handler) (settings_request NoAuthorization) = Ok (r, sample_server) ∧ rs_status r = StatusUnauthorized) ∧
  (∃ r, ask (h_echoAdmin secret_handler) (settings_request MalformedAuthorization) = Ok (r, sample_server) ∧ rs_status r = StatusBadRequest) ∧
  (∃ r, ask (h_echo secret_handler) (settings_request given) = Ok (r, sample_server) ∧ rs_status r = StatusOK) ∧
  (∃ r, ask (h_echo secret_handler) (mkHttpRequest "PUT" "/api/v0/debug/pprof/heap" "" given "" "") = Ok r) ∧
  (∃ r, ask (h_echo secret_handler) (mkHttpRequest "GET" "/peers" "" given "" "") = Ok r).
Proof.
  intros ask given.
  assert (∀ e req, h_echo secret_handler = Some (sample_of e) ∨ h_echoAdmin secret_handler = Some (sample_of e) → _) as H
    by exact (λ e req He, api_requires_credentials any_setup secret_conf secret_handler (sample_of e) sample_env req sample_server
                secret_served He any_profiles_ok).
  split_and!.
  - destruct (H (h_echoAdmin secret_handler) (settings_request NoAuthorization)) as [Hd _]; [right; vm_compute; reflexivity|].
    eexists. split; [apply Hd; vm_compute; discriminate|vm_compute; reflexivity].
  - destruct (H (h_echoAdmin secret_handler) (settings_request MalformedAuthorization)) as [Hd _]; [right; vm_compute; reflexivity|].
    eexists. split; [apply Hd; vm_compute; discriminate|vm_compute; reflexivity].
  - destruct (H (h_echo secret_handler) (settings_request given)) as [_ Ha]; [left; vm_compute; reflexivity|].
    destruct (Ha (or_intror eq_refl)) as [Hr _].
    specialize (Hr (POST GetKnownPeerSettingsPath E_GetKnownPeerSettings)).
    eexists. split; [apply Hr; [apply (bool_decide_unpack _); vm_compute; exact I|reflexivity|reflexivity]|vm_compute; reflexivity].
  - destruct (H (h_echo secret_handler) (mkHttpRequest "PUT" "/api/v0/debug/pprof/heap" "" given "" "")) as [_ Ha]; [left; vm_compute; reflexivity|].
    destruct (Ha (or_intror eq_refl)) as [Hr _]. eexists.
    apply (Hr (Any "/api/v0/debug/pprof/heap" (E_pprof "heap"))); [apply (bool_decide_unpack _); vm_compute; exact I| |reflexivity].
    change ("PUT" ∈ toy_any). apply (bool_decide_unpack _). vm_compute. exact I.
  - destruct (H (h_echo secret_handler) (mkHttpRequest "GET" "/peers" "" given "" "")) as [_ Ha]; [left; vm_compute; reflexivity|].
    destruct (Ha (or_intror eq_refl)) as [_ Hf]. eexists. apply Hf; [apply (bool_decide_unpack _); vm_compute; exact I|reflexivity|discriminate|].
    assert (Forall (λ r, rt_path r ≠ "/peers") (api_routes (pprof_Profiles any_setup))) as Hno by (apply (bool_decide_unpack _); vm_compute; exact I).
    rewrite list.Forall_forall in Hno. exact Hno.
Defined.
