(* ===== verification/Update.v ===== *)
(** * Updates (src/update/update.go)

    The update channels and the version handed to the update library, and the verdict
    on a check of the update sources, and the name an update is installed under.
    Downloading and replacing files is the library's. *)

From S2P Require Import Prelude GoStrings Config.
From Stdlib Require Import Ascii.
From Stdlib Require String.

(** The library's channel: a name and whether its versions are candidates; the release
    channel has no name. *)
Record Channel := mkChannel { ch_Name : string; ch_UseForUpdate : bool }.
Definition NewReleaseChannel (use : bool) : Channel := mkChannel "" use.

Definition updChannels : list string := ["rc"].

(** The loop over the channels. *)
Fixpoint setup_channels (lowest : string) (lowestInChan : bool) (chans : list string) : list Channel * bool :=
  match chans with
  | [] => ([], lowestInChan)
  | ch :: chans =>
      let '(rest, lowestInChan') := setup_channels lowest (if decide (ch = lowest) then true else lowestInChan) chans in
      (mkChannel ch (negb lowestInChan) :: rest, lowestInChan')
  end.

Definition update_channels (lowest : string) (chans : list string) : list Channel :=
  let '(channels, lowestInChan) := setup_channels lowest (bool_decide (lowest = "")) chans in
  NewReleaseChannel true :: channels ++ (if negb lowestInChan then [mkChannel lowest true] else []).

Inductive ApplicationType := AppTypeAwl | AppTypeAwlTray | UnknownAppType.

(** The files a program is updated from. *)
Definition filename_regex (goos goarch : string) (appType : ApplicationType) : outcome string :=
  match appType with
  | AppTypeAwl => Ok ("awl-" +:+ goos +:+ "-" +:+ goarch +:+ ".*")
  | AppTypeAwlTray => Ok ("awl-tray-" +:+ goos +:+ "-" +:+ goarch +:+ ".*")
  | UnknownAppType => Fail "unknown application type"
  end.

(** The version without the suffix [git describe] adds; [IsDigit] is package unicode's. *)
Definition update_version (IsDigit : Z → bool) (Version : string) : outcome string :=
  match Split Version "-"%char with
  | v :: suffix :: _ =>
      if decide (String.length suffix = 0) then Ok v
      else r ← or_panic (head (decode_runes (str_bytes suffix)));
           if IsDigit r.1 then Ok v else Ok Version
  | _ => Ok Version
  end.

(** What the update library is set up with. *)
Record UpdateService := mkUpdateService {
  us_version : string;
  us_channels : list Channel;
  us_files : string;
  us_serverURL : string;
  us_repo : string * string;
  NewVersion : option string;
}.

(** [NewUpdateService]: [NewApplicationConfig] is the library's check of the setup. *)
Definition NewUpdateService (IsDigit : Z → bool) (goos goarch Version : string)
    (NewApplicationConfig : string → list Channel → string → bool) (appType : ApplicationType) (c : Config)
    : outcome UpdateService :=
  if IsDevVersion Version then Fail "updates are unsupported for dev version"
  else
    let channels := update_channels (LowestPriorityChan (Update c)) updChannels in
    files ← filename_regex goos goarch appType;
    version ← update_version IsDigit Version;
    if NewApplicationConfig version channels files
    then Ok (mkUpdateService version channels files (UpdateServerURL (Update c)) ("anywherelan", "awl") None)
    else Fail "application config".

(** ** Checking for updates *)

Inductive CheckStatus := CheckSuccess | CheckHasErrors | CheckFailure.
Global Instance CheckStatus_eq_dec : EqDecision CheckStatus.
Proof. solve_decision. Defined.

(** The status of one source, with its errors. *)
Record SourceStatus := mkSourceStatus { ss_Status : CheckStatus; ss_Label : string; ss_Errors : list string }.

Inductive LogLevel := Warn | Err.

(** What [CheckForUpdates] logs of a source. *)
Definition source_log (s : SourceStatus) : list (LogLevel * string) :=
  match ss_Status s with
  | CheckSuccess => []
  | CheckHasErrors => (λ e, (Warn, ss_Label s +:+ ": " +:+ e)) <$> ss_Errors s
  | CheckFailure => (λ e, (Err, ss_Label s +:+ ": " +:+ e)) <$> ss_Errors s
  end.

(** [CheckForUpdates]: [found] and [status] are the answer of the library. *)
Definition CheckForUpdates (found : option string) (status : CheckStatus) (sources : list SourceStatus) (uc : UpdateService)
    : outcome bool * list (LogLevel * string) * UpdateService :=
  let uc := mkUpdateService (us_version uc) (us_channels uc) (us_files uc) (us_serverURL uc) (us_repo uc) found in
  if decide (status = CheckSuccess) then (Ok (bool_decide (is_Some found)), [], uc)
  else
    let logged := sources ≫= source_log in
    if decide (status = CheckFailure) then (Fail "update failed", logged, uc) else (Ok (bool_decide (is_Some found)), logged, uc).

(** ** Installing an update *)

(** [filepath.Base] where paths are written with slashes. *)
Definition slash : Z := 47.
Fixpoint skip_slashes (l : bytes) : bytes := match l with x :: t => if decide (x = slash) then skip_slashes t else l | [] => [] end.
Fixpoint until_slash (l : bytes) : bytes := match l with x :: t => if decide (x = slash) then [] else x :: until_slash t | [] => [] end.
Definition path_Base (path : string) : string :=
  if decide (path = "") then "."
  else match until_slash (skip_slashes (reverse (str_bytes path))) with
       | [] => "/"
       | name => bytes_str (reverse name)
       end.

(** The name a downloaded file replaces; its mode is that of the file it replaces. *)
Record ReplacementFile := mkReplacementFile { rf_FileName : string; rf_keepsMode : bool }.

(** [DoUpdate]: [lib] is the library's routine, given the version, the directory, the
    choice of the name for each downloaded file and the last check. *)
Definition DoUpdate {R} (Executable : outcome string)
    (lib : option string → string → (string → outcome ReplacementFile) → outcome unit → outcome R) (uc : UpdateService) : outcome R :=
  curFile ← Executable;
  let curFile := path_Base curFile in
  lib (NewVersion uc) "" (λ _, Ok (mkReplacementFile curFile true)) (Ok tt).

(** ** Properties *)

Lemma until_slash_app name rest : slash ∉ name → until_slash (name ++ slash :: rest) = name.
Proof.
  induction name as [|x name IH]; intros Hn; cbn [until_slash app]; [by rewrite decide_True|].
  rewrite decide_False by set_solver. rewrite IH by set_solver. done.
Qed.

Lemma path_Base_name dir name : name ≠ "" → slash ∉ str_bytes name → path_Base (dir +:+ "/" +:+ name) = name.
Proof.
  intros Hne Hs. unfold path_Base. rewrite decide_False by (by destruct dir). rewrite !str_bytes_app, !reverse_app, <- app_assoc.
  change (reverse (str_bytes "/") ++ reverse (str_bytes dir)) with (slash :: reverse (str_bytes dir)).
  destruct (reverse (str_bytes name)) as [|x l] eqn:E.
  { apply (f_equal reverse) in E. rewrite reverse_involutive in E. apply (f_equal bytes_str) in E. rewrite bytes_str_bytes in E. by destruct Hne. }
  assert (slash ∉ x :: l) as Hx by (rewrite <- E, elem_of_reverse; done).
  cbn [skip_slashes app]. rewrite decide_False by set_solver. change (x :: l ++ ?r) with ((x :: l) ++ r).
  rewrite until_slash_app by done. rewrite <- E, reverse_involutive. apply bytes_str_bytes.
Qed.

(** An update replaces the running program: every file the library downloads is written
    under the name of the executable, in the version the last check found. *)
Theorem update_replaces_program {R} dir name (lib : option string → string → (string → outcome ReplacementFile) → outcome unit → outcome R) uc :
  name ≠ "" → slash ∉ str_bytes name →
  DoUpdate (Ok (dir +:+ "/" +:+ name)) lib uc = lib (NewVersion uc) "" (λ _, Ok (mkReplacementFile name true)) (Ok tt).
Proof. intros Hne Hs. unfold DoUpdate. cbn [mbind outcome_bind]. by rewrite path_Base_name. Qed.

Lemma setup_disabled lowest chans :
  setup_channels lowest true chans = ((λ ch, mkChannel ch false) <$> chans, true).
Proof. induction chans as [|ch chans IH]; [done|]. cbn [setup_channels]. by destruct (decide (ch = lowest)); rewrite IH. Qed.

Lemma setup_enabled lowest pre post : lowest ∉ pre →
  setup_channels lowest false (pre ++ post) =
    (((λ ch, mkChannel ch true) <$> pre) ++ (setup_channels lowest false post).1, (setup_channels lowest false post).2).
Proof.
  induction pre as [|ch pre IH]; intros Hn; simpl; [by destruct (setup_channels lowest false post)|].
  rewrite decide_False by set_solver. rewrite IH by set_solver. done.
Qed.

(** The channels the updater considers: releases always; with no lowest channel
    configured nothing else; with one of the known channels, that one and those before
    it; with another name, all known channels and that one. *)
Theorem update_channels_up_to_lowest (lowest : string) (chans : list string) :
  lowest ≠ "" →
  update_channels "" chans = mkChannel "" true :: ((λ ch, mkChannel ch false) <$> chans) ∧
  (∀ pre post, chans = pre ++ lowest :: post → lowest ∉ pre →
     update_channels lowest chans = mkChannel "" true :: ((λ ch, mkChannel ch true) <$> pre ++ [lowest]) ++
                                      ((λ ch, mkChannel ch false) <$> post)) ∧
  (lowest ∉ chans → update_channels lowest chans = mkChannel "" true :: ((λ ch, mkChannel ch true) <$> chans ++ [lowest])).
Proof.
  intros Hne. unfold update_channels, NewReleaseChannel. split_and!.
  - rewrite bool_decide_eq_true_2 by done. rewrite setup_disabled. simpl. by rewrite app_nil_r.
  - intros pre post -> Hpre. rewrite bool_decide_eq_false_2 by done. rewrite setup_enabled by done. simpl.
    rewrite decide_True by done. rewrite setup_disabled. simpl. rewrite app_nil_r, fmap_app. simpl. by rewrite <- app_assoc.
  - intros Hnot. rewrite bool_decide_eq_false_2 by done. rewrite <- (app_nil_r chans) at 1.
    rewrite setup_enabled by done. simpl. by rewrite app_nil_r, fmap_app.
Qed.

Lemma update_channels_up_to_lowest_witness :
  update_channels "beta" updChannels = [mkChannel "" true; mkChannel "rc" true; mkChannel "beta" true].
Proof. apply (update_channels_up_to_lowest "beta" updChannels); [discriminate|]. apply (bool_decide_unpack _). vm_compute. exact I. Defined.

(** The version of a build after a tag is that of the tag; a release candidate keeps its
    name. *)
Example update_version_samples :
  let IsDigit r := bool_decide (48 ≤ r ≤ 57)%Z in
  update_version IsDigit "0.9.0" = Ok "0.9.0" ∧ update_version IsDigit "0.9.0-3-gabcdef" = Ok "0.9.0" ∧
  update_version IsDigit "0.9.0-" = Ok "0.9.0" ∧ update_version IsDigit "0.9.0-rc.1" = Ok "0.9.0-rc.1".
Proof. repeat split; vm_compute; reflexivity. Qed.
