(* ===== verification/Cli.v ===== *)
(** * The command line and its client of the HTTP interface
      (src/cli/cli.go, src/cli/peers.go, src/cli/me.go, src/api/apiclient/client.go)

    The commands that change the state of the daemon, through the handlers of [Api].
    A call of the client runs a handler on the state of the daemon; whether the daemon
    is reached is an argument. Between two calls of one command others may change the
    daemon's state. *)

From S2P Require Import Prelude GoStrings GoNet Externals Config NetworkAddr AwlDns ConfigDefaults.
From S2P Require Import Protocol AuthStatus Socks5 P2p Api.
From Stdlib Require Import Ascii.

(** ** The client (src/api/apiclient/client.go) *)

(** A computation of the client: the result and the state of the daemon after it. *)
Definition Client (A : Type) : Type := Auth → outcome A * Auth.

Global Instance client_ret : MRet Client := λ A x a, (Ok x, a).
Global Instance client_bind : MBind Client := λ A B f m a,
  match m a with
  | (Ok x, a) => f x a
  | (Fail e, a) => (Fail e, a)
  | (Panic, a) => (Panic, a)
  end.

(** What a call meets: the daemon may not be reached, and others may act before it. *)
Record Call := mkCall { reached : bool; before : Auth → Auth }.

Definition quiet : Call := mkCall true id.

Definition status_error (status : Z) (message : string) : string :=
  "status code: " +:+ pretty status +:+ ", error: " +:+ message.

(** [readResponseBody] when a value is expected: an empty body is no JSON. *)
Definition readResponseBody {A} (r : Response A) : outcome A :=
  match r with
  | JSONError status message => Fail (status_error status message)
  | JSON x => Ok x
  | NoContent => Fail "EOF"
  end.

(** [readResponseBody] when no value is expected. *)
Definition readResponseStatus {A} (r : Response A) : outcome unit :=
  match r with JSONError status message => Fail (status_error status message) | _ => Ok tt end.

(** [sendGetRequest] and [sendPostRequest] as one step of the daemon; [ApiClient] relates
    them to the requests on the wire. The server recovers from a panic of the handler and
    answers with status 500 (in development mode it closes the connection, which is an
    error as well). *)
Definition send {A B} (read : Response A → outcome B) (call : Call) (handler : Auth → outcome (Response A * Auth)) : Client B :=
  λ a, let a := before call a in
    if negb (reached call) then (Fail "connection refused", a)
    else match handler a with
         | Ok (r, a) => (read r, a)
         | Fail _ | Panic => (Fail (status_error 500 "Internal Server Error"), a)
         end.

(** [NewWithAuth]: credentials are sent only with a password. *)
Record ClientConfig := mkClientConfig { cc_address : string; cc_auth : option (string * string) }.
Definition NewWithAuth (address username password : string) : ClientConfig :=
  mkClientConfig address (if decide (password ≠ "") then Some (username, password) else None).

Section client.
Context `{PeerCodec} `{Unicode} `{Validator} `{DnsLib}.

Definition KnownPeerConfig (call : Call) (peerID : string) : Client KnownPeer :=
  send readResponseBody call (GetKnownPeerSettings (inr (mkPeerIDRequest peerID))).
Definition Client_UpdatePeerSettings (call : Call) (request : UpdatePeerSettingsRequest) : Client unit :=
  send readResponseStatus call (UpdatePeerSettings id id (inr request)).
Definition Client_UpdateProxySettings (call : Call) (usingPeerID : string) : Client unit :=
  send readResponseStatus call (UpdateProxySettings (inr (mkUpdateProxySettingsRequest usingPeerID))).
Definition Client_UpdateMySettings (call : Call) (name : string) : Client unit :=
  send readResponseStatus call (UpdateMySettings (inr (mkUpdateMySettingsRequest name))).
Definition Client_SendFriendRequest (call : Call) (now : time) (peerID alias ipAddr : string) : Client unit :=
  send readResponseStatus call (SendFriendRequest now (inr (mkFriendRequest peerID alias ipAddr))).

(** The ingoing requests in the order of the handlers' loops, as functions of the state. *)
Definition Client_ReplyFriendRequest (call : Call) (now : time) (ex : Exchange PeerStatusInfo) (mid : Store → Store)
    (peerID alias : string) (decline : bool) (ipAddr : string) : Client unit :=
  send readResponseStatus call
    (λ a, AcceptFriend now (map_to_list (ingoingAuths a)) ex mid (inr (mkFriendRequestReply peerID alias decline ipAddr)) a).
Definition Client_AuthRequests (call : Call) : Client (list AuthRequest) :=
  send readResponseBody call
    (λ a, let es := map_to_list (ingoingAuths a) in
          l ← GetAuthRequests es (map_to_list (GetIngoingAuthRequests es)).*1 a; Ok (JSON l, a)).

(** ** Commands (src/cli/peers.go, src/cli/me.go) *)

(** [getPeerIdByAlias] on the answer of [KnownPeers]. *)
Fixpoint find_alias (alias : string) (peers : list KnownPeersResponse) : option string :=
  match peers with
  | [] => None
  | p :: peers => if decide (kpr_Alias p = alias) then Some (kpr_PeerID p) else find_alias alias peers
  end.

(** A text between the quotes of the format [\"%s\"]. *)
Definition quoted (s : string) : string := let quote := String (ascii_of_nat 34) EmptyString in quote +:+ s +:+ quote.

Definition getPeerIdByAlias (peers : outcome (list KnownPeersResponse)) (alias : string) : outcome string :=
  if decide (alias = "") then Fail "name is empty"
  else
    l ← peers;
    match find_alias alias l with
    | Some id => Ok id
    | None => Fail ("can't find peer with name " +:+ quoted alias)
    end.

(** [addPeer]: a pending request is accepted, otherwise one is sent. *)
Definition addPeer (call1 call2 : Call) (now : time) (ex : Exchange PeerStatusInfo) (mid : Store → Store)
    (peerID alias ipAddr : string) : Client string :=
  authRequests ← Client_AuthRequests call1;
  if existsb (λ req, bool_decide (ar_PeerID req = peerID)) authRequests then
    _ ← Client_ReplyFriendRequest call2 now ex mid peerID alias false ipAddr;
    mret "user added to friends list successfully"
  else
    _ ← Client_SendFriendRequest call2 now peerID alias ipAddr;
    mret "friend request sent successfully".

(** [changePeerAlias], [changePeerDomain], [changePeerIP], [setAllowUsingAsExitNode]:
    the settings are read, one is replaced, all are written. *)
Definition changePeerAlias (call1 call2 : Call) (peerID newAlias : string) : Client string :=
  pcfg ← KnownPeerConfig call1 peerID;
  _ ← Client_UpdatePeerSettings call2
        (mkUpdatePeerSettingsRequest peerID newAlias (kp_DomainName pcfg) (kp_IPAddr pcfg) (kp_WeAllowUsingAsExitNode pcfg));
  mret "peer name updated successfully".

Definition changePeerDomain (call1 call2 : Call) (peerID newDomain : string) : Client string :=
  pcfg ← KnownPeerConfig call1 peerID;
  _ ← Client_UpdatePeerSettings call2
        (mkUpdatePeerSettingsRequest peerID (kp_Alias pcfg) newDomain (kp_IPAddr pcfg) (kp_WeAllowUsingAsExitNode pcfg));
  mret "peer domain name updated successfully".

Definition changePeerIP (call1 call2 : Call) (peerID newIP : string) : Client string :=
  pcfg ← KnownPeerConfig call1 peerID;
  _ ← Client_UpdatePeerSettings call2
        (mkUpdatePeerSettingsRequest peerID (kp_Alias pcfg) (kp_DomainName pcfg) newIP (kp_WeAllowUsingAsExitNode pcfg));
  mret "peer IP address updated successfully".

Definition setAllowUsingAsExitNode (call1 call2 : Call) (peerID : string) (allow : bool) : Client string :=
  pcfg ← KnownPeerConfig call1 peerID;
  _ ← Client_UpdatePeerSettings call2
        (mkUpdatePeerSettingsRequest peerID (kp_Alias pcfg) (kp_DomainName pcfg) (kp_IPAddr pcfg) allow);
  mret "AllowUsingAsExitNode config updated successfully".

(** [renameMe] and [setProxy]. *)
Definition renameMe (call : Call) (newName : string) : Client string :=
  _ ← Client_UpdateMySettings call newName; mret "my peer name updated successfully".
Definition setProxy (call : Call) (peerID : string) : Client string :=
  _ ← Client_UpdateProxySettings call peerID; mret "proxy settings updated successfully".
End client.

(** ** Connecting (src/cli/cli.go) *)

Definition defaultApiAddr : string := "127.0.0.1:" +:+ Itoa (Z.to_nat DefaultHTTPPort).

(** [initApiFromAddr]; [peerInfo] is whether the daemon answers the client. *)
Definition initApiFromAddr (peerInfo : ClientConfig → bool) (addr username password : string) : outcome ClientConfig :=
  let api := NewWithAuth addr username password in
  if peerInfo api then Ok api else Fail ("could not access api on address " +:+ addr).

(** [initApiConnection]: the flag, then the configuration, then the default address. *)
Definition initApiConnection (peerInfo : ClientConfig → bool) (api_addr username password : string) (conf : outcome Config)
    : outcome ClientConfig :=
  if decide (api_addr ≠ "") then initApiFromAddr peerInfo api_addr username password
  else match conf with
       | Ok c =>
           let '(username, password) :=
             if decide (username = "" ∧ password = "") then (Username (HttpBasicAuth c), Password (HttpBasicAuth c))
             else (username, password) in
           initApiFromAddr peerInfo (HttpListenAddress c) username password
       | Panic => Panic
       | Fail _ =>
           match initApiFromAddr peerInfo defaultApiAddr username password with
           | Ok api => Ok api
           | _ => Fail "no connection to api server"
           end
       end.

(** [initApiAndPeerId]: the value of the flag pid afterwards. *)
Definition initApiAndPeerId (connect : outcome ClientConfig) (peers : outcome (list KnownPeersResponse)) (pid alias : string)
    (isRequired : bool) : outcome string :=
  _ ← connect;
  if decide (pid ≠ "") then Ok pid
  else if decide (alias = "") then if isRequired then Fail "peerID or name should be defined" else Ok ""
  else getPeerIdByAlias peers alias.

(** [yesNoPrompt] on the lines of the input; at its end a read gives the empty text. *)
Fixpoint yesNoPrompt `{Unicode} (def : bool) (input : list string) : bool :=
  match input with
  | [] => def
  | line :: input =>
      let s := TrimSpace line in
      if decide (s = "") then def
      else
        let s := ToLower s in
        if decide (s = "y" ∨ s = "yes") then true
        else if decide (s = "n" ∨ s = "no") then false
        else yesNoPrompt def input
  end.

(** ** The table of peers (src/cli/peers.go) *)

Definition newline : string := String.String (ascii_of_nat 10) "".

Definition column_header (fc : ascii) : option string :=
  if decide (fc = "n"%char) then Some "№"
  else if decide (fc = "p"%char) then Some "peer"
  else if decide (fc = "i"%char) then Some "peer ID"
  else if decide (fc = "s"%char) then Some "status"
  else if decide (fc = "l"%char) then Some "last seen"
  else if decide (fc = "u"%char) then Some ("network usage" +:+ newline +:+ "(↓in/↑out)")
  else if decide (fc = "c"%char) then Some ("connections" +:+ newline +:+ "address | protocol")
  else if decide (fc = "v"%char) then Some "version"
  else if decide (fc = "e"%char) then Some "exit node"
  else None.

(** One cell: [when] renders a time and [usage] the network statistics of a peer. *)
Definition cell (when : time → string) (usage : KnownPeersResponse → string) (i : nat) (peer : KnownPeersResponse) (fc : ascii) : string :=
  if decide (fc = "n"%char) then Itoa (i + 1)
  else if decide (fc = "p"%char) then
    Join ((if decide (kpr_DisplayName peer ≠ "") then [kpr_DisplayName peer] else []) ++
          (if decide (kpr_DomainName peer ≠ "") then [kpr_DomainName peer +:+ "." +:+ LocalDomain] else []) ++
          [kpr_IpAddr peer]) newline
  else if decide (fc = "i"%char) then kpr_PeerID peer
  else if decide (fc = "s"%char) then
    (if kpr_Connected peer then "online" else "offline") +:+ (if kpr_Confirmed peer then "" else newline +:+ "(not confirmed)")
  else if decide (fc = "l"%char) then if decide (kpr_LastSeen peer = 0%Z) then "never" else when (kpr_LastSeen peer)
  else if decide (fc = "u"%char) then usage peer
  else if decide (fc = "c"%char) then
    Join ((λ con, if ThroughRelay con then "through relay" else ci_Address con +:+ " | " +:+ ci_Protocol con) <$> kpr_Connections peer) newline
  else if decide (fc = "v"%char) then kpr_Version peer
  else if decide (fc = "e"%char) then
    "we allow:     " +:+ (if kpr_WeAllowUsingAsExitNode peer then "true" else "false") +:+ newline +:+
    "peer allowed: " +:+ (if kpr_AllowedUsingAsExitNode peer then "true" else "false")
  else "".

(** The loop over the characters of the format; only ASCII characters name a column. *)
Fixpoint table_columns (format : list ascii) : outcome (list (string * ascii)) :=
  match format with
  | [] => Ok []
  | fc :: format =>
      match column_header fc with
      | None => Fail "format flag is incorrect: unknown format flat char"
      | Some h => l ← table_columns format; Ok ((h, fc) :: l)
      end
  end.

(** [printPeersStatus]: headers and rows of the table. *)
Definition printPeersStatus (when : time → string) (usage : KnownPeersResponse → string) (format : string)
    (peers : outcome (list KnownPeersResponse)) : outcome (list string * list (list string)) :=
  if decide (format = "") then Fail "format flag is incorrect"
  else
    columns ← table_columns (String.list_ascii_of_string format);
    l ← peers;
    Ok (columns.*1, imap (λ i peer, cell when usage i peer <$> columns.*2) l).

(** ** Facts *)

(** The four commands as one. *)
Inductive setting := NewAlias (alias : string) | NewDomain (domain : string) | NewIP (ip : string) | NewAllow (allow : bool).

Definition apply_setting (s : setting) (p : KnownPeer) : KnownPeer :=
  match s with
  | NewAlias alias => with_settings p (TrimSpace alias) (kp_DomainName p) (kp_IPAddr p) (kp_WeAllowUsingAsExitNode p)
  | NewDomain domain => with_settings p (kp_Alias p) domain (kp_IPAddr p) (kp_WeAllowUsingAsExitNode p)
  | NewIP ip => with_settings p (kp_Alias p) (kp_DomainName p) ip (kp_WeAllowUsingAsExitNode p)
  | NewAllow allow => with_settings p (kp_Alias p) (kp_DomainName p) (kp_IPAddr p) allow
  end.

Section facts.
Context `{PeerCodec} `{Unicode} `{Validator} `{DnsLib}.

Definition change (s : setting) (call1 call2 : Call) (peerID : string) : Client string :=
  match s with
  | NewAlias alias => changePeerAlias call1 call2 peerID alias
  | NewDomain domain => changePeerDomain call1 call2 peerID domain
  | NewIP ip => changePeerIP call1 call2 peerID ip
  | NewAllow allow => setAllowUsingAsExitNode call1 call2 peerID allow
  end.

Lemma send_quiet {A B} (read : Response A → outcome B) h a :
  send read quiet h a = match h a with
                        | Ok (r, a') => (read r, a')
                        | Fail _ | Panic => (Fail (status_error 500 "Internal Server Error"), a)
                        end.
Proof. unfold send, quiet. simpl. by destruct (h a) as [[? ?]| |]. Qed.

Lemma KnownPeerConfig_quiet peerID a : ∃ r, KnownPeerConfig quiet peerID a = (r, a) ∧
  (∀ p, r = Ok p → KnownPeers (a_conf a) !! peerID = Some p) ∧ r ≠ Panic.
Proof.
  unfold KnownPeerConfig. rewrite send_quiet. unfold GetKnownPeerSettings, bound.
  destruct (Validate _); [by eexists|]. destruct (GetPeer _ _) as [p known] eqn:Eg. cbn [pir_PeerID] in Eg.
  destruct known; simpl; eexists; (split; [reflexivity|]); [|done]. split; [|done]. intros p' [= <-]. by apply GetPeer_true.
Qed.

(** The request that replaces one setting of [p]. *)
Definition request_of (s : setting) (peerID : string) (p : KnownPeer) : UpdatePeerSettingsRequest :=
  match s with
  | NewAlias alias => mkUpdatePeerSettingsRequest peerID alias (kp_DomainName p) (kp_IPAddr p) (kp_WeAllowUsingAsExitNode p)
  | NewDomain domain => mkUpdatePeerSettingsRequest peerID (kp_Alias p) domain (kp_IPAddr p) (kp_WeAllowUsingAsExitNode p)
  | NewIP ip => mkUpdatePeerSettingsRequest peerID (kp_Alias p) (kp_DomainName p) ip (kp_WeAllowUsingAsExitNode p)
  | NewAllow allow => mkUpdatePeerSettingsRequest peerID (kp_Alias p) (kp_DomainName p) (kp_IPAddr p) allow
  end.

(** What a command does, once its first call has answered. *)
Lemma change_quiet s peerID a res a' : change s quiet quiet peerID a = (res, a') →
  (∃ e, res = Fail e) ∧ a' = a ∨
  ∃ p m, KnownPeers (a_conf a) !! peerID = Some p ∧ res = Ok m ∧
    UpdatePeerSettings id id (inr (request_of s peerID p)) a = Ok (NoContent, a').
Proof.
  destruct (KnownPeerConfig_quiet peerID a) as (r & Hr & Hp & Hnp).
  assert (∀ req m, (_ ← Client_UpdatePeerSettings quiet req; mret m) a = (res, a') →
            (∃ e, res = Fail e) ∧ a' = a ∨ res = Ok m ∧ UpdatePeerSettings id id (inr req) a = Ok (NoContent, a')) as Hupd.
  { intros req m. unfold mbind, client_bind, Client_UpdatePeerSettings. rewrite send_quiet.
    destruct (UpdatePeerSettings id id (inr req) a) as [[rs a1]|e|] eqn:Eu; [|by intros [= <- <-]; eauto..].
    destruct (ok_response rs) eqn:Eok.
    - destruct (UpdatePeerSettings_ok _ _ _ _ _ _ Eu Eok) as (? & ? & _ & -> & _). simpl. intros [= <- <-]. by right.
    - pose proof (UpdatePeerSettings_fails _ _ _ _ Eu Eok) as ->. destruct rs; try done. intros [= <- <-]. eauto. }
  destruct s; unfold change, changePeerAlias, changePeerDomain, changePeerIP, setAllowUsingAsExitNode;
    unfold mbind at 1, client_bind at 1; rewrite Hr; destruct r as [p|e|]; try done;
    first [by intros [= <- <-]; eauto|intros E; (apply Hupd in E as [?|[-> E]]; [by left|]); right; eauto 6].
Qed.
End facts.

(** ** Properties *)

(** A command that changes the alias, the domain name, the address or the exit-node
    permission of a peer changes that setting and nothing else, although it writes all
    four: the others are written back as they were read. The change is saved and keeps
    aliases and the texts of addresses unique; a command that reports an error has changed nothing. *)
Theorem cli_changes_one_setting `{PeerCodec} `{Unicode} `{Validator} `{DnsLib} s peerID a res a' :
  keys_wf (a_conf a) → map_Forall (λ _ p, TrimSpace (kp_Alias p) = kp_Alias p) (KnownPeers (a_conf a)) →
  change s quiet quiet peerID a = (res, a') →
  (∃ e, res = Fail e) ∧ a' = a ∨
  ∃ p m, res = Ok m ∧ KnownPeers (a_conf a) !! peerID = Some p ∧
    KnownPeers (a_conf a') = <[peerID := apply_setting s p]> (KnownPeers (a_conf a)) ∧
    BlockedPeers (a_conf a') = BlockedPeers (a_conf a) ∧ disk (a_store a') = Some (a_conf a') ∧
    (aliases_unique (a_conf a) → aliases_unique (a_conf a')) ∧
    (address_texts_unique (a_conf a) → address_texts_unique (a_conf a')).
Proof.
  intros Hk Htrim [?|(p & m & Hp & -> & Hrun)]%change_quiet; [by left|]. right. exists p, m.
  destruct (update_settings _ _ _ _ Hk Hrun) as [[? _]|(req & p' & [= <-] & _ & Hp' & Hkn & Hb & Hd & _ & _ & _ & Ha & Hi & _)]; [done|].
  assert (ups_PeerID (request_of s peerID p) = peerID) as Eid by by destruct s. rewrite Eid in *. simplify_eq.
  split_and!; try done. rewrite Hkn. f_equal. pose proof (Htrim _ _ Hp) as Ht. simpl in Ht. destruct s; simpl; by rewrite ?Ht.
Qed.

(** The prompt answers on every input, and with the default only if no line says
    otherwise. *)
Theorem prompt_decides `{Unicode} def input :
  yesNoPrompt def input = def ∨
  ∃ line, line ∈ input ∧ ToLower (TrimSpace line) ∈ (if def then ["n"; "no"] else ["y"; "yes"]).
Proof.
  induction input as [|line input IH]; [by left|]. cbn [yesNoPrompt].
  case_decide; [by left|]. case_decide as Hy; [|case_decide as Hn].
  - destruct def; [by left|]. right. exists line. set_solver.
  - destruct def; [|by left]. right. exists line. set_solver.
  - destruct IH as [->|(l & Hl & Hs)]; [by left|]. right. exists l. set_solver.
Qed.

(** A command line without credentials uses the configured ones for the configured
    address only. *)
Theorem credentials_only_for_configured_address peerInfo api_addr username password conf api :
  initApiConnection peerInfo api_addr username password conf = Ok api →
  cc_auth api = cc_auth (NewWithAuth "" username password) ∨
  ∃ c, conf = Ok c ∧ api_addr = "" ∧ cc_address api = HttpListenAddress c.
Proof.
  assert (∀ addr, initApiFromAddr peerInfo addr username password = Ok api → cc_auth api = cc_auth (NewWithAuth "" username password)) as Hinit.
  { intros addr. unfold initApiFromAddr. case_match; [|done]. by intros [= <-]. }
  unfold initApiConnection. case_decide as Ha; [intros E; left; by eapply Hinit|].
  destruct conf as [c|e|]; [|destruct (initApiFromAddr _ defaultApiAddr _ _) eqn:E; try done; intros [= <-]; left; by eapply Hinit|done].
  destruct (if decide _ then _ else _) as [u pw]. unfold initApiFromAddr. case_match; [|done].
  intros [= <-]. right. by exists c.
Qed.

(** ** Witnesses *)

#[local] Existing Instances two_forms toy_unicode toy_validator toy_dns.

Lemma cli_changes_one_setting_witness :
  ∃ m a', change (NewIP "10.66.0.9") quiet quiet "b" (my_auth known_b) = (Ok m, a') ∧
    KnownPeers (a_conf a') !! "b" = Some (sample_peer "b" "" "b" "10.66.0.9" "b").
Proof.
  destruct (change (NewIP "10.66.0.9") quiet quiet "b" (my_auth known_b)) as [res a'] eqn:E.
  destruct (cli_changes_one_setting (NewIP "10.66.0.9") "b" (my_auth known_b) res a')
    as [[[e Hres] _]|(p & m & -> & Hp & Hk & _)].
  - split; apply (bool_decide_unpack _); vm_compute; exact I.
  - apply (bool_decide_unpack _). vm_compute. exact I.
  - exact E.
  - exfalso. rewrite Hres in E. vm_compute in E. discriminate E.
  - exists m, a'. split; [reflexivity|]. rewrite Hk, lookup_insert_eq. vm_compute in Hp. injection Hp as <-. reflexivity.
Defined.

(** A name set while a command runs is lost: the command writes back the name it read. *)
Example cli_overwrites_concurrent_change :
  let rename := λ a, with_store a (UpsertPeer (sample_peer "b" "" "renamed" "10.66.0.3" "b") (a_store a)) in
  ∃ m a', change (NewIP "10.66.0.9") quiet (mkCall true rename) "b" (my_auth known_b) = (Ok m, a') ∧
    KnownPeers (a_conf a') !! "b" = Some (sample_peer "b" "" "b" "10.66.0.9" "b").
Proof. eexists _, _. split; vm_compute; reflexivity. Qed.
