(* ===== verification/ApiClient.v ===== *)
(** * The client on the wire (src/api/apiclient/client.go)

    Every call of the client as the HTTP request it sends: method, path, credentials and
    JSON body, answered by the server of [ApiServer]. The lemmas say what a call does: one
    run of the handler it names, as [Cli] takes it; [ClientLog] collects all calls. *)

From Stdlib Require Import Ascii.
From S2P Require Import Prelude GoStrings GoNet Externals RingBuffer Config NetworkAddr AwlDns ConfigDefaults.
From S2P Require Import Protocol AuthStatus Socks5 P2p ApiDebug Api DebugInfo ApiServer Cli.
Local Open Scope Z_scope.

Section client.
Context `{Multiaddrs} `{!MaddrParts} `{PeerCodec} `{Unicode} `{Validator} `{DnsLib}.
Context `{EchoLib} `{JsonCodec ApiError} `{JsonCodec Config} `{JsonCodec KnownPeer} `{JsonCodec (list KnownPeersResponse)}
  `{JsonCodec (list BlockedPeer)} `{JsonCodec (list AuthRequest)} `{JsonCodec (list AvailableProxy)} `{JsonCodec PeerInfo} `{JsonCodec unit}
  `{JsonCodec FriendRequest} `{JsonCodec FriendRequestReply} `{JsonCodec PeerIDRequest} `{JsonCodec UpdatePeerSettingsRequest}
  `{JsonCodec UpdateMySettingsRequest} `{JsonCodec UpdateProxySettingsRequest} `{JsonCodec P2pDebugInfo}.

(** A client with the server its address leads to: whether it is reached, and what
    others do to the daemon before the request arrives. *)
Record Remote := mkRemote {
  rm_client : ClientConfig;
  rm_call : Call;
  rm_echo : Echo;
  rm_env : ServerEnv;
}.

(** The header the transport of the client adds. *)
Definition cc_authorization (client : ClientConfig) : authorization :=
  match cc_auth client with Some (username, password) => BasicCredentials (username +:+ ":" +:+ password) | None => NoAuthorization end.

(** A call: the result and the state of the daemon after it. *)
Definition Wire (A : Type) : Type := Server → outcome A * Server.

(** [http.Client.Do]; a server that panics closes the connection. *)
Definition do_request (rm : Remote) (req : HttpRequest) : Wire HttpResponse := λ s,
  let s := mkServer (before (rm_call rm) (sv_auth s)) (sv_p2p s) in
  if negb (reached (rm_call rm)) then (Fail "connection refused", s)
  else match serve (rm_env rm) (rm_echo rm) req s with
       | Ok (r, s) => (Ok r, s)
       | _ => (Fail "EOF", s)
       end.

(** [readResponseBody] for a status other than 200. *)
Definition response_error {A} (r : HttpResponse) : outcome A :=
  match json_decode (A := ApiError) (rs_body r) with
  | inl err => Fail ("status code: " +:+ pretty (rs_status r) +:+ ", error decoding json: " +:+ err)
  | inr e => Fail ("status code: " +:+ pretty (rs_status r) +:+ ", error: " +:+ Error_Error e)
  end.

(** [readResponseBody] into a value, and without one. *)
Definition read_value {A} `{JsonCodec A} (r : HttpResponse) : outcome A :=
  if decide (rs_status r ≠ StatusOK) then response_error r
  else match json_decode (rs_body r) with inl err => Fail err | inr a => Ok a end.
Definition read_status (r : HttpResponse) : outcome unit :=
  if decide (rs_status r ≠ StatusOK) then response_error r else Ok tt.

(** [sendGetRequest]. *)
Definition sendGetRequest {B} (rm : Remote) (path : string) (read : HttpResponse → outcome B) : Wire B := λ s,
  let req := mkHttpRequest "GET" path "" (cc_authorization (rm_client rm)) "" "" in
  match do_request rm req s with
  | (Ok r, s) => (read r, s)
  | (Fail e, s) => (Fail e, s)
  | (Panic, s) => (Panic, s)
  end.

(** [sendPostRequest]. *)
Definition sendPostRequest {P B} `{JsonCodec P} (rm : Remote) (path : string) (payload : P) (read : HttpResponse → outcome B) : Wire B := λ s,
  let req := mkHttpRequest "POST" path "" (cc_authorization (rm_client rm)) "application/json" (json_encode payload) in
  match do_request rm req s with
  | (Ok r, s) => (read r, s)
  | (Fail e, s) => (Fail e, s)
  | (Panic, s) => (Panic, s)
  end.

(** The calls. *)
Definition Wire_KnownPeers (rm : Remote) : Wire (list KnownPeersResponse) := sendGetRequest rm GetKnownPeersPath read_value.
Definition Wire_KnownPeerConfig (rm : Remote) (peerID : string) : Wire KnownPeer :=
  sendPostRequest rm GetKnownPeerSettingsPath (mkPeerIDRequest peerID) read_value.
Definition Wire_PeerInfo (rm : Remote) : Wire PeerInfo := sendGetRequest rm GetMyPeerInfoPath read_value.
Definition Wire_ListAvailableProxies (rm : Remote) : Wire (list AvailableProxy) := sendGetRequest rm ListAvailableProxiesPath read_value.
Definition Wire_UpdateProxySettings (rm : Remote) (usingPeerID : string) : Wire unit :=
  sendPostRequest rm UpdateProxySettingsPath (mkUpdateProxySettingsRequest usingPeerID) read_status.
Definition Wire_SendFriendRequest (rm : Remote) (peerID alias ipAddr : string) : Wire unit :=
  sendPostRequest rm SendFriendRequestPath (mkFriendRequest peerID alias ipAddr) read_status.
Definition Wire_ReplyFriendRequest (rm : Remote) (peerID alias : string) (decline : bool) (ipAddr : string) : Wire unit :=
  sendPostRequest rm AcceptPeerInvitationPath (mkFriendRequestReply peerID alias decline ipAddr) read_status.
Definition Wire_AuthRequests (rm : Remote) : Wire (list AuthRequest) := sendGetRequest rm GetAuthRequestsPath read_value.
Definition Wire_BlockedPeers (rm : Remote) : Wire (list BlockedPeer) := sendGetRequest rm GetBlockedPeersPath read_value.
Definition Wire_UpdatePeerSettings (rm : Remote) (request : UpdatePeerSettingsRequest) : Wire unit :=
  sendPostRequest rm UpdatePeerSettingsPath request read_status.
Definition Wire_RemovePeer (rm : Remote) (peerID : string) : Wire unit :=
  sendPostRequest rm RemovePeerSettingsPath (mkPeerIDRequest peerID) read_status.
Definition Wire_UpdateMySettings (rm : Remote) (name : string) : Wire unit :=
  sendPostRequest rm UpdateMyInfoPath (mkUpdateMySettingsRequest name) read_status.

(** The state a request meets. *)
Definition met (rm : Remote) (s : Server) : Server := mkServer (before (rm_call rm) (sv_auth s)) (sv_p2p s).

(** ** What a call does *)

(** The handlers of [Api] on the state of the server. *)
Definition on_server {A} (handler : Auth → outcome (Response A * Auth)) (s : Server) : outcome (Response A * Server) :=
  '(r, a) ← handler (sv_auth s); Ok (r, mkServer a (sv_p2p s)).

(** Responses that survive the encoding: for calls that expect a value, and for those
    that expect none. *)
Definition value_readable {A} `{JsonLaws A} `{JsonLaws ApiError} (r : Response A) : Prop :=
  match r with JSONError _ message => json_valid (ErrorMessage message) | JSON a => json_valid a | NoContent => False end.
Definition status_readable {A} `{JsonLaws ApiError} (r : Response A) : Prop :=
  match r with JSONError _ message => json_valid (ErrorMessage message) | _ => True end.

(** The call [w] is one run of [handler] on the state it meets: the daemon ends in the
    state the handler leaves, and the client reports what [read] makes of the response, the
    text of an error included; an error is reported as one whatever its text is. When the
    handler panics the client reports an error, and when the daemon is not reached nothing
    happens. *)
Definition does {A B} (rm : Remote) (w : outcome B * Server) (read : Response A → outcome B) (readable : Response A → Prop)
    (handler : Server → outcome (Response A * Server)) (s : Server) : Prop :=
  if reached (rm_call rm) then
    match handler (met rm s) with
    | Ok (r, s') => w.2 = s' ∧ (readable r → w.1 = read r) ∧ (ok_response r = false → ∃ e, w.1 = Fail e)
    | Fail _ | Panic => ∃ e, w.1 = Fail e
    end
  else (∃ e, w.1 = Fail e) ∧ w.2 = met rm s.

(** The client was made with the credentials of the daemon it reaches. (A colon in the
    user name would end it on the wire.) *)
Definition paired (setup : SetupEnv) (c : Config) (rm : Remote) : Prop :=
  (∃ address, rm_client rm = NewWithAuth address (Username (HttpBasicAuth c)) (Password (HttpBasicAuth c))) ∧
  (":"%char ∉ String.list_ascii_of_string (Username (HttpBasicAuth c))) ∧
  ∃ h, served setup c h ∧ (h_echo h = Some (rm_echo rm) ∨ h_echoAdmin h = Some (rm_echo rm)).

(** Errors are answered with another status than success. *)
Definition error_status {A} (r : Response A) : Prop :=
  match r with JSONError status _ => status ≠ StatusOK | _ => True end.
Definition answers_errors {A} (handler : Auth → outcome (Response A * Auth)) : Prop :=
  ∀ a r a', handler a = Ok (r, a') → error_status r.

(** ** Facts *)

Lemma cut_colon_app u p : (":"%char ∉ String.list_ascii_of_string u) → cut_colon (u +:+ ":" +:+ p) = Some (u, p).
Proof.
  induction u as [|ch u IH]; intros Hu; [done|]. cbn [String.list_ascii_of_string] in Hu. apply not_elem_of_cons in Hu as [Hne Hu].
  change (String.String ch u +:+ ":" +:+ p) with (String.String ch (u +:+ ":" +:+ p)). cbn [cut_colon].
  rewrite decide_False by congruence. by rewrite IH.
Qed.

Lemma paired_accepted setup c rm req : paired setup c rm → rq_auth req = cc_authorization (rm_client rm) → accepted c req.
Proof.
  intros ([address Ha] & Hcolon & _) Hr. unfold accepted. destruct (decide (Password (HttpBasicAuth c) = "")) as [?|Hp]; [by left|right].
  rewrite Hr, Ha. unfold NewWithAuth, cc_authorization. simpl. rewrite decide_True by done. simpl. by apply cut_colon_app.
Qed.

Lemma response_error_Fail {A} (r : HttpResponse) : ∃ e, @response_error A r = Fail e.
Proof. unfold response_error. destruct (json_decode _); eauto. Qed.

Lemma append_empty_r s : s +:+ "" = s.
Proof. induction s as [|ch s IH]; [done|]. exact (f_equal (String.String ch) IH). Qed.

(** The text of an error is the one the handler gave. *)
Lemma response_error_text {B} `{!JsonLaws ApiError} status message : json_valid (ErrorMessage message) →
  response_error (A := B) (mkHttpResponse status (json_encode (ErrorMessage message))) = Fail (status_error status message).
Proof.
  intros Hv. unfold response_error. cbn [rs_body rs_status]. rewrite json_decode_encode by done. unfold Error_Error, ErrorMessage, status_error.
  cbn [err_Message err_AuthMessage]. rewrite decide_False by naive_solver. by rewrite append_empty_r.
Qed.

Lemma read_status_error r : rs_status r ≠ StatusOK → read_status r = response_error r.
Proof. intros Hr. unfold read_status. by rewrite decide_True. Qed.
Lemma read_value_error {A} `{JsonCodec A} r : rs_status r ≠ StatusOK → @read_value A _ r = response_error r.
Proof. intros Hr. unfold read_value. by rewrite decide_True. Qed.

(** Both ways of reading a response. *)
Lemma read_status_respond {A} `{JsonCodec A} `{!JsonLaws ApiError} (r : Response A) : error_status r →
  (status_readable r → read_status (respond r) = readResponseStatus r) ∧ (ok_response r = false → ∃ e, read_status (respond r) = Fail e).
Proof.
  destruct r as [status m|a|]; intros Hr; [|by split..]. rewrite read_status_error by done.
  split; [intros Hv; by apply response_error_text|intros _; apply response_error_Fail].
Qed.

Lemma read_value_respond {A} `{JsonLaws A} `{!JsonLaws ApiError} (r : Response A) : error_status r →
  (value_readable r → read_value (respond r) = readResponseBody r) ∧ (ok_response r = false → ∃ e, @read_value A _ (respond r) = Fail e).
Proof.
  destruct r as [status m|a|]; intros Hr; [|split; [|done]..|by split].
  - rewrite read_value_error by done. split; [intros Hv; by apply response_error_text|intros _; apply response_error_Fail].
  - intros Hv. unfold read_value. simpl. by rewrite json_decode_encode.
Qed.

Lemma bound_errors {R A} (fields : R → list (string * bool)) bind (body : R → Auth → outcome (Response A * Auth)) :
  (∀ req, answers_errors (body req)) → answers_errors (λ a, bound fields bind a (λ req, body req a)).
Proof.
  intros Hb a r a'. unfold bound. destruct bind as [err|req]; [by intros [= <- _]|].
  destruct (Validate (fields req)); [by intros [= <- _]|]. apply Hb.
Qed.

Lemma add_response_errors r : answers_errors (add_response r).
Proof. intros a r' a'. unfold add_response. destruct r; naive_solver. Qed.

Ltac errors := apply bound_errors; intros req a r a' E; repeat (case_match; simplify_eq/=; try done); simplify_eq/=; try done.

Lemma GetKnownPeerSettings_errors bind : answers_errors (GetKnownPeerSettings bind).
Proof. errors. Qed.
Lemma UpdatePeerSettings_errors mid1 mid2 bind : answers_errors (UpdatePeerSettings mid1 mid2 bind).
Proof. errors. Qed.
Lemma SendFriendRequest_errors now bind : answers_errors (SendFriendRequest now bind).
Proof. errors. by eapply add_response_errors. Qed.
Lemma AcceptFriend_errors now es ex mid bind : answers_errors (AcceptFriend now es ex mid bind).
Proof. errors. by eapply add_response_errors. Qed.
Lemma UpdateMySettings_errors bind : answers_errors (UpdateMySettings bind).
Proof. errors. Qed.
Lemma UpdateProxySettings_errors bind : answers_errors (UpdateProxySettings bind).
Proof. errors. Qed.
End client.

(** The written routes of the server, by evaluation. *)
Ltac fixed_route := by apply (bool_decide_unpack _); vm_compute; exact I.

Section wire.
Context `{EchoLaws} `{!JsonLaws ApiError} `{MaddrParts} `{PeerCodec} `{Unicode} `{Validator} `{DnsLib}.
Context `{JsonCodec Config} `{JsonCodec KnownPeer} `{JsonCodec (list KnownPeersResponse)}
  `{JsonCodec (list BlockedPeer)} `{JsonCodec (list AuthRequest)} `{JsonCodec (list AvailableProxy)} `{JsonCodec PeerInfo} `{JsonCodec unit}
  `{JsonCodec FriendRequest} `{JsonCodec FriendRequestReply} `{JsonCodec PeerIDRequest} `{JsonCodec UpdatePeerSettingsRequest}
  `{JsonCodec UpdateMySettingsRequest} `{JsonCodec UpdateProxySettingsRequest} `{JsonCodec P2pDebugInfo}.
Context (setup : SetupEnv) (c : Config) (rm : Remote) (Hpaired : paired setup c rm).

Lemma do_request_runs r req s :
  reached (rm_call rm) = true → r ∈ api_routes [] → rt_method r = Some (rq_method req) → rt_path r = rq_path req →
  rq_auth req = cc_authorization (rm_client rm) →
  match run_endpoint (rm_env rm) (rt_handler r) req (met rm s) with
  | Ok (x, s') => do_request rm req s = (Ok x, s')
  | _ => ∃ s', do_request rm req s = (Ok (HTTPError StatusInternalServerError StatusText_500), s') ∨ ∃ e, do_request rm req s = (Fail e, s')
  end.
Proof.
  intros Hreach Hr Hm Hp Ha. unfold do_request. rewrite Hreach. cbn [negb]. fold (met rm s).
  pose proof (paired_accepted setup c rm req Hpaired Ha) as Hacc. destruct Hpaired as (_ & _ & h & Hs & He).
  apply served_servers in Hs as [_ Hs]. specialize (Hs _ He).
  pose proof (serve_accepted (rm_env rm) c (pprof_Profiles setup) (rm_echo rm) req (met rm s) Hs Hacc) as Hserve.
  unfold routed in Hserve. rewrite <- Hp in Hserve.
  rewrite (api_route_found c (pprof_Profiles setup) (rm_echo rm) r (rq_method req)) in Hserve; [|done|right; by rewrite Hm| |].
  - unfold answers in Hserve. destruct (run_endpoint _ _ _ _) as [[x s']|err|].
    + by rewrite Hserve.
    + rewrite Hserve. eexists. by left.
    + destruct (DevMode c); [rewrite Hserve; eexists; right; by eexists|]. destruct Hserve as [s' ->]. exists s'. by left.
  - apply api_routes_elem. by left.
  - unfold route_method. by rewrite Hm.
Qed.

Lemma internal_error_status {B} (read : HttpResponse → outcome B) :
  (∀ r, rs_status r ≠ StatusOK → read r = response_error r) →
  ∃ e, read (HTTPError StatusInternalServerError StatusText_500) = Fail e.
Proof. intros Hr. rewrite Hr by by rewrite HTTPError_status. apply response_error_Fail. Qed.

(** A call does what the handler of its route does, if it reads responses as [read']. *)
Lemma call_does {A B} `{JsonCodec A} (handler : Server → outcome (Response A * Server)) (read : HttpResponse → outcome B)
    (read' : Response A → outcome B) readable r req s :
  r ∈ api_routes [] → rt_method r = Some (rq_method req) → rt_path r = rq_path req → rq_auth req = cc_authorization (rm_client rm) →
  run_endpoint (rm_env rm) (rt_handler r) req (met rm s) = ('(x, s') ← handler (met rm s); Ok (respond x, s')) →
  (∀ r, rs_status r ≠ StatusOK → read r = response_error r) →
  (∀ x s', handler (met rm s) = Ok (x, s') →
     (readable x → read (respond x) = read' x) ∧ (ok_response x = false → ∃ e, read (respond x) = Fail e)) →
  does rm match do_request rm req s with (Ok r, s) => (read r, s) | (Fail e, s) => (Fail e, s) | (Panic, s) => (Panic, s) end
    read' readable handler s.
Proof.
  intros Hr Hm Hp Ha Hrun Hread Hv. unfold does. destruct (reached (rm_call rm)) eqn:Ereach.
  2: { unfold do_request. rewrite Ereach. split; [by eexists|done]. }
  pose proof (do_request_runs r req s Ereach Hr Hm Hp Ha) as Hdo. rewrite Hrun in Hdo.
  destruct (handler (met rm s)) as [[x s']|e|] eqn:Eh; cbn [mbind outcome_bind] in Hdo.
  - rewrite Hdo. split; [done|]. by apply (Hv x s').
  - destruct Hdo as (s' & [->|[e' ->]]); [by apply internal_error_status|by eexists].
  - destruct Hdo as (s' & [->|[e' ->]]); [by apply internal_error_status|by eexists].
Qed.

Lemma Bind_payload {P} `{JsonLaws P} path auth (payload : P) : json_valid payload →
  Bind json_decode (mkHttpRequest "POST" path "" auth "application/json" (json_encode payload)) = inr payload.
Proof. intros Hv. rewrite Bind_json by (done || apply json_encode_nonempty). simpl. by apply json_decode_encode. Qed.

(** A call that sends a payload and expects no value. *)
Lemma post_status_does {P} `{JsonLaws P} path ep (payload : P) (handler : string + P → Auth → outcome (Response unit * Auth)) s :
  POST path ep ∈ api_routes [] → json_valid payload → answers_errors (handler (inr payload)) →
  (∀ req, run_endpoint (rm_env rm) ep req (met rm s) = on_auth (handler (Bind json_decode req)) (met rm s)) →
  does rm (sendPostRequest rm path payload read_status s) readResponseStatus status_readable (on_server (handler (inr payload))) s.
Proof.
  intros Hr Hv Herr Hrun. unfold sendPostRequest.
  apply (call_does (on_server (handler (inr payload))) read_status readResponseStatus status_readable (POST path ep)); try done.
  - cbn [rt_handler POST]. rewrite Hrun, Bind_payload by done. unfold on_auth, on_server. by destruct (handler _ _) as [[]| |].
  - apply read_status_error.
  - intros x s' ([x' a'] & Hx & [= <- <-])%outcome_bind_Ok. apply read_status_respond. by eapply Herr.
Qed.

(** A call that sends nothing and expects a value the handler always has. *)
Lemma get_value_does {A} `{JsonLaws A} path ep (page : Server → A) s :
  GET path ep ∈ api_routes [] → (∀ req, run_endpoint (rm_env rm) ep req (met rm s) = Ok (respond (JSON (page (met rm s))), met rm s)) →
  does rm (sendGetRequest rm path read_value s) readResponseBody value_readable (λ s, Ok (JSON (page s), s)) s.
Proof.
  intros Hr Hrun. unfold sendGetRequest.
  apply (call_does (λ s, Ok (JSON (page s), s)) read_value readResponseBody value_readable (GET path ep)); try done.
  - apply read_value_error.
  - intros x s' [= <- <-]. by apply read_value_respond.
Qed.

(** Run undisturbed, a call is what [Cli] takes it for. *)
Lemma does_send {A B} (w : outcome B * Server) (read : Response A → outcome B) readable handler s r a' :
  does rm w read readable (on_server handler) s → reached (rm_call rm) = true →
  handler (before (rm_call rm) (sv_auth s)) = Ok (r, a') → readable r →
  let d := send read (rm_call rm) handler (sv_auth s) in w.1 = d.1 ∧ w.2 = mkServer d.2 (sv_p2p s).
Proof.
  unfold does, on_server, send. intros Hd Hreach Eh Hv. rewrite Hreach in *. cbn [met sv_auth sv_p2p negb] in *. rewrite Eh in *.
  cbn [mbind outcome_bind fst snd] in *. naive_solver.
Qed.
End wire.
