(* ===== verification/ClientLog.v ===== *)
(** * All calls of the client (src/api/apiclient/client.go)

    Fetching the log and the debug report over HTTP, the constructors of the client and
    the transport that adds credentials, and the theorem on all calls: each is one run of
    the handler of its route. The log is fetched without looking at the status of the
    response, which is why a refusal is taken for the log. *)

From S2P Require Import Prelude GoStrings GoNet Externals RingBuffer Config NetworkAddr AwlDns ConfigDefaults.
From S2P Require Import Protocol AuthStatus Socks5 P2p ApiDebug Api DebugInfo ApiServer Cli ApiClient.
Local Open Scope Z_scope.

(** [New] and [basicAuthTransport.RoundTrip]: the header is set on a copy of the request. *)
Definition Client_New (address : string) : ClientConfig := mkClientConfig address None.
Definition RoundTrip (username password : string) (inner : HttpRequest → outcome HttpResponse) (req : HttpRequest) : outcome HttpResponse :=
  inner (mkHttpRequest (rq_method req) (rq_path req) (rq_query req) (BasicCredentials (username +:+ ":" +:+ password)) (rq_content req) (rq_body req)).

Record LogRequest := mkLogRequest { lr_StartFromHead : bool; lr_LogsRows : Z }.

(** google/go-querystring with the encoding of its values. *)
Class QueryString := { query_Values : LogRequest → string + string }.

Record URL := mkURL { u_Scheme : string; u_Host : string; u_Path : string; u_RawQuery : string }.

Section log.
Context `{Multiaddrs} `{!MaddrParts} `{PeerCodec} `{Unicode} `{Validator} `{DnsLib}.
Context `{EchoLib} `{JsonCodec ApiError} `{JsonCodec Config} `{JsonCodec KnownPeer} `{JsonCodec (list KnownPeersResponse)}
  `{JsonCodec (list BlockedPeer)} `{JsonCodec (list AuthRequest)} `{JsonCodec (list AvailableProxy)} `{JsonCodec PeerInfo} `{JsonCodec unit}
  `{JsonCodec FriendRequest} `{JsonCodec FriendRequestReply} `{JsonCodec PeerIDRequest} `{JsonCodec UpdatePeerSettingsRequest}
  `{JsonCodec UpdateMySettingsRequest} `{JsonCodec UpdateProxySettingsRequest} `{JsonCodec P2pDebugInfo} `{QueryString}.

(** [getUrl]. *)
Definition getUrl (address methodPath : string) (params : LogRequest) : outcome URL :=
  match query_Values params with
  | inl err => Fail err
  | inr v => Ok (mkURL "http" address methodPath v)
  end.

(** [ApplicationLog]: [read] is whether the body is read to its end. *)
Definition ApplicationLog (rm : Remote) (read : bool) (numberOfLogs : Z) (startFromHead : bool) : Wire string := λ s,
  match getUrl (cc_address (rm_client rm)) GetDebugLogPath (mkLogRequest startFromHead numberOfLogs) with
  | Ok u =>
      match do_request rm (mkHttpRequest "GET" (u_Path u) (u_RawQuery u) (cc_authorization (rm_client rm)) "" "") s with
      | (Ok resp, s) => if read then (Ok (rs_body resp), s) else (Fail "unexpected EOF", s)
      | (Fail e, s) => (Fail e, s)
      | (Panic, s) => (Panic, s)
      end
  | Fail e => (Fail e, s)
  | Panic => (Panic, s)
  end.

(** [P2pDebugInfo]. *)
Definition Wire_P2pDebugInfo (rm : Remote) : Wire P2pDebugInfo := sendGetRequest rm GetP2pDebugInfoPath read_value.
End log.

(** The server reads the query back as it was written. *)
Class QueryLaws `{EchoLib} `{QueryString} := {
  query_total : ∀ r, ∃ q, query_Values r = inr q;
  query_bound : ∀ r q req, query_Values r = inr q → rq_method req = "GET" → rq_query req = q → BindQuery req = inr (lr_StartFromHead r, lr_LogsRows r);
}.

Section calls.
Context `{EchoLaws} `{!JsonLaws ApiError} `{MaddrParts} `{PeerCodec} `{Unicode} `{Validator} `{DnsLib}.
Context `{JsonCodec Config} `{JsonLaws KnownPeer} `{JsonLaws (list KnownPeersResponse)}
  `{JsonLaws (list BlockedPeer)} `{JsonLaws (list AuthRequest)} `{JsonLaws (list AvailableProxy)} `{JsonLaws PeerInfo} `{JsonCodec unit}
  `{JsonLaws FriendRequest} `{JsonLaws FriendRequestReply} `{JsonLaws PeerIDRequest} `{JsonLaws UpdatePeerSettingsRequest}
  `{JsonLaws UpdateMySettingsRequest} `{JsonLaws UpdateProxySettingsRequest} `{JsonLaws P2pDebugInfo} `{!QueryString} `{!QueryLaws}.
Context (setup : SetupEnv) (c : Config) (rm : Remote).

(** A transport with the client's credentials is what the calls assume of it. *)
Theorem transport_adds_credentials address username password inner req : password ≠ "" →
  RoundTrip username password inner req =
    inner (mkHttpRequest (rq_method req) (rq_path req) (rq_query req) (cc_authorization (NewWithAuth address username password)) (rq_content req) (rq_body req)).
Proof. intros Hp. unfold RoundTrip, NewWithAuth, cc_authorization. simpl. by rewrite decide_True. Qed.

(** Without the credentials of the daemon the client gets the refusal, and takes it for
    the log. *)
Theorem refusal_taken_for_log rows head s h :
  served setup c h → h_echo h = Some (rm_echo rm) → Password (HttpBasicAuth c) ≠ "" → cc_auth (rm_client rm) = None →
  reached (rm_call rm) = true →
  ApplicationLog rm true rows head s = (Ok (json_encode (mkApiError "" "Unauthorized")), met rm s).
Proof.
  intros Hs He Hpw Hno Hr. unfold ApplicationLog, getUrl. destruct (query_total (mkLogRequest head rows)) as [q ->].
  apply served_servers in Hs as [_ Hs]. specialize (Hs _ (or_introl He)). unfold do_request. rewrite Hr. cbn [negb].
  unfold cc_authorization. rewrite Hno.
  rewrite (serve_denied _ c (pprof_Profiles setup)); [unfold refusal; simpl; by rewrite HTTPError_body|done|]. by intros [?|?].
Qed.

(** ** The calls *)

Context (Hpaired : paired setup c rm).

(** Nothing happens to the daemon when it is not reached. *)
Lemma log_unreached rows head s : reached (rm_call rm) = false →
  ∃ e, ApplicationLog rm true rows head s = (Fail e, met rm s).
Proof.
  intros Hr. unfold ApplicationLog, getUrl. destruct (query_total (mkLogRequest head rows)) as [q ->].
  unfold do_request. rewrite Hr. by eexists.
Qed.

(** With the credentials of the daemon the client gets the text [GetLog] makes of the log,
    or its error, taken for the log. *)
Lemma log_fetched rows head s : reached (rm_call rm) = true →
  match GetLog head rows (se_logBuffer (rm_env rm)) with
  | Ok text => ApplicationLog rm true rows head s = (Ok (bytes_str text), met rm s)
  | Fail err => ApplicationLog rm true rows head s = (Ok (json_encode (ErrorMessage err)), met rm s)
  | Panic => True
  end.
Proof.
  intros Hr. unfold ApplicationLog, getUrl. destruct (query_total (mkLogRequest head rows)) as [q Hq]. rewrite Hq.
  pose proof (do_request_runs setup c rm Hpaired (GET GetDebugLogPath E_GetLog)
    (mkHttpRequest "GET" GetDebugLogPath q (cc_authorization (rm_client rm)) "" "") s Hr) as Hdo.
  cbn [run_endpoint rt_handler GET] in Hdo. rewrite (query_bound (mkLogRequest head rows) q) in Hdo by done.
  cbn [lr_StartFromHead lr_LogsRows] in Hdo. cbn [u_Path u_RawQuery].
  destruct (GetLog _ _ _); [|..|done]; (rewrite Hdo; [done|fixed_route|done..]).
Qed.

Lemma known_peer_config_does id s : json_valid (mkPeerIDRequest id) →
  does rm (Wire_KnownPeerConfig rm id s) readResponseBody value_readable (on_server (GetKnownPeerSettings (inr (mkPeerIDRequest id)))) s.
Proof.
  intros Hv. unfold Wire_KnownPeerConfig, sendPostRequest.
  apply (call_does setup c rm Hpaired (on_server (GetKnownPeerSettings (inr (mkPeerIDRequest id)))) read_value readResponseBody value_readable
           (POST GetKnownPeerSettingsPath E_GetKnownPeerSettings)); [fixed_route|done..| | |].
  - cbn [run_endpoint rt_handler POST]. rewrite Bind_payload by done. unfold on_auth, on_server. by destruct (GetKnownPeerSettings _ _) as [[]| |].
  - apply read_value_error.
  - intros x s' ([x' a'] & Hx & [= <- <-])%outcome_bind_Ok. apply read_value_respond. by eapply GetKnownPeerSettings_errors.
Qed.

Lemma auth_requests_does s :
  let ids a := se_ids (rm_env rm) (GetIngoingAuthRequests (se_auths (rm_env rm) (ingoingAuths a))) in
  does rm (Wire_AuthRequests rm s) readResponseBody value_readable
    (on_server (λ a, l ← GetAuthRequests (se_auths (rm_env rm) (ingoingAuths a)) (ids a) a; Ok (JSON l, a))) s.
Proof.
  intros ids. unfold Wire_AuthRequests, sendGetRequest.
  apply (call_does setup c rm Hpaired (on_server (λ a, l ← GetAuthRequests (se_auths (rm_env rm) (ingoingAuths a)) (ids a) a; Ok (JSON l, a)))
           read_value readResponseBody value_readable (GET GetAuthRequestsPath E_GetAuthRequests)); [fixed_route|done..| | |].
  - cbn [run_endpoint rt_handler GET]. unfold on_auth, on_server. fold (ids (sv_auth (met rm s))). by destruct (GetAuthRequests _ _ _).
  - apply read_value_error.
  - intros x s' ([x' a'] & (l & _ & [= <- <-])%outcome_bind_Ok & [= <- <-])%outcome_bind_Ok. by apply read_value_respond.
Qed.

Lemma p2p_info_does s :
  does rm (Wire_P2pDebugInfo rm s) readResponseBody value_readable
    (λ s, let c := a_conf (sv_auth s) in
       info ← GetP2pDebugInfo (se_debug (rm_env rm)) (se_known (rm_env rm) (KnownPeers c)).*1 (sv_p2p s) c; Ok (JSON info, s)) s.
Proof.
  unfold Wire_P2pDebugInfo, sendGetRequest.
  match goal with |- does _ _ _ _ ?h _ => apply (call_does setup c rm Hpaired h read_value readResponseBody value_readable
           (GET GetP2pDebugInfoPath E_GetP2pDebugInfo)) end; [fixed_route|done..| | |].
  - cbn [run_endpoint rt_handler GET]. by destruct (GetP2pDebugInfo _ _ _ _).
  - apply read_value_error.
  - intros x s' (l & _ & [= <- <-])%outcome_bind_Ok. by apply read_value_respond.
Qed.

(** The removal of a peer also works on the connections. *)
Definition remove_on_server (env : ServerEnv) (id : string) (s : Server) : outcome (Response unit * Server) :=
  let '(r, p, a) := Handler_RemovePeer (se_now env) (se_exchange env) (se_mid env) (inr (mkPeerIDRequest id)) (sv_p2p s) (sv_auth s) in
  Ok (r, mkServer a p).

Lemma remove_peer_does id s : json_valid (mkPeerIDRequest id) →
  does rm (Wire_RemovePeer rm id s) readResponseStatus status_readable (remove_on_server (rm_env rm) id) s.
Proof.
  intros Hv. unfold Wire_RemovePeer, sendPostRequest.
  apply (call_does setup c rm Hpaired (remove_on_server (rm_env rm) id) read_status readResponseStatus status_readable
           (POST RemovePeerSettingsPath E_RemovePeer)); [fixed_route|done..| | |].
  - cbn [run_endpoint rt_handler POST]. rewrite Bind_payload by done. unfold remove_on_server. by destruct (Handler_RemovePeer _ _ _ _ _ _) as [[]].
  - apply read_status_error.
  - intros x s'. unfold remove_on_server. destruct (Handler_RemovePeer _ _ _ _ _ _) as [[r p'] a'] eqn:E. intros [= <- <-].
    apply read_status_respond. unfold Handler_RemovePeer in E. repeat (case_match; simplify_eq/=; try done).
Qed.
End calls.

(** ** Properties *)

(** C30. The client and the server speak the same language. A call of a client with the
    daemon's credentials, sent as an HTTP request and answered by the router, is one run
    of the handler the call is named after, on the request the client was given and the
    state the request meets: the daemon ends in the state the handler leaves, and the
    client reports what it makes of the response, an error with the text the handler gave
    (as far as the response survives its encoding). A handler that panics is reported as
    an error, and a daemon that is not reached is left alone. All fourteen calls are
    covered; the last one takes the body it gets for the log, an error included. *)
Theorem client_calls_are_handler_runs `{EchoLaws} `{!JsonLaws ApiError} `{MaddrParts} `{PeerCodec} `{Unicode} `{Validator} `{DnsLib}
    `{JsonCodec Config} `{JsonLaws KnownPeer} `{JsonLaws (list KnownPeersResponse)} `{JsonLaws (list BlockedPeer)}
    `{JsonLaws (list AuthRequest)} `{JsonLaws (list AvailableProxy)} `{JsonLaws PeerInfo} `{JsonCodec unit}
    `{JsonLaws FriendRequest} `{JsonLaws FriendRequestReply} `{JsonLaws PeerIDRequest} `{JsonLaws UpdatePeerSettingsRequest}
    `{JsonLaws UpdateMySettingsRequest} `{JsonLaws UpdateProxySettingsRequest} `{JsonLaws P2pDebugInfo} `{!QueryString} `{!QueryLaws}
    setup c rm s :
  paired setup c rm →
  let env := rm_env rm in
  let value {A} `{JsonLaws A} (w : Wire A) (handler : Server → outcome (Response A * Server)) :=
    does rm (w s) readResponseBody value_readable handler s in
  let page {A} `{JsonLaws A} (w : Wire A) (f : Config → A) := value w (λ s, Ok (JSON (f (a_conf (sv_auth s))), s)) in
  let status (w : Wire unit) (handler : Server → outcome (Response unit * Server)) :=
    does rm (w s) readResponseStatus status_readable handler s in
  page (Wire_KnownPeers rm) (λ c, getKnownPeers (se_host env) (se_known env (KnownPeers c)).*1 c) ∧
  (∀ id, json_valid (mkPeerIDRequest id) →
     value (Wire_KnownPeerConfig rm id) (on_server (GetKnownPeerSettings (inr (mkPeerIDRequest id))))) ∧
  page (Wire_PeerInfo rm) (GetMyPeerInfo env) ∧
  page (Wire_ListAvailableProxies rm) (Handler_ListAvailableProxies env) ∧
  (∀ id, json_valid (mkUpdateProxySettingsRequest id) →
     status (Wire_UpdateProxySettings rm id) (on_server (UpdateProxySettings (inr (mkUpdateProxySettingsRequest id))))) ∧
  (∀ id alias ip, json_valid (mkFriendRequest id alias ip) →
     status (Wire_SendFriendRequest rm id alias ip) (on_server (SendFriendRequest (se_now env) (inr (mkFriendRequest id alias ip))))) ∧
  (∀ id alias decline ip, json_valid (mkFriendRequestReply id alias decline ip) →
     status (Wire_ReplyFriendRequest rm id alias decline ip)
       (on_server (λ a, AcceptFriend (se_now env) (se_auths env (ingoingAuths a)) (se_exchange env) (se_mid env)
                          (inr (mkFriendRequestReply id alias decline ip)) a))) ∧
  value (Wire_AuthRequests rm)
    (on_server (λ a, let es := se_auths env (ingoingAuths a) in
                     l ← GetAuthRequests es (se_ids env (GetIngoingAuthRequests es)) a; Ok (JSON l, a))) ∧
  page (Wire_BlockedPeers rm) (λ c, GetBlockedPeers (se_blocked env (BlockedPeers c)).*2) ∧
  (∀ req, json_valid req →
     status (Wire_UpdatePeerSettings rm req) (on_server (UpdatePeerSettings (se_mid1 env) (se_mid2 env) (inr req)))) ∧
  (∀ id, json_valid (mkPeerIDRequest id) → status (Wire_RemovePeer rm id) (remove_on_server env id)) ∧
  (∀ name, json_valid (mkUpdateMySettingsRequest name) →
     status (Wire_UpdateMySettings rm name) (on_server (UpdateMySettings (inr (mkUpdateMySettingsRequest name))))) ∧
  value (Wire_P2pDebugInfo rm)
    (λ s, let c := a_conf (sv_auth s) in
       info ← GetP2pDebugInfo (se_debug env) (se_known env (KnownPeers c)).*1 (sv_p2p s) c; Ok (JSON info, s)) ∧
  (∀ rows head,
     if reached (rm_call rm) then
       match GetLog head rows (se_logBuffer env) with
       | Ok text => ApplicationLog rm true rows head s = (Ok (bytes_str text), met rm s)
       | Fail err => ApplicationLog rm true rows head s = (Ok (json_encode (ErrorMessage err)), met rm s)
       | Panic => True
       end
     else ∃ e, ApplicationLog rm true rows head s = (Fail e, met rm s)).
Proof.
  intros Hp env value page status. split_and!.
  - apply (get_value_does setup c rm Hp _ E_GetKnownPeers (λ s, getKnownPeers _ _ (a_conf (sv_auth s)))); [fixed_route|done].
  - intros id Hv. by apply (known_peer_config_does setup c).
  - apply (get_value_does setup c rm Hp _ E_GetMyPeerInfo (λ s, GetMyPeerInfo env (a_conf (sv_auth s)))); [fixed_route|done].
  - apply (get_value_does setup c rm Hp _ E_ListAvailableProxies (λ s, Handler_ListAvailableProxies env (a_conf (sv_auth s)))); [fixed_route|done].
  - intros id Hv. apply (post_status_does setup c rm Hp _ E_UpdateProxySettings _ UpdateProxySettings); [fixed_route|done| |done].
    apply UpdateProxySettings_errors.
  - intros id alias ip Hv. apply (post_status_does setup c rm Hp _ E_SendFriendRequest _ (SendFriendRequest (se_now env))); [fixed_route|done| |done].
    apply SendFriendRequest_errors.
  - intros id alias decline ip Hv.
    apply (post_status_does setup c rm Hp _ E_AcceptFriend _
      (λ bind a, AcceptFriend (se_now env) (se_auths env (ingoingAuths a)) (se_exchange env) (se_mid env) bind a)); [fixed_route|done| |done].
    intros a r a'. apply AcceptFriend_errors.
  - by apply (auth_requests_does setup c).
  - apply (get_value_does setup c rm Hp _ E_GetBlockedPeers (λ s, GetBlockedPeers (se_blocked env (BlockedPeers (a_conf (sv_auth s)))).*2)); [fixed_route|done].
  - intros req Hv. apply (post_status_does setup c rm Hp _ E_UpdatePeerSettings req (UpdatePeerSettings (se_mid1 env) (se_mid2 env))); [fixed_route|done| |done].
    apply UpdatePeerSettings_errors.
  - intros id Hv. by apply (remove_peer_does setup c).
  - intros name Hv. apply (post_status_does setup c rm Hp _ E_UpdateMySettings _ UpdateMySettings); [fixed_route|done| |done].
    apply UpdateMySettings_errors.
  - by apply (p2p_info_does setup c).
  - intros rows head. destruct (reached (rm_call rm)) eqn:Hr; [|by eapply log_unreached].
    by apply (log_fetched setup c).
Qed.

(** ** Witnesses *)

#[local] Existing Instances toy_maddrs toy_parts toy_peers toy_unicode toy_validator toy_dns toy_echo toy_echo_laws.
#[local] Existing Instances error_codec unit_codec known_codec conf_codec list_codec pid_codec friend_codec reply_codec.
#[local] Existing Instances update_codec name_codec proxy_codec info_codec debug_codec sample_codec_laws.

(** A client of the daemon with the password, made for its address. *)
Definition sample_remote : Remote := mkRemote (NewWithAuth "127.0.0.1:8639" "me" "secret") quiet (sample_of (h_echo secret_handler)) sample_env.

Lemma sample_paired : paired any_setup secret_conf sample_remote.
Proof.
  split; [by eexists|]. split; [apply (bool_decide_unpack _); vm_compute; exact I|].
  exists secret_handler. split; [exact secret_served|]. left. vm_compute. reflexivity.
Qed.

(** Queries as numbers. *)
#[local] Instance toy_query : QueryString := {| query_Values r := inr (digits (encode (lr_StartFromHead r, lr_LogsRows r))) |}.
#[local] Instance toy_query_laws : QueryLaws.
Proof. constructor; [by eexists|]. intros r q req [= <-] _ E. simpl. by rewrite E, undigits_digits, decode_encode. Qed.

(** The sample daemon renames its peer, shows its settings and its log. *)
Lemma client_calls_are_handler_runs_witness :
  does sample_remote (Wire_UpdatePeerSettings sample_remote update_b sample_server) readResponseStatus status_readable
    (on_server (UpdatePeerSettings id id (inr update_b))) sample_server ∧
  does sample_remote (Wire_KnownPeerConfig sample_remote "b" sample_server) readResponseBody value_readable
    (on_server (GetKnownPeerSettings (inr (mkPeerIDRequest "b")))) sample_server ∧
  (ApplicationLog sample_remote true 5 true sample_server).2 = sample_server.
Proof.
  destruct (client_calls_are_handler_runs any_setup secret_conf sample_remote sample_server sample_paired)
    as (_ & Hknown & _ & _ & _ & _ & _ & _ & _ & Hupdate & _ & _ & _ & Hlog).
  split; [apply (Hupdate update_b); reflexivity|]. split; [apply (Hknown "b"); reflexivity|].
  specialize (Hlog 5 true). simpl in Hlog. rewrite Hlog. reflexivity.
Defined.
