(* ===== verification/Commands.v ===== *)
(** * The command line (src/cli/cli.go, src/cli/me.go, src/cli/peers.go)

    The dispatch of the program's arguments, the table of commands with their flags and
    preparations, and what each command does through the client of [Cli]. Parsing of
    flags is urfave/cli's: a command gets the values of its flags as a context. *)

From S2P Require Import Prelude GoStrings GoNet Externals RingBuffer Config NetworkAddr AwlDns ConfigDefaults.
From S2P Require Import Protocol AuthStatus Socks5 P2p ApiDebug Api ApiServer Update Cli ApiClient.
Local Open Scope Z_scope.

(** ** The program's arguments ([Run]) *)

Definition WithEnvCommandName : string := "with-env".
Definition CliCommandName : string := "cli".

(** What [Run] does with the arguments behind the program's name. *)
Inductive run_result := StartServer | RunCli (args : list string) | PrintHelp | PrintVersion | UnknownCommand (arg : string).
Definition Run (args : list string) : run_result :=
  match args with
  | [] => StartServer
  | arg :: _ =>
      if decide (arg = WithEnvCommandName) then StartServer
      else if decide (arg = CliCommandName) then RunCli args
      else if decide (arg = "-h" ∨ arg = "--help") then PrintHelp
      else if decide (arg = "-v" ∨ arg = "--version") then PrintVersion
      else UnknownCommand arg
  end.

(** ** The table of commands ([init]) *)

Inductive command :=
  | MeStatus | MeId | MeRename | MeListProxies | MeSetProxy
  | PeersStatus | PeersRequests | PeersAdd | PeersRemove | PeersRename | PeersUpdateDomain | PeersUpdateIP | PeersAllowExitNode
  | Logs | P2pInfo | UpdateAwl.

Global Instance command_eq_dec : EqDecision command.
Proof. solve_decision. Defined.

(** A flag with its other names, and what its value is when it is not given. *)
Inductive flag_kind := StringFlag (value : string) | BoolFlag | IntFlag (value : Z).
Record Flag := mkFlag { fl_Name : string; fl_Aliases : list string; fl_Required : bool; fl_Kind : flag_kind }.
Definition string_flag (name : string) (required : bool) : Flag := mkFlag name [] required (StringFlag "").

(** What runs before the action. *)
Inductive before_action := NoBefore | InitApi | InitApiAndPeerId (isRequired : bool).
Global Instance before_action_eq_dec : EqDecision before_action.
Proof. solve_decision. Defined.

Record CommandSpec := mkCommandSpec { cs_Path : list string; cs_Flags : list Flag; cs_Before : before_action; cs_Command : command }.

Definition pid_or_name : list Flag := [string_flag "pid" false; string_flag "name" false].

(** The groups [me] and [peers], the second in two parts, and the commands outside groups. *)
Definition me_commands : list CommandSpec :=
  [ mkCommandSpec ["me"; "status"] [] InitApi MeStatus;
    mkCommandSpec ["me"; "id"] [] InitApi MeId;
    mkCommandSpec ["me"; "rename"] [string_flag "name" true] InitApi MeRename;
    mkCommandSpec ["me"; "list_proxies"] [] InitApi MeListProxies;
    mkCommandSpec ["me"; "set_proxy"] pid_or_name (InitApiAndPeerId false) MeSetProxy ].

Definition peers_commands : list CommandSpec :=
  [ mkCommandSpec ["peers"; "status"] [mkFlag "format" ["f"] false (StringFlag "npslucev")] InitApi PeersStatus;
    mkCommandSpec ["peers"; "requests"] [] InitApi PeersRequests;
    mkCommandSpec ["peers"; "add"] [string_flag "pid" true; string_flag "name" true; string_flag "ip" false] InitApi PeersAdd;
    mkCommandSpec ["peers"; "remove"] pid_or_name (InitApiAndPeerId true) PeersRemove ].

Definition peer_settings_commands : list CommandSpec :=
  [ mkCommandSpec ["peers"; "rename"] (pid_or_name ++ [string_flag "new_name" true]) (InitApiAndPeerId true) PeersRename;
    mkCommandSpec ["peers"; "update_domain"] (pid_or_name ++ [string_flag "domain" true]) (InitApiAndPeerId true) PeersUpdateDomain;
    mkCommandSpec ["peers"; "update_ip"] (pid_or_name ++ [string_flag "ip" true]) (InitApiAndPeerId true) PeersUpdateIP;
    mkCommandSpec ["peers"; "allow_exit_node"] (pid_or_name ++ [mkFlag "allow" [] false BoolFlag]) (InitApiAndPeerId true) PeersAllowExitNode ].

Definition other_commands : list CommandSpec :=
  [ mkCommandSpec ["logs"] [mkFlag "head" [] false BoolFlag; mkFlag "n" [] false (IntFlag 10)] InitApi Logs;
    mkCommandSpec ["p2p_info"] [] InitApi P2pInfo;
    mkCommandSpec ["update"] [mkFlag "quiet" ["q"] false BoolFlag; mkFlag "run" ["r"] false BoolFlag] NoBefore UpdateAwl ].

Definition commands : list CommandSpec := me_commands ++ peers_commands ++ peer_settings_commands ++ other_commands.

(** The values of the flags of a command. *)
Record Context := mkContext { cx_String : string → string; cx_Bool : string → bool; cx_Int : string → Z }.
Definition cx_Set (name value : string) (c : Context) : Context :=
  mkContext (λ n, if decide (n = name) then value else cx_String c n) (cx_Bool c) (cx_Int c).

(** ** Actions *)

Section commands.
Context `{Multiaddrs} `{!MaddrParts} `{PeerCodec} `{Unicode} `{Validator} `{DnsLib}.

(** What a command meets: its calls in order, and what the daemon and the terminal show. *)
Record CliEnv := mkCliEnv {
  ce_call0 : Call;                       (* the look-up of a name *)
  ce_call1 : Call;
  ce_call2 : Call;
  ce_now : time;
  ce_exchange : Exchange PeerStatusInfo;
  ce_mid : Store → Store;
  ce_p2p : P2p;
  ce_server : ServerEnv;
  ce_when : time → string;
  ce_usage : KnownPeersResponse → string;
  ce_table : list (list string) → string;   (* the text of a table *)
  ce_log : bool → Z → outcome string;
  ce_debug : outcome string;
}.

(** The other calls of the client. *)
Definition Client_KnownPeers (env : CliEnv) (call : Call) : Client (list KnownPeersResponse) :=
  send readResponseBody call (λ a,
    let c := a_conf a in
    Ok (JSON (getKnownPeers (se_host (ce_server env)) (se_known (ce_server env) (KnownPeers c)).*1 c), a)).
Definition Client_PeerInfo (env : CliEnv) (call : Call) : Client PeerInfo :=
  send readResponseBody call (λ a, Ok (JSON (GetMyPeerInfo (ce_server env) (a_conf a)), a)).
Definition Client_ListAvailableProxies (env : CliEnv) (call : Call) : Client (list AvailableProxy) :=
  send readResponseBody call (λ a, Ok (JSON (Handler_ListAvailableProxies (ce_server env) (a_conf a)), a)).
Definition Client_RemovePeer (env : CliEnv) (call : Call) (peerID : string) : Client unit :=
  send readResponseStatus call (λ a,
    let '(r, _, a) := Handler_RemovePeer (ce_now env) (ce_exchange env) (ce_mid env) (inr (mkPeerIDRequest peerID)) (ce_p2p env) a in
    Ok (r, a)).

(** A step that does not talk to the daemon. *)
Definition lift {A} (r : outcome A) : Client A := λ a, (r, a).

(** [printPeerId], [listProxies], [printFriendRequests] and [removePeer]; the picture of
    the identifier is left out. *)
Definition printPeerId (env : CliEnv) : Client string :=
  info ← Client_PeerInfo env (ce_call1 env); mret ("your peer id: " +:+ pi_PeerID info).

Definition listProxies (env : CliEnv) : Client string :=
  proxies ← Client_ListAvailableProxies env (ce_call1 env);
  match proxies with
  | [] => mret "no available proxies"
  | _ => mret (Join ("Proxies:" :: ((λ p, "- peer name: " +:+ av_PeerName p +:+ " | peer id: " +:+ av_PeerID p) <$> proxies)) newline)
  end.

Definition printFriendRequests (env : CliEnv) : Client string :=
  authRequests ← Client_AuthRequests (ce_call1 env);
  match authRequests with
  | [] => mret "you have no incoming requests"
  | _ => mret (Join ((λ req, "Name: '" +:+ ap_Name (ar_AuthPeer req) +:+ "' peerID: " +:+ ar_PeerID req +:+
                             " suggestedIP: " +:+ SuggestedIP req) <$> authRequests) newline)
  end.

Definition removePeer (env : CliEnv) (peerID : string) : Client string :=
  _ ← Client_RemovePeer env (ce_call1 env) peerID; mret "peer removed successfully".

(** [printStatus]: the rows of the table besides the network usage and the uptime, which are rendered from floats and durations. *)
Definition formatWorkingStatus (working : bool) : string := if working then "working" else "not working".
Definition status_rows (stats : PeerInfo) : list (list string) :=
  [ ["Bootstrap peers"; Itoa (pi_ConnectedBootstrapPeers stats) +:+ "/" +:+ Itoa (pi_TotalBootstrapPeers stats)];
    ["DNS"; formatWorkingStatus (pi_IsAwlDNSSetAsSystem stats)];
    ["SOCKS5 Proxy"; formatWorkingStatus (si_ListenerEnabled (pi_SOCKS5 stats))];
    ["SOCKS5 Proxy address"; si_ListenAddress (pi_SOCKS5 stats)];
    ["SOCKS5 Proxy exit node"; si_UsingPeerName (pi_SOCKS5 stats)];
    ["Reachability"; ToLower (pi_Reachability stats)];
    ["Server version"; pi_ServerVersion stats] ].

(** The actions of the commands that talk to the daemon. *)
Definition action (env : CliEnv) (cmd : command) (c : Context) : Client string :=
  match cmd with
  | MeStatus => stats ← Client_PeerInfo env (ce_call1 env); mret (ce_table env (status_rows stats))
  | MeId => printPeerId env
  | MeRename => renameMe (ce_call1 env) (cx_String c "name")
  | MeListProxies => listProxies env
  | MeSetProxy => setProxy (ce_call1 env) (cx_String c "pid")
  | PeersStatus =>
      '(headers, rows) ← (λ a, let '(peers, a) := Client_KnownPeers env (ce_call1 env) a in
                               (printPeersStatus (ce_when env) (ce_usage env) (cx_String c "format") peers, a));
      mret (ce_table env (headers :: rows))
  | PeersRequests => printFriendRequests env
  | PeersAdd => addPeer (ce_call1 env) (ce_call2 env) (ce_now env) (ce_exchange env) (ce_mid env)
                  (cx_String c "pid") (cx_String c "name") (cx_String c "ip")
  | PeersRemove => removePeer env (cx_String c "pid")
  | PeersRename => changePeerAlias (ce_call1 env) (ce_call2 env) (cx_String c "pid") (cx_String c "new_name")
  | PeersUpdateDomain => changePeerDomain (ce_call1 env) (ce_call2 env) (cx_String c "pid") (cx_String c "domain")
  | PeersUpdateIP => changePeerIP (ce_call1 env) (ce_call2 env) (cx_String c "pid") (cx_String c "ip")
  | PeersAllowExitNode => setAllowUsingAsExitNode (ce_call1 env) (ce_call2 env) (cx_String c "pid") (cx_Bool c "allow")
  | Logs => lift (ce_log env (cx_Bool c "head") (cx_Int c "n"))
  | P2pInfo => lift (ce_debug env)
  | UpdateAwl => mret ""
  end.

(** [initApiAndPeerId] after the connection: the context with the flag pid set. *)
Definition resolve_pid (env : CliEnv) (isRequired : bool) (c : Context) : Client Context := λ a,
  if decide (cx_String c "pid" ≠ "") then (Ok c, a)
  else if decide (cx_String c "name" = "") then
    (if isRequired then Fail "peerID or name should be defined" else Ok c, a)
  else
    let '(peers, a) := Client_KnownPeers env (ce_call0 env) a in
    (pid ← getPeerIdByAlias peers (cx_String c "name"); Ok (cx_Set "pid" pid c), a).

(** A command of the table: what runs before it, then its action. *)
Definition run_command (connect : outcome ClientConfig) (env : CliEnv) (spec : CommandSpec) (c : Context) : Client string :=
  match cs_Before spec with
  | NoBefore => action env (cs_Command spec) c
  | InitApi => _ ← lift connect; action env (cs_Command spec) c
  | InitApiAndPeerId isRequired =>
      _ ← lift connect; c ← resolve_pid env isRequired c; action env (cs_Command spec) c
  end.
End commands.

(** ** Updating *)

(** How the command update ends: with an error, without an update, or with one, after
    which the program is started again or ends. *)
Inductive update_end := UpdateFailed (err : string) | UpToDate | UpdateStopped | Updated (rerun : bool) (cleanup : outcome unit).

Definition cli_update `{Unicode} (quiet run : bool) (input : list string) (conf : outcome Config)
    (service : Config → outcome UpdateService) (check : UpdateService → outcome (option string)) (DoUpdate : outcome unit)
    (cleanup : outcome unit) : update_end :=
  match conf with
  | Ok c =>
      match service c with
      | Ok s =>
          match check s with
          | Ok None => UpToDate
          | Ok (Some _) =>
              if negb quiet && negb (yesNoPrompt true input) then UpdateStopped
              else match DoUpdate with
                   | Ok _ => Updated run cleanup
                   | Fail e => UpdateFailed ("update: updating process: " +:+ e)
                   | Panic => UpdateFailed "panic"
                   end
          | Fail e => UpdateFailed ("update: check for updates: " +:+ e)
          | Panic => UpdateFailed "panic"
          end
      | Fail e => UpdateFailed ("update: create update service: " +:+ e)
      | Panic => UpdateFailed "panic"
      end
  | Fail e => UpdateFailed ("update: read config: " +:+ e)
  | Panic => UpdateFailed "panic"
  end.

(** ** Facts *)

Lemma getKnownPeers_elem `{Multiaddrs} `{!MaddrParts} `{PeerCodec} `{Unicode} h ids c x :
  x ∈ getKnownPeers h ids c ↔ ∃ id, id ∈ ids ∧ x = known_peer_response h c id.
Proof.
  unfold getKnownPeers. rewrite SliceStable_partition. set (l := known_peer_response h c <$> _).
  assert (x ∈ filter (λ x, kpr_Connected x = true) l ++ filter (λ x, kpr_Connected x = false) l ↔ x ∈ l) as ->.
  { rewrite elem_of_app, !list_elem_of_filter. destruct (kpr_Connected x); naive_solver. }
  unfold l. rewrite list_elem_of_fmap. split.
  - intros (id & -> & Hid). exists id. split; [|done]. unfold sort_Strings in Hid. by rewrite merge_sort_Permutation in Hid.
  - intros (id & Hid & ->). exists id. split; [done|]. unfold sort_Strings. by rewrite merge_sort_Permutation.
Qed.

Lemma find_alias_unique alias key l :
  (∀ x, x ∈ l → kpr_Alias x = alias → kpr_PeerID x = key) → (∃ x, x ∈ l ∧ kpr_Alias x = alias) → find_alias alias l = Some key.
Proof.
  induction l as [|y l IH]; intros Hu (x & Hx & Ha); [by apply elem_of_nil in Hx|]. cbn [find_alias].
  case_decide as Hy; [f_equal; apply Hu; [set_solver|done]|]. apply elem_of_cons in Hx as [->|Hx]; [done|].
  apply IH; [intros z Hz; apply Hu; set_solver|eauto].
Qed.

Lemma find_alias_none alias l : (∀ x, x ∈ l → kpr_Alias x ≠ alias) → find_alias alias l = None.
Proof.
  induction l as [|y l IH]; intros Hn; [done|]. cbn [find_alias]. rewrite decide_False by (apply Hn; set_solver).
  apply IH. intros x Hx. apply Hn. set_solver.
Qed.

Section names.
Context `{Multiaddrs} `{!MaddrParts} `{PeerCodec} `{Unicode} `{Validator} `{DnsLib}.

(** The answer to the look-up of a name. *)
Lemma lookup_by_name env c name a :
  c = a_conf a → ranges (KnownPeers c) (se_known (ce_server env) (KnownPeers c)) →
  let l := getKnownPeers (se_host (ce_server env)) (se_known (ce_server env) (KnownPeers c)).*1 c in
  (∀ key p, KnownPeers c !! key = Some p → kp_Alias p = name → aliases_unique c → find_alias name l = Some key) ∧
  (map_Forall (λ _ p, kp_Alias p ≠ name) (KnownPeers c) → find_alias name l = None).
Proof.
  intros -> Hr l. set (c := a_conf a) in *.
  assert (∀ x, x ∈ l ↔ ∃ id p, KnownPeers c !! id = Some p ∧ x = known_peer_response (se_host (ce_server env)) c id) as Hl.
  { intros x. unfold l. rewrite getKnownPeers_elem. split.
    - intros (id & ([id' p] & -> & Hp)%list_elem_of_fmap & ->). exists id', p. split; [|done]. by apply (ranges_elem _ (se_known (ce_server env) (KnownPeers c))).
    - intros (id & p & Hp & ->). exists id. split; [|done]. apply list_elem_of_fmap. exists (id, p). split; [done|]. by apply (ranges_elem (KnownPeers c)). }
  assert (∀ id p, KnownPeers c !! id = Some p → kpr_Alias (known_peer_response (se_host (ce_server env)) c id) = kp_Alias p) as Ha.
  { intros id p Hp. unfold known_peer_response, GetPeer. simpl. by rewrite Hp. }
  split.
  - intros key p Hp Hn Hu. apply find_alias_unique.
    + intros x (id & q & Hq & ->)%Hl Hx. rewrite (Ha id q Hq) in Hx. change (id = key). eapply Hu; eauto. congruence.
    + exists (known_peer_response (se_host (ce_server env)) c key). split; [apply Hl; eauto|]. by rewrite (Ha key p Hp).
  - intros Hno. apply find_alias_none. intros x (id & p & Hp & ->)%Hl. rewrite (Ha id p Hp). by apply (Hno id).
Qed.

(** ** Properties *)

(** C35. Naming a peer by its name is naming it by its identifier. A command that takes
    either, run with the name of a known peer, does exactly what it does with that peer's
    identifier; with a name no peer has it reports an error, and without both it does so
    unless the peer may be left out (which then means none): in these cases nothing is
    changed. *)
Theorem command_by_name env spec isRequired api c a :
  let a0 := before (ce_call0 env) a in let name := cx_String c "name" in
  cs_Before spec = InitApiAndPeerId isRequired → cx_String c "pid" = "" → reached (ce_call0 env) = true →
  ranges (KnownPeers (a_conf a0)) (se_known (ce_server env) (KnownPeers (a_conf a0))) →
  (∀ key p, name ≠ "" → key ≠ "" → aliases_unique (a_conf a0) → KnownPeers (a_conf a0) !! key = Some p → kp_Alias p = name →
     run_command (Ok api) env spec c a = run_command (Ok api) env spec (cx_Set "pid" key c) a0) ∧
  (name ≠ "" → map_Forall (λ _ p, kp_Alias p ≠ name) (KnownPeers (a_conf a0)) →
     run_command (Ok api) env spec c a = (Fail ("can't find peer with name " +:+ quoted name), a0)) ∧
  (name = "" → run_command (Ok api) env spec c a =
     if isRequired then (Fail "peerID or name should be defined", a) else action env (cs_Command spec) c a).
Proof.
  intros a0 name Hb Hpid Hreach Hr. destruct (lookup_by_name env (a_conf a0) name a0 eq_refl Hr) as [Hfound Hnone].
  assert (∀ c a, run_command (Ok api) env spec c a =
    match resolve_pid env isRequired c a with
    | (Ok c, a) => action env (cs_Command spec) c a | (Fail e, a) => (Fail e, a) | (Panic, a) => (Panic, a)
    end) as Hrun by (intros c' a'; unfold run_command; by rewrite Hb).
  assert (resolve_pid env isRequired c a =
    if decide (name = "") then (if isRequired then Fail "peerID or name should be defined" else Ok c, a)
    else (pid ← getPeerIdByAlias (Ok (getKnownPeers (se_host (ce_server env)) (se_known (ce_server env) (KnownPeers (a_conf a0))).*1 (a_conf a0))) name;
          Ok (cx_Set "pid" pid c), a0)) as Hres.
  { unfold resolve_pid. fold name. rewrite decide_False by (intros E; by apply E). case_decide; [done|].
    unfold Client_KnownPeers, send. by rewrite Hreach. }
  unfold getPeerIdByAlias in Hres. split_and!.
  - intros key p Hn Hkey Hu Hp Ha. rewrite !Hrun, Hres, !decide_False by done. cbn [mbind outcome_bind]. rewrite (Hfound key p Hp Ha Hu).
    cbn [mbind outcome_bind]. unfold resolve_pid. cbn [cx_Set cx_String]. by rewrite !decide_True.
  - intros Hn Hno. rewrite !Hrun, Hres, !decide_False by done. cbn [mbind outcome_bind]. by rewrite (Hnone Hno).
  - intros Hn. rewrite !Hrun, Hres, decide_True by done. by destruct isRequired.
Qed.

(** An update is installed only if the check found one and the user agreed or asked for
    no question. *)
Theorem update_needs_consent quiet run input conf service check DoUpdate cleanup rerun cl :
  cli_update quiet run input conf service check DoUpdate cleanup = Updated rerun cl →
  DoUpdate = Ok tt ∧ rerun = run ∧ (quiet = true ∨ yesNoPrompt true input = true) ∧
  ∃ c s v, conf = Ok c ∧ service c = Ok s ∧ check s = Ok (Some v).
Proof.
  unfold cli_update. destruct conf as [c|e|]; [|done..]. destruct (service c) as [s|e|] eqn:Es; [|done..].
  destruct (check s) as [[v|]|e|] eqn:Ec; [|done..]. destruct (negb quiet && _) eqn:Eq; [done|].
  destruct DoUpdate as [[]|e|]; [|done..]. intros [= <- <-]. split_and!; [done..| |by exists c, s, v].
  destruct quiet; [by left|]. right. by destruct (yesNoPrompt true input).
Qed.
End names.

(** The arguments with which the program starts the server. *)
Theorem server_started args : Run args = StartServer ↔ args = [] ∨ ∃ rest, args = WithEnvCommandName :: rest.
Proof. destruct args as [|arg args]; simpl; [naive_solver|]. repeat case_decide; naive_solver. Qed.

(** Only the update of the program runs without a connection to the daemon, and every
    command that takes a name needs a peer except the choice of the exit node. *)
Example command_table :
  cs_Command <$> filter (λ s, cs_Before s = NoBefore) commands = [UpdateAwl] ∧
  cs_Command <$> filter (λ s, cs_Before s = InitApiAndPeerId false) commands = [MeSetProxy] ∧
  NoDup (cs_Path <$> commands).
Proof. split; [reflexivity|]. split; [reflexivity|]. apply (bool_decide_unpack _). vm_compute. exact I. Qed.

(** ** Witnesses *)

#[local] Existing Instances toy_maddrs toy_parts two_forms toy_unicode toy_validator toy_dns.

Definition quiet_env : CliEnv :=
  mkCliEnv quiet quiet quiet 7 (mkExchange false false false None) id (mkP2p ∅ ∅ None) sample_env (λ _, "") (λ _, "")
    (λ rows, Join (concat rows) " ") (λ _ _, Ok "") (Ok "").
Definition update_ip_spec : CommandSpec := mkCommandSpec ["peers"; "update_ip"] (pid_or_name ++ [string_flag "ip" true]) (InitApiAndPeerId true) PeersUpdateIP.
Definition by_name (name : string) : Context :=
  mkContext (λ f, if decide (f = "name") then name else if decide (f = "ip") then "10.66.0.9" else "") (λ _, false) (λ _, 0).

Lemma known_b_aliases : aliases_unique (my_conf known_b).
Proof. intros k1 p1 k2 p2 H1%known_b_lookup H2%known_b_lookup _. congruence. Qed.

Lemma command_by_name_witness :
  update_ip_spec ∈ commands ∧
  run_command (Ok (NewWithAuth "127.0.0.1:8639" "" "")) quiet_env update_ip_spec (by_name "b") (my_auth known_b) =
    run_command (Ok (NewWithAuth "127.0.0.1:8639" "" "")) quiet_env update_ip_spec (cx_Set "pid" "b" (by_name "b")) (my_auth known_b) ∧
  (run_command (Ok (NewWithAuth "127.0.0.1:8639" "" "")) quiet_env update_ip_spec (by_name "b") (my_auth known_b)).1 =
    Ok "peer IP address updated successfully".
Proof.
  split; [unfold commands, update_ip_spec; set_solver|].
  destruct (command_by_name quiet_env update_ip_spec true (NewWithAuth "127.0.0.1:8639" "" "") (by_name "b") (my_auth known_b))
    as (Hby & _); [reflexivity|reflexivity|reflexivity|apply ranges_self|].
  split; [apply (Hby "b" (sample_peer "b" "" "b" "10.66.0.3" "b")); [discriminate|discriminate|exact known_b_aliases|reflexivity|reflexivity]|].
  vm_compute. reflexivity.
Defined.
