(* ===== verification/Desktop.v ===== *)
(** * The desktop entry (src/embeds/dot_desktop_linux.go, src/embeds/.desktop)

    On Linux the tray program writes an entry for the menus of the desktop: a template in
    which the paths of the icon and of the program are filled in. The replacements are a
    map, so their order is an argument; the theorems show when it does not matter and what
    the written file holds. *)

From S2P Require Import Prelude GoStrings GoIO Config ConfigDefaults Embeds.

(** [bytes.ReplaceAll] for a text to replace that is not empty: [skip] bytes belong to an
    occurrence that was replaced. *)
Fixpoint replace_from (skip : nat) (old new l : bytes) : bytes :=
  match l with
  | [] => []
  | b :: rest =>
      match skip with
      | S skip => replace_from skip old new rest
      | O => if decide (take (length old) l = old) then new ++ replace_from (pred (length old)) old new rest
             else b :: replace_from 0 old new rest
      end
  end.
Definition bytes_ReplaceAll (l old new : bytes) : bytes := replace_from 0 old new l.

Definition newline : string := String (Ascii.ascii_of_nat 10) "".
Definition quote : string := String (Ascii.ascii_of_nat 34) "".

Definition desktopFile : bytes := str_bytes (Join
  ["[Desktop Entry]";
   "# https://specifications.freedesktop.org/desktop-entry-spec/desktop-entry-spec-latest.html";
   "Name=Anywherelan"; "GenericName=VPN"; "Icon={ICONPATH}"; "Comment=Open source mesh VPN";
   "Exec=" +:+ quote +:+ "{EXECPATH}" +:+ quote; "Version=1.0"; "Type=Application"; "Categories=Network;Utility;";
   "NoDisplay=false"; "Terminal=false"; "StartupNotify=false"] newline).

Definition desktopFileName : string := "awl.desktop".
Definition desktopFileDir : string := ".local/share/applications".

(** The map of replacements. *)
Definition replacements (iconPath ex : string) : list (bytes * bytes) :=
  [(str_bytes "{ICONPATH}", str_bytes iconPath); (str_bytes "{EXECPATH}", str_bytes ex)].

Definition desktop_copy (order : list (bytes * bytes)) : bytes :=
  foldl (λ l '(replName, replVal), bytes_ReplaceAll l replName replVal) desktopFile order.

(** [EmbedDesktopFile]: [order] is the order in which the map is visited, [executable] the
    path of the program if it is known. *)
Definition EmbedDesktopFile (version : string) (env : IconEnv) (executable : option string) (order : list (bytes * bytes) → list (bytes * bytes))
    (iconPath : string) (fs : gmap string bytes) : outcome unit * gmap string bytes :=
  if IsDevVersion version then (Ok tt, fs)
  else match ic_UserHomeDir env with
  | None => (Fail "error: get home dir", fs)
  | Some homeDir =>
      match executable with
      | None => (Fail "error: find executable path", fs)
      | Some ex =>
          let filePath := path_join (path_join homeDir desktopFileDir) desktopFileName in
          if ic_write env filePath then (Ok tt, <[filePath := desktop_copy (order (replacements iconPath ex))]> fs)
          else (Fail "error: write file", fs)
      end
  end.

(** The end of [initOSSpecificHacks]: errors are printed. *)
Definition embed_files (version : string) (env : IconEnv) (executable : option string) (order : list (bytes * bytes) → list (bytes * bytes))
    (appIcon : bytes) (i : Icon) : outcome Icon :=
  match EmbedIcon "linux" env appIcon i with
  | (Panic, _) => Panic
  | (Fail _, i) => Ok i
  | (Ok iconPath, i) =>
      Ok (mkIcon (appIconPath i) (isTempIcon i) (EmbedDesktopFile version env executable order iconPath (files i)).2)
  end.

(** ** Facts *)

(** The entry for an icon and a program. *)
Definition entry_head : bytes := str_bytes (Join
  ["[Desktop Entry]";
   "# https://specifications.freedesktop.org/desktop-entry-spec/desktop-entry-spec-latest.html";
   "Name=Anywherelan"; "GenericName=VPN"; "Icon="] newline).
Definition entry_mid : bytes := str_bytes (Join [""; "Comment=Open source mesh VPN"; "Exec=" +:+ quote] newline).
Definition entry_tail : bytes := str_bytes (Join
  [quote; "Version=1.0"; "Type=Application"; "Categories=Network;Utility;"; "NoDisplay=false"; "Terminal=false"; "StartupNotify=false"] newline).
Definition desktop_entry (icon exec : bytes) : bytes := entry_head ++ icon ++ entry_mid ++ exec ++ entry_tail.

(** A text without the brace that opens a placeholder. *)
Definition brace_free (l : bytes) : Prop := Forall (λ b, b ≠ 123%Z) l.

Global Instance brace_free_dec l : Decision (brace_free l).
Proof. apply _. Defined.

Lemma replace_skip old new l1 l2 : replace_from (length l1) old new (l1 ++ l2) = replace_from 0 old new l2.
Proof. induction l1; [done|exact IHl1]. Qed.

(** What is before a placeholder stays. *)
Lemma replace_free old new l1 l2 : brace_free l1 →
  bytes_ReplaceAll (l1 ++ l2) (123%Z :: old) new = l1 ++ bytes_ReplaceAll l2 (123%Z :: old) new.
Proof.
  unfold bytes_ReplaceAll. induction 1 as [|b l1 Hb _ IH]; [done|]. rewrite <- !app_comm_cons. cbn [replace_from length take].
  rewrite decide_False by congruence. by rewrite IH.
Qed.

(** The placeholder itself is replaced, and the search goes on behind it. *)
Lemma replace_match old new l : old ≠ [] → bytes_ReplaceAll (old ++ l) old new = new ++ bytes_ReplaceAll l old new.
Proof.
  destruct old as [|b old]; [done|]. intros _. unfold bytes_ReplaceAll. rewrite <- app_comm_cons. cbn [replace_from].
  rewrite decide_True by (rewrite app_comm_cons; apply take_app_length). f_equal. apply replace_skip.
Qed.

(** Another placeholder stays. *)
Lemma replace_other old other new l : length old = length other → old ≠ other → brace_free other →
  bytes_ReplaceAll (123%Z :: other ++ l) (123%Z :: old) new = 123%Z :: other ++ bytes_ReplaceAll l (123%Z :: old) new.
Proof.
  intros Hlen Hne Hfree. rewrite <- replace_free by done. unfold bytes_ReplaceAll. cbn [replace_from length take].
  rewrite decide_False; [done|]. rewrite Hlen, take_app_length. congruence.
Qed.

Lemma replace_none old new l : brace_free l → bytes_ReplaceAll l (123%Z :: old) new = l.
Proof. intros Hl. rewrite <- (app_nil_r l) at 1. rewrite replace_free by done. apply app_nil_r. Qed.

Lemma desktopFile_entry : desktopFile = desktop_entry (str_bytes "{ICONPATH}") (str_bytes "{EXECPATH}").
Proof. vm_compute. reflexivity. Qed.

Lemma entry_free : brace_free entry_head ∧ brace_free entry_mid ∧ brace_free entry_tail.
Proof. split_and!; by apply (bool_decide_unpack _); vm_compute. Qed.

Lemma replace_icon icon exec : brace_free exec ∨ exec = str_bytes "{EXECPATH}" →
  bytes_ReplaceAll (desktop_entry (str_bytes "{ICONPATH}") exec) (str_bytes "{ICONPATH}") icon = desktop_entry icon exec.
Proof.
  intros He. destruct entry_free as (Hh & Hm & Ht). change (str_bytes "{ICONPATH}") with (123%Z :: str_bytes "ICONPATH}").
  unfold desktop_entry. rewrite replace_free, replace_match, replace_free by done. do 3 f_equal. destruct He as [He| ->].
  - rewrite replace_free, replace_none by done. done.
  - change (str_bytes "{EXECPATH}") with (123%Z :: str_bytes "EXECPATH}"). rewrite <- app_comm_cons.
    rewrite replace_other, replace_none; [done|done|done|vm_compute; congruence|].
    by apply (bool_decide_unpack _); vm_compute.
Qed.

Lemma replace_exec icon exec : brace_free icon ∨ icon = str_bytes "{ICONPATH}" →
  bytes_ReplaceAll (desktop_entry icon (str_bytes "{EXECPATH}")) (str_bytes "{EXECPATH}") exec = desktop_entry icon exec.
Proof.
  intros Hi. destruct entry_free as (Hh & Hm & Ht). change (str_bytes "{EXECPATH}") with (123%Z :: str_bytes "EXECPATH}").
  unfold desktop_entry. rewrite replace_free by done. f_equal.
  assert (∀ l, bytes_ReplaceAll (icon ++ l) (123%Z :: str_bytes "EXECPATH}") exec = icon ++ bytes_ReplaceAll l (123%Z :: str_bytes "EXECPATH}") exec) as ->.
  { intros l. destruct Hi as [Hi| ->]; [by apply replace_free|]. change (str_bytes "{ICONPATH}") with (123%Z :: str_bytes "ICONPATH}").
    apply replace_other; [done|vm_compute; congruence|]. by apply (bool_decide_unpack _); vm_compute. }
  by rewrite replace_free, replace_match, replace_none.
Qed.

(** In whichever order the map is visited, the written entry is the template with both
    paths, if they hold no opening brace. *)
Theorem desktop_copy_fills iconPath ex order :
  order ≡ₚ replacements iconPath ex → brace_free (str_bytes iconPath) → brace_free (str_bytes ex) →
  desktop_copy order = desktop_entry (str_bytes iconPath) (str_bytes ex).
Proof.
  intros Ho Hi He. unfold desktop_copy. rewrite desktopFile_entry. symmetry in Ho. apply Permutation_length_2_inv in Ho as [->| ->]; cbn [foldl].
  - rewrite replace_icon by by right. apply replace_exec. by left.
  - rewrite replace_exec by by right. apply replace_icon. by left.
Qed.

(** The icon of the entry is the directory of the icon and not the icon: [EmbedIcon]
    returns the directory, which the caller takes for the path of the file. *)
Theorem desktop_icon_is_directory version env ex home order appIcon i i' :
  version ≠ DevVersion → ic_UserHomeDir env = Some home → (∀ l, order l ≡ₚ l) →
  brace_free (str_bytes (path_join home iconDirPathLinux)) → brace_free (str_bytes ex) → (∀ path, ic_write env path = true) →
  ic_mkdir env (path_join home iconDirPathLinux) = true →
  embed_files version env (Some ex) order appIcon i = Ok i' →
  appIconPath i' = path_join (path_join home iconDirPathLinux) iconName ∧
  files i' !! path_join (path_join home desktopFileDir) desktopFileName =
    Some (desktop_entry (str_bytes (path_join home iconDirPathLinux)) (str_bytes ex)).
Proof.
  intros Hv Hh Ho Hi He Hw Hm. unfold embed_files, EmbedIcon, icon_dir. rewrite (decide_True (P := "linux" = "linux")) by done.
  rewrite Hh. cbn [fmap option_fmap option_map]. rewrite Hm. cbn [negb].
  set (path := path_join (path_join home iconDirPathLinux) iconName). unfold EmbedDesktopFile, IsDevVersion.
  rewrite Hh, !Hw, bool_decide_false by done. cbn [negb]. intros E. destruct (checkIsFileEqual _ _ _) as [[]|e|]; simplify_eq/=;
    by rewrite lookup_insert_eq, (desktop_copy_fills _ ex) by done.
Qed.
