(* ===== verification/RootEnv.v ===== *)
(** * Running with root rights (src/cmd/awl-tray/os_hacks_linux.go, os_hacks_macos.go)

    The tray program starts itself again as root, and the environment it needs travels
    in the arguments: writing it, reading it back, and finding the user behind root. The
    environment is a map; a variable that is not set reads as the empty text. *)

From Stdlib Require Import Ascii.
From S2P Require Import Prelude GoStrings Config ConfigDefaults Commands.
Local Open Scope Z_scope.

Definition AppDataDirEnvKey : string := "AWL_DATA_DIR".

Definition requiredEnvVars : list string :=
  [AppDataDirEnvKey; "DISPLAY"; "XAUTHORITY"; "DBUS_SESSION_BUS_ADDRESS"; "XDG_CONFIG_HOME"; "HOME"; "XDG_RUNTIME_DIR";
   "XDG_CURRENT_DESKTOP"; "XDG_SESSION_TYPE"].

(** [os.Getenv] and [os.Setenv]; a key that is empty or has an equals sign is refused. *)
Definition Getenv (key : string) (env : gmap string string) : string := default "" (env !! key).
Definition Setenv (key val : string) (env : gmap string string) : gmap string string :=
  if decide (key = "" ∨ "="%char ∈ String.list_ascii_of_string key) then env else <[key := val]> env.

(** The arguments [runItselfWithRoot] gives to pkexec: the program and those behind it. *)
Definition root_args (executable : string) (env : gmap string string) : list string :=
  executable :: WithEnvCommandName ::
  ((λ key, key +:+ "=" +:+ Getenv key env) <$> filter (λ key, Getenv key env ≠ "") requiredEnvVars).

(** [setEnvFromArgs]. *)
Definition set_env_arg (env : gmap string string) (arg : string) : gmap string string :=
  let '(key, val, exists_) := Cut arg "="%char in if exists_ : bool then Setenv key val env else env.
Definition setEnvFromArgs (args : list string) (env : gmap string string) : gmap string string :=
  if decide (length args < 3)%nat then env
  else if decide (args !! 1%nat ≠ Some WithEnvCommandName) then env
  else foldl set_env_arg env (drop 2 args).

(** [getUserIdUnderRoot]. *)
Definition getUserIdUnderRoot (env : gmap string string) : option Z :=
  match Atoi (Getenv "SUDO_UID" env) with
  | Some uid => Some uid
  | None => match Atoi (Getenv "PKEXEC_UID" env) with
            | Some uid => Some uid
            | None => Atoi (TrimPrefix (Getenv "XDG_RUNTIME_DIR" env) "/run/user/")
            end
  end.

(** [getRealUserID]. *)
Definition getRealUserID (nonRootUid : Z) : Z * bool := (u32 nonRootUid, bool_decide (nonRootUid ≠ 0)).

(** [connectSessionDbus] on the environment: [seteuid] is whether the user could be taken. *)
Definition connectSessionDbus (seteuid : bool) (userUid : Z) (env : gmap string string) : gmap string string :=
  if negb seteuid then env
  else if decide (Getenv "DBUS_SESSION_BUS_ADDRESS" env = "")
       then Setenv "DBUS_SESSION_BUS_ADDRESS" ("unix:path=/run/user/" +:+ pretty userUid +:+ "/bus") env
       else env.

(** [initOSSpecificHacks] up to the icon: without root rights the program runs itself and
    exits; otherwise the environment and the user it goes on with. *)
Inductive hacks := RunAsRoot (args : list string) | AsRoot (nonRootUid : option Z) (env : gmap string string).
Definition initOSSpecificHacks (euid : Z) (executable : string) (args : list string) (seteuid : bool) (env : gmap string string) : hacks :=
  if decide (euid ≠ 0) then RunAsRoot (root_args executable env)
  else
    let env := setEnvFromArgs args env in
    match getUserIdUnderRoot env with
    | None => AsRoot None env
    | Some uid =>
        let env := connectSessionDbus seteuid uid env in
        let env := if decide (Getenv "DISPLAY" env = "") then Setenv "DISPLAY" ":0" env else env in
        AsRoot (Some uid) env
    end.

(** *** The program that runs itself *)

(** What becomes of the process started as root: it cannot be started, it fails with a
    code, or it succeeds. *)
Inductive child := NotStarted | Failed (code : Z) | Succeeded.

(** The end of [runItselfWithRoot] on both systems. *)
Definition exit_with (c : child) : Z := match c with NotStarted => 1 | Failed code => code | Succeeded => 0 end.

(** [runItselfWithRoot] on Linux: the command, and the code the program exits with.
    [executable] is the path of the program if it is known. *)
Definition runItselfWithRoot (executable : option string) (args : list string) (env : gmap string string) (c : child) : list string * Z :=
  ("pkexec" :: root_args (default (default "" (args !! 0%nat)) executable) env, exit_with c).

(** The same on macOS, where a script asks for the rights; the argument is not quoted for the shell. *)
Definition double_quote : string := String.String (ascii_of_nat 34) "".
Definition osaScript (executable : string) : string :=
  "do shell script " +:+ double_quote +:+ executable +:+ double_quote +:+ " with administrator privileges".
Definition mac_runItselfWithRoot (executable : option string) (args : list string) (c : child) : list string * Z :=
  (["osascript"; "-e"; osaScript (default (default "" (args !! 0%nat)) executable)], exit_with c).

(** [initOSSpecificHacks] on macOS: the commands it runs, and the code it exits with, if
    it does. *)
Definition mac_initOSSpecificHacks (euid : Z) (executable : option string) (args : list string) (c : child) : list (list string) * option Z :=
  if decide (euid ≠ 0) then let '(cmd, code) := mac_runItselfWithRoot executable args c in ([cmd], Some code)
  else ([["ifconfig"; "lo0"; "alias"; "127.0.0.66"; "up"]], None).

(** ** Facts *)

(** A key without an equals sign is cut off again. *)
Lemma Cut_pair key val : "="%char ∉ String.list_ascii_of_string key → Cut (key +:+ "=" +:+ val) "="%char = (key, val, true).
Proof.
  induction key as [|x key IH]; intros Hk; [done|]. simpl in Hk.
  change (String.String x key +:+ "=" +:+ val) with (String.String x (key +:+ "=" +:+ val)). cbn [Cut].
  destruct (Ascii.eqb_spec x "="%char) as [->|_]; [set_solver|]. rewrite IH by set_solver. done.
Qed.

Lemma set_env_arg_pair key val env : key ≠ "" → "="%char ∉ String.list_ascii_of_string key →
  set_env_arg env (key +:+ "=" +:+ val) = <[key := val]> env.
Proof. intros Hne Hk. unfold set_env_arg. rewrite Cut_pair by done. unfold Setenv. by rewrite decide_False by naive_solver. Qed.

Lemma Getenv_set key key' val env : Getenv key (<[key' := val]> env) = if decide (key = key') then val else Getenv key env.
Proof. unfold Getenv. case_decide as E; [subst; by rewrite lookup_insert_eq|by rewrite lookup_insert_ne]. Qed.

(** Passing a list of variables through arguments. *)
Lemma set_env_args_get user keys key : ∀ env, Forall (λ k, k ≠ "" ∧ ("="%char ∉ String.list_ascii_of_string k)) keys →
  Getenv key (foldl set_env_arg env ((λ k, k +:+ "=" +:+ Getenv k user) <$> keys)) =
    if decide (key ∈ keys) then Getenv key user else Getenv key env.
Proof.
  induction keys as [|k keys IH]; intros env Hk; [done|]. apply list.Forall_cons in Hk as [[Hne Hk] Hks].
  cbn [fmap list_fmap foldl]. rewrite set_env_arg_pair, IH, Getenv_set by done.
  destruct (decide (key ∈ keys)), (decide (key = k)); subst; repeat case_decide; set_solver.
Qed.

Lemma required_keys : Forall (λ k, k ≠ "" ∧ ("="%char ∉ String.list_ascii_of_string k)) requiredEnvVars.
Proof. apply (bool_decide_unpack _). vm_compute. exact I. Qed.

(** ** Properties *)

(** The environment survives the change to root. The process that runs as root,
    started with the arguments written by the user's process, sees each required variable
    with the value the user had, and its own value where the user had none; no other
    variable changes. *)
Theorem environment_reaches_root executable user root key :
  Getenv key (setEnvFromArgs (root_args executable user) root) =
    if decide (key ∈ requiredEnvVars ∧ Getenv key user ≠ "") then Getenv key user else Getenv key root.
Proof.
  unfold setEnvFromArgs, root_args. set (keys := filter _ requiredEnvVars).
  assert (∀ k, k ∈ keys ↔ k ∈ requiredEnvVars ∧ Getenv k user ≠ "") as Hin by (intros k; unfold keys; rewrite list_elem_of_filter; tauto).
  assert (Forall (λ k, k ≠ "" ∧ ("="%char ∉ String.list_ascii_of_string k)) keys) as Hk.
  { pose proof required_keys as Hr. rewrite list.Forall_forall in Hr |- *. intros k Hkk. apply Hr. by apply Hin. }
  case_decide as Hl.
  - destruct keys as [|k keys]; [|cbn [length fmap list_fmap] in Hl; lia]. case_decide as Hd; [|done]. apply Hin in Hd. by apply elem_of_nil in Hd.
  - rewrite decide_False by (intros E; by apply E). rewrite !skipn_cons, drop_0. rewrite set_env_args_get by done.
    destruct (decide (key ∈ keys)) as [Hi|Hi]; rewrite Hin in Hi; [by rewrite decide_True|by rewrite decide_False].
Qed.

Example root_environment :
  let user := list_to_map [("HOME", "/home/me"); ("DISPLAY", ":1"); ("PATH", "/bin")] : gmap string string in
  let root := list_to_map [("HOME", "/root"); ("PKEXEC_UID", "1000")] : gmap string string in
  match initOSSpecificHacks 1000 "/usr/bin/awl-tray" [] true user with
  | RunAsRoot args =>
      match initOSSpecificHacks 0 "/usr/bin/awl-tray" args true root with
      | AsRoot uid env => uid = Some 1000 ∧ Getenv "HOME" env = "/home/me" ∧ Getenv "DISPLAY" env = ":1" ∧ Getenv "PATH" env = "" ∧
          Getenv "DBUS_SESSION_BUS_ADDRESS" env = "unix:path=/run/user/1000/bus"
      | _ => False
      end
  | _ => False
  end.
Proof. vm_compute. repeat split. Qed.

(** A user whose identifier the variables give as 0 is treated as if there were none. *)
Example root_user : getRealUserID 0 = (0, false) ∧ getRealUserID 1000 = (1000, true) ∧ getRealUserID (-1) = (2 ^ 32 - 1, true).
Proof. vm_compute. done. Qed.

(** On both systems the user's process never goes on without root rights: it exits, with
    zero exactly if the process with root rights succeeded. *)
Theorem user_process_exits euid executable args seteuid env c :
  euid ≠ 0 → (∀ code, c = Failed code → code ≠ 0) →
  initOSSpecificHacks euid (default (default "" (args !! 0%nat)) executable) args seteuid env =
    RunAsRoot (tail (runItselfWithRoot executable args env c).1) ∧
  (mac_initOSSpecificHacks euid executable args c).2 = Some (runItselfWithRoot executable args env c).2 ∧
  ((runItselfWithRoot executable args env c).2 = 0 ↔ c = Succeeded).
Proof.
  intros He Hc. unfold initOSSpecificHacks, mac_initOSSpecificHacks. rewrite !decide_True by done. split; [done|]. split; [done|].
  destruct c as [|code|]; simpl; [naive_solver|specialize (Hc code eq_refl); naive_solver|done].
Qed.
