(* ===== verification/Application.v ===== *)
(** * The application (src/application.go)

    The wiring of the services: choosing the configuration, starting and closing the
    services in order, the DNS service, and the two subscriptions to changes of the
    known peers that keep the routes of the tunnel and the names of the DNS in step.
    What libraries and the operating system answer is an argument; the order in which
    a loop visits a map is an argument too. *)

From S2P Require Import Prelude GoStrings GoNet GoHostPort Externals Config NetworkAddr AwlDns ConfigDefaults.
From S2P Require Import Protocol Packet Device Tunnel AuthStatus Socks5 P2p Api ApiServer.

Definition AdminHttpServerDomainName : string := "admin".
Definition AdminHttpServerIP : string := "127.0.0.66".

(** ** The DNS service *)

(** The configurator of the operating system's resolver (ts-dns): whether it is
    created, whether it supports split DNS, the name servers of its base
    configuration, whether it accepts a configuration. *)
Record OSConfig := mkOSConfig { Nameservers : list Addr; MatchDomains : list string }.
Record OSConfigurator := mkOSConfigurator {
  SupportsSplitDNS : bool;
  GetBaseConfig : option (list Addr);
  SetDNS : OSConfig → bool;
}.

(** [DNSService]. *)
Record DNSService := mkDNSService {
  dnsOsConfigurator : option OSConfigurator;
  dnsResolver : option Resolver;
  ds_upstreamDNS : string;
  isAwlDNSSetAsSystem : bool;
}.

(** [NewDNSService]. *)
Definition NewDNSService : DNSService := mkDNSService None None "" false.

Definition with_upstream (d : DNSService) (u : string) : DNSService :=
  mkDNSService (dnsOsConfigurator d) (dnsResolver d) u (isAwlDNSSetAsSystem d).
Definition with_resolver (d : DNSService) (r : Resolver) : DNSService :=
  mkDNSService (dnsOsConfigurator d) (Some r) (ds_upstreamDNS d) (isAwlDNSSetAsSystem d).
Definition with_configurator (d : DNSService) (o : OSConfigurator) : DNSService :=
  mkDNSService (Some o) (dnsResolver d) (ds_upstreamDNS d) (isAwlDNSSetAsSystem d).
Definition with_system (d : DNSService) (b : bool) : DNSService :=
  mkDNSService (dnsOsConfigurator d) (dnsResolver d) (ds_upstreamDNS d) b.

(** The orders of the two loops of one refresh: over the known peers and over the names. *)
Record DNSOrder := mkDNSOrder {
  do_peers : list (string * KnownPeer);
  do_names : gmap string string → list (string * string);
}.

(** [AwlDNSAddress]. *)
Definition AwlDNSAddress (d : DNSService) : string :=
  match dnsResolver d with Some r => DNSAddress r | None => "" end.

Section dns.
Context `{DnsLib}.

(** [refreshDNSConfig]; [dev] tells a development logger, which panics in [DPanicf]. *)
Definition refreshDNSConfig (dev : bool) (o : DNSOrder) (d : DNSService) : outcome DNSService :=
  match dnsResolver d with
  | None => if dev then Panic else Ok d
  | Some r =>
      let dnsNamesMapping := DNSNamesMapping (do_peers o) in
      let dnsNamesMapping := <[AdminHttpServerDomainName := AdminHttpServerIP]> dnsNamesMapping in
      Ok (with_resolver d (ReceiveConfiguration (ds_upstreamDNS d) (do_names o dnsNamesMapping) r))
  end.

(** The part of [initDNS] after the subscription, up to its return or panic. *)
Definition setup_os_dns (NewOSConfigurator : option OSConfigurator) (ToFQDN : string → option string) (dnsHost : string) (d : DNSService)
    : outcome unit * DNSService :=
  match NewOSConfigurator with
  | None => (Ok tt, d)
  | Some os =>
      let d := with_configurator d os in
      match ToFQDN LocalDomain, ParseAddr dnsHost with
      | Some fqdn, Some host =>
          let set_dns (d : DNSService) (domains : list string) : outcome unit * DNSService :=
            (Ok tt, if SetDNS os (mkOSConfig [host] domains) then with_system d true else d) in
          if SupportsSplitDNS os then set_dns d [fqdn]
          else match GetBaseConfig os with
               | None => (Ok tt, d)
               | Some [] => set_dns (with_upstream d DefaultUpstreamDNSAddress) []
               | Some (ns :: _) => set_dns (with_upstream d (JoinHostPort (Addr_String ns) DefaultDNSPort)) []
               end
      | _, _ => (Panic, d)
      end
  end.

(** [initDNS]: the deferred refresh runs on every return behind it, and when [setup_os_dns]
    panics. *)
Definition initDNS (dev : bool) (NewOSConfigurator : string → option OSConfigurator) (ToFQDN : string → option string)
    (o1 o2 : DNSOrder) (interfaceName : string) (c : Config) (d : DNSService) : outcome unit * DNSService :=
  let dnsAddr := DNSListenAddress (DNS c) in
  match SplitHostPort dnsAddr with
  | Ok (dnsHost, _) =>
      let d := with_resolver d (NewResolver dnsAddr) in
      let d := with_upstream d DefaultUpstreamDNSAddress in
      match refreshDNSConfig dev o1 d with
      | Ok d =>
          let '(r, d) := setup_os_dns (NewOSConfigurator interfaceName) ToFQDN dnsHost d in
          match refreshDNSConfig dev o2 d with Ok d => (r, d) | _ => (Panic, d) end
      | _ => (Panic, d)
      end
  | Fail _ => (Ok tt, d)
  | Panic => (Panic, d)
  end.
End dns.

(** ** The application *)

(** What a protocol's streams are handled by. *)
Inductive stream_handler := StatusHandler | AuthHandler | TunnelHandler | ProxyHandler.
Global Instance stream_handler_eq_dec : EqDecision stream_handler.
Proof. solve_decision. Defined.

Section application.
Context `{Multiaddrs} `{!MaddrParts} `{PeerCodec} `{Base58} `{DnsLib}.

(** [Application]: the services that exist, the handlers of the host, and the packets
    of the device. The configuration is the one the request service shares; before there
    is such a service it has no requests. [app_p2p] is whether the p2p service was
    created, [app_host] its host. *)
Record Application := mkApplication {
  app_auth : Auth;
  app_p2p : bool;
  app_host : option HostOptions;
  app_device : option Device;
  app_tunnel : option Tunnel;
  app_world : World;
  app_handlers : gmap string stream_handler;
  app_socks : option string;
  app_api : option Handler;
  app_dns : DNSService;
}.

(** [New] with the configuration [SetupLoggerAndConfig] sets. *)
Definition starting (s : Store) (w : World) : Application :=
  mkApplication (mkAuth ∅ ∅ s []) false None None None w ∅ None None NewDNSService.

Definition with_auth (a : Application) (auth : Auth) : Application :=
  mkApplication auth (app_p2p a) (app_host a) (app_device a) (app_tunnel a) (app_world a) (app_handlers a) (app_socks a) (app_api a) (app_dns a).
Definition with_p2p (a : Application) (host : option HostOptions) : Application :=
  mkApplication (app_auth a) true host (app_device a) (app_tunnel a) (app_world a) (app_handlers a) (app_socks a) (app_api a) (app_dns a).
Definition with_device (a : Application) (d : Device) : Application :=
  mkApplication (app_auth a) (app_p2p a) (app_host a) (Some d) (app_tunnel a) (app_world a) (app_handlers a) (app_socks a) (app_api a) (app_dns a).
Definition with_tunnel (a : Application) (w : World) (t : Tunnel) : Application :=
  mkApplication (app_auth a) (app_p2p a) (app_host a) (app_device a) (Some t) w (app_handlers a) (app_socks a) (app_api a) (app_dns a).
Definition with_socks (a : Application) (socks : option string) (handlers : gmap string stream_handler) : Application :=
  mkApplication (app_auth a) (app_p2p a) (app_host a) (app_device a) (app_tunnel a) (app_world a) handlers socks (app_api a) (app_dns a).
Definition with_api (a : Application) (h : Handler) : Application :=
  mkApplication (app_auth a) (app_p2p a) (app_host a) (app_device a) (app_tunnel a) (app_world a) (app_handlers a) (app_socks a) (Some h) (app_dns a).
Definition with_dns (a : Application) (d : DNSService) : Application :=
  mkApplication (app_auth a) (app_p2p a) (app_host a) (app_device a) (app_tunnel a) (app_world a) (app_handlers a) (app_socks a) (app_api a) d.

Definition app_conf (a : Application) : Config := a_conf (app_auth a).

(** [SetupLoggerAndConfig]: the configuration the application starts with. *)
Definition SetupLoggerAndConfig `{Unicode} (Version GOOS : string) (os : OSDirs) (file : option Config) (peerIDs : list string)
    : outcome Config :=
  match LoadConfig Version GOOS os file peerIDs with
  | Ok c => Ok c
  | Fail _ => NewConfig Version GOOS os
  | Panic => Panic
  end.

(** [makeP2pHostConfig]; [info] reads the library's address records. *)
Definition makeP2pHostConfig (userAgent : string) (allowEmpty : bool) (info : addr_info → AddrInfo) (defaults : list maddr) (c : Config)
    : outcome HostConfig :=
  peers ← GetBootstrapPeers defaults c;
  Ok (mkHostConfig (PrivKey c) (GetListenAddresses c) userAgent (info <$> peers) allowEmpty true 50 100).

(** What [Init] meets: the library's host and its identifier, the interface, the
    listeners, and the orders of the loops. *)
Record InitEnv := mkInitEnv {
  ie_UserAgent : string;
  ie_AllowEmptyBootstrapPeers : bool;
  ie_info : addr_info → AddrInfo;
  ie_defaults : list maddr;
  ie_host : HostEnv;
  ie_StringCast : string → maddr;
  ie_tcp_free : nat → bool;
  ie_udp_free : nat → bool;
  ie_ID : bytes → string;                 (* the peer ID of a private key *)
  ie_tun : bool;
  ie_mtu : option Z;
  ie_listen : string → bool;
  ie_api : SetupEnv;
  ie_InterfaceName : option string;
  ie_NewOSConfigurator : string → option OSConfigurator;
  ie_ToFQDN : string → option string;
  ie_dev : bool;
  ie_known : list KnownPeer;              (* the order of [RefreshPeersList] and [restoreOutgoingAuths] *)
  ie_peers : list vploc;
  ie_dns1 : DNSOrder;
  ie_dns2 : DNSOrder;
}.

Definition wrap_error {A} (prefix : string) (r : outcome A) : outcome A :=
  match r with Fail e => Fail (prefix +:+ e) | r => r end.

(** A step of the start: what it reports and the services there are after it, an error
    or a panic included. *)
Definition started : Type := outcome unit * Application.
Definition and_then (r : started) (k : Application → started) : started :=
  match r with (Ok _, a) => k a | r => r end.

(** The value of a call, or the end of the start. *)
Definition or_stop {A} (r : outcome A) (a : Application) (k : A → started) : started :=
  match r with Ok x => k x | Fail e => (Fail e, a) | Panic => (Panic, a) end.

(** The device and the tunnel, when the interface is enabled. *)
Definition init_vpn (env : InitEnv) (a : Application) : started :=
  let c := app_conf a in
  if DisableVPNInterface (cVPN c) then (Ok tt, a)
  else
    let '(localIP, _) := VPNLocalIPMask c in
    or_stop (wrap_error "failed to init vpn: " (NewDevice (ie_tun env) (ie_mtu env) localIP)) a (λ d,
      let a := with_device a d in
      or_stop (NewTunnel c (ie_known env) (ie_peers env) (app_world a)) a (λ '(w, t), (Ok tt, with_tunnel a w t))).

(** The handlers the host is given. *)
Definition set_handlers (tunnel : option Tunnel) : gmap string stream_handler :=
  let m := <[GetStatusMethod := StatusHandler]> ∅ in
  let m := <[AuthMethod := AuthHandler]> m in
  let m := match tunnel with Some _ => <[TunnelPacketMethod := TunnelHandler]> m | None => m end in
  let m := <[Socks5PacketMethod := ProxyHandler]> m in
  <[Socks5NoAuthMethod := ProxyHandler]> m.

(** The DNS service, when it is enabled and the interface has a name. *)
Definition init_dns (env : InitEnv) (a : Application) : started :=
  let c := app_conf a in
  if negb (DisableDNS (DNS c)) && negb (DisableVPNInterface (cVPN c)) then
    match ie_InterfaceName env with
    | None => (Ok tt, a)
    | Some interfaceName =>
        let '(r, d) := initDNS (ie_dev env) (ie_NewOSConfigurator env) (ie_ToFQDN env) (ie_dns1 env) (ie_dns2 env)
                         interfaceName c (app_dns a) in
        (r, with_dns a d)
    end
  else (Ok tt, a).

(** [Init] after the host was started and the identity set. *)
Definition init_services (env : InitEnv) (a : Application) : started :=
  and_then (init_vpn env a) (λ a,
    let a := with_auth a (NewAuthStatus (ie_known env) (a_store (app_auth a))) in
    or_stop (wrap_error "failed to init socks5: " (NewSOCKS5 (ie_listen env) (app_conf a))) a (λ socks,
      let a := with_socks a socks (set_handlers (app_tunnel a)) in
      let '(r, h) := SetupAPI (ie_api env) (app_conf a) NewHandler in
      or_stop (wrap_error "failed to setup api: " r) (with_api a h) (λ _, init_dns env (with_api a h)))).

(** [Init]: the identity is saved even if a later step fails. *)
Definition Init (env : InitEnv) (a : Application) : started :=
  let c := app_conf a in
  let a := with_p2p a None in
  or_stop (hc ← makeP2pHostConfig (ie_UserAgent env) (ie_AllowEmptyBootstrapPeers env) (ie_info env) (ie_defaults env) c;
           InitHost (ie_host env) (ie_StringCast env) (ie_tcp_free env) (ie_udp_free env) hc) a (λ host,
    let s := SetIdentity (o_Identity host) (ie_ID env (o_Identity host)) (a_store (app_auth a)) in
    init_services env (with_auth (with_p2p a (Some host)) (with_store (app_auth a) s))).

(** The callbacks that run after a [KnownPeerChanged] event: the tunnel's, if there is
    one, and the DNS service's, if it was started. *)
Definition on_KnownPeerChanged (dev : bool) (known : list KnownPeer) (peers : list vploc) (o : DNSOrder) (a : Application)
    : outcome Application :=
  '(w, tunnel) ← match app_tunnel a with
                 | None => Ok (app_world a, None)
                 | Some t => '(w, t) ← RefreshPeersList (app_conf a) known peers (app_world a, t); Ok (w, Some t)
                 end;
  dns ← match dnsResolver (app_dns a) with
        | None => Ok (app_dns a)
        | Some _ => refreshDNSConfig dev o (app_dns a)
        end;
  Ok (mkApplication (app_auth a) (app_p2p a) (app_host a) (app_device a) tunnel w (app_handlers a) (app_socks a) (app_api a) dns).

(** [DNSService.Close]: the resolver's servers stop. *)
Definition close_dns (d : DNSService) : DNSService :=
  match dnsResolver d with
  | None => d
  | Some r => with_resolver d (on_server_event TCPStopped (on_server_event UDPStopped r))
  end.

(** [P2p.Close]: the host is dereferenced. *)
Definition P2p_Close (host : option HostOptions) : outcome unit := _ ← or_panic host; Ok tt.

(** [Close]: the configuration is saved first and last, the services that exist are
    closed in between. *)
Definition Close (peers : list vploc) (a : Application) : started :=
  let save a := with_auth a (with_store (app_auth a) (Save (a_store (app_auth a)))) in
  let a := save a in
  or_stop (match app_api a with None => Ok tt | Some h => Shutdown h end) a (λ _,
    and_then match app_tunnel a with
             | None => (Ok tt, a)
             | Some t => or_stop (Tunnel_Close peers (app_world a, t)) a (λ '(w, t), (Ok tt, with_tunnel a w t))
             end (λ a,
      or_stop (if app_p2p a then P2p_Close (app_host a) else Ok tt) a (λ _,
        (Ok tt, save (with_dns a (close_dns (app_dns a))))))).

(** ** Metrics *)

(** [GetKnownPeersSnapshot], for the order of its loop. *)
Definition GetKnownPeersSnapshot (h : Host) (known : list KnownPeer) : nat * nat * nat * list string :=
  foldl (λ '(total, confirmed, connected, peerIDs) kp,
    let pid := PeerId kp in
    (total, if kp_Confirmed kp then S confirmed else confirmed,
     if IsConnected h pid then S connected else connected, peerIDs ++ [pid]))
    (length known, 0, 0, []) known.

(** [GetBlockedPeersCount]. *)
Definition GetBlockedPeersCount (c : Config) : nat := size (BlockedPeers c).
End application.

(** ** Facts *)

Section names.
Context `{DnsLib}.

(** A name of the network: the admin page's or one of a known peer. *)
Definition published (c : Config) (n : string) : Prop :=
  n = AdminHttpServerDomainName ∨ ∃ key k, KnownPeers c !! key = Some k ∧ n ∈ dns_names k.

(** Names stay different in canonical form, which ignores case. *)
Definition names_canonical (c : Config) : Prop :=
  ∀ n n', published c n → published c n' → AwlDns.canonical n = AwlDns.canonical n' → n = n'.

(** The orders are orders of the two maps. *)
Definition order_ok (c : Config) (o : DNSOrder) : Prop :=
  ranges (KnownPeers c) (do_peers o) ∧ ∀ m, ranges m (do_names o m).

(** The names a refresh hands to the resolver. *)
Definition names_of (o : DNSOrder) : gmap string string :=
  <[AdminHttpServerDomainName := AdminHttpServerIP]> (DNSNamesMapping (do_peers o)).

Lemma names_of_published c o n ip : order_ok c o → names_of o !! n = Some ip → published c n.
Proof.
  intros [Ho _]. unfold names_of. rewrite lookup_insert. case_decide as E; [by left|].
  intros ([key k] & He & Hn & _)%DNSNamesMapping_lookup. right. exists key, k.
  split; [by apply (ranges_elem _ (do_peers o))|done].
Qed.

Lemma refresh_direct c o upstream r n ip :
  order_ok c o → names_canonical c → names_of o !! n = Some ip →
  directMapping (r_cfg (ReceiveConfiguration upstream (do_names o (names_of o)) r)) !! AwlDns.canonical n = Some ip.
Proof.
  intros Ho Hc Hn. unfold ReceiveConfiguration. pose proof Ho as [_ Hm]. specialize (Hm (names_of o)).
  pose proof (add_names_direct (do_names o (names_of o)) (AwlDns.canonical n)) as Hd.
  destruct (foldl add_name (∅, ∅) _) as [direct rev_]. simpl in *.
  destruct Hd as [[_ Hno]|(n' & ip' & Hin & Hcan & ->)].
  - exfalso. apply (Hno n ip); [|done]. by apply (ranges_elem (names_of o)).
  - apply (ranges_elem (names_of o)) in Hin; [|done].
    assert (n' = n) as -> by (apply Hc; eauto using names_of_published). congruence.
Qed.
End names.

(** A single address question is answered from the direct mapping, unless not even the one
    record fits the size of a response. *)
Lemma single_question_answered `{DnsLibLaws} `{Unicode} r tcp req q ip :
  m_Question req = [q] → is_address_question q = true → directMapping (r_cfg r) !! ToLower (q_Name q) = Some ip →
  ∃ m, dnsLocalDomainHandler r tcp req = Some m ∧ m_Rcode m = RcodeSuccess ∧
    ((Len (local_reply r req) ≤ response_size req tcp)%Z → m_Answer m = [RR_A (q_Name q) defaultTTLSeconds (To4 (ParseIP ip))]).
Proof.
  intros Hq Ha Hd. unfold dnsLocalDomainHandler. rewrite Hq, decide_False by done. eexists. split; [reflexivity|].
  destruct (answer_questions_spec (r_cfg r) req [q] (SetReply newMsg req)) as [Hans Hrc].
  assert (foldl (answer_question (r_cfg r) req) (SetReply newMsg req) [q] = local_reply r req) as Er by (unfold local_reply; by rewrite Hq).
  rewrite Er in Hans, Hrc.
  unfold processOwnResponse. cbn [m_Answer m_Rcode]. rewrite Truncate_Rcode, Hrc. split.
  - simpl. unfold question_missing. rewrite Ha, Hd. simpl. apply SetReply_Rcode.
  - rewrite SetReply_Answer in Hans. simpl in Hans. unfold question_answer in Hans. rewrite Ha, Hd in Hans.
    cbn [newMsg m_Answer app concat map] in Hans. rewrite <- Hans. apply Truncate_fits.
Qed.

Section start.
Context `{Unicode}.

Lemma default_peers_P2pNode peerIDs : ∀ c u c' u', default_peers peerIDs (c, u) = Ok (c', u') → P2pNode c' = P2pNode c.
Proof.
  induction peerIDs as [|k ks IH]; intros c u c' u'; cbn [default_peers]; [by intros [= <- <-]|].
  intros ([c1 u1] & E1 & E2%IH)%outcome_bind_Ok. rewrite E2. unfold default_peer in E1.
  destruct (genUniqPeerAlias _ _ _ c) as [alias u2]. apply outcome_bind_Ok in E1 as (ip & _ & [= <- _]). done.
Qed.

(** Loading keeps the identity. *)
Lemma setDefaults_identity Version GOOS os peerIDs c c' :
  setDefaults Version GOOS os peerIDs c = Ok c' → Identity (P2pNode c') = Identity (P2pNode c).
Proof.
  unfold setDefaults. destruct (default_peers peerIDs _) as [[c1 u1]| |] eqn:E; try done.
  cbn [mbind outcome_bind]. intros [= <-]. apply default_peers_P2pNode in E. simpl. by rewrite E.
Qed.
End start.

Section init.
Context `{Multiaddrs} `{!MaddrParts} `{PeerCodec} `{Base58} `{DnsLib}.

(** The host's key: the configured one, or a new one. *)
Lemma InitHost_identity env cast tcp udp hc host : InitHost env cast tcp udp hc = Ok host →
  match PrivKeyBytes hc with
  | None => GenerateEd25519Key env = Some (o_Identity host)
  | Some raw => UnmarshalEd25519PrivateKey env raw = Some (o_Identity host)
  end.
Proof.
  unfold InitHost.
  destruct (PrivKeyBytes hc) as [raw|];
    [destruct (UnmarshalEd25519PrivateKey env raw)|destruct (GenerateEd25519Key env)]; try done; cbn [mbind outcome_bind];
    repeat (case_match; try done); by intros [= <-].
Qed.

(** What a start leaves, however it ends: the host and the configuration are those it
    had, and the handler of the interface, if there is one, has a server unless its
    set-up failed. *)
Lemma init_vpn_parts env a r a' : init_vpn env a = (r, a') →
  app_p2p a' = app_p2p a ∧ app_host a' = app_host a ∧ app_auth a' = app_auth a ∧ app_api a' = app_api a.
Proof.
  unfold init_vpn, or_stop. destruct (DisableVPNInterface _); [by intros [= <- <-]|]. destruct (VPNLocalIPMask _) as [ip mask].
  destruct (wrap_error _ _) as [d|e|]; [|by intros [= <- <-]..].
  by destruct (NewTunnel _ _ _ _) as [[w t]|e|]; intros [= <- <-].
Qed.

Lemma init_dns_parts env a r a' : init_dns env a = (r, a') →
  app_p2p a' = app_p2p a ∧ app_host a' = app_host a ∧ app_auth a' = app_auth a ∧ app_api a' = app_api a.
Proof.
  unfold init_dns. destruct (_ && _); [|by intros [= <- <-]]. destruct (ie_InterfaceName env); [|by intros [= <- <-]].
  destruct (initDNS _ _ _ _ _ _ _ _). by intros [= <- <-].
Qed.

Lemma init_services_parts env a r a' : init_services env a = (r, a') → app_api a = None →
  app_p2p a' = app_p2p a ∧ app_host a' = app_host a ∧ a_store (app_auth a') = a_store (app_auth a) ∧
  match app_api a' with
  | None => r ≠ Ok tt
  | Some h => is_Some (h_echo h) ∨ h_echo h = None ∧ ∃ err, r = Fail ("failed to setup api: " +:+ err)
  end.
Proof.
  unfold init_services. destruct (init_vpn env a) as [r1 a1] eqn:Ev. intros E Hapi.
  apply init_vpn_parts in Ev as (Hp & Hh & Ha & Hi). rewrite Hapi in Hi.
  destruct r1 as [[]|e|]; [|injection E as <- <-; by rewrite Hp, Hh, Ha, Hi..]. cbn [and_then] in E.
  destruct (wrap_error _ (NewSOCKS5 _ _)) as [socks|e|]; cbn [or_stop] in E;
    [|injection E as <- <-; simpl; by rewrite Hp, Hh, Ha, Hi..].
  destruct (SetupAPI _ _ _) as [r2 h] eqn:Es. apply SetupAPI_cases in Es as [[-> He]|(err & -> & ->)]; cbn [or_stop wrap_error] in E.
  - apply init_dns_parts in E as (-> & -> & -> & ->). simpl. rewrite Hp, Hh, Ha. auto.
  - injection E as <- <-. simpl. rewrite Hp, Hh, Ha. eauto 10.
Qed.

Lemma Init_api env a a' : Init env a = (Ok tt, a') →
  ∃ c h, SetupAPI (ie_api env) c NewHandler = (Ok tt, h) ∧ app_api a' = Some h.
Proof.
  unfold Init. destruct (mbind _ _) as [host|e|]; cbn [or_stop]; [|done..]. unfold init_services.
  destruct (init_vpn _ _) as [[[]|e|] a1]; cbn [and_then]; [|done..].
  destruct (wrap_error _ (NewSOCKS5 _ _)) as [socks|e|]; cbn [or_stop]; [|done..].
  destruct (SetupAPI _ _ _) as [r h] eqn:Es. destruct r as [[]|e|]; cbn [or_stop wrap_error]; [|done..].
  intros (_ & _ & _ & Ha)%init_dns_parts. eexists _, h. split; [exact Es|by rewrite Ha].
Qed.

(** [Init] started a host from the configured key and saved its key, or failed with no
    host. *)
Lemma Init_parts env a r a' : Init env a = (r, a') → app_api a = None → app_p2p a' = true ∧
  ((app_host a' = None ∧ app_auth a' = app_auth a ∧ app_api a' = None ∧ r ≠ Ok tt) ∨
   ∃ host, app_host a' = Some host ∧
     a_store (app_auth a') = SetIdentity (o_Identity host) (ie_ID env (o_Identity host)) (a_store (app_auth a)) ∧
     match PrivKey (app_conf a) with
     | None => GenerateEd25519Key (ie_host env) = Some (o_Identity host)
     | Some raw => UnmarshalEd25519PrivateKey (ie_host env) raw = Some (o_Identity host)
     end ∧
     match app_api a' with
     | None => r ≠ Ok tt
     | Some h => is_Some (h_echo h) ∨ h_echo h = None ∧ ∃ err, r = Fail ("failed to setup api: " +:+ err)
     end).
Proof.
  unfold Init, makeP2pHostConfig. intros E Hapi.
  destruct (GetBootstrapPeers (ie_defaults env) (app_conf a)) as [peers|e|]; cbn [mbind outcome_bind or_stop] in E;
    [|injection E as <- <-; split; [done|]; left; done..].
  destruct (InitHost _ _ _ _ _) as [host|e|] eqn:Eh; cbn [or_stop] in E; [|injection E as <- <-; split; [done|]; left; done..].
  apply InitHost_identity in Eh. apply init_services_parts in E as (-> & Hh & Hs & Hi); [|done]. split; [done|].
  right. exists host. done.
Qed.
End init.

(** ** Properties *)

(** C18. The names of the network and the routes of the tunnel stay in step. After the
    callbacks of a change of the known peers, in whatever order their loops run, a
    query for a name of a known peer is answered with exactly one record, which carries
    the address of that peer, and the tunnel routes that address to that peer; the name of
    the admin page is answered with the admin address, whatever names the peers have.
    (A record that does not fit the size of a response is cut off, and only the code is
    left.) The configuration must be routable: peers filed under their identifiers, with
    different IPv4 addresses; no name may be published for two peers, and no two published
    names may have one canonical form; and before the change the tunnel must be well formed
    and complete and hold no other peer on the address of a known one
    ([refresh_loses_reused_address]). *)
Theorem names_and_routes_agree `{Multiaddrs} `{!MaddrParts} `{PeerCodec} `{!Inj (=) (=) peer_String} `{DnsLibLaws} `{Unicode}
    dev known peers o a t r used :
  let c := app_conf a in
  routable c → names_unambiguous (known_list c) → names_canonical c →
  app_tunnel a = Some t → tunnel_ok t → complete t → owns (app_world a) (used ++ queues t) → Forall (unclaimed t) known →
  dnsResolver (app_dns a) = Some r →
  known ≡ₚ known_list c → (∀ t1, refresh_peers known t = Ok t1 → visits t1 peers) → order_ok c o →
  ∃ a' t' r', on_KnownPeerChanged dev known peers o a = Ok a' ∧
    app_tunnel a' = Some t' ∧ dnsResolver (app_dns a') = Some r' ∧
    tunnel_ok t' ∧ complete t' ∧ owns (app_world a') (used ++ queues t') ∧
    (∀ key k n q tcp req, KnownPeers c !! key = Some k → n ∈ dns_names k → n ≠ AdminHttpServerDomainName →
       m_Question req = [q] → is_address_question q = true → ToLower (q_Name q) = AwlDns.canonical n →
       ∃ m v vp, dnsLocalDomainHandler r' tcp req = Some m ∧ m_Rcode m = RcodeSuccess ∧
         ((Len (local_reply r' req) ≤ response_size req tcp)%Z → m_Answer m = [RR_A (q_Name q) defaultTTLSeconds (ip_of k)]) ∧
         netIPToPeer t' !! ip_of k = Some v ∧ t_peers t' !! v = Some vp ∧ vp_peerID vp = PeerId k) ∧
    (∀ q tcp req, m_Question req = [q] → is_address_question q = true →
       ToLower (q_Name q) = AwlDns.canonical AdminHttpServerDomainName →
       ∃ m, dnsLocalDomainHandler r' tcp req = Some m ∧ m_Rcode m = RcodeSuccess ∧
         ((Len (local_reply r' req) ≤ response_size req tcp)%Z → m_Answer m = [RR_A (q_Name q) defaultTTLSeconds [127; 0; 0; 66]%Z])).
Proof.
  intros c Hc Hun Hcan Ht Htok Hcomp Hw Hcl Hr Hk Hord Ho. unfold on_KnownPeerChanged. rewrite Ht, Hr.
  destruct (refresh_routes c known peers (app_world a) t used Hc Htok Hcomp Hw Hk Hcl Hord)
    as (w' & t' & E & Htok' & Hcomp' & Hw' & Hroute & _).
  fold c. rewrite E. cbn [mbind outcome_bind]. unfold refreshDNSConfig. rewrite Hr. cbn [mbind outcome_bind].
  fold (names_of o). eexists _, t', _. split; [reflexivity|]. cbn [app_tunnel app_dns app_world dnsResolver with_resolver].
  split_and!; try done.
  - intros key k n q tcp req Hkey Hn Hna Hq Hqa Hlow. destruct (Hroute key k Hkey) as (v & vp & Hip & Hv & Hid & _).
    assert (names_of o !! n = Some (kp_IPAddr k)) as Hname.
    { unfold names_of. rewrite lookup_insert_ne by done. destruct Ho as [Ho _]. by eapply DNSNamesMapping_unambiguous. }
    destruct (single_question_answered (ReceiveConfiguration (ds_upstreamDNS (app_dns a)) (do_names o (names_of o)) r) tcp req q (kp_IPAddr k))
      as (m & Hm & Hrc & Hans); [done|done|rewrite Hlow; by apply (refresh_direct c)|].
    exists m, v, vp. done.
  - intros q tcp req Hq Hqa Hlow. apply (single_question_answered _ tcp req q AdminHttpServerIP); [done|done|].
    rewrite Hlow. apply (refresh_direct c); [done|done|]. apply lookup_insert_eq.
Qed.

(** C40. A restart keeps the identity: after a successful start the key of the host is
    in the saved configuration, and an application that starts again from what was
    saved, through [LoadConfig] and its defaults, has a host with the same key. *)
Theorem restart_keeps_identity `{Multiaddrs} `{!MaddrParts} `{PeerCodec} `{Base58Laws} `{DnsLib} `{Unicode}
    env s w app host :
  Init env (starting s w) = (Ok tt, app) → app_host app = Some host → Forall is_byte (o_Identity host) → o_Identity host ≠ [] →
  PrivKey (app_conf app) = Some (o_Identity host) ∧ disk (a_store (app_auth app)) = Some (app_conf app) ∧
  ∀ Version GOOS os peerIDs c' env' s' w' app',
    LoadConfig Version GOOS os (disk (a_store (app_auth app))) peerIDs = Ok c' → conf s' = c' →
    UnmarshalEd25519PrivateKey (ie_host env') (o_Identity host) = Some (o_Identity host) →
    Init env' (starting s' w') = (Ok tt, app') →
    ∃ host', app_host app' = Some host' ∧ o_Identity host' = o_Identity host.
Proof.
  intros Hi Hh Hb Hne. apply Init_parts in Hi as [_ [(_ & _ & _ & ?)|(host0 & Hh0 & Hs & _)]]; [done| |done].
  assert (host0 = host) as -> by congruence. unfold app_conf, a_conf. rewrite Hs.
  destruct (identity_roundtrip (o_Identity host) (ie_ID env (o_Identity host)) s Hb Hne) as (Hk & Hd & _).
  split; [done|]. split; [done|]. cbn [starting app_auth a_store]. rewrite Hd.
  intros Version GOOS os peerIDs c' env' s' w' app' Hl <- Hun Hi'.
  apply Init_parts in Hi' as [_ [(_ & _ & _ & ?)|(host' & Hh' & _ & Hkey & _)]]; [done| |done].
  exists host'. split; [done|]. apply setDefaults_identity in Hl. simpl in Hl.
  unfold app_conf, a_conf, PrivKey in Hkey, Hk. simpl in Hkey. rewrite Hl in Hkey. simpl in Hkey, Hk.
  rewrite Hk, Hun in Hkey. by injection Hkey.
Qed.

(** [initDNS] panics exactly when the listen address splits, the configurator exists
    and the host is no IP address (or the local domain no FQDN). *)
Theorem init_dns_panics `{DnsLib} NewOSConfigurator ToFQDN o1 o2 interfaceName c :
  (initDNS false NewOSConfigurator ToFQDN o1 o2 interfaceName c NewDNSService).1 = Panic ↔
  ∃ host port, SplitHostPort (DNSListenAddress (DNS c)) = Ok (host, port) ∧ is_Some (NewOSConfigurator interfaceName) ∧
    (ToFQDN LocalDomain = None ∨ ParseAddr host = None).
Proof.
  unfold initDNS, refreshDNSConfig, setup_os_dns.
  pose proof (SplitHostPort_no_panic (DNSListenAddress (DNS c))) as Hs.
  destruct (SplitHostPort _) as [[host port]|e|]; [|by split; [|intros (? & ? & ? & _)]|done].
  cbn [dnsResolver with_resolver with_upstream NewDNSService].
  destruct (NewOSConfigurator interfaceName) as [os|]; cbn [dnsResolver].
  2: { split; [done|]. intros (? & ? & _ & [? ?] & _). done. }
  destruct (ToFQDN LocalDomain) as [fqdn|].
  2: { split; [|done]. intros _. exists host, port. split_and!; [done|by eexists|by left]. }
  destruct (ParseAddr host) as [addr|] eqn:Ep.
  2: { split; [|done]. intros _. exists host, port. split_and!; [done|by eexists|by right]. }
  split; [repeat (case_match; simplify_eq/=; try done)|]. intros (? & ? & [= <- <-] & _ & [?|?]); congruence.
Qed.

(** What [Close] dereferences is there. *)
Definition closable `{Multiaddrs} `{!MaddrParts} (a : Application) : Prop :=
  (∀ h, app_api a = Some h → is_Some (h_echo h)) ∧ (app_p2p a = true → is_Some (app_host a)).

(** Closing a tunnel empties the routing tables; no packet is lost or released twice. *)
Lemma Tunnel_Close_releases peers w t used :
  tunnel_ok t → owns w (used ++ queues t) → visits t peers →
  ∃ w' t', Tunnel_Close peers (w, t) = Ok (w', t') ∧ tunnel_ok t' ∧
    peerIDToPeer t' = ∅ ∧ netIPToPeer t' = ∅ ∧ t_isClosed t' = true ∧ owns w' (used ++ queues t').
Proof.
  intros Htok Hw Hv. unfold Tunnel_Close. set (t0 := mkTunnel _ _ true _ _ _).
  destruct (each_peer_ok drop_peer _ drop_peer_drops peers w t0 used)
    as (w' & t' & E & Htok' & Hw' & Hcl & Hl & _); [by destruct Htok|done| | |].
  - by apply (visits_nodup t).
  - intros v Hin. by apply (visits_elem t) in Hin.
  - exists w', t'. split; [done|].
    assert (∀ v vp, ¬ listed t' v vp) as Hno.
    { intros v vp Hlv. apply Hl in Hlv as [Hlv Hf]. apply Hf. apply (visits_elem t); [done|done|]. by exists vp. }
    assert (peerIDToPeer t' = ∅) as Hids.
    { apply map_empty. intros id. destruct (peerIDToPeer t' !! id) as [v|] eqn:Ev; [|done]. exfalso.
      destruct (ok_ids t' Htok' _ _ Ev) as (vp & Hvp & <- & _). by apply (Hno v vp). }
    split_and!; try done. apply map_empty. intros ip. destruct (netIPToPeer t' !! ip) as [v|] eqn:Ev; [|done].
    destruct (ok_ips t' Htok' _ _ Ev) as (vp & _ & _ & Hm). rewrite Hids, lookup_empty in Hm. done.
Qed.

(** Closing saves the configuration and empties the routing tables; no packet is lost
    or released twice. *)
Theorem close_releases `{Multiaddrs} `{!MaddrParts} peers a t used :
  closable a → app_tunnel a = Some t → tunnel_ok t → owns (app_world a) (used ++ queues t) → visits t peers →
  ∃ a' t', Close peers a = (Ok tt, a') ∧ app_tunnel a' = Some t' ∧
    disk (a_store (app_auth a')) = Some (app_conf a') ∧ app_conf a' = app_conf a ∧
    peerIDToPeer t' = ∅ ∧ netIPToPeer t' = ∅ ∧ t_isClosed t' = true ∧ owns (app_world a') (used ++ queues t').
Proof.
  intros [Hapi Hhost] Ht Htok Hw Hv. unfold Close. cbn [app_api app_tunnel app_world with_auth]. rewrite Ht.
  destruct (Tunnel_Close_releases peers (app_world a) t used Htok Hw Hv) as (w' & t' & E & _ & Hcl). rewrite E.
  assert (match app_api a with None => Ok tt | Some h => Shutdown h end = Ok tt) as ->.
  { destruct (app_api a) as [h|]; [|done]. destruct (Hapi h eq_refl) as [e He]. unfold Shutdown. by rewrite He. }
  cbn [or_stop and_then app_p2p app_host with_tunnel with_auth].
  assert ((if app_p2p a then P2p_Close (app_host a) else Ok tt) = Ok tt) as ->.
  { destruct (app_p2p a); [|done]. destruct (Hhost eq_refl) as [h Hh]. by rewrite Hh. }
  cbn [or_stop]. by eexists _, t'.
Qed.

(** The snapshot counts the peers that are confirmed and the ones that are connected. *)
Theorem known_peers_snapshot `{Multiaddrs} `{!MaddrParts} `{PeerCodec} h known :
  GetKnownPeersSnapshot h known =
  (length known, length (filter (λ kp, kp_Confirmed kp = true) known),
   length (filter (λ kp, IsConnected h (PeerId kp) = true) known), PeerId <$> known).
Proof.
  unfold GetKnownPeersSnapshot. generalize (length known) as total. intros total.
  induction known as [|kp known IH] using rev_ind; [done|].
  rewrite foldl_app, IH. cbn [foldl]. rewrite !list.filter_app, fmap_app, !length_app. cbn [fmap list_fmap].
  rewrite !filter_cons, !filter_nil.
  destruct (kp_Confirmed kp), (IsConnected h (PeerId kp)); repeat (case_decide; try done); simpl; repeat f_equal; lia.
Qed.

(** ** Witnesses *)

#[local] Existing Instances toy_maddrs toy_parts toy_codec toy_base58 toy_base58_laws toy_dns toy_dns_laws toy_unicode.

(** One known peer b with the name "laptop". *)
Definition laptop : KnownPeer := sample_peer "b" "" "b" "10.66.0.3" "laptop".
Definition laptop_conf : Config := with_KnownPeers zeroConfig {[ "b" := laptop ]}.
Definition laptop_order : DNSOrder := mkDNSOrder [("b", laptop)] map_to_list.
Definition laptop_app : Application :=
  mkApplication (mkAuth ∅ ∅ (mkStore laptop_conf None 0) []) false None None (Some t_empty) empty_world ∅ None None
    (with_resolver NewDNSService (NewResolver "127.0.0.66:53")).

Lemma laptop_known key k : KnownPeers laptop_conf !! key = Some k → "b" = key ∧ laptop = k.
Proof. intros Hk. by apply (lookup_singleton_Some "b" key laptop k). Qed.

Lemma laptop_routable : routable laptop_conf.
Proof.
  constructor.
  - intros key k [<- <-]%laptop_known. reflexivity.
  - intros key k [<- <-]%laptop_known. discriminate.
  - intros key k key' k' [<- _]%laptop_known [<- _]%laptop_known _. reflexivity.
Qed.

Lemma laptop_names : names_canonical laptop_conf.
Proof.
  assert (∀ n, published laptop_conf n → n ∈ ["admin"; "b"; "laptop"]) as Hp.
  { intros n [->|(key & k & [<- <-]%laptop_known & Hn)]; [set_solver|]. simpl in Hn. set_solver. }
  assert (Forall (λ n, Forall (λ n', AwlDns.canonical n = AwlDns.canonical n' → n = n')
    ["admin"; "b"; "laptop"]) ["admin"; "b"; "laptop"]) as Hall.
  { apply (bool_decide_unpack _). vm_compute. exact I. }
  intros n n' Hn%Hp Hn'%Hp. rewrite list.Forall_forall in Hall. specialize (Hall n Hn).
  rewrite list.Forall_forall in Hall. by apply Hall.
Qed.

Lemma names_and_routes_agree_witness :
  ∃ a' r', on_KnownPeerChanged false [laptop] [0%nat] laptop_order laptop_app = Ok a' ∧
    dnsResolver (app_dns a') = Some r' ∧
    ∃ m, dnsLocalDomainHandler r' false (mkMsg [mkQuestion "Laptop.AWL." TypeA] [] 0 false false) = Some m ∧
      m_Rcode m = RcodeSuccess ∧ m_Answer m = [RR_A "Laptop.AWL." defaultTTLSeconds [10; 66; 0; 3]%Z].
Proof.
  destruct (names_and_routes_agree false [laptop] [0%nat] laptop_order laptop_app t_empty (NewResolver "127.0.0.66:53") [])
    as (a' & t' & r' & E & _ & Hr & _ & _ & _ & Hnames & _).
  - exact laptop_routable.
  - apply names_unambiguous_check. apply (bool_decide_unpack _). vm_compute. exact I.
  - exact laptop_names.
  - reflexivity.
  - exact t_empty_ok.
  - intros v vp [Hv _]. simpl in Hv. by rewrite lookup_empty in Hv.
  - exact empty_world_owns.
  - constructor; [|constructor]. intros v vp [Hv _]. simpl in Hv. by rewrite lookup_empty in Hv.
  - reflexivity.
  - vm_compute. reflexivity.
  - intros t1 E. vm_compute in E. injection E as <-. vm_compute. reflexivity.
  - split; [vm_compute; reflexivity|]. intros m. apply ranges_self.
  - destruct (Hnames "b" laptop "laptop" (mkQuestion "Laptop.AWL." TypeA) false (mkMsg [mkQuestion "Laptop.AWL." TypeA] [] 0 false false))
      as (m & _ & _ & Hm & Hrc & Ha & _); [reflexivity|apply (bool_decide_unpack _); vm_compute; exact I|discriminate|reflexivity|vm_compute; reflexivity|vm_compute; reflexivity|].
    exists a', r'. split; [exact E|]. split; [exact Hr|]. exists m. split; [exact Hm|]. split; [exact Hrc|]. apply Ha.
    vm_compute in E. injection E as <-. cbn in Hr. injection Hr as <-. vm_compute. discriminate.
Defined.

(** A first start without a key generates the key 7, 8; a second one reads it back. *)
Definition start_env (generate : option bytes) : InitEnv :=
  mkInitEnv "awl/dev-linux-amd64" true (λ t, mkAddrInfo t []) [] (mkHostEnv generate Some (λ _ _, true) true) id
    (λ _, true) (λ _, true) (λ _, "me") true (Some 1500%Z) (λ _, true) any_setup (Some "awl0") (λ _, None) Some false
    [] [] (mkDNSOrder [] map_to_list) (mkDNSOrder [] map_to_list).
Definition start_store : Store := mkStore (conf_with ∅) None 0.

Definition first_start : outcome unit * Application := Init (start_env (Some [7; 8]%Z)) (starting start_store empty_world).
Definition loaded : Config :=
  match LoadConfig "v1" "linux" empty_dirs (disk (a_store (app_auth first_start.2))) [] with Ok c => c | _ => zeroConfig end.
Definition second_start : outcome unit * Application := Init (start_env None) (starting (mkStore loaded None 0) empty_world).
Definition key_of (a : Application) : option bytes := o_Identity <$> app_host a.

Lemma restart_keeps_identity_witness :
  key_of first_start.2 = Some [7; 8]%Z ∧ key_of second_start.2 = Some [7; 8]%Z.
Proof.
  assert (key_of first_start.2 = Some [7; 8]%Z) as Hk by (vm_compute; reflexivity). split; [exact Hk|].
  unfold key_of in Hk. destruct (app_host first_start.2) as [host|] eqn:Eh; [|discriminate].
  simpl in Hk. injection Hk as Hk.
  destruct (restart_keeps_identity (start_env (Some [7; 8]%Z)) start_store empty_world first_start.2 host)
    as (_ & _ & Hre).
  - vm_compute. reflexivity.
  - exact Eh.
  - rewrite Hk. repeat constructor; unfold is_byte; lia.
  - rewrite Hk. discriminate.
  - destruct (Hre "v1" "linux" empty_dirs [] loaded (start_env None) (mkStore loaded None 0) empty_world second_start.2)
      as (host' & Eh' & Hk').
    + vm_compute. reflexivity.
    + reflexivity.
    + reflexivity.
    + vm_compute. reflexivity.
    + unfold key_of. rewrite Eh'. simpl. by rewrite Hk', Hk.
Defined.

(** A host name in the DNS listen address stops the daemon. *)
Example dns_host_name_panics :
  let c := mkDNSConfig false "localhost:53" in
  (initDNS false (λ _, Some (mkOSConfigurator true None (λ _, true))) Some laptop_order laptop_order "awl0"
    (mkConfig "" "" "" "" false (HttpBasicAuth zeroConfig) (P2pNode zeroConfig) (cVPN zeroConfig) (SOCKS5 zeroConfig) c ∅ ∅ (Update zeroConfig))
    NewDNSService).1 = Panic.
Proof. vm_compute. reflexivity. Qed.
