(* ===== verification/Metrics.v ===== *)
(** * The gauges of the node (src/metrics/metrics.go, peers.go, p2p.go, node.go)

    The background updater: what every tick writes to the gauges. A gauge holds a
    number; the one for latencies is a vector that holds a number per peer and keeps what
    was written until it is deleted, which is how the Prometheus library documents it.
    Counts are exact in a float, so they are numbers here; latencies and the uptime are
    durations in nanoseconds. Counters, which only the libraries and the data path
    increase, are left out. *)

From S2P Require Import Prelude GoStrings GoNet GoHostPort Externals Config NetworkAddr AwlDns ConfigDefaults.
From S2P Require Import Protocol Packet Device Tunnel AuthStatus Socks5 P2p Api ApiServer Application.
Local Open Scope Z_scope.

Section metrics.
Context `{Multiaddrs} `{!MaddrParts} `{PeerCodec}.

Record PeersGauges := mkPeersGauges {
  PeersKnownTotal : Z;
  PeersConnected : Z;
  PeersConfirmedTotal : Z;
  PeersBlockedTotal : Z;
  PeersAuthRequestsIngoing : Z;
  PeersAuthRequestsOutgoing : Z;
}.

Record P2PGauges := mkP2PGauges {
  P2PBootstrapPeersTotal : Z;
  P2PBootstrapPeersConnected : Z;
  P2PDHTRoutingTableSize : Z;
  P2POpenConnections : Z;
  P2POpenStreams : Z;
  P2PConnectedPeers : Z;
  P2PPeerLatency : gmap string Z;
}.

(** The labels of [NodeInfo]: version, peer, Go version, system, architecture. *)
Record NodeGauges := mkNodeGauges {
  NodeInfo : gmap (list string) Z;
  NodeUptime : Z;
  NodeStartTimestamp : Z;
}.

Record Gauges := mkGauges { g_peers : PeersGauges; g_p2p : P2PGauges; g_node : NodeGauges }.

(** The seconds of a time in nanoseconds. *)
Definition Unix (t : time) : Z := t / 1000000000.

Definition SetNodeInfo (now : time) (version peerID goversion goos goarch : string) (g : NodeGauges) : NodeGauges :=
  mkNodeGauges (<[[version; peerID; goversion; goos; goarch] := 1]> (NodeInfo g)) (NodeUptime g) (Unix now).

(** What a tick finds: the interfaces [ConfigMetrics] and [P2pMetrics] as the daemon
    implements them, and the clock. The counts of connections and of the routing table are
    the library's. *)
Record Tick := mkTick {
  tk_known : list KnownPeer;        (* the known peers in the order of the loop *)
  tk_auth : Auth;
  tk_host : Host;
  tk_bootstrap : list AddrInfo;
  tk_peers : Z;
  tk_connections : Z;
  tk_routing : Z;
  tk_now : time;
}.

(** [updateGauges]. *)
Definition updateGauges (startTime : time) (t : Tick) (g : Gauges) : Gauges :=
  let '(total, confirmed, connected, peerIDs) := GetKnownPeersSnapshot (tk_host t) (tk_known t) in
  let '(ingoing, outgoing) := GetAuthRequestCounts (tk_auth t) in
  let '(bootstrapTotal, bootstrapConnected) := BootstrapPeersStats (tk_host t) (tk_bootstrap t) in
  mkGauges
    (mkPeersGauges (Z.of_nat total) (Z.of_nat connected) (Z.of_nat confirmed) (Z.of_nat (GetBlockedPeersCount (a_conf (tk_auth t))))
       (Z.of_nat ingoing) (Z.of_nat outgoing))
    (mkP2PGauges (Z.of_nat bootstrapTotal) (Z.of_nat bootstrapConnected) (tk_routing t) (tk_connections t)
       (OpenStreamsCount (tk_host t)) (tk_peers t)
       (foldl (λ m peerID, <[peer_String peerID := LatencyEWMA (tk_host t) peerID]> m) (P2PPeerLatency (g_p2p g)) peerIDs))
    (mkNodeGauges (NodeInfo (g_node g)) (tk_now t - startTime) (NodeStartTimestamp (g_node g))).

(** [StartBackgroundUpdater]: the first update, then one per tick until the context ends. *)
Definition StartBackgroundUpdater (startTime : time) (first : Tick) (ticks : list Tick) (g : Gauges) : Gauges :=
  let g := mkGauges (g_peers g) (g_p2p g) (mkNodeGauges (NodeInfo (g_node g)) (NodeUptime (g_node g)) (Unix startTime)) in
  foldl (λ g t, updateGauges startTime t g) (updateGauges startTime first g) ticks.

Lemma latencies_lookup h ids : ∀ (m : gmap string Z) text,
  foldl (λ m peerID, <[peer_String peerID := LatencyEWMA h peerID]> m) m ids !! text =
  match list.last (filter (λ id, peer_String id = text) ids) with
  | Some id => Some (LatencyEWMA h id)
  | None => m !! text
  end.
Proof.
  intros m text. induction ids as [|id ids IH] using rev_ind; [done|].
  rewrite foldl_app, list.filter_app, filter_cons, filter_nil. cbn [foldl].
  destruct (decide (peer_String id = text)) as [<-|Hne].
  - by rewrite lookup_insert_eq, last_snoc.
  - by rewrite lookup_insert_ne, app_nil_r, IH by done.
Qed.

End metrics.

(** The gauges say what the daemon is: after a tick they hold the numbers of known,
    confirmed, connected and blocked peers and of pending requests as they are at the tick,
    and for every known peer its latency. *)
Theorem gauges_report `{Multiaddrs} `{!MaddrParts} `{PeerCodec} `{!Inj (=) (=) peer_String} startTime t g :
  let g' := updateGauges startTime t g in
  PeersKnownTotal (g_peers g') = Z.of_nat (length (tk_known t)) ∧
  PeersConfirmedTotal (g_peers g') = Z.of_nat (length (filter (λ kp, kp_Confirmed kp = true) (tk_known t))) ∧
  PeersConnected (g_peers g') = Z.of_nat (length (filter (λ kp, IsConnected (tk_host t) (PeerId kp) = true) (tk_known t))) ∧
  PeersBlockedTotal (g_peers g') = Z.of_nat (size (BlockedPeers (a_conf (tk_auth t)))) ∧
  PeersAuthRequestsIngoing (g_peers g') = Z.of_nat (size (ingoingAuths (tk_auth t))) ∧
  PeersAuthRequestsOutgoing (g_peers g') = Z.of_nat (size (outgoingAuths (tk_auth t))) ∧
  (∀ kp, kp ∈ tk_known t →
     P2PPeerLatency (g_p2p g') !! peer_String (PeerId kp) = Some (LatencyEWMA (tk_host t) (PeerId kp))).
Proof.
  unfold updateGauges. rewrite known_peers_snapshot. simpl. split_and!; try done. intros kp Hkp. rewrite latencies_lookup.
  destruct (list.last _) as [id|] eqn:E.
  - apply last_Some in E as [l' E]. assert (id ∈ filter (λ id, peer_String id = peer_String (PeerId kp)) (PeerId <$> tk_known t)) as Hin
      by (rewrite E; apply elem_of_app; right; by left).
    apply list_elem_of_filter in Hin as [Heq _]. by apply (inj peer_String) in Heq as ->.
  - apply last_None in E. exfalso. assert (PeerId kp ∈ filter (λ id, peer_String id = peer_String (PeerId kp)) (PeerId <$> tk_known t)) as Hin
      by (apply list_elem_of_filter; split; [done|by apply list_elem_of_fmap_2]).
    rewrite E in Hin. by apply not_elem_of_nil in Hin.
Qed.

(** Latencies are never deleted: a peer that was known at one tick is reported for ever,
    with the latency of the last tick at which it was known. *)
Theorem removed_peer_latency_stays `{Multiaddrs} `{!MaddrParts} `{PeerCodec} startTime first ticks g text :
  (∀ t kp, t ∈ first :: ticks → kp ∈ tk_known t → peer_String (PeerId kp) ≠ text) →
  P2PPeerLatency (g_p2p (StartBackgroundUpdater startTime first ticks g)) !! text = P2PPeerLatency (g_p2p g) !! text.
Proof.
  intros Hno. unfold StartBackgroundUpdater.
  assert (Hstep : ∀ t g, t ∈ first :: ticks → P2PPeerLatency (g_p2p (updateGauges startTime t g)) !! text = P2PPeerLatency (g_p2p g) !! text).
  { intros t g1 Ht. unfold updateGauges. rewrite known_peers_snapshot. simpl. rewrite latencies_lookup.
    destruct (list.last _) as [id|] eqn:E; [|done]. apply last_Some in E as [l' E].
    assert (id ∈ filter (λ id, peer_String id = text) (PeerId <$> tk_known t)) as Hin by (rewrite E; apply elem_of_app; right; by left).
    apply list_elem_of_filter in Hin as [Heq (kp & -> & Hkp)%list_elem_of_fmap]. by destruct (Hno t kp Ht Hkp). }
  set (g0 := mkGauges _ _ (mkNodeGauges _ _ (Unix startTime))). clear Hno. induction ticks as [|t ticks IH] using rev_ind.
  - simpl. rewrite Hstep by by left. done.
  - rewrite foldl_app. cbn [foldl]. rewrite Hstep by (right; apply elem_of_app; right; by left).
    apply IH. intros t' g' Ht'. apply Hstep. apply elem_of_cons in Ht' as [->|Ht']; [by left|right; apply elem_of_app; by left].
Qed.
