(* ===== verification/Programs.v ===== *)
(** * The programs around the application
      (src/cmd/awl/main.go, src/cmd/gomobile-lib/main.go, src/cmd/gomobile-lib/vpn.go)

    The daemon's entry point and the library for mobile phones: how they start and stop
    the application of [Application], what they do when a start fails, and the switch of
    the phone's full tunnel. Signals, timers and the engine of the tunnel are inputs. *)

From S2P Require Import Prelude GoStrings GoNet GoHostPort Externals Config NetworkAddr AwlDns ConfigDefaults.
From S2P Require Import Protocol Packet Device Tunnel AuthStatus Socks5 P2p Api ApiServer Update Application.
Local Open Scope Z_scope.

(** ** Applications that may be half started *)

Section programs.
Context `{Multiaddrs} `{!MaddrParts} `{PeerCodec} `{Base58} `{DnsLib}.

(** The variable that holds the application: right after [New] it has no configuration. *)
Inductive AppRef := Bare | Ready (a : Application).

(** What a start meets: the result of [SetupLoggerAndConfig], the environment of [Init]
    and the packets there are. *)
Record Start := mkStart { st_conf : outcome Config; st_env : InitEnv; st_world : World }.

(** [New], [SetupLoggerAndConfig] and [Init]. *)
Definition start_app (i : Start) : outcome unit * AppRef :=
  match st_conf i with
  | Ok c => let '(r, a) := Init (st_env i) (starting (mkStore c None 0) (st_world i)) in (r, Ready a)
  | Fail e => (Fail e, Bare)
  | Panic => (Panic, Bare)
  end.

(** The order in which the loop over the peers of a tunnel visits them. *)
Context (order : Tunnel → list vploc).
Definition close_order (a : Application) : list vploc := match app_tunnel a with Some t => order t | None => [] end.

(** [app.Close()]: without a configuration it dereferences nil. *)
Definition close_ref (r : AppRef) : outcome unit * AppRef :=
  match r with
  | Bare => (Panic, Bare)
  | Ready a => let '(r, a) := Close (close_order a) a in (r, Ready a)
  end.

(** ** The library for phones (src/cmd/gomobile-lib/main.go) *)

Record Mobile := mkMobile { globalApp : option AppRef; globalDataDir : string }.

Definition Mobile_Setup (dataDir : string) (m : Mobile) : Mobile := mkMobile (globalApp m) dataDir.

(** [GetConfig]: [conf] is the loaded or new configuration, [export] its text. *)
Definition Mobile_GetConfig (conf : outcome Config) (export : Config → string) (m : Mobile) : outcome string :=
  if decide (globalDataDir m = "") then Panic else c ← conf; Ok (export c).

(** [StartServer]: a panic is recovered, wherever it comes from; the variable keeps what
    it held at that point. *)
Definition Mobile_StartServer (i : Start) (m : Mobile) : outcome unit * Mobile :=
  let recovered := Fail "recovered panic from InitServer" in
  match start_app i with
  | (Ok _, app) => (Ok tt, mkMobile (Some app) (globalDataDir m))
  | (Fail err, app) =>
      match close_ref app with
      | (Panic, app) => (recovered, mkMobile (Some app) (globalDataDir m))
      | (_, _) => (Fail err, mkMobile None (globalDataDir m))
      end
  | (Panic, app) => (recovered, mkMobile (Some app) (globalDataDir m))
  end.

(** [StopServer]: nothing recovers a panic here. *)
Definition Mobile_StopServer (m : Mobile) : outcome Mobile :=
  match globalApp m with
  | None => Ok m
  | Some app => _ ← (close_ref app).1; Ok (mkMobile None (globalDataDir m))
  end.

(** [ImportConfig]. *)
Definition Mobile_ImportConfig (unmarshal : bytes → option Config) (data : bytes) (write_ok : bool) (m : Mobile) : outcome (string * bytes) :=
  if decide (is_Some (globalApp m) ∨ globalDataDir m = "") then Panic
  else ImportConfig unmarshal data (globalDataDir m) write_ok.

(** [GetApiAddress]. *)
Definition Mobile_GetApiAddress (m : Mobile) : outcome string :=
  match globalApp m with
  | Some (Ready a) => match app_api a with Some h => Address h | None => Ok "" end
  | _ => Ok ""
  end.

(** ** The daemon (src/cmd/awl/main.go) *)

(** How the daemon ends. *)
Inductive exit := InitFatal (err : string) | ExitedNormally | ExitTimeout | DuplicateSignal | Crashed.

(** What the goroutine that watches the exit sees first. *)
Inductive watched := TimeoutFirst | FinishedFirst | SignalFirst.

(** [main] after the command line: the start, the frontend, and the exit after a signal. *)
Definition awl_main (i : Start) (running : Application → Application) (w : watched) : exit :=
  match start_app i with
  | (Fail err, _) => InitFatal ("failed to init server: " +:+ err)
  | (Panic, _) | (Ok _, Bare) => Crashed
  | (Ok _, Ready a) =>
      match h ← or_panic (app_api a); SetupFrontend h with
      | Ok h =>
          let a := running (with_api a h) in
          match w with
          | TimeoutFirst => ExitTimeout
          | SignalFirst => DuplicateSignal
          | FinishedFirst => match Close (close_order a) a with (Ok _, _) => ExitedNormally | _ => Crashed end
          end
      | _ => Crashed
      end
  end.
End programs.

(** ** The check for updates *)

(** The goroutine that checks for updates: [NewTicker] panics on an interval that is not
    positive. *)
Inductive auto_check := NoCheck | CheckLoop (interval : Z) | CheckCrash.
Definition start_auto_check (devVersion : bool) (ParseDuration : string → option Z) (u : UpdateConfig) : auto_check :=
  if negb (TrayAutoCheckEnabled u) then NoCheck
  else if devVersion then NoCheck
  else match ParseDuration (TrayAutoCheckInterval u) with
       | None => NoCheck
       | Some interval => if decide (interval ≤ 0) then CheckCrash else CheckLoop interval
       end.

(** ** The full tunnel of a phone (src/cmd/gomobile-lib/vpn.go) *)

(** What the engine is asked to do. *)
Inductive engine_call := EngineInsert (device proxy : string) (mtu : Z) | EngineStart | EngineStop.

Record PhoneVPN := mkPhoneVPN { vpnRunning : bool; engine_calls : list engine_call }.

(** [StartVPN], under the mutex. *)
Definition StartVPN (tunFD : Z) (socks5ProxyAddr : string) (mtu : Z) (v : PhoneVPN) : outcome unit * PhoneVPN :=
  if vpnRunning v then (Ok tt, v)
  else if decide (tunFD = 0) then (Fail "invalid tun fd", v)
  else if decide (socks5ProxyAddr = "") then (Fail "empty socks5 proxy address", v)
  else
    let mtu := if decide (mtu ≤ 0) then 1500 else mtu in
    (Ok tt, mkPhoneVPN true (engine_calls v ++ [EngineInsert ("fd://" +:+ pretty tunFD) ("socks5://" +:+ socks5ProxyAddr) mtu; EngineStart])).

(** [StopVPN] and [IsVPNRunning]. *)
Definition StopVPN (v : PhoneVPN) : PhoneVPN :=
  if negb (vpnRunning v) then v else mkPhoneVPN false (engine_calls v ++ [EngineStop]).
Definition IsVPNRunning (v : PhoneVPN) : bool := vpnRunning v.

(** ** Facts *)

Section lifecycle.
Context `{Multiaddrs} `{!MaddrParts} `{PeerCodec} `{Base58} `{DnsLib}.
Context (order : Tunnel → list vploc) (order_visits : ∀ t, visits t (order t)).

(** An application whose packets and routes are well formed, whatever services it has. *)
Definition packets_ok (a : Application) : Prop :=
  match app_tunnel a with None => True | Some t => tunnel_ok t ∧ ∃ used, owns (app_world a) (used ++ queues t) end.

(** Closing such an application panics exactly when a server or the host is missing. *)
Lemma Close_panics a : packets_ok a →
  match (Close (close_order order a) a).1 with Ok _ => closable a | Fail _ => False | Panic => ¬ closable a end.
Proof.
  intros Hp. unfold Close, closable, close_order, packets_ok, Shutdown, P2p_Close in *. cbn [app_api app_tunnel app_world with_auth].
  destruct (app_api a) as [h|]; [destruct (h_echo h) as [e|] eqn:He|]; cbn [or_stop or_panic mbind outcome_bind fst].
  2: { intros [Hh _]. destruct (Hh h eq_refl). congruence. }
  all: destruct (app_tunnel a) as [t|]; [destruct Hp as (Ht & used & Hw);
    destruct (Tunnel_Close_releases (order t) (app_world a) t used Ht Hw (order_visits t)) as (w' & t' & -> & _)|];
    cbn [or_stop and_then app_p2p app_host with_tunnel with_auth]; (destruct (app_p2p a); [destruct (app_host a) as [host|]|]);
    cbn [or_stop or_panic mbind outcome_bind fst].
  all: first [by intros [_ Hh]; destruct (Hh eq_refl)|split; [|by eauto]; intros h' [= <-]; by eexists|by split; eauto].
Qed.

(** What closing leaves, even if it panics. *)
Lemma Close_keeps a r a' : packets_ok a → Close (close_order order a) a = (r, a') → packets_ok a' ∧ (closable a' ↔ closable a).
Proof.
  intros Hp. unfold Close, close_order. cbn [app_api app_tunnel app_world with_auth]. unfold packets_ok, closable in *.
  destruct (match app_api a with None => Ok tt | Some h => Shutdown h end); cbn [or_stop]; [|by intros [= <- <-]..].
  destruct (app_tunnel a) as [t|] eqn:Et; [destruct Hp as (Ht & used & Hw);
    destruct (Tunnel_Close_releases (order t) (app_world a) t used Ht Hw (order_visits t)) as (w' & t' & -> & Ht' & _ & _ & _ & Hw')|];
    cbn [or_stop and_then app_p2p app_host with_tunnel with_auth];
    (destruct (if app_p2p a then P2p_Close (app_host a) else Ok tt)); intros [= <- <-]; simpl; rewrite ?Et; naive_solver.
Qed.

(** The second loop of the first refresh visits the peers the first one made. *)
Definition env_order (env : InitEnv) : Prop :=
  ∀ bc t1, refresh_peers (ie_known env) (mkTunnel ∅ 0 false ∅ ∅ bc) = Ok t1 → visits t1 (ie_peers env).

Lemma NewTunnel_packets c known peers w w' t used :
  NewTunnel c known peers w = Ok (w', t) → owns w used →
  (∀ bc t1, refresh_peers known (mkTunnel ∅ 0 false ∅ ∅ bc) = Ok t1 → visits t1 peers) →
  tunnel_ok t ∧ owns w' (used ++ queues t).
Proof.
  unfold NewTunnel. destruct (VPNLocalIPMask c) as [ip mask]. intros (bc & _ & E)%outcome_bind_Ok Hw Hv.
  assert (tunnel_ok (mkTunnel ∅ 0 false ∅ ∅ bc)) as Hnew by (constructor; simpl; intros *; rewrite ?lookup_empty; try done; by intros [? ?]).
  destruct (refresh_peers_ok known _ Hnew) as (t1 & E1 & Ht1 & Hq1 & _). unfold RefreshPeersList in E. rewrite E1 in E.
  cbn [mbind outcome_bind] in E. specialize (Hv bc t1 E1).
  destruct (each_peer_ok _ _ (refresh_delete_drops c) peers w t1 used Ht1) as (w2 & t2 & E2 & Ht2 & Hw2 & _);
    [|by apply (visits_nodup t1)|intros v; by apply (visits_elem t1)|].
  - rewrite Hq1. unfold queues. simpl. by rewrite app_nil_r.
  - rewrite E2 in E. by simplify_eq.
Qed.

(** What a start leaves has well-formed packets and routes, however it ends. *)
Lemma Init_packets env s w r a used : Init env (starting s w) = (r, a) → owns w used → env_order env → packets_ok a.
Proof.
  unfold Init. intros E Hw Hv. destruct (mbind _ _) as [host|e|]; cbn [or_stop] in E; [|by injection E as <- <-..].
  unfold init_services in E. set (a0 := with_auth _ _) in E.
  assert (packets_ok (init_vpn env a0).2) as Hp.
  { unfold init_vpn. destruct (DisableVPNInterface _); [done|]. destruct (VPNLocalIPMask _) as [ip mask].
    destruct (wrap_error _ _) as [d|e|]; cbn [or_stop]; [|done..].
    destruct (NewTunnel _ _ _ _) as [[w' t]|e|] eqn:En; cbn [or_stop]; [|done..]. unfold packets_ok. simpl.
    destruct (NewTunnel_packets _ _ _ _ _ _ used En Hw Hv). eauto. }
  destruct (init_vpn env a0) as [r1 a1]. simpl in Hp. destruct r1 as [[]|e|]; cbn [and_then] in E; [|by injection E as <- <-..].
  destruct (wrap_error _ (NewSOCKS5 _ _)) as [socks|e|]; cbn [or_stop] in E; [|by injection E as <- <-..].
  destruct (SetupAPI _ _ _) as [r2 h]. destruct (wrap_error _ r2) as [[]|e|]; cbn [or_stop] in E; [|by injection E as <- <-..].
  unfold init_dns in E. destruct (_ && _); [|by injection E as <- <-]. destruct (ie_InterfaceName env); [|by injection E as <- <-].
  destruct (initDNS _ _ _ _ _ _ _ _). by injection E as <- <-.
Qed.

(** A successful start can be closed. *)
Lemma Init_closable env s w a : Init env (starting s w) = (Ok tt, a) → closable a.
Proof.
  intros E. apply Init_parts in E as [_ [(_ & _ & _ & ?)|(host & Hh & _ & _ & Hi)]]; [done| |done].
  split; [|by rewrite Hh]. intros h Ha. rewrite Ha in Hi. by destruct Hi as [?|[_ [? ?]]].
Qed.

(** The parts whose absence [Close] does not survive. *)
Definition missing_part (a : Application) : Prop := app_host a = None ∨ ∃ h, app_api a = Some h ∧ h_echo h = None.

Lemma Init_missing env s w r a : Init env (starting s w) = (r, a) → ¬ closable a ↔ missing_part a.
Proof.
  intros E. apply Init_parts in E as [Hp _]; [|done]. unfold closable, missing_part. rewrite Hp. split.
  - intros Hc. destruct (app_host a) as [host|]; [|by left]. right. destruct (app_api a) as [h|]; [|exfalso; apply Hc; by split; [|eexists]].
    exists h. split; [done|]. destruct (h_echo h) as [e|] eqn:He; [|done]. exfalso. apply Hc. split; [|by eexists].
    intros h' [= <-]. rewrite He. by eexists.
  - intros [Hn|(h & Ha & He)] [Hc1 Hc2].
    + destruct (Hc2 eq_refl). congruence.
    + destruct (Hc1 h Ha). congruence.
Qed.
End lifecycle.

(** ** Properties *)

(** Starting and stopping on a phone. A start never crashes the process, and what a
    successful start leaves can be stopped. After a start that returned an error, the
    application is closed and forgotten, unless the host did not start or the web server
    found no address to listen on: then closing it dereferences nil, the half-started
    application stays in the global variable, and the next stop (or import of a
    configuration) crashes the process. *)
Theorem phone_start_stop `{Multiaddrs} `{!MaddrParts} `{PeerCodec} `{Base58} `{DnsLib} (order : Tunnel → list vploc)
    (order_visits : ∀ t, visits t (order t)) i m r m' used :
  owns (st_world i) used → env_order (st_env i) → Mobile_StartServer order i m = (r, m') →
  r ≠ Panic ∧
  (r = Ok tt → ∃ m'', Mobile_StopServer order m' = Ok m'' ∧ globalApp m'' = None) ∧
  (∀ err a, start_app i = (Fail err, Ready a) →
     (¬ missing_part a → r = Fail err ∧ globalApp m' = None ∧ Mobile_StopServer order m' = Ok m') ∧
     (missing_part a → Mobile_StopServer order m' = Panic ∧
        ∀ unmarshal data write_ok, Mobile_ImportConfig unmarshal data write_ok m' = Panic)).
Proof.
  intros Hw Ho. unfold Mobile_StartServer, Mobile_StopServer. destruct (start_app i) as [r0 app] eqn:Es.
  assert (∀ a, app = Ready a → packets_ok a ∧ (¬ closable a ↔ missing_part a) ∧ (r0 = Ok tt → closable a)) as Hready.
  { intros a ->. unfold start_app in Es. destruct (st_conf i) as [c|e|]; [|done..].
    destruct (Init _ _) as [r1 a1] eqn:Ei. injection Es as <- <-.
    split_and!; [by eapply Init_packets|by eapply Init_missing|]. intros ->. by eapply Init_closable. }
  destruct r0 as [[]|err|].
  - intros [= <- <-]. split_and!; [done| |done]. intros _. destruct app as [|a]; [unfold start_app in Es; repeat case_match; simplify_eq|].
    destruct (Hready a eq_refl) as (Hp & _ & Hc). pose proof (Close_panics order order_visits a Hp) as Hcl. simpl.
    destruct (Close _ a) as [r1 a1]. simpl in *. destruct r1 as [[]|e|]; [|done|by destruct Hcl; apply Hc]. by eexists.
  - destruct app as [|a]; [simpl; intros [= <- <-]; by split_and!|]. destruct (Hready a eq_refl) as (Hp & Hm & _).
    pose proof (Close_panics order order_visits a Hp) as Hcl. cbn [close_ref]. destruct (Close _ a) as [r1 a1] eqn:Ec. simpl in Hcl.
    destruct (Close_keeps order order_visits a r1 a1 Hp Ec) as [Hp1 Hk].
    destruct r1 as [[]|e|]; [|done|]; intros [= <- <-]; (split_and!; [done..|]); intros err' a' [= <- <-]; rewrite <- Hm;
      (split; [try done|]); intros Hn; try (by destruct Hn).
    split; [|intros; unfold Mobile_ImportConfig; apply decide_True; left; by eexists]. simpl.
    pose proof (Close_panics order order_visits a1 Hp1) as Hcl1. destruct (Close _ a1) as [r2 a2]. simpl in *.
    destruct r2 as [[]|e|]; [by apply Hk in Hcl1|done|done].
  - intros [= <- <-]. by split_and!.
Qed.

(** The calls of the engine, as its documentation wants them: a configuration is inserted
    into a stopped engine, then the engine is started, then stopped. *)
Inductive engine := Stopped | Inserted | Running.
Definition engine_step (s : option engine) (c : engine_call) : option engine :=
  match s, c with
  | Some Stopped, EngineInsert _ _ _ => Some Inserted
  | Some Inserted, EngineStart => Some Running
  | Some Running, EngineStop => Some Stopped
  | _, _ => None
  end.

Inductive phone_op := OpStart (tunFD : Z) (proxy : string) (mtu : Z) | OpStop.
Definition phone_step (v : PhoneVPN) (o : phone_op) : PhoneVPN :=
  match o with OpStart fd proxy mtu => (StartVPN fd proxy mtu v).2 | OpStop => StopVPN v end.

(** Whatever the app calls in whatever order, the engine is never started twice, stopped
    twice or configured while it runs, and [IsVPNRunning] tells whether it runs. *)
Theorem phone_vpn_engine_protocol ops :
  let v := foldl phone_step (mkPhoneVPN false []) ops in
  foldl engine_step (Some Stopped) (engine_calls v) = Some (if IsVPNRunning v then Running else Stopped).
Proof.
  induction ops as [|o ops IH] using rev_ind; [done|]. cbn [foldl] in *. rewrite foldl_app. cbn [foldl].
  destruct (foldl phone_step _ ops) as [running calls]. unfold IsVPNRunning in *. cbn [vpnRunning engine_calls] in *.
  destruct o as [fd proxy mtu|]; cbn [phone_step]; unfold StartVPN, StopVPN; cbn [vpnRunning engine_calls]; destruct running; simpl; try done.
  - repeat case_decide; simpl; rewrite ?foldl_app, ?IH; done.
  - by rewrite foldl_app, IH.
Qed.

(** The daemon crashes on an interval that is not positive. *)
Theorem auto_check_crashes devVersion ParseDuration u :
  start_auto_check devVersion ParseDuration u = CheckCrash ↔
  TrayAutoCheckEnabled u = true ∧ devVersion = false ∧ ∃ d, ParseDuration (TrayAutoCheckInterval u) = Some d ∧ d ≤ 0.
Proof.
  unfold start_auto_check. destruct (TrayAutoCheckEnabled u), devVersion; simpl; try naive_solver.
  destruct (ParseDuration _) as [d|]; [case_decide|]; naive_solver lia.
Qed.

(** ** Witnesses *)

#[local] Existing Instances toy_maddrs toy_parts toy_codec toy_base58 toy_dns.

(** A start while another program listens on the address of the web interface. *)
Definition busy_setup : SetupEnv := mkSetupEnv (λ _, true) [] (λ _, None).
Definition busy_env : InitEnv :=
  let e := start_env (Some [7; 8]) in
  mkInitEnv (ie_UserAgent e) (ie_AllowEmptyBootstrapPeers e) (ie_info e) (ie_defaults e) (ie_host e) (ie_StringCast e) (ie_tcp_free e)
    (ie_udp_free e) (ie_ID e) (ie_tun e) (ie_mtu e) (ie_listen e) busy_setup (ie_InterfaceName e) (ie_NewOSConfigurator e) (ie_ToFQDN e)
    (ie_dev e) (ie_known e) (ie_peers e) (ie_dns1 e) (ie_dns2 e).
Definition busy_start : Start := mkStart (Ok (conf_with ∅)) busy_env empty_world.
Definition good_start : Start := mkStart (Ok (conf_with ∅)) (start_env (Some [7; 8])) empty_world.
Definition map_order (t : Tunnel) : list vploc := (map_to_list (peerIDToPeer t)).*2.

Lemma map_order_visits t : visits t (map_order t).
Proof. unfold visits, map_order; reflexivity. Defined.
Lemma busy_env_order : env_order busy_env.
Proof. intros bc t1 [= <-]. vm_compute. reflexivity. Defined.
Lemma start_env_order g : env_order (start_env g).
Proof. intros bc t1 [= <-]. vm_compute. reflexivity. Defined.

Definition phone : Mobile := mkMobile None "/data".

Lemma phone_start_stop_witness :
  (∃ m m', Mobile_StartServer map_order good_start phone = (Ok tt, m) ∧ Mobile_StopServer map_order m = Ok m' ∧ globalApp m' = None) ∧
  ∃ e m, Mobile_StartServer map_order busy_start phone = (Fail e, m) ∧ Mobile_StopServer map_order m = Panic.
Proof.
  split.
  - destruct (Mobile_StartServer map_order good_start phone) as [r m] eqn:E.
    assert (r = Ok tt) as -> by (vm_compute in E; congruence).
    destruct (phone_start_stop map_order map_order_visits good_start phone (Ok tt) m []) as (_ & Hok & _);
      [exact empty_world_owns|apply start_env_order|exact E|].
    destruct (Hok eq_refl) as (m' & Hm & Hn). by exists m, m'.
  - destruct (Mobile_StartServer map_order busy_start phone) as [r m] eqn:E.
    destruct (phone_start_stop map_order map_order_visits busy_start phone r m []) as (_ & _ & Hfail);
      [exact empty_world_owns|exact busy_env_order|exact E|].
    destruct (start_app busy_start) as [r0 app] eqn:Es. vm_compute in Es. injection Es as <- <-.
    destruct (Hfail _ _ eq_refl) as [_ Hmiss].
    eexists _, m. split; [vm_compute in E; injection E as <- _; reflexivity|].
    apply Hmiss. right. eexists. split; reflexivity.
Defined.
