(* ===== verification/Tray.v ===== *)
(** * The tray program (src/cmd/awl-tray/tray.go, main.go, dialogs.go)

    The tray menu as a state machine: the application it holds, the menus, the lists it
    showed last, and one function per click or callback. The menu library, dialogs and
    the browser are outputs or inputs. A [Panic] of an event is a crash of the program:
    it happens in a goroutine nothing recovers. *)

From S2P Require Import Prelude GoStrings GoNet GoHostPort Externals Config NetworkAddr AwlDns ConfigDefaults.
From Stdlib Require Import Ascii.
From S2P Require Import Protocol Packet Device Tunnel AuthStatus Socks5 P2p Api ApiServer Update Application Programs.
Local Open Scope Z_scope.

(** ** State *)

(** A menu item: its title and whether it can be clicked. *)
Record MenuItem := mkMenuItem { mi_title : string; mi_enabled : bool }.

(** The items whose title or state changes. *)
Record Menus := mkMenus {
  statusMenu : MenuItem;
  peersCountMenu : MenuItem;
  openBrowserMenu : MenuItem;
  peersMenu : MenuItem;
  proxyMenu : MenuItem;
  startStopMenu : MenuItem;
  restartMenu : MenuItem;
  updateMenu : MenuItem;
}.

Definition set_title (s : string) (m : MenuItem) : MenuItem := mkMenuItem s (mi_enabled m).
Definition Enable (m : MenuItem) : MenuItem := mkMenuItem (mi_title m) true.
Definition Disable (m : MenuItem) : MenuItem := mkMenuItem (mi_title m) false.

(** The submenu of peers, with the lists it was made from. *)
Record PeersSub := mkPeersSub {
  peersSubmenus : list MenuItem;
  previousOnlinePeers : list string;
  previousOfflinePeers : list string;
}.

(** The submenu of proxies: each item keeps the peer it selects. *)
Record ProxyItem := mkProxyItem { px_proxy : AvailableProxy; px_checked : bool }.
Record ProxySub := mkProxySub {
  proxySubmenus : list ProxyItem;
  previousProxies : list AvailableProxy;
  previousProxyPeerID : string;
}.

(** Dialogs and notifications, and how a question ends (package zenity). *)
Inductive dialog :=
  | ErrorDialog (title message : string)
  | InfoDialog (title message : string)
  | QuestionDialog (title message okLabel : string)
  | Notification (title message : string).
Inductive zenity_result := Confirmed | Canceled | DialogFailed (err : string).

Definition updateMenuLabel : string := "Check for updates".
Definition nl : string := String.String (ascii_of_nat 10) "".
Definition quote : string := String.String (ascii_of_nat 34) "".

Global Instance AvailableProxy_eq_dec : EqDecision AvailableProxy.
Proof. solve_decision. Defined.

Section tray.
Context `{Multiaddrs} `{!MaddrParts} `{PeerCodec} `{Base58} `{DnsLib}.
(** The orders of the loops over the peers of a tunnel and over the known peers. *)
Context (order : Tunnel → list vploc) (known_order : gmap string KnownPeer → list (string * KnownPeer)).

Record Tray := mkTray {
  tr_app : option AppRef;
  tr_menus : Menus;
  tr_peers : PeersSub;
  tr_proxy : ProxySub;
  tr_dialogs : list dialog;
  tr_quit : bool;
}.

Definition with_app (t : Tray) (app : option AppRef) : Tray :=
  mkTray app (tr_menus t) (tr_peers t) (tr_proxy t) (tr_dialogs t) (tr_quit t).
Definition with_menus (t : Tray) (m : Menus) : Tray :=
  mkTray (tr_app t) m (tr_peers t) (tr_proxy t) (tr_dialogs t) (tr_quit t).
Definition with_peers_sub (t : Tray) (p : PeersSub) : Tray :=
  mkTray (tr_app t) (tr_menus t) p (tr_proxy t) (tr_dialogs t) (tr_quit t).
Definition with_proxy_sub (t : Tray) (p : ProxySub) : Tray :=
  mkTray (tr_app t) (tr_menus t) (tr_peers t) p (tr_dialogs t) (tr_quit t).
Definition show (d : dialog) (t : Tray) : Tray :=
  mkTray (tr_app t) (tr_menus t) (tr_peers t) (tr_proxy t) (tr_dialogs t ++ [d]) (tr_quit t).
Definition quit (t : Tray) : Tray :=
  mkTray (tr_app t) (tr_menus t) (tr_peers t) (tr_proxy t) (tr_dialogs t) true.

(** The result of a step with the state it leaves, a panic included. *)
Definition acted : Type := outcome unit * Tray.
Definition andThen (r : acted) (k : Tray → acted) : acted := match r with (Ok _, t) => k t | r => r end.

(** [handleErrorWithDialog]. *)
Definition handleErrorWithDialog (err : option string) (t : Tray) : Tray :=
  match err with None => t | Some e => show (ErrorDialog "Anywherelan error" e) t end.

(** ** Menus (tray.go) *)

(** [setPeersConnectedCounter]. *)
Definition peers_title (peers : nat) : string := "Peers connected: " +:+ Itoa peers.
Definition setPeersConnectedCounter (peers : nat) (m : Menus) : Menus :=
  mkMenus (statusMenu m) (set_title (peers_title peers) (peersCountMenu m)) (openBrowserMenu m) (peersMenu m) (proxyMenu m)
    (startStopMenu m) (restartMenu m) (updateMenu m).

Definition menus_started (m : Menus) : Menus :=
  let m := mkMenus (set_title "Status: running" (statusMenu m)) (peersCountMenu m) (Enable (openBrowserMenu m)) (Enable (peersMenu m))
             (Enable (proxyMenu m)) (set_title "Stop server" (startStopMenu m)) (Enable (restartMenu m)) (updateMenu m) in
  setPeersConnectedCounter 0 m.

(** [refreshMenusOnStoppedServer]. *)
Definition menus_stopped (m : Menus) : Menus :=
  let m := mkMenus (set_title "Status: stopped" (statusMenu m)) (peersCountMenu m) (Disable (openBrowserMenu m)) (Disable (peersMenu m))
             (Disable (proxyMenu m)) (set_title "Start server" (startStopMenu m)) (Disable (restartMenu m)) (updateMenu m) in
  setPeersConnectedCounter 0 m.
Definition refreshMenusOnStoppedServer (t : Tray) : Tray := with_menus t (menus_stopped (tr_menus t)).

(** The menus [initTray] adds. *)
Definition initial_menus : Menus :=
  menus_stopped (mkMenus (mkMenuItem "" false) (mkMenuItem "" false) (mkMenuItem "Open Web UI" true) (mkMenuItem "Peers" true)
    (mkMenuItem "Proxy" true) (mkMenuItem "" true) (mkMenuItem "Restart server" true) (mkMenuItem updateMenuLabel true)).
Definition initTray : Tray := mkTray None initial_menus (mkPeersSub [] [] []) (mkProxySub [] [] "") [] false.

(** [app.P2p.IsConnected] for the peers of a loop: the host is dereferenced. *)
Definition connected_peers (h : Host) (a : Application) (known : list KnownPeer) : outcome (list (KnownPeer * bool)) :=
  match app_host a, known with
  | None, _ :: _ => Panic
  | _, _ => Ok ((λ kp, (kp, IsConnected h (PeerId kp))) <$> known)
  end.

(** The known peers in the order of a loop. *)
Definition known_peers (a : Application) : list KnownPeer := (known_order (KnownPeers (app_conf a))).*2.

(** The application a step dereferences. *)
Definition the_app (t : Tray) : option Application := match tr_app t with Some (Ready a) => Some a | _ => None end.

(** [refreshPeersCounterOnPeersConnectionChanged]. *)
Definition refreshPeersCounter (h : Host) (peerID : option string) (t : Tray) : acted :=
  match the_app t with
  | None => (Panic, t)
  | Some a =>
      let unknown := match peerID with None => false | Some id => negb (GetPeer id (app_conf a)).2 end in
      if unknown then (Ok tt, t)
      else match connected_peers h a (known_peers a) with
           | Ok l => (Ok tt, with_menus t (setPeersConnectedCounter (length (filter (λ x, x.2 = true) l)) (tr_menus t)))
           | _ => (Panic, t)
           end
  end.

(** The name of a peer in the menu. *)
Definition peer_label (kp : KnownPeer) : string := let name := DisplayName kp in if decide (name = "") then kp_PeerID kp else name.

(** The items of the submenu of peers. *)
Definition peer_items (online offline : list string) : list MenuItem :=
  let names l := (λ n, mkMenuItem n false) <$> l in
  mkMenuItem "Online peers:" true :: names online ++ [mkMenuItem "_______________" false; mkMenuItem "Offline peers:" true] ++ names offline.

(** The sorted labels of the online and the offline peers. *)
Definition labels (online : bool) (l : list (KnownPeer * bool)) : list string :=
  sort_Strings (peer_label <$> (filter (λ x, x.2 = online) l).*1).

(** [refreshPeersSubmenus]. *)
Definition refreshPeersSubmenus (h : Host) (t : Tray) : acted :=
  match the_app t with
  | None => (Panic, t)
  | Some a =>
      match connected_peers h a (known_peers a) with
      | Ok l =>
          let onlinePeers := labels true l in
          let offlinePeers := labels false l in
          let p := tr_peers t in
          if decide (previousOnlinePeers p = onlinePeers ∧ previousOfflinePeers p = offlinePeers) then (Ok tt, t)
          else (Ok tt, with_peers_sub t (mkPeersSub (peer_items onlinePeers offlinePeers) onlinePeers offlinePeers))
      | _ => (Panic, t)
      end
  end.

(** [refreshProxySubmenus]; the host is dereferenced for a peer that allows its use. *)
Definition refreshProxySubmenus (h : Host) (t : Tray) : acted :=
  match tr_app t with
  | None => (Ok tt, t)
  | Some Bare => (Panic, t)
  | Some (Ready a) =>
      let currentProxy := UsingPeerID (SOCKS5 (app_conf a)) in
      match connected_peers h a (filter (λ kp, kp_AllowedUsingAsExitNode kp = true) (known_peers a)) with
      | Ok _ =>
          let proxies := ListAvailableProxies (IsConnected h) (known_peers a) in
          let p := tr_proxy t in
          if decide (previousProxies p = proxies ∧ previousProxyPeerID p = currentProxy) then (Ok tt, t)
          else (Ok tt, with_proxy_sub t (mkProxySub
                  ((λ proxy, mkProxyItem proxy (bool_decide (av_PeerID proxy = currentProxy))) <$> proxies) proxies currentProxy))
      | _ => (Panic, t)
      end
  end.

(** [refreshMenusOnStartedServer]. *)
Definition refreshMenusOnStartedServer (h : Host) (t : Tray) : acted :=
  andThen (refreshPeersSubmenus h (with_menus t (menus_started (tr_menus t)))) (refreshProxySubmenus h).

(** A click on the item [n] of the proxies: the peer is selected, this item checked and
    the others unchecked. *)
Definition onClickProxy (n : nat) (t : Tray) : acted :=
  match proxySubmenus (tr_proxy t) !! n with
  | None => (Ok tt, t)
  | Some item =>
      match the_app t with
      | None => (Panic, t)
      | Some a =>
          let auth := app_auth a in
          let a := with_auth a (with_store auth (SetProxyPeerID (av_PeerID (px_proxy item)) (a_store auth))) in
          let p := tr_proxy t in
          let items := imap (λ i it, mkProxyItem (px_proxy it) (bool_decide (i = n))) (proxySubmenus p) in
          (Ok tt, with_proxy_sub (with_app t (Some (Ready a))) (mkProxySub items (previousProxies p) (previousProxyPeerID p)))
      end
  end.

(** ** The server (main.go) *)

(** [StopServer]: a panic of [Close] is recovered before the variable is cleared; the
    menus are refreshed in any case. *)
Definition StopServer (t : Tray) : Tray :=
  refreshMenusOnStoppedServer
    match tr_app t with
    | None => t
    | Some app => match close_ref order app with
                  | (Panic, app) => with_app t (Some app)
                  | (_, _) => with_app t None
                  end
    end.

(** The body of [InitServer], up to its return or panic. *)
Definition InitServer_body (i : Start) (h : Host) (t : Tray) : acted :=
  let '(r, app) := start_app i in
  let t := with_app t (Some app) in
  match r, app with
  | Ok _, Ready a =>
      match handler ← or_panic (app_api a); SetupFrontend handler with
      | Ok handler =>
          let t := with_app t (Some (Ready (with_api a handler))) in
          andThen (refreshMenusOnStartedServer h t) (refreshPeersCounter h None)
      | _ => (Panic, t)
      end
  | Fail err, Ready _ => (Fail ("failed to start server: " +:+ err), t)
  | _, _ => (Panic, t)
  end.

(** [InitServer]: its deferred function recovers a panic of the body and closes what was
    started; a panic of that [Close] is not recovered. *)
Definition InitServer (i : Start) (h : Host) (t : Tray) : acted :=
  let '(r, t) := InitServer_body i h t in
  match r with
  | Ok _ => (Ok tt, t)
  | _ =>
      let err := match r with Fail e => e | _ => "recovered panic from starting app" end in
      match tr_app t with
      | None => (Fail err, t)
      | Some app => match close_ref order app with
                    | (Panic, app) => (Panic, with_app t (Some app))
                    | (_, _) => (Fail err, with_app t None)
                    end
      end
  end.

(** [InitServer] with [handleErrorWithDialog] on its error, as every caller uses it. *)
Definition start_with_dialog (i : Start) (h : Host) (t : Tray) : outcome Tray :=
  match InitServer i h t with
  | (Ok _, t) => Ok t
  | (Fail e, t) => Ok (handleErrorWithDialog (Some e) t)
  | (Panic, _) => Panic
  end.


(** [getConfig]: the running application's configuration, or the one on disk. *)
Definition getConfig (load : outcome Config) (t : Tray) : outcome Config :=
  match tr_app t with
  | None => load
  | Some Bare => Panic
  | Some (Ready a) => Ok (app_conf a)
  end.

(** [onReady]: the tray, and whether the automatic check runs. *)
Definition onReady (i : Start) (h : Host) (load : outcome Config) (devVersion : bool) (ParseDuration : string → option Z)
    : outcome (Tray * auto_check) :=
  t ← start_with_dialog i h initTray;
  match getConfig load t with
  | Ok conf => Ok (t, start_auto_check devVersion ParseDuration (Update conf))
  | Fail _ => Ok (t, NoCheck)
  | Panic => Panic
  end.

(** ** The other clicks *)

(** [showQuestionDialog]: only the answer "cancel" counts as no; a dialog that cannot be
    shown is logged. *)
Definition showQuestionDialog (title message okLabel : string) (r : zenity_result) (t : Tray) : bool * Tray :=
  (match r with Canceled => false | Confirmed | DialogFailed _ => true end, show (QuestionDialog title message okLabel) t).

(** [onClickEditRawConfig]: [answer] is the end of the question, [open_error] that of the
    editor. *)
Definition stop_question : zenity_result → Tray → bool * Tray :=
  showQuestionDialog "Anywherelan"
    ("Server is currently running." +:+ nl +:+ "You need to stop the server before editing the config," +:+ nl +:+
     "otherwise your changes will be overwritten." +:+ nl +:+ nl +:+ "Stop the server now?") "Stop server".
Definition onClickEditRawConfig (answer : zenity_result) (configPath : string) (open_error : option string) (t : Tray) : Tray :=
  let edit t := match open_error with
                | None => t
                | Some e => show (ErrorDialog "Anywherelan error" ("Failed to open config file " +:+ configPath +:+ ": " +:+ e)) t
                end in
  match tr_app t with
  | None => edit t
  | Some _ => let '(ok, t) := stop_question answer t in if negb ok then t else edit (StopServer t)
  end.

(** What one check for updates meets: the version of the program, the configuration on
    disk, the service made from a configuration, its verdict with the tag and the name of
    the new version, the end of the question, and the ends of the download and of the clean-up. *)
Record UpdateRun := mkUpdateRun {
  ur_Version : string;
  ur_load : outcome Config;
  ur_service : Config → outcome UpdateService;
  ur_check : UpdateService → outcome (option (string * string));
  ur_answer : zenity_result;
  ur_download : outcome unit;
  ur_cleanup : outcome unit;
}.

Definition set_updateMenu (i : MenuItem) (t : Tray) : Tray :=
  let m := tr_menus t in
  with_menus t (mkMenus (statusMenu m) (peersCountMenu m) (openBrowserMenu m) (peersMenu m) (proxyMenu m) (startStopMenu m) (restartMenu m) i).

(** The checks of [onClickUpdateMenu] up to the dialogs. *)
Definition check_update (u : UpdateRun) (t : Tray) : outcome (option (string * string)) :=
  conf ← wrap_error "update: read config: " (getConfig (ur_load u) t);
  service ← wrap_error "update: create update service: " (ur_service u conf);
  wrap_error "update: check for updates: " (ur_check u service).

Definition update_question (tag name Version : string) (running : bool) : zenity_result → Tray → bool * Tray :=
  showQuestionDialog "Anywherelan new version available"
    ("New version available!" +:+ nl +:+ "Available version " +:+ tag +:+ ": " +:+ name +:+ "." +:+ nl +:+
     "Current version " +:+ Version +:+ "." +:+ nl +:+ nl +:+ "Do you want to continue?" +:+
     (if running then " Server will be stopped!" else "")) "Do Update".

(** [onClickUpdateMenu] between the two changes of its menu. *)
Definition run_update (u : UpdateRun) (t : Tray) : acted :=
  match check_update u t with
  | Fail e => (Fail e, t)
  | Panic => (Panic, t)
  | Ok None => (Ok tt, show (InfoDialog "Anywherelan app is up-to-date" "App is already up-to-date") t)
  | Ok (Some (tag, name)) =>
      let '(ok, t) := update_question tag name (ur_Version u) (bool_decide (is_Some (tr_app t))) (ur_answer u) t in
      if negb ok then (Ok tt, t)
      else match wrap_error "update: updating process: " (ur_download u) with
           | Ok _ => let t := StopServer t in (ur_cleanup u, t)
           | r => (r, t)
           end
  end.

(** [onClickUpdateMenu] with the dialog of its caller; the menu is reset in any case. *)
Definition onClickUpdateMenu (u : UpdateRun) (t : Tray) : outcome Tray :=
  let t := set_updateMenu (mkMenuItem "Checking..." false) t in
  let '(r, t) := run_update u t in
  let t := set_updateMenu (mkMenuItem updateMenuLabel true) t in
  match r with
  | Ok _ => Ok t
  | Fail e => Ok (handleErrorWithDialog (Some e) t)
  | Panic => Panic
  end.

(** [checkForUpdatesWithDesktopNotification]: errors are logged. *)
Definition checkForUpdatesWithDesktopNotification (u : UpdateRun) (t : Tray) : outcome Tray :=
  match check_update u t with
  | Ok (Some (tag, name)) =>
      Ok (show (Notification "Anywherelan: new version available!"
                  ("Version " +:+ tag +:+ ": " +:+ name +:+ " available for installation!" +:+ nl +:+ "Use tray menu option " +:+
                   quote +:+ updateMenuLabel +:+ quote +:+ nl)) t)
  | Ok None | Fail _ => Ok t
  | Panic => Panic
  end.

(** The callback of [subscribeToNotifications]. *)
Definition notify_auth_request (name peerID : string) (t : Tray) : Tray :=
  show (Notification (if decide (name = "") then "Anywherelan: incoming friend request" else "Anywherelan: friend request from " +:+ name)
          ("PeerID: " +:+ nl +:+ peerID)) t.

(** [checkURL]: the page answers and its first 8192 bytes, the rest of the buffer being
    zeros, name the program. *)
Definition contains (needle l : bytes) : bool :=
  existsb (λ n, bool_decide (take (length needle) (drop n l) = needle)) (seq 0 (S (length l))).
Definition url_buf : nat := Z.to_nat 8192.
Definition checkURL (resp : option (Z * bytes)) : bool :=
  match resp with
  | None => false
  | Some (StatusCode, body) =>
      bool_decide (StatusCode = 200) &&
      contains (str_bytes "Anywherelan") (take url_buf body ++ replicate (url_buf - length (take url_buf body)) 0)
  end.

(** [openWebGUI]: the page that is opened; [admin] is the answer of the admin page. *)
Definition openWebGUI (admin : option (Z * bytes)) (a : Application) : outcome string :=
  if checkURL admin then Ok ("http://" +:+ AdminHttpServerDomainName +:+ "." +:+ LocalDomain)
  else handler ← or_panic (app_api a); address ← Address handler; Ok ("http://" +:+ address).

(** ** Events *)

Inductive tray_event :=
  | ClickOpenBrowser (admin : option (Z * bytes))
  | ClickPeers (h : Host)
  | TrayOpened (h : Host)
  | ClickProxy (n : nat)
  | ClickStartStop (i : Start) (h : Host)
  | ClickRestart (i : Start) (h : Host)
  | ClickUpdate (u : UpdateRun)
  | ClickEditConfig (answer : zenity_result) (configPath : string) (open_error : option string)
  | ConnectionChanged (h : Host) (peerID : string)
  | DaemonRuns (a : Application)             (* the daemon reaches the state [a] *)
  | AutoCheck (u : UpdateRun)                (* a tick of the automatic check *)
  | AuthRequestReceived (name peerID : string)
  | ClickQuit.                               (* or an exit signal; then [onExit] *)

Definition finish (r : acted) : outcome Tray := match r with (Ok _, t) => Ok t | _ => Panic end.

Definition tray_step (e : tray_event) (t : Tray) : outcome Tray :=
  match e with
  | ClickOpenBrowser admin =>
      match tr_app t with
      | None => Ok t
      | Some Bare => Panic
      | Some (Ready a) => _ ← openWebGUI admin a; Ok t
      end
  | ClickPeers h => finish (refreshPeersSubmenus h t)
  | TrayOpened h =>
      match tr_app t with
      | None => Ok t
      | Some _ => finish (andThen (refreshPeersSubmenus h t) (refreshProxySubmenus h))
      end
  | ClickProxy n => finish (onClickProxy n t)
  | ClickStartStop i h => match tr_app t with Some _ => Ok (StopServer t) | None => start_with_dialog i h t end
  | ClickRestart i h => start_with_dialog i h (StopServer t)
  | ClickUpdate u => onClickUpdateMenu u t
  | ClickEditConfig answer path err => Ok (onClickEditRawConfig answer path err t)
  | ConnectionChanged h peerID => finish (refreshPeersCounter h (Some peerID) t)
  | DaemonRuns a => match tr_app t with Some (Ready _) => Ok (with_app t (Some (Ready a))) | _ => Ok t end
  | AutoCheck u => checkForUpdatesWithDesktopNotification u t
  | AuthRequestReceived name peerID => Ok (notify_auth_request name peerID t)
  | ClickQuit => Ok (quit (StopServer t))
  end.
End tray.

(** ** Facts *)

Section facts.
Context `{Multiaddrs} `{!MaddrParts} `{PeerCodec} `{Base58} `{DnsLib}.
Context (order : Tunnel → list vploc) (order_visits : ∀ t, visits t (order t)).
Context (known_order : gmap string KnownPeer → list (string * KnownPeer)).

(** A running application: its packets are well formed, its host and web server exist,
    and the server listens on a host and a port. *)
Definition app_ok (a : Application) : Prop :=
  packets_ok a ∧ is_Some (app_host a) ∧
  ∃ hd e hp, app_api a = Some hd ∧ h_echo hd = Some e ∧ SplitHostPort (e_listener e) = Ok hp.

(** The menus of a running and of a stopped server. *)
Definition running_menus (m : Menus) : Prop :=
  mi_title (statusMenu m) = "Status: running" ∧ mi_title (startStopMenu m) = "Stop server" ∧
  mi_enabled (openBrowserMenu m) = true ∧ mi_enabled (peersMenu m) = true ∧ mi_enabled (proxyMenu m) = true ∧
  mi_enabled (restartMenu m) = true.
Definition stopped_menus (m : Menus) : Prop :=
  mi_title (statusMenu m) = "Status: stopped" ∧ mi_title (startStopMenu m) = "Start server" ∧
  mi_title (peersCountMenu m) = peers_title 0 ∧
  mi_enabled (openBrowserMenu m) = false ∧ mi_enabled (peersMenu m) = false ∧ mi_enabled (proxyMenu m) = false ∧
  mi_enabled (restartMenu m) = false.

(** What the submenus show is what the program remembers to have shown. *)
Definition subs_ok (t : Tray) : Prop :=
  (tr_peers t = mkPeersSub [] [] [] ∨
   peersSubmenus (tr_peers t) = peer_items (previousOnlinePeers (tr_peers t)) (previousOfflinePeers (tr_peers t))) ∧
  px_proxy <$> proxySubmenus (tr_proxy t) = previousProxies (tr_proxy t).

Definition tray_ok (t : Tray) : Prop :=
  match tr_app t with
  | None => stopped_menus (tr_menus t)
  | Some Bare => False
  | Some (Ready a) => app_ok a ∧ running_menus (tr_menus t)
  end ∧ subs_ok t.

(** What a start is given: packets that are owned, orders of its loops, and addresses of
    listeners that split. *)
Definition start_ok (i : Start) : Prop :=
  (∃ used, owns (st_world i) used) ∧ env_order (st_env i) ∧
  ∀ address l, Listen (ie_api (st_env i)) address = Some l → ∃ hp, SplitHostPort l = Ok hp.

(** A start that fails without a configuration, or without the host or the web server. *)
Definition crashing (i : Start) : Prop :=
  match start_app i with (r, Ready a) => r ≠ Ok tt ∧ missing_part a | (_, Bare) => True end.

Lemma app_ok_closable a : app_ok a → closable a.
Proof. intros (_ & Hh & hd & e & hp & Ha & He & _). split; [|done]. intros h. rewrite Ha. intros [= <-]. by rewrite He. Qed.

Lemma StopServer_ok t : tray_ok t → tray_ok (StopServer order t) ∧ tr_app (StopServer order t) = None.
Proof.
  intros [Hm Hs]. unfold StopServer. destruct (tr_app t) as [[|a]|] eqn:Ea; [done| |].
  - destruct Hm as [Ha _]. pose proof (Close_panics order order_visits a (proj1 Ha)) as Hc. cbn [close_ref].
    destruct (Close _ a) as [r a']. simpl in Hc. destruct r as [[]|e|]; [|done|by destruct Hc; apply app_ok_closable]. done.
  - split; [|done]. unfold tray_ok. simpl. rewrite Ea. done.
Qed.

Lemma connected_peers_ok h a l : app_ok a → connected_peers h a l = Ok ((λ kp, (kp, IsConnected h (PeerId kp))) <$> l).
Proof. intros (_ & [host Hh] & _). unfold connected_peers. by rewrite Hh. Qed.

(** The refreshes of a running application do not panic and keep the invariant. *)
Lemma refresh_peers_sub_ok h t a : tr_app t = Some (Ready a) → app_ok a → subs_ok t →
  ∃ t', refreshPeersSubmenus known_order h t = (Ok tt, t') ∧ tr_app t' = tr_app t ∧ tr_menus t' = tr_menus t ∧ subs_ok t'.
Proof.
  intros Ht Ha [Hp Hx]. unfold refreshPeersSubmenus, the_app. rewrite Ht, connected_peers_ok by done.
  case_decide; [by exists t|]. eexists. split; [reflexivity|]. split_and!; [done|done|]. split; [by right|done].
Qed.

Lemma refresh_proxy_sub_ok h t a : tr_app t = Some (Ready a) → app_ok a → subs_ok t →
  ∃ t', refreshProxySubmenus known_order h t = (Ok tt, t') ∧ tr_app t' = tr_app t ∧ tr_menus t' = tr_menus t ∧ subs_ok t'.
Proof.
  intros Ht Ha [Hp Hx]. unfold refreshProxySubmenus. rewrite Ht, connected_peers_ok by done.
  case_decide; [by exists t|]. eexists. split; [reflexivity|]. split_and!; [done|done|]. split; [done|]. simpl.
  rewrite <- list_fmap_compose. etrans; [|apply list_fmap_id]. by apply list_fmap_ext.
Qed.

Lemma refresh_counter_ok h id t a : tr_app t = Some (Ready a) → app_ok a → running_menus (tr_menus t) →
  ∃ t', refreshPeersCounter known_order h id t = (Ok tt, t') ∧ tr_app t' = tr_app t ∧ running_menus (tr_menus t') ∧
    tr_peers t' = tr_peers t ∧ tr_proxy t' = tr_proxy t.
Proof.
  intros Ht Ha Hm. unfold refreshPeersCounter, the_app. rewrite Ht, connected_peers_ok by done.
  destruct (match id with None => false | Some id => _ end); [by exists t|]. eexists. split; [reflexivity|]. done.
Qed.

(** What a start leaves. *)
Lemma start_app_parts i : start_ok i →
  (∃ r, r ≠ Ok tt ∧ start_app i = (r, Bare)) ∨
  ∃ r a, start_app i = (r, Ready a) ∧ packets_ok a ∧ (¬ closable a ↔ missing_part a) ∧ (r = Ok tt → app_ok a).
Proof.
  intros ([used Hw] & Ho & Hl). unfold start_app. destruct (st_conf i) as [c|e|]; [right|left; eexists; (split; [|reflexivity]); done..].
  destruct (Init _ _) as [r a] eqn:E. exists r, a.
  pose proof (Init_packets _ _ _ _ _ used E Hw Ho) as Hp. split_and!; [done|done|by eapply Init_missing|]. intros ->.
  split; [done|]. split; [apply Init_closable in E as Hcl; destruct Hcl as [_ Hh]; apply Hh; by apply Init_parts in E as [? _]|].
  apply Init_api in E as (c' & hd & Hs & Ha). apply SetupAPI_listener in Hs as (e & address & He & Hli).
  destruct (Hl _ _ Hli) as [hp Hhp]. by exists hd, e, hp.
Qed.

(** A started application with the frontend, its menus refreshed. *)
Lemma started_ok i h t a : tray_ok t → start_app i = (Ok tt, Ready a) → app_ok a →
  ∃ t', InitServer order known_order i h t = (Ok tt, t') ∧ tray_ok t'.
Proof.
  intros [_ Hs] E Ha. unfold InitServer, InitServer_body. rewrite E.
  pose proof Ha as (Hp & Hh & hd & e & hp & Hapi & He & Hhp). rewrite Hapi. cbn [or_panic mbind outcome_bind].
  unfold SetupFrontend. rewrite He. cbn [or_panic mbind outcome_bind]. set (hd' := mkHandler _ _).
  assert (app_ok (with_api a hd')) as Ha' by (split; [done|]; split; [done|]; eexists hd', _, hp; done).
  set (t0 := with_menus (with_app (with_app t (Some (Ready a))) (Some (Ready (with_api a hd')))) (menus_started (tr_menus t))).
  unfold refreshMenusOnStartedServer.
  destruct (refresh_peers_sub_ok h t0 (with_api a hd') eq_refl Ha' Hs) as (t1 & E1 & Ht1 & Hm1 & Hs1).
  unfold t0 in E1. cbn [tr_menus with_app] in *. rewrite E1. cbn [andThen].
  destruct (refresh_proxy_sub_ok h t1 (with_api a hd') Ht1 Ha' Hs1) as (t2 & E2 & Ht2 & Hm2 & Hs2). rewrite E2. cbn [andThen].
  assert (running_menus (tr_menus t2)) as Hm by (rewrite Hm2, Hm1; done).
  destruct (refresh_counter_ok h None t2 (with_api a hd')) as (t3 & E3 & Ht3 & Hm3 & Hp3 & Hx3); [by rewrite Ht2, Ht1|done|done|].
  rewrite E3. exists t3. split; [done|]. unfold tray_ok, subs_ok. rewrite Ht3, Ht2, Ht1, Hp3, Hx3. done.
Qed.

Lemma start_with_dialog_ok i h t : tray_ok t → tr_app t = None → start_ok i →
  (¬ crashing i ∧ ∃ t', start_with_dialog order known_order i h t = Ok t' ∧ tray_ok t') ∨
  (crashing i ∧ start_with_dialog order known_order i h t = Panic).
Proof.
  intros Ht Hn Hi. unfold start_with_dialog, crashing.
  destruct (start_app_parts i Hi) as [(r & Hr & E)|(r & a & E & Hp & Hmiss & Hok)]; rewrite E.
  { right. split; [done|]. unfold InitServer, InitServer_body. rewrite E. by destruct r as [[]|e|]. }
  assert (r = Ok tt ∨ r ≠ Ok tt) as [->|Hr] by (destruct r as [[]|?|]; auto).
  { left. split; [by intros [? _]|].
    destruct (started_ok i h t a Ht E (Hok eq_refl)) as (t' & -> & Ht'). by exists t'. }
  pose proof (Close_panics order order_visits a Hp) as Hc.
  assert (∃ err, InitServer order known_order i h t =
    match close_ref order (Ready a) with
    | (Panic, app) => (Panic, with_app (with_app t (Some (Ready a))) (Some app))
    | (_, _) => (Fail err, with_app (with_app t (Some (Ready a))) None)
    end) as [err ->].
  { unfold InitServer, InitServer_body. rewrite E. by destruct r as [[]|e|]; [|eexists..]. }
  cbn [close_ref]. destruct (Close _ a) as [rc a']. simpl in Hc. destruct rc as [[]|e|]; [|done|].
  - left. split; [intros [_ Hm]; by apply Hmiss in Hm|].
    eexists. split; [reflexivity|]. destruct Ht as [Hm Hs]. rewrite Hn in Hm. by split.
  - right. split; [|done]. split; [done|by apply Hmiss].
Qed.

(** What can happen in a state: clicks on items that are enabled, and callbacks at any
    time, those of a connection that is closed with the server included; a start is given
    what it needs, the daemon stays well formed, and checking for updates does not panic
    by itself. *)
Definition enabled (e : tray_event) (t : Tray) : Prop :=
  match e with
  | ClickOpenBrowser _ => mi_enabled (openBrowserMenu (tr_menus t)) = true
  | ClickPeers _ => mi_enabled (peersMenu (tr_menus t)) = true
  | ClickProxy _ => mi_enabled (proxyMenu (tr_menus t)) = true
  | ClickStartStop i _ => start_ok i
  | ClickRestart i _ => mi_enabled (restartMenu (tr_menus t)) = true ∧ start_ok i
  | ClickUpdate u | AutoCheck u => ur_load u ≠ Panic ∧ (∀ c, ur_service u c ≠ Panic) ∧ (∀ s, ur_check u s ≠ Panic) ∧ ur_download u ≠ Panic ∧ ur_cleanup u ≠ Panic
  | DaemonRuns a => app_ok a
  | ConnectionChanged _ _ | TrayOpened _ | ClickEditConfig _ _ _ | AuthRequestReceived _ _ | ClickQuit => True
  end.

(** The start an event attempts. *)
Definition attempted (e : tray_event) (t : Tray) : option Start :=
  match e with
  | ClickStartStop i _ => match tr_app t with None => Some i | Some _ => None end
  | ClickRestart i _ => Some i
  | _ => None
  end.

(** The events that crash the program: a crashing start, and a callback of a connection
    after the server was stopped. *)
Definition crashes (e : tray_event) (t : Tray) : Prop :=
  (∃ i, attempted e t = Some i ∧ crashing i) ∨
  match e with ConnectionChanged _ _ => tr_app t = None | _ => False end.

Lemma running_app t : tray_ok t →
  mi_enabled (openBrowserMenu (tr_menus t)) = true ∨ mi_enabled (peersMenu (tr_menus t)) = true ∨
  mi_enabled (proxyMenu (tr_menus t)) = true ∨ mi_enabled (restartMenu (tr_menus t)) = true ∨ is_Some (tr_app t) →
  ∃ a, tr_app t = Some (Ready a) ∧ app_ok a ∧ running_menus (tr_menus t).
Proof.
  intros [Hm _]. destruct (tr_app t) as [[|a]|]; [done| |].
  - intros _. destruct Hm. by exists a.
  - destruct Hm as (_ & _ & _ & Hd1 & Hd2 & Hd3 & Hd4). intros [?|[?|[?|[?|[? ?]]]]]; congruence.
Qed.

Lemma wrap_error_no_panic {A} p (r : outcome A) : r ≠ Panic → wrap_error p r ≠ Panic.
Proof. by destruct r. Qed.

Lemma check_update_ok u t : tray_ok t → enabled (ClickUpdate u) t → check_update u t ≠ Panic.
Proof.
  intros Ht (Hload & Hservice & Hcheck & _). unfold check_update. assert (getConfig (ur_load u) t ≠ Panic) as Hg
    by (destruct Ht as [Hm _]; unfold getConfig; destruct (tr_app t) as [[|a]|]; done).
  destruct (getConfig _ _) as [c|e|]; cbn; try done. specialize (Hservice c). destruct (ur_service u c) as [sv|e|]; cbn; try done.
  by apply wrap_error_no_panic.
Qed.

Lemma run_update_ok u t : tray_ok t → enabled (ClickUpdate u) t → ∃ r t', run_update order u t = (r, t') ∧ r ≠ Panic ∧ tray_ok t'.
Proof.
  intros Ht He. pose proof (check_update_ok u t Ht He) as Hc. destruct He as (_ & _ & _ & Hdown & Hclean).
  unfold run_update. destruct (check_update u t) as [[[tag name]|]|e|]; [|by eauto..|done].
  unfold update_question, showQuestionDialog. destruct (negb _); [by eauto|].
  destruct (ur_download u) as [[]|e|]; cbn [wrap_error]; [|by eauto|done].
  eexists _, _. split; [reflexivity|]. split; [done|]. apply StopServer_ok. by destruct Ht.
Qed.

Lemma open_browser_ok admin t : tray_ok t → mi_enabled (openBrowserMenu (tr_menus t)) = true →
  tray_step order known_order (ClickOpenBrowser admin) t = Ok t.
Proof.
  intros Ht He. destruct (running_app t Ht) as (a & Ea & (_ & _ & hd & e & hp & Hapi & Hec & Hhp) & _); [auto|].
  cbn [tray_step]. rewrite Ea. unfold openWebGUI. destruct (checkURL admin); [done|]. rewrite Hapi. cbn [or_panic mbind outcome_bind].
  by destruct (Address_Ok hd e hp Hec Hhp) as [address ->].
Qed.

Lemma click_peers_ok h t a : tray_ok t → tr_app t = Some (Ready a) → app_ok a → running_menus (tr_menus t) →
  ∃ t', refreshPeersSubmenus known_order h t = (Ok tt, t') ∧ tray_ok t' ∧ tr_app t' = Some (Ready a) ∧ running_menus (tr_menus t').
Proof.
  intros [_ Hs] Ea Ha Hm. destruct (refresh_peers_sub_ok h t a Ea Ha Hs) as (t' & E & Ht' & Hm' & Hs').
  exists t'. split; [done|]. unfold tray_ok. rewrite Ht', Ea, Hm'. done.
Qed.

Lemma tray_opened_ok h t : tray_ok t → ∃ t', tray_step order known_order (TrayOpened h) t = Ok t' ∧ tray_ok t'.
Proof.
  intros Ht. cbn [tray_step]. destruct (tr_app t) as [app|] eqn:Eapp; [|by exists t].
  destruct (running_app t Ht) as (a & Ea & Ha & Hm); [rewrite Eapp; eauto 6|]. clear Eapp app.
  destruct (click_peers_ok h t a Ht Ea Ha Hm) as (t1 & -> & Ht1 & Ea1 & Hm1). cbn [andThen].
  destruct (refresh_proxy_sub_ok h t1 a Ea1 Ha (proj2 Ht1)) as (t2 & -> & Ht2 & Hm2 & Hs2).
  exists t2. split; [done|]. split; [|done]. by rewrite Ht2, Ea1, Hm2.
Qed.

Lemma click_proxy_ok n t : tray_ok t → mi_enabled (proxyMenu (tr_menus t)) = true →
  ∃ t', tray_step order known_order (ClickProxy n) t = Ok t' ∧ tray_ok t'.
Proof.
  intros Ht He. destruct (running_app t Ht) as (a & Ea & Ha & Hm); [auto|]. cbn [tray_step]. unfold onClickProxy, the_app.
  destruct (proxySubmenus _ !! n); [|by exists t]. rewrite Ea. eexists. split; [reflexivity|].
  destruct Ht as [_ [Hs1 Hs2]]. split; [done|]. split; [done|]. simpl. rewrite <- Hs2, fmap_imap.
  apply list_eq. intros k. rewrite list_lookup_imap, list_lookup_fmap. by destruct (proxySubmenus (tr_proxy t) !! k).
Qed.

Lemma edit_config_ok answer path err t : tray_ok t → tray_ok (onClickEditRawConfig order answer path err t).
Proof.
  intros Ht. unfold onClickEditRawConfig. assert (∀ d t1, tray_ok t1 → tray_ok (show d t1)) as Hshow by by intros d t1 [??].
  destruct (tr_app t) eqn:Ea; [|by destruct err; auto]. unfold stop_question, showQuestionDialog. destruct (negb _); [auto|].
  destruct err; [apply Hshow|]; apply StopServer_ok; auto.
Qed.

(** One step: it crashes, or the menus still follow the server. *)
Lemma tray_step_ok e t : tray_ok t → enabled e t →
  (crashes e t ∧ tray_step order known_order e t = Panic) ∨
  (¬ crashes e t ∧ ∃ t', tray_step order known_order e t = Ok t' ∧ tray_ok t').
Proof.
  intros Ht He. pose proof Ht as [Hm Hs]. unfold crashes.
  assert (∀ t1 i h, tray_ok t1 → tr_app t1 = None → start_ok i →
    (((∃ j, Some i = Some j ∧ crashing j) ∨ False) ∧ start_with_dialog order known_order i h t1 = Panic) ∨
    (¬ ((∃ j, Some i = Some j ∧ crashing j) ∨ False) ∧ ∃ t', start_with_dialog order known_order i h t1 = Ok t' ∧ tray_ok t')) as Hstart.
  { intros t1 i h Ht1 Hn Hi. destruct (start_with_dialog_ok i h t1 Ht1 Hn Hi) as [[Hnc Hok]|[Hc Hp]]; [right|left; eauto].
    split; [by intros [(j & [= <-] & ?)|?]|done]. }
  destruct e as [admin|h|h|n|i h|i h|u|answer path err|h id|a'|u|name id|]; cbn [attempted enabled] in *.
  5: { cbn [tray_step]. destruct (tr_app t) eqn:Ea; [|by apply Hstart]. right. split; [by intros [(? & ? & _)|?]|].
       eexists. split; [done|]. by apply StopServer_ok. }
  5: { destruct He as [_ He]. destruct (StopServer_ok t Ht) as [Ht' Hn]. by apply Hstart. }
  7: { destruct (tr_app t) as [app|] eqn:Eapp; [right|left; split; [by right|]].
       - split; [by intros [(? & ? & _)|?]|].
         destruct (running_app t Ht) as (a & Ea & Ha & Hrm); [rewrite Eapp; eauto 6|]. cbn [tray_step].
         destruct (refresh_counter_ok h (Some id) t a Ea Ha Hrm) as (t' & -> & Ht' & Hm' & Hp' & Hx'). exists t'. split; [done|].
         unfold tray_ok, subs_ok in *. rewrite Ht', Ea, Hp', Hx'. rewrite Eapp in *. simplify_eq. by destruct Hm.
       - cbn [tray_step]. unfold refreshPeersCounter, the_app. by rewrite Eapp. }
  all: right; (split; [by intros [(? & ? & _)|?]|]).
  - exists t. split; [by apply open_browser_ok|done].
  - destruct (running_app t Ht) as (a & Ea & Ha & Hrm); [auto|]. cbn [tray_step].
    destruct (click_peers_ok h t a Ht Ea Ha Hrm) as (t' & -> & Ht' & _). by exists t'.
  - by apply tray_opened_ok.
  - by apply click_proxy_ok.
  - cbn [tray_step]. unfold onClickUpdateMenu.
    destruct (run_update_ok u (set_updateMenu (mkMenuItem "Checking..." false) t)) as (r & t' & -> & Hr & Ht'); [by split|done|].
    destruct r as [[]|e|]; [..|done]; eexists; (split; [reflexivity|]); destruct Ht' as [Hm' Hs']; by split.
  - eexists. split; [reflexivity|]. by apply edit_config_ok.
  - cbn [tray_step]. destruct (tr_app t) as [[|a]|] eqn:Ea; [done| |by exists t]. eexists. split; [reflexivity|]. by destruct Hm.
  - pose proof (check_update_ok u t Ht He) as Hc. cbn [tray_step]. unfold checkForUpdatesWithDesktopNotification.
    destruct (check_update u t) as [[[tag name]|]|e|]; [by eauto..|done].
  - by eexists.
  - eexists. split; [reflexivity|]. by destruct (StopServer_ok t Ht) as [[? ?] _].
Qed.

(** The states the program reaches from its start. *)
Inductive reached : Tray → Prop :=
  | reached_ready i h load dev parse t check : start_ok i → onReady order known_order i h load dev parse = Ok (t, check) → reached t
  | reached_step e t t' : reached t → enabled e t → tray_step order known_order e t = Ok t' → reached t'.

Lemma reached_ok t : reached t → tray_ok t.
Proof.
  induction 1 as [i h load dev parse t check Hi E|e t t' _ IH He E].
  - assert (tray_ok initTray) as H0' by (split; [done|]; split; [by left|done]).
    destruct (start_with_dialog_ok i h initTray H0' eq_refl Hi) as [[_ (t' & Et & Ht')]|[_ Hp]];
      unfold onReady in E; [rewrite Et in E|by rewrite Hp in E]. cbn [mbind outcome_bind] in E.
    by destruct (getConfig load t'); simplify_eq.
  - destruct (tray_step_ok e t IH He) as [[_ Hp]|[_ (t1 & E1 & Ht1)]]; congruence.
Qed.
End facts.

(** ** Properties *)

(** C31. The tray menu follows the server. In every state the program reaches, by any
    sequence of clicks, callbacks and steps of the daemon, each run to its end, the menus
    say "running" and are enabled exactly while there is an application, which can be
    closed, and the submenus show what the program remembers to have shown. An event
    crashes the program exactly when it starts a server whose start fails without a
    configuration, a host or an address for the web server, because closing the rest
    dereferences nil, or when it is a callback of a connection after the server was
    stopped. A start gives the program its application before it has a configuration, and
    the tray opened at that moment crashes the program too. *)
Theorem tray_follows_server `{Multiaddrs} `{!MaddrParts} `{PeerCodec} `{Base58} `{DnsLib} (order : Tunnel → list vploc)
    (order_visits : ∀ t, visits t (order t)) known_order t :
  reached order known_order t →
  match tr_app t with
  | None => stopped_menus (tr_menus t)
  | Some Bare => False
  | Some (Ready a) => closable a ∧ running_menus (tr_menus t)
  end ∧ subs_ok t ∧
  (∀ e, enabled e t → (tray_step order known_order e t = Panic ↔ crashes e t)) ∧
  (∀ h, tray_step order known_order (TrayOpened h) (with_app t (Some Bare)) = Panic).
Proof.
  intros Hr. apply reached_ok in Hr as Ht; [|done]. pose proof Ht as [Hm Hs]. split_and!; [|done| |done].
  - destruct (tr_app t) as [[|a]|]; [done| |done]. destruct Hm. split; [by apply app_ok_closable|done].
  - intros e He. destruct (tray_step_ok order order_visits known_order e t Ht He) as [[Hc Hp]|[Hn (t' & E & _)]]; [done|].
    rewrite E. done.
Qed.

(** A question nobody could answer counts as consent: when the dialog about a new version
    cannot be shown, the version is installed and the server stopped, as after "Do
    Update"; only a cancelled dialog prevents it. *)
Theorem unshown_question_installs_update `{Multiaddrs} `{!MaddrParts} `{PeerCodec} `{Base58} `{DnsLib} order u t version :
  check_update u t = Ok (Some version) → ur_download u = Ok tt →
  (ur_answer u = Canceled → tr_app (run_update order u t).2 = tr_app t) ∧
  (∀ err, ur_answer u = DialogFailed err → ∃ t', tr_app t' = tr_app t ∧ run_update order u t = (ur_cleanup u, StopServer order t')).
Proof.
  intros Hc Hd. unfold run_update. rewrite Hc, Hd. destruct version as [tag name]. split; [intros ->; done|]. intros err ->. cbn.
  eexists. split; [|reflexivity]. done.
Qed.

(** A refresh of the peers' submenu leaves it with the online peers and then the offline
    ones, each sorted by name; only before the first peer is known it stays empty. *)
Theorem peers_menu_lists_peers `{Multiaddrs} `{!MaddrParts} `{PeerCodec} `{Base58} `{DnsLib} known_order h t a t' :
  tr_app t = Some (Ready a) → app_ok a → subs_ok t → refreshPeersSubmenus known_order h t = (Ok tt, t') →
  let l := (λ kp, (kp, IsConnected h (PeerId kp))) <$> known_peers known_order a in
  peersSubmenus (tr_peers t') = peer_items (labels true l) (labels false l) ∨
  (peersSubmenus (tr_peers t') = [] ∧ labels true l = [] ∧ labels false l = []).
Proof.
  intros Ht Ha [Hp _] E l. revert E. unfold refreshPeersSubmenus, the_app. rewrite Ht, connected_peers_ok by done. fold l.
  case_decide as Hd; intros [= <-]; [|by left]. destruct Hd as [<- <-]. destruct Hp as [->|Hp]; [by right|by left].
Qed.

(** ** Witnesses and limits *)

#[local] Existing Instances toy_maddrs toy_parts toy_codec toy_base58 toy_dns.

Definition toy_order (m : gmap string KnownPeer) : list (string * KnownPeer) := map_to_list m.
Definition offline : Host := toy_host (λ _, 0).

(** The listeners of the samples get the address they ask for, which splits. *)
Definition fixed_listen (env : InitEnv) (l : option string) : InitEnv :=
  mkInitEnv (ie_UserAgent env) (ie_AllowEmptyBootstrapPeers env) (ie_info env) (ie_defaults env) (ie_host env) (ie_StringCast env)
    (ie_tcp_free env) (ie_udp_free env) (ie_ID env) (ie_tun env) (ie_mtu env) (ie_listen env) (mkSetupEnv (λ _, true) [] (λ _, l))
    (ie_InterfaceName env) (ie_NewOSConfigurator env) (ie_ToFQDN env) (ie_dev env) (ie_known env) (ie_peers env) (ie_dns1 env) (ie_dns2 env).
Definition tray_start (l : option string) : Start :=
  mkStart (Ok (conf_with ∅)) (fixed_listen (start_env (Some [7; 8])) l) empty_world.

Lemma tray_start_ok l : (∀ a, l = Some a → ∃ hp, SplitHostPort a = Ok hp) → start_ok (tray_start l).
Proof.
  intros Hl. split; [exists []; exact empty_world_owns|]. split.
  - intros bc t1 [= <-]. vm_compute. reflexivity.
  - intros address a Ha. by apply Hl.
Defined.

Definition ready_tray : Tray :=
  match onReady map_order toy_order (tray_start (Some "127.0.0.1:8639")) offline (Fail "") false (λ _, None) with Ok (t, _) => t | _ => initTray end.

Lemma ready_onReady : ∃ check,
  onReady map_order toy_order (tray_start (Some "127.0.0.1:8639")) offline (Fail "") false (λ _, None) = Ok (ready_tray, check).
Proof. unfold ready_tray. destruct (onReady _ _ _ _ _ _ _) as [[t check]|e|] eqn:E; [by exists check|vm_compute in E; discriminate..]. Qed.

Lemma ready_reached : reached map_order toy_order ready_tray.
Proof.
  destruct ready_onReady as [check E]. refine (reached_ready _ _ _ _ _ _ _ _ check _ E).
  apply tray_start_ok. intros a [= <-]. eexists. vm_compute. reflexivity.
Qed.

Lemma busy_crashing : crashing (tray_start None).
Proof.
  unfold crashing. destruct (start_app (tray_start None)) as [r app] eqn:E. vm_compute in E. injection E as <- <-.
  split; [discriminate|]. right. eexists. split; reflexivity.
Qed.

Lemma ready_menus : running_menus (tr_menus ready_tray).
Proof. vm_compute. repeat split. Qed.

Lemma stopped_reached : reached map_order toy_order (StopServer map_order ready_tray).
Proof. refine (reached_step _ _ (ClickStartStop (tray_start None) offline) ready_tray _ ready_reached _ _); [|reflexivity]. apply tray_start_ok. discriminate. Qed.

Lemma tray_follows_server_witness :
  subs_ok ready_tray ∧ running_menus (tr_menus ready_tray) ∧
  tray_step map_order toy_order (ClickRestart (tray_start None) offline) ready_tray = Panic ∧
  tray_step map_order toy_order (ConnectionChanged offline "b") (StopServer map_order ready_tray) = Panic ∧
  tray_step map_order toy_order (ConnectionChanged offline "b") ready_tray ≠ Panic.
Proof.
  destruct (tray_follows_server map_order map_order_visits toy_order ready_tray ready_reached) as (_ & Hsubs & Hcrash & _).
  destruct (tray_follows_server map_order map_order_visits toy_order _ stopped_reached) as (_ & _ & Hstopped & _).
  split; [exact Hsubs|]. split; [exact ready_menus|]. split; [|split].
  - apply Hcrash; [split; [apply ready_menus|]; apply tray_start_ok; discriminate|].
    left. exists (tray_start None). split; [reflexivity|exact busy_crashing].
  - apply Hstopped; [exact I|]. right. vm_compute. reflexivity.
  - intros Hp. apply Hcrash in Hp; [|exact I]. destruct Hp as [(? & ? & _)|Hp]; [discriminate|]. vm_compute in Hp. discriminate.
Defined.

(** A callback that runs after the server was stopped crashes the program. *)
Theorem late_disconnect_crashes id :
  tr_app (StopServer map_order ready_tray) = None ∧
  tray_step map_order toy_order (ConnectionChanged offline id) (StopServer map_order ready_tray) = Panic.
Proof. split; vm_compute; reflexivity. Qed.

(** Opening the tray while the server starts, after [app] was set and before it has a
    configuration, crashes the program. *)
Theorem opening_during_start_crashes :
  tray_step map_order toy_order (TrayOpened offline) (with_app initTray (Some Bare)) = Panic.
Proof. reflexivity. Qed.

(** The mark of the selected proxy goes stale: after a click on the second proxy and a
    change back to the first one through the HTTP interface, the menu still marks the
    second, because the click did not change what the program remembers. *)
Definition exit_peer (id : string) : KnownPeer := mkKnownPeer id "" id "" "" 0 0 true false false true "".
Definition two_exits (current : string) : Application :=
  let c := with_SOCKS5 (conf_with {[ "a" := exit_peer "a"; "b" := exit_peer "b" ]})
             (mkSOCKS5Config true true "" current) in
  with_p2p (starting (mkStore c None 0) empty_world) (app_host (match tr_app ready_tray with Some (Ready a) => a | _ => starting start_store empty_world end)).
Definition online : Host := mkHost (λ _, Connected) (λ _, 0) (λ _, []) [] (λ _, None).
Definition stale_tray : outcome Tray :=
  t ← tray_step map_order toy_order (TrayOpened online) (with_app ready_tray (Some (Ready (two_exits "a"))));
  t ← tray_step map_order toy_order (ClickProxy 1) t;
  t ← tray_step map_order toy_order (DaemonRuns (two_exits "a")) t;
  tray_step map_order toy_order (TrayOpened online) t.
Theorem proxy_mark_goes_stale : ∃ t, stale_tray = Ok t ∧
  (λ a, UsingPeerID (SOCKS5 (app_conf a))) <$> the_app t = Some "a" ∧
  (λ i, (av_PeerID (px_proxy i), px_checked i)) <$> proxySubmenus (tr_proxy t) = [("a", false); ("b", true)].
Proof. eexists. split; [vm_compute; reflexivity|]. split; vm_compute; reflexivity. Qed.
